(* ===== verification/_CoqProject ===== *)
-Q . S2P
Prelude.v
CString.v
Interfaces.v
Capabilities.v
TestModel.v
TestConf.v
TestConfSpec.v
FindTests.v
RunTest.v
Requirements.v
RunTestProps.v
RunVerdict.v
Options.v
Runner.v
RunnerProps.v
OptionProps.v
SuiteRun.v
MainRun.v
TestTypes.v
Verdicts.v
ParseCore.v
ParseElf.v
NoteSpec.v
NotesProps.v
ElfProps.v
ParseWitnesses.v
Talloc.v
TallocHeap.v
TallocTree.v
TallocProps.v
TallocWalk.v
TallocFree.v
TallocMem.v
TallocRefs.v
TallocDrop.v
TallocRefOps.v
TallocUnlink.v
TallocReport.v
TallocRealloc.v
TallocAppend.v
TallocSim.v
TallocMacros.v
Slowfs.v
SysProg.v
Runs.v
SpuIsa.v
SpuCode.v
Threads.v
Mailbox.v
MailboxProps.v
SchedMultiple.v
SchedProps.v
LsShared.v
LsSharedProps.v
SaveRestore.v
SpuTests.v
SpuApps.v
SpuDma.v
DmaProps.v
SpuRuns.v
SpuProps.v
SpuAppProps.v
Syscalls.v
SyscallProps.v
SyscallBench.v
DmaFault.v
Ring.v
RingProps.v
RingMain.v
ConsumeAll.v
Crash.v
Processes.v
ProcessProps.v
Debug.v
Lifetime.v
SelfTest.v
TallocWitnesses.v
TallocRefWitnesses.v
Witnesses.v
