(* ===== verification/Prelude.v ===== *)
(** * Verification of the SPU filesystem test suite

    The suite tests the SPU file system (spufs) of Cell/B.E. Linux.  It has a
    runner (bin/) that finds test programs, runs each under a time limit and
    reports verdicts; the tests and benchmarks themselves (tests/, benchmarks/),
    most of them short C programs around [spu_create] and [spu_run], among them
    a checker of core files; and two libraries (lib/): the hierarchical
    allocator talloc and a slow FUSE file system.  This development models all the C
    code of the repository: the runner, the core file checker, talloc, slowfs and
    the 77 other programs of tests/ and benchmarks/, with the SPE machine code that
    they run.

    ** How the parts interact

    [main] (run-tests.c) calls [find_tests], which makes a [struct test] per
    program ([test_create], test.c); [run_tests] calls [run_test] on each, which
    reads tests.conf ([test_read_config]), asks [test_should_run] (which asks
    [cap_available], capabilities.c), forks the program, collects its output
    and turns its exit status into [test_pass] or [test_fail]; [print_summary]
    counts the results.  A test program reports through its exit status alone,
    which SelfTest.v connects with the verdict of the runner.  The runner and
    slowfs allocate with talloc.

    ** Files

    Shared: Prelude.v (results [res] with undefined behaviour and fuel, byte
    strings, automation), CString.v (the C library functions on memory),
    Interfaces.v (type classes between the components: [CapOS], what the probes
    ask of the kernel; [CapService] with its laws, what the table of
    capabilities promises to the tests).

    Runner: Capabilities.v (bin/capabilities.c), TestModel.v (bin/test.h,
    bin/test.c: the record, the verdicts, the requirements), TestConf.v and
    TestConfSpec.v ([test_read_config] over its 4096 byte buffer, its
    specification over lines and words, and the refinement), FindTests.v
    ([find_tests] against a tree), RunTest.v ([read_test_output],
    [dmesg_check], [run_test]), Options.v (the options with [getopt_long]),
    Runner.v ([run_tests], [print_summary], [main]).  Theorems:
    Requirements.v, RunTestProps.v and Verdicts.v on the pieces of [run_test],
    RunVerdict.v on one run as a whole, RunnerProps.v and OptionProps.v on the
    suite and the command line, SuiteRun.v (the suite ends, on errors too),
    MainRun.v ([main] on a command line and a tree), TestTypes.v (the ranges of
    the fields of a test); Witnesses.v has concrete runs.

    Core files: ParseCore.v and ParseElf.v (tests/11-coredump/parse-core.c),
    NoteSpec.v (notes as data and what the checks decide on them), NotesProps.v
    (the walk over a note section), ElfProps.v (the walk over the segments, for
    both ELF classes), ParseWitnesses.v (a concrete core file).

    Talloc: Talloc.v (lib/talloc/talloc.c, every function, in a monad over the
    heap), TallocHeap.v (execution lemmas, linked lists), TallocTree.v (the
    invariant [tree_ok] and the two list operations), TallocProps.v (the
    invariant [heap_ok] between calls; allocation, stealing), TallocWalk.v
    (walks up and down the hierarchy), TallocFree.v (freeing a subtree),
    TallocMem.v (arrays, strings, runs that go wrong), TallocRefs.v (the
    invariant [refs_ok] on the lists of references), TallocDrop.v (freeing a
    subtree that holds references), TallocRefOps.v (taking and dropping a
    reference), TallocUnlink.v ([talloc_unlink]), TallocReport.v (the reports),
    TallocRealloc.v ([_talloc_realloc]), TallocAppend.v (appending to a string), TallocSim.v (an abstract forest of objects, which the
    heap implements for well-behaved clients), TallocMacros.v (the macros of
    talloc.h; the runner's buffers as talloc blocks), TallocWitnesses.v and
    TallocRefWitnesses.v.  Slowfs.v (lib/slowfs/slowfs.c) is a client of these.

    Test programs: SysProg.v (lib/include/test: calls, answers, the process),
    SpuTests.v (programs of nine directories of tests/ and a benchmark),
    SpuApps.v (programs that put code into local store and run it),
    SpuRuns.v (symbolic execution, loops of attempts), SpuProps.v and
    SpuAppProps.v (what a program accepts), Lifetime.v (a test of two processes,
    as a step relation), SelfTest.v (programs under the runner, among them the
    runner's own tests).  SpuDma.v with
    DmaProps.v (tests/14-dma: the SPE with its MFC, which performs a command at
    any time), DmaFault.v (14-dma/05-schedule-during-fault.c on slowfs and the heap
    of talloc), Debug.v (tests/16-debug: the traced process, the tracing one and the kernel
    between them, as one step relation),
    SyscallBench.v (benchmarks/02-spu-syscall), Crash.v (the programs of
    tests/11-coredump that crash), Processes.v with ProcessProps.v (programs that
    fork a process for each processor: 02-spu_create/07 and 08,
    benchmarks/01-spu_create/02), Ring.v with RingProps.v and RingMain.v
    (benchmarks/04-gang-sched: the ring of SPEs, its invariant, and [main] that sets
    it up).

    Threaded test programs: Runs.v (any step relation: what all runs come to, or
    some run), SpuIsa.v (the instructions of the SPE that the tests
    use, decoded from their words, and runs of the machine), SpuCode.v (the
    [spe_program] arrays, and what they do with the words they read), Threads.v
    (PPE threads and SPEs that take steps in any order; mailboxes and the kernel
    behind interfaces; schedules that are computed),
    Mailbox.v with MailboxProps.v (tests/09-mailbox), SchedMultiple.v with
    SchedProps.v (20-scheduler/sched_multiple.c), LsShared.v with
    LsSharedProps.v (07-lsmap/04-ppe-running.c; 08-reg-file/02-reschedule.c),
    SaveRestore.v (tests/18-save-restore), Syscalls.v with SyscallProps.v
    (tests/10-syscalls: the kernel performs the system call of an SPE),
    ConsumeAll.v (tests/04-context: a process and its child on all SPEs).

    ** State

    The runner's state is the record [test] per test, the table of capabilities
    with its cache, and the static buffer of [dmesg_check]; a loop of system
    calls takes the kernel's answers as a list ([tick]), and what the process
    does is a list of actions.  A pointer into a buffer is an offset; reading
    or writing outside an object is [UB].  Talloc's state is a finite map from
    addresses to chunks with the static variables.  A test program's state is
    the log of its calls, [errno], the counter of utils.h and its output, and
    the kernel is an arbitrary function from logs to answers.  A threaded
    program's state is its threads (trees of accesses to what is shared, with
    labels for the loops), its variables, and for each context the SPE with its
    registers and local store, its mailbox and the words sent and read; the
    kernel is a relation between requests and answers.  A program of many processes
    has a tree of calls for each, the signals that are to be delivered and the calls
    with their process.  A ring has for each SPE its registers and local store, the
    queue of its MFC, and its signal register, which is empty or holds a word.

    ** What the theorems show

    - Runner: [test_read_config] implements the line and word specification;
      [find_tests] finds exactly the tests of a tree, sorted; the output buffer
      never overflows; the loop waits for the test, sends SIGALRM after the
      deadline only, and ends with the verdict of the exit status; the decision
      to run is the conjunction of the requirements and stays right; the fields
      keep their C types.  A test that can be started and exits gets the verdict
      of its configuration, a call that fails before is an error without a
      result, a suite of such tests ends, each with the outcome that its
      configuration, the answers to its requirements, its exit and the kernel log
      at its exit fix ([outcome], [suite]: the table and the log buffer go from one
      test to the next), without --continue it stops at the first failure, and
      [main] on options in any order and a tree runs exactly the tests of the tree
      and returns 0 only when none has failed.
    - Core files: on the image of any list of notes every action computes its
      specification, the walk ends within one turn for each twelve bytes, and
      a program header that is let through lies in the file (without wrapping).
    - Talloc: allocation, stealing, references, resizing, string copies and
      freeing preserve the hierarchy and the lists of references and have the
      stated effect on them; taking a reference and dropping it gives the heap
      back; a free or a resize of what is referenced is refused and changes
      nothing; a context that unlinks a chunk gives up its reference or its place as
      the parent; appending gives the two texts in one block; the walks end within their bound and answer for the hierarchy,
      and a report is the outline of the subtree; array sizes never wrap.  For a
      client that keeps the rules, each call does to the heap what the abstract
      forest says, and none runs into undefined behaviour.
    - Slowfs: the handlers describe one directory; mounting and unmounting
      leave the heap as it was.
    - Test programs: for every kernel, a program passes exactly when the
      kernel's answers are the demanded ones, and its loops end; the two ways to
      fill local store give the same image; the runner's own tests with their
      configuration get the verdicts they are for, for every user.  The two processes of
      Lifetime.v look at the gang in the right order however they are
      scheduled, and hang when the child fails early.
    - Threaded test programs, for every order of the steps: on any kernel and any
      mailbox that keeps the order of its words, the mailbox tests pass only when
      the SPE has read a first part of the messages in order and then the stop
      message, and sched_multiple only when each context has read its own number
      as often as it was sent; on a kernel and a mailbox that work the
      mailbox tests end with success in every run; from every state of a run of
      04-ppe-running that the thread has reached in less than INT_MAX steps it can
      still succeed (its count may overflow after that); a context can be run
      again and again while another thread takes it off its SPE; a byte that
      [main] writes to a pipe comes through to the SPE that reads it.
    - 02-multiprocess passes only when each child has created its context as often
      as it should, and the name of 07-destroy-vs-readdir-race overflows its block;
      03-consume-all can come to its end from every state of a run; once a gang of
      01-dual-ring is set up, every run of its ring ends, with the word incremented
      ITERATIONS times by each SPE; the SPE of 01-syscalls makes ITERATIONS calls;
      every run of 01-single-step passes, the parent with the status of the child,
      on a kernel where PTRACE_SINGLESTEP interrupts [spu_run] within four
      instructions;
      05-schedule-during-fault leaves the heap of talloc as it was and does not
      depend on the result of its run.
    - DMA: [check_pattern] accepts the bytes of the pattern and no others, the
      tests build the image with the address of their buffer, and whenever the
      MFC performs the command, the SPE stops only when the pattern is there.

    ** Bounds and fuel

    [conf_loop] and [token_loop] have fuel one more than the buffer (each turn
    consumes a byte), [find_loop] the number of directories, [notes_loop] one
    turn per note (each moves by a header at least, when the sizes in the headers
    that it comes to have no top bit), [option_loop] one more than the characters of the command line with
    their ends, talloc's walks the number of chunks ([bound]), [_talloc_free] one
    more than the chunks it frees, and [entry_loop] 65536 rounds.  The theorems prove
    these enough; [OutOfFuel] remains where the code itself loops for ever
    ([parse_notes_diverges], [talloc_is_parent_diverges]).  The threaded programs
    need no fuel: their runs are sequences of steps, and their ends are proved by
    measures.

    ** Not modelled

    The shell and Python scripts and the makefiles, [print_cap], which
    is compiled out, and [sigchld_handler], which is empty.
    Code that is not part of the repository is a parameter: the kernel and the
    SPE, libc's allocator, libfuse, the destructors of talloc's clients.  Of
    talloc, the tracking of the null context is modelled without general theorems.  A signal reaches a test
    program only where it waits for one, in [spu_run].  A write to the file "mem"
    of a context succeeds in full or fails (the programs check its length, but
    for 09-mailbox/01), the [calloc] of sched_multiple.c is taken to succeed, and a
    step of a traced process that is not at [spu_run] is one stop. *)

From stdpp Require Export base list gmap strings sorting.
From Stdlib Require Export ZArith Lia Ascii.
From Stdlib Require String.

Declare Scope c_scope.
Delimit Scope c_scope with C.

(** ** Results of C code

    [Ok a] is a normal return, [UB] is undefined behaviour (a read or write
    outside an object, a dereference of NULL), [OutOfFuel] is the model's own
    bound on a loop, which every component proves it never reaches (or states
    when it does, because the code itself loops for ever). *)

Inductive res (A : Type) : Type :=
| Ok (a : A)
| UB
| OutOfFuel.

Arguments Ok {A} a.
Arguments UB {A}.
Arguments OutOfFuel {A}.

#[global] Instance res_ret : MRet res := λ A a, Ok a.
#[global] Instance res_bind : MBind res := λ A B f m,
  match m with Ok a => f a | UB => UB | OutOfFuel => OutOfFuel end.
#[global] Instance res_fmap : FMap res := λ A B f m,
  match m with Ok a => Ok (f a) | UB => UB | OutOfFuel => OutOfFuel end.

#[global] Instance res_eq_dec {A} `{EqDecision A} : EqDecision (res A).
Proof. solve_decision. Defined.

(** An optional value whose absence is undefined behaviour. *)
Definition of_option {A} (o : option A) : res A :=
  match o with Some a => Ok a | None => UB end.

Lemma res_bind_ok {A B} (m : res A) (f : A → res B) b :
  (m ≫= f) = Ok b ↔ ∃ a, m = Ok a ∧ f a = Ok b.
Proof.
  destruct m as [a| |]; cbn; split; (discriminate || naive_solver).
Qed.

Lemma res_bind_assoc {A B C} (m : res A) (f : A → res B) (g : B → res C) :
  ((m ≫= f) ≫= g) = (m ≫= λ a, f a ≫= g).
Proof. by destruct m. Qed.

Lemma res_bind_ret {A} (m : res A) : (m ≫= λ a, Ok a) = m.
Proof. by destruct m. Qed.

Lemma of_option_ok {A} (o : option A) a : of_option o = Ok a ↔ o = Some a.
Proof. destruct o; cbn; naive_solver. Qed.

(** [res_inv H] turns [H : (x ← m; k x) = Ok b] into its steps. *)
Ltac res_inv H :=
  lazymatch type of H with
  | (_ ≫= _) = Ok _ =>
      let a := fresh "a" in let E := fresh "E" in let K := fresh "K" in
      apply res_bind_ok in H; destruct H as (a & E & K); rename K into H;
      res_inv E; res_inv H
  | of_option _ = Ok _ => apply of_option_ok in H
  | _ => idtac
  end.

(** ** Byte strings *)

Abbreviation bytes := (list ascii).

#[global] Instance ascii_eqdec : EqDecision ascii := ascii_dec.

Definition NUL : ascii := Ascii.zero.

(** A C string literal, without its terminating NUL. *)
Definition lit (s : String.string) : bytes := String.list_ascii_of_string s.

Definition newline_c : ascii := "010"%char.

(** No NUL inside: what a C string can hold. *)
Definition nul_free (s : bytes) : Prop := NUL ∉ s.

#[global] Instance nul_free_dec s : Decision (nul_free s).
Proof. unfold nul_free; apply _. Defined.

Lemma nul_free_nil : nul_free [].
Proof. unfold nul_free; set_solver. Qed.

Lemma nul_free_cons c s : nul_free (c :: s) ↔ c ≠ NUL ∧ nul_free s.
Proof. unfold nul_free. rewrite not_elem_of_cons. naive_solver. Qed.

Lemma nul_free_app s t : nul_free (s ++ t) ↔ nul_free s ∧ nul_free t.
Proof. unfold nul_free. rewrite not_elem_of_app. naive_solver. Qed.

(** ** Generic list lemmas *)

Lemma drop_cons_lookup {A} (l : list A) i x r :
  drop i l = x :: r → l !! i = Some x ∧ drop (S i) l = r.
Proof.
  intros H. split.
  - replace i with (i + 0)%nat by lia. by rewrite <- lookup_drop, H.
  - replace (S i) with (i + 1)%nat by lia. by rewrite <- drop_drop, H.
Qed.

Lemma drop_lookup_cons {A} (l : list A) i x :
  l !! i = Some x → drop i l = x :: drop (S i) l.
Proof. intros H. by apply drop_S. Qed.

Lemma drop_app_add {A} (l a b : list A) p :
  drop p l = a ++ b → drop (p + length a) l = b.
Proof. intros H. rewrite <- drop_drop, H. by rewrite drop_app_length. Qed.

Lemma drop_app_insert {A} (l a b : list A) x y p :
  drop p l = a ++ x :: b →
  drop p (<[p + length a:=y]> l) = a ++ y :: b.
Proof.
  intros H. rewrite drop_insert_ge by lia.
  replace (p + length a - p)%nat with (length a + 0)%nat by lia.
  by rewrite H, insert_app_r.
Qed.

Lemma forallb_Forall {A} (f : A → bool) l : forallb f l = true ↔ Forall (λ x, f x = true) l.
Proof. by rewrite List.forallb_forall, Forall_forall; setoid_rewrite list_elem_of_In. Qed.

(** The sum of a list of numbers. *)
Definition zsum (l : list Z) : Z := fold_right Z.add 0%Z l.

Lemma zsum_insert l i x y : l !! i = Some x → zsum (<[i:=y]> l) = (zsum l - x + y)%Z.
Proof.
  revert i. induction l as [|z l IH]; intros [|i] H; [done..| |].
  - injection H as ->. cbn. lia.
  - change (z + zsum (<[i:=y]> l) = z + zsum l - x + y)%Z. rewrite (IH i) by done. lia.
Qed.

Lemma zsum_nonneg l : Forall (λ x, 0 ≤ x)%Z l → (0 ≤ zsum l)%Z.
Proof. unfold zsum. induction 1; cbn; lia. Qed.

(** ** Automation *)

Create HintDb cdb discriminated.
Create Rewrite HintDb len.
#[export] Hint Resolve nul_free_nil : cdb.
#[export] Hint Rewrite @length_app @length_drop @length_take @length_insert @length_replicate
  @length_fmap : len.

(** Decide arithmetic about list lengths. *)
Ltac len := autorewrite with len in *; simpl length in *; lia.

(** [nul_free] of a literal, by computation. *)
Ltac nul_free_lit := apply (bool_decide_unpack _); vm_compute; exact I.
#[export] Hint Extern 1 (nul_free (lit _)) => nul_free_lit : cdb.

(** Case analysis on every [if] and [match] of the goal. *)
Ltac case_all := repeat (case_match; simplify_eq/=; try done).
