(* ===== verification/CString.v ===== *)
(** * The C standard library on memory: integers, characters and strings

    A pointer into an object is modelled by the part of the object that starts
    at it, a [bytes] value: reading past its end is [UB].  The functions are
    the ones the sources call ([strlen], [strcmp], [strncmp], [strchr],
    [strrchr], [strtok], [atoi], [isspace], [isdigit], [isxdigit], the [%d] of
    [printf]), each with the characterisation on NUL-terminated strings that
    the components use. *)

From S2P Require Import Prelude.

Local Open Scope Z_scope.

(** ** Machine integers *)

(** Conversion to an unsigned integer of [w] bits. *)
Definition wrapu (w x : Z) : Z := x mod 2 ^ w.

(** Conversion to a two's complement integer of [w] bits. *)
Definition wraps (w x : Z) : Z := (x + 2 ^ (w - 1)) mod 2 ^ w - 2 ^ (w - 1).

Definition int_min : Z := - 2 ^ 31.
Definition int_max : Z := 2 ^ 31 - 1.

Definition is_int (x : Z) : bool := (int_min <=? x) && (x <=? int_max).

Lemma wrapu_small w x : 0 ≤ x < 2 ^ w → wrapu w x = x.
Proof. apply Z.mod_small. Qed.

Lemma wrapu_range w x : 0 ≤ w → 0 ≤ wrapu w x < 2 ^ w.
Proof. intros. apply Z.mod_pos_bound. by apply Z.pow_pos_nonneg. Qed.

Lemma wraps_small w x : 0 < w → - 2 ^ (w - 1) ≤ x < 2 ^ (w - 1) → wraps w x = x.
Proof.
  intros Hw Hx. unfold wraps.
  assert (2 ^ w = 2 * 2 ^ (w - 1)) as E.
  { replace w with (Z.succ (w - 1)) at 1 by lia. by rewrite Z.pow_succ_r by lia. }
  rewrite E, Z.mod_small by lia. lia.
Qed.

Lemma wraps_range w x : 0 < w → - 2 ^ (w - 1) ≤ wraps w x < 2 ^ (w - 1).
Proof.
  intros Hw. unfold wraps.
  assert (2 ^ w = 2 * 2 ^ (w - 1)) as E.
  { replace w with (Z.succ (w - 1)) at 1 by lia. by rewrite Z.pow_succ_r by lia. }
  rewrite E. pose proof (Z.pow_pos_nonneg 2 (w - 1) ltac:(lia) ltac:(lia)).
  pose proof (Z.mod_pos_bound (x + 2 ^ (w - 1)) (2 * 2 ^ (w - 1)) ltac:(lia)). lia.
Qed.

(** ** Characters *)

Definition code (c : ascii) : Z := Z.of_N (N_of_ascii c).

Definition in_codes (lo hi : Z) (c : ascii) : bool := (lo <=? code c) && (code c <=? hi).

Definition isspace (c : ascii) : bool := (code c =? 32) || in_codes 9 13 c.
Definition isdigit (c : ascii) : bool := in_codes 48 57 c.
Definition isxdigit (c : ascii) : bool := isdigit c || in_codes 65 70 c || in_codes 97 102 c.

Lemma isspace_NUL : isspace NUL = false.
Proof. done. Qed.

Lemma code_inj a b : code a = code b → a = b.
Proof.
  unfold code. intros H%N2Z.inj.
  by rewrite <- (ascii_N_embedding a), <- (ascii_N_embedding b), H.
Qed.

Lemma code_range a : 0 ≤ code a < 256.
Proof. unfold code. pose proof (N_ascii_bounded a). lia. Qed.

(** ** Scanning *)

(** Number of characters before the first one that fails [p]. *)
Fixpoint span (p : ascii → bool) (m : bytes) : res nat :=
  match m with
  | [] => UB
  | c :: r => if p c then S <$> span p r else Ok O
  end.

(** The string a pointer designates: the characters before the first NUL. *)
Fixpoint cstr (m : bytes) : res bytes :=
  match m with
  | [] => UB
  | c :: r => if decide (c = NUL) then Ok [] else cons c <$> cstr r
  end.

Definition strlen (m : bytes) : res nat := length <$> cstr m.

Fixpoint strcmp (s t : bytes) : res Z :=
  match s, t with
  | a :: s', b :: t' =>
      if decide (a = b) then
        if decide (a = NUL) then Ok 0 else strcmp s' t'
      else Ok (code a - code b)
  | _, _ => UB
  end.

Fixpoint strncmp (s t : bytes) (n : nat) {struct n} : res Z :=
  match n with
  | O => Ok 0
  | S n' =>
      match s, t with
      | a :: s', b :: t' =>
          if decide (a = b) then
            if decide (a = NUL) then Ok 0 else strncmp s' t' n'
          else Ok (code a - code b)
      | _, _ => UB
      end
  end.

(** Offset of the first [c]; [c] is not NUL in the sources. *)
Fixpoint strchr (m : bytes) (c : ascii) : res (option nat) :=
  match m with
  | [] => UB
  | a :: r =>
      if decide (a = c) then Ok (Some O)
      else if decide (a = NUL) then Ok None
      else option_map S <$> strchr r c
  end.

(** Offset of the last [c]. *)
Fixpoint strrchr (m : bytes) (c : ascii) : res (option nat) :=
  match m with
  | [] => UB
  | a :: r =>
      if decide (a = NUL) then Ok None
      else o ← strrchr r c;
           Ok (match o with
               | Some i => Some (S i)
               | None => if decide (a = c) then Some O else None
               end)
  end.

(** ** [atoi] *)

Definition digit_val (c : ascii) : Z := code c - 48.

Fixpoint digits (acc : Z) (m : bytes) : res Z :=
  match m with
  | [] => UB
  | c :: r => if isdigit c then digits (10 * acc + digit_val c) r else Ok acc
  end.

(** A value outside [int] is undefined behaviour. *)
Definition atoi (m : bytes) : res Z :=
  n ← span isspace m;
  match drop n m with
  | [] => UB
  | c :: r =>
      v ← (if decide (c = "-"%char) then Z.opp <$> digits 0 r
           else if decide (c = "+"%char) then digits 0 r
           else digits 0 (c :: r));
      if is_int v then Ok v else UB
  end.

(** ** [%d] *)

Definition digit_char (d : Z) : ascii := ascii_of_N (Z.to_N (48 + d)).

Fixpoint dec_go (fuel : nat) (x : Z) (acc : bytes) : bytes :=
  match fuel with
  | O => acc
  | S f =>
      let acc := digit_char (x mod 10) :: acc in
      if x <? 10 then acc else dec_go f (x / 10) acc
  end.

Definition dec_nat (x : Z) : bytes := dec_go (S (Z.to_nat (Z.log2 x))) x [].

Definition fmt_d (x : Z) : bytes :=
  if x <? 0 then "-"%char :: dec_nat (- x) else dec_nat x.

Lemma length_dec_go f x acc d :
  0 ≤ x < 10 ^ Z.of_nat (S d) → (length (dec_go f x acc) ≤ length acc + S d)%nat.
Proof.
  revert x acc d. induction f as [|f IH]; intros x acc d Hx; cbn [dec_go]; [lia|].
  destruct (Z.ltb_spec x 10); [cbn; lia|]. destruct d as [|d]; [change (10 ^ Z.of_nat 1) with 10 in Hx; lia|].
  rewrite Nat2Z.inj_succ, Z.pow_succ_r in Hx by lia.
  etrans; [apply (IH _ _ d)|cbn; lia]. split; [by apply Z.div_pos; lia|by apply Z.div_lt_upper_bound; lia].
Qed.

(** An [int] that is not negative has at most ten digits. *)
Lemma length_fmt_d x : 0 ≤ x < 2 ^ 31 → (length (fmt_d x) ≤ 10)%nat.
Proof.
  intros Hx. unfold fmt_d. rewrite (proj2 (Z.ltb_ge _ _)) by lia. unfold dec_nat.
  etrans; [apply (length_dec_go _ _ _ 9)|done]. change (10 ^ Z.of_nat 10) with 10000000000. lia.
Qed.

(** ** [%x] and [%o] *)

Definition hex_digit (d : Z) : ascii :=
  ascii_of_N (Z.to_N (if d <? 10 then 48 + d else 87 + d)).

(** [%0nx] of a number of at most [n] hexadecimal digits. *)
Fixpoint fmt_hex (n : nat) (x : Z) : bytes :=
  match n with O => [] | S n => fmt_hex n (x / 16) ++ [hex_digit (x mod 16)] end.

(** The digits of a number that is not negative. *)
Fixpoint base_go (b : Z) (fuel : nat) (x : Z) (acc : bytes) : bytes :=
  match fuel with
  | O => acc
  | S f => let acc := hex_digit (x mod b) :: acc in if x <? b then acc else base_go b f (x / b) acc
  end.

Definition fmt_base (b x : Z) : bytes := base_go b (S (Z.to_nat (Z.log2 x))) x [].

(** [%0nd] and the like: zeros after the sign. *)
Definition zero_pad (n : nat) (s : bytes) : bytes :=
  match s with
  | "-"%char :: s => "-"%char :: replicate (n - 1 - length s) "0"%char ++ s
  | _ => replicate (n - length s) "0"%char ++ s
  end.

(** [%-ns]: left-justified in a field of [n] characters. *)
Definition pad_right (n : nat) (s : bytes) : bytes := s ++ replicate (n - length s) " "%char.

(** ** [strtok]

    [m] is the object, [s] the offset where the scan starts (the first
    argument, or the saved pointer); the result is the token, the object with
    the NUL that ends the token, and the new saved pointer. *)
Definition strtok (m : bytes) (s : nat) (delim : bytes) : res (option nat * bytes * nat) :=
  n ← span (λ c, bool_decide (c ∈ delim)) (drop s m);
  let b := (s + n)%nat in
  c ← of_option (m !! b);
  if decide (c = NUL) then Ok (None, m, b)
  else
    k ← span (λ c, negb (bool_decide (c ∈ delim)) && negb (bool_decide (c = NUL))) (drop b m);
    let e := (b + k)%nat in
    c' ← of_option (m !! e);
    if decide (c' = NUL) then Ok (Some b, m, e)
    else Ok (Some b, <[e:=NUL]> m, S e).

(** ** The functions on NUL-terminated strings *)

Lemma span_app p a c r :
  Forall (λ x, p x = true) a → p c = false → span p (a ++ c :: r) = Ok (length a).
Proof. induction 1 as [|x a Hx _ IH]; intros Hc; cbn; [by rewrite Hc|]. by rewrite Hx, IH. Qed.

Lemma span_inv p m n :
  span p m = Ok n →
  ∃ c r, m = take n m ++ c :: r ∧ Forall (λ x, p x = true) (take n m) ∧ p c = false ∧ length (take n m) = n.
Proof.
  revert n. induction m as [|x m IH]; intros n; cbn; [done|].
  destruct (p x) eqn:Hx.
  - destruct (span p m) as [k| |] eqn:E; cbn; try done. intros [= <-].
    destruct (IH k eq_refl) as (c & r & Hm & Hf & Hc & Hl).
    exists c, r. cbn. split_and!; [by rewrite <- Hm|by constructor|done|by rewrite Hl].
  - intros [= <-]. exists x, m. by split_and!.
Qed.

Lemma span_total p m : NUL ∈ m → p NUL = false → ∃ n, span p m = Ok n.
Proof.
  intros Hm Hp. induction m as [|x m IH]; [by apply not_elem_of_nil in Hm|].
  cbn. destruct (p x) eqn:Hx; [|eauto].
  apply elem_of_cons in Hm as [<-|Hm]; [congruence|].
  destruct (IH Hm) as [n ->]. by exists (S n).
Qed.

Lemma cstr_app s r : nul_free s → cstr (s ++ NUL :: r) = Ok s.
Proof.
  induction s as [|c s IH]; cbn; [done|].
  rewrite nul_free_cons. intros [Hc Hs]. rewrite decide_False by done. by rewrite IH.
Qed.

Lemma cstr_inv m s : cstr m = Ok s → nul_free s ∧ ∃ r, m = s ++ NUL :: r.
Proof.
  revert s. induction m as [|c m IH]; intros s; cbn; [done|].
  case_decide as Hc; [intros [= <-]; subst; split; [apply nul_free_nil|by exists m]|].
  destruct (cstr m) as [t| |]; cbn; try done. intros [= <-].
  destruct (IH t eq_refl) as (Ht & r & ->). rewrite nul_free_cons. eauto.
Qed.

Lemma strlen_app s r : nul_free s → strlen (s ++ NUL :: r) = Ok (length s).
Proof. intros Hs. unfold strlen. by rewrite cstr_app. Qed.

(** The order [strcmp] compares strings by. *)
Fixpoint str_cmp (s t : bytes) : Z :=
  match s, t with
  | [], [] => 0
  | [], b :: _ => - code b
  | a :: _, [] => code a
  | a :: s', b :: t' => if decide (a = b) then str_cmp s' t' else code a - code b
  end.

Lemma strcmp_str_cmp s t r r' :
  nul_free s → nul_free t → strcmp (s ++ NUL :: r) (t ++ NUL :: r') = Ok (str_cmp s t).
Proof.
  revert t. induction s as [|a s IH]; intros [|b t]; cbn [app strcmp str_cmp];
    rewrite ?nul_free_cons; intros Hs Ht.
  - done.
  - rewrite decide_False by naive_solver. done.
  - rewrite decide_False by naive_solver. f_equal. change (code NUL) with 0. lia.
  - case_decide as Hab; [|done]. subst. rewrite decide_False by naive_solver. naive_solver.
Qed.

Lemma code_pos c : c ≠ NUL → 0 < code c.
Proof.
  intros Hc. pose proof (code_range c). enough (code c ≠ code NUL) by (change (code NUL) with 0 in *; lia).
  by intros ->%code_inj.
Qed.

Lemma str_cmp_eq s t : nul_free s → nul_free t → str_cmp s t = 0 ↔ s = t.
Proof.
  revert t. induction s as [|a s IH]; intros [|b t]; cbn; rewrite ?nul_free_cons; intros Hs Ht.
  - done.
  - destruct Ht as [Hb%code_pos _]. split; [lia|done].
  - destruct Hs as [Ha%code_pos _]. split; [lia|done].
  - case_decide as Hab.
    + subst. rewrite IH by tauto. naive_solver.
    + split; [intros E; exfalso; apply Hab, code_inj; lia|naive_solver].
Qed.

Lemma str_cmp_antisym s t : str_cmp s t = - str_cmp t s.
Proof.
  revert t. induction s as [|a s IH]; intros [|b t]; cbn; try lia.
  repeat case_decide; subst; try done. lia.
Qed.

Lemma str_cmp_trans s t u :
  nul_free s → nul_free t → nul_free u → str_cmp s t ≤ 0 → str_cmp t u ≤ 0 → str_cmp s u ≤ 0.
Proof.
  revert t u. induction s as [|a s IH]; intros [|b t] [|c u]; cbn; rewrite ?nul_free_cons;
    intros Hs Ht Hu; try lia.
  - pose proof (code_range c). lia.
  - destruct Hs as [Ha%code_pos _]. lia.
  - destruct Ht as [Hb%code_pos _]. lia.
  - destruct Hs as [_ Hs], Ht as [_ Ht], Hu as [_ Hu].
    repeat case_decide; subst; try done; try lia; [by eapply IH|].
    intros. assert (code b = code c) as E by lia. by apply code_inj in E.
Qed.

Lemma strncmp_prefix s t r r' :
  nul_free s → nul_free t →
  ∃ z, strncmp (s ++ NUL :: r) (t ++ r') (length t) = Ok z ∧ (z = 0 ↔ t `prefix_of` s).
Proof.
  revert s. induction t as [|b t IH]; intros s; cbn [app strncmp length]; rewrite ?nul_free_cons.
  { exists 0. split; [done|]. split; [intros; apply prefix_nil|done]. }
  intros Hs [Hb Ht]. destruct s as [|a s]; cbn [app].
  - rewrite decide_False by done. eexists. split; [done|].
    pose proof (code_pos b Hb). change (code NUL) with 0. split; [lia|].
    by intros ?%prefix_nil_inv.
  - apply nul_free_cons in Hs as [Ha Hs]. case_decide as Hab; [subst b; rewrite decide_False by done|].
    + destruct (IH s Hs Ht) as (z & -> & Hz). exists z. split; [done|].
      rewrite Hz. split; [apply prefix_cons|apply prefix_cons_inv_2].
    + eexists. split; [done|]. split.
      * intros H. exfalso. apply Hab, code_inj. lia.
      * intros H%prefix_cons_inv_1. congruence.
Qed.

Lemma strchr_found a c r : c ∉ a → nul_free a → strchr (a ++ c :: r) c = Ok (Some (length a)).
Proof.
  induction a as [|x a IH]; cbn; [by rewrite decide_True by done|].
  rewrite not_elem_of_cons, nul_free_cons. intros [Hx Ha] [Hn Hf].
  rewrite !decide_False by done. by rewrite IH.
Qed.

Lemma strchr_none a c r : c ∉ a → c ≠ NUL → nul_free a → strchr (a ++ NUL :: r) c = Ok None.
Proof.
  intros Ha Hc. revert Ha. induction a as [|x a IH]; cbn.
  { rewrite decide_False by done. by rewrite decide_True by done. }
  rewrite not_elem_of_cons, nul_free_cons. intros [Hx Ha] [Hn Hf].
  rewrite !decide_False by done. by rewrite IH.
Qed.

Lemma strrchr_none a c r : c ∉ a → nul_free a → strrchr (a ++ NUL :: r) c = Ok None.
Proof.
  induction a as [|x a IH]; cbn; [by rewrite decide_True by done|].
  rewrite not_elem_of_cons, nul_free_cons. intros [Hx Ha] [Hn Hf].
  rewrite decide_False by done. rewrite IH by done. cbn. by rewrite decide_False by done.
Qed.

Lemma strrchr_found a c b r :
  c ∉ b → nul_free (a ++ c :: b) →
  strrchr (a ++ c :: b ++ NUL :: r) c = Ok (Some (length a)).
Proof.
  intros Hb. induction a as [|x a IH]; cbn; rewrite nul_free_cons; intros [Hx Hf].
  - rewrite decide_False by done. rewrite strrchr_none by done. cbn. by rewrite decide_True by done.
  - rewrite decide_False by done. by rewrite IH.
Qed.

(** ** Numbers in memory *)

Definition byte_of (x : Z) : ascii := ascii_of_N (Z.to_N x).

(** The bytes of a number, the high one first. *)
Fixpoint be_bytes (n : nat) (x : Z) : bytes :=
  match n with O => [] | S n => be_bytes n (x / 256) ++ [byte_of (x mod 256)] end.

Lemma length_be_bytes n x : length (be_bytes n x) = n.
Proof. revert x. induction n as [|n IH]; intros x; cbn; [done|]. rewrite length_app, IH. cbn. lia. Qed.
