(* ===== verification/Interfaces.v ===== *)
(** * Interfaces between the components and to the operating system

    [CapOS] is what bin/capabilities.c asks of the kernel, [CapService] what
    bin/capabilities.c promises to bin/test.c: a capability, once answered,
    keeps its answer. *)

From S2P Require Import Prelude.

Local Open Scope Z_scope.

(** The calls of bin/capabilities.c on a state [W] of the system: [getuid()],
    [stat(path) == 0], the first byte read from a file ([None]: [open] failed,
    [Some None]: nothing was read) and [system(cmd)], which may change [W]. *)
Class CapOS (W : Type) := {
  os_getuid : W → Z;
  os_stat_ok : W → bytes → bool;
  os_read_byte : W → bytes → option (option ascii);
  os_system : W → bytes → W;
}.

(** A table of capabilities with state [S].  [cap_query name s] answers for the
    string [name] points to; [cap_env s s'] says that the system (not the
    table) went from [s] to [s']. *)
Class CapService (S : Type) := {
  cap_query : bytes → S → res (Z * S);
  cap_env : S → S → Prop;
}.

(** The capability is answered: asking again neither changes the state nor
    depends on the system. *)
Definition cap_settled {S} `{CapService S} (s : S) (name : bytes) (v : Z) : Prop :=
  cap_query name s = Ok (v, s).

Class CapServiceLaws (S : Type) `{CapService S} := {
  cap_query_settles name s v s' :
    cap_query name s = Ok (v, s') → cap_settled s' name v;
  cap_settled_query name v name' s v' s' :
    cap_settled s name v → cap_query name' s = Ok (v', s') → cap_settled s' name v;
  cap_settled_env name v s s' :
    cap_settled s name v → cap_env s s' → cap_settled s' name v;
}.

(** In the states [cap_wf] a query for a string is answered, and only the string
    matters, not the memory after it. *)
Class CapServiceTotal (S : Type) `{CapService S} := {
  cap_wf : S → Prop;
  cap_query_total nm r s : cap_wf s → nul_free nm →
    ∃ v s', cap_query (nm ++ NUL :: r) s = Ok (v, s') ∧ cap_wf s';
  cap_query_string nm r r' s : cap_wf s → nul_free nm →
    cap_query (nm ++ NUL :: r) s = cap_query (nm ++ NUL :: r') s;
}.

(** The files the probes read are not empty. *)
Class CapOSReads (W : Type) `{CapOS W} := os_reads (w : W) p : os_read_byte w p ≠ Some None.

Arguments cap_query {S _} name s.
Arguments cap_env {S _} s s'.
