(* ===== verification/Capabilities.v ===== *)
(** * Capabilities of the machine (bin/capabilities.c)

    The static table [caps] with its cached answers, the probes and the two
    operations [cap_available] and [print_capabilities].  The table is explicit
    state; a probe runs against a state [W] of the system ([CapOS]). *)

From S2P Require Import Prelude CString Interfaces.

Local Open Scope Z_scope.

(** The probe functions, the values of the field [fn]. *)
Inductive cap_fn :=
| Fn_always | Fn_never | Fn_root | Fn_affinity | Fn_hugepages | Fn_sputrace.

#[global] Instance cap_fn_eq_dec : EqDecision cap_fn.
Proof. solve_decision. Defined.

(** [name] is [None] for the NULL of the last entry, which has no [fn]. *)
Record capability := Capability {
  name : option bytes;
  fn : option cap_fn;
  internal : Z;
  value : Z;
  valid : Z;
}.

#[global] Instance capability_eq_dec : EqDecision capability.
Proof. solve_decision. Defined.

Definition caps : list capability := [
  Capability (Some (lit "always")) (Some Fn_always) 1 0 0;
  Capability (Some (lit "never")) (Some Fn_never) 1 0 0;
  Capability (Some (lit "root")) (Some Fn_root) 0 0 0;
  Capability (Some (lit "affinity")) (Some Fn_affinity) 0 0 0;
  Capability (Some (lit "hugepages")) (Some Fn_hugepages) 0 0 0;
  Capability (Some (lit "sputrace")) (Some Fn_sputrace) 0 0 0;
  Capability None None 0 0 0].

Section capabilities.
Context {W : Type} `{CapOS W}.

Implicit Types (w : W) (cap : capability) (tbl : list capability).

Definition cap_always w : res (Z * W) := Ok (1, w).

Definition cap_never w : res (Z * W) := Ok (0, w).

Definition cap_root w : res (Z * W) := Ok (if os_getuid w =? 0 then 1 else 0, w).

Definition cap_affinity w : res (Z * W) :=
  Ok (if os_stat_ok w (lit "/sys/devices/system/node") then 1 else 0, w).

(** When nothing is read, [buf] is never written: comparing it is [UB]. *)
Definition cap_hugepages w : res (Z * W) :=
  match os_read_byte w (lit "/proc/sys/vm/nr_hugepages") with
  | None => Ok (0, w)
  | Some None => UB
  | Some (Some buf) => Ok (if decide (buf = "0"%char) then 0 else 1, w)
  end.

Definition cap_sputrace w : res (Z * W) :=
  '(root, w) ← cap_root w;
  if root =? 0 then Ok (0, w)
  else if os_stat_ok w (lit "/proc/sputrace") then Ok (1, w)
  else
    let w := os_system w (lit "/sbin/modprobe sputrace") in
    Ok (if os_stat_ok w (lit "/proc/sputrace") then 1 else 0, w).

(** The call [cap->fn()]; a NULL [fn] is never called. *)
Definition call_fn (f : option cap_fn) w : res (Z * W) :=
  match f with
  | Some Fn_always => cap_always w
  | Some Fn_never => cap_never w
  | Some Fn_root => cap_root w
  | Some Fn_affinity => cap_affinity w
  | Some Fn_hugepages => cap_hugepages w
  | Some Fn_sputrace => cap_sputrace w
  | None => UB
  end.

Definition __cap_available cap w : res (Z * capability * W) :=
  if valid cap =? 0 then
    '(v, w) ← call_fn (fn cap) w;
    Ok (v, Capability (name cap) (fn cap) (internal cap) v 1, w)
  else Ok (value cap, cap, w).

(** [m] is what the argument [name] points to. *)
Fixpoint cap_available tbl (m : bytes) w : res (Z * list capability * W) :=
  match tbl with
  | [] => UB
  | cap :: rest =>
      match name cap with
      | None => Ok (0, tbl, w)
      | Some nm =>
          d ← strcmp (nm ++ [NUL]) m;
          if d =? 0 then
            '(v, cap, w) ← __cap_available cap w;
            Ok (v, cap :: rest, w)
          else
            '(v, rest, w) ← cap_available rest m w;
            Ok (v, cap :: rest, w)
      end
  end.

(** The text printed, the table and the system. *)
Fixpoint print_capabilities tbl w : res (bytes * list capability * W) :=
  match tbl with
  | [] => UB
  | cap :: rest =>
      match name cap with
      | None => Ok ([], tbl, w)
      | Some nm =>
          if internal cap =? 0 then
            '(v, cap, w) ← __cap_available cap w;
            '(out, rest, w) ← print_capabilities rest w;
            Ok (pad_right 20 nm ++ lit ": " ++ (if v =? 0 then lit "no" else lit "yes")
                  ++ [newline_c] ++ out, cap :: rest, w)
          else
            '(out, rest, w) ← print_capabilities rest w;
            Ok (out, cap :: rest, w)
      end
  end.
End capabilities.

(** ** The cache only grows *)

(** [c'] is [c], or [c] with an answer filled in. *)
Definition cap_le (c c' : capability) : Prop :=
  name c' = name c ∧ fn c' = fn c ∧ internal c' = internal c ∧ (valid c ≠ 0 → c' = c).

#[global] Instance cap_le_preorder : PreOrder cap_le.
Proof.
  split; [by intros c|].
  intros [] [] [] (?&?&?&K1) (?&?&?&K2); cbn in *. split_and!; cbn; try congruence.
  intros Hv. pose proof (K1 Hv) as E. injection E as -> -> -> -> ->. by apply K2.
Qed.

Notation caps_le := (Forall2 cap_le).

Section cache.
Context {W : Type} `{CapOS W}.

Implicit Types (w : W) (cap : capability) (tbl : list capability).

Lemma __cap_available_spec cap w v cap' w' :
  __cap_available cap w = Ok (v, cap', w') →
  cap_le cap cap' ∧ valid cap' ≠ 0 ∧ value cap' = v.
Proof.
  unfold __cap_available. destruct (Z.eqb_spec (valid cap) 0) as [Hv|Hv].
  - intros Hr. res_inv Hr. destruct a as [v0 w0]. injection Hr as <- <- <-.
    by split_and!.
  - intros [= <- <- <-]. by split_and!.
Qed.

Lemma cap_available_le tbl m w v tbl' w' :
  cap_available tbl m w = Ok (v, tbl', w') → caps_le tbl tbl'.
Proof.
  revert v tbl'. induction tbl as [|cap rest IH]; intros v tbl'; cbn; [done|].
  destruct (name cap) as [nm|]; [|by intros [= <- <- <-]].
  intros Hr. res_inv Hr. destruct (a =? 0).
  - res_inv Hr. destruct a0 as [[v0 cap'] w0]. injection Hr as <- <- <-.
    constructor; [|done]. by eapply __cap_available_spec.
  - res_inv Hr. destruct a0 as [[v0 rest'] w0]. injection Hr as <- <- <-.
    constructor; [done|]. by eapply IH.
Qed.

Lemma __cap_available_valid cap w :
  valid cap ≠ 0 → __cap_available cap w = Ok (value cap, cap, w).
Proof. intros Hv. unfold __cap_available. by rewrite (proj2 (Z.eqb_neq _ _) Hv). Qed.

(** A query that leaves the table as it is depends on no system state, and
    gives the same answer from every later table. *)
Lemma cap_available_fixed tbl m w v w' tbl' w2 :
  cap_available tbl m w = Ok (v, tbl, w') → caps_le tbl tbl' →
  cap_available tbl' m w2 = Ok (v, tbl', w2).
Proof.
  intros Hr Hle. revert w v w' Hr.
  induction Hle as [|cap cap' rest rest' Hc Hle IH]; intros w v w' Hr; cbn in *; [done|].
  destruct Hc as (-> & Hf & Hi & Hv).
  destruct (name cap) as [nm|]; [|by injection Hr as <- <-].
  res_inv Hr. rewrite E. cbn. destruct (a =? 0); res_inv Hr.
  - destruct a0 as [[v0 c0] w0]. injection Hr as <- -> <-.
    apply __cap_available_spec in E0 as (_ & Hn & <-).
    rewrite (Hv Hn). by rewrite __cap_available_valid.
  - destruct a0 as [[v0 r0] w0]. injection Hr as <- -> <-.
    erewrite IH by done. done.
Qed.

Lemma cap_available_settled tbl m w v tbl' w' w2 :
  cap_available tbl m w = Ok (v, tbl', w') → cap_available tbl' m w2 = Ok (v, tbl', w2).
Proof.
  revert v tbl'. induction tbl as [|cap rest IH]; intros v tbl' Hr; cbn in *; [done|].
  destruct (name cap) as [nm|] eqn:Hname;
    [|injection Hr as <- <- <-; cbn; by rewrite Hname].
  res_inv Hr. destruct (a =? 0) eqn:Ha; res_inv Hr.
  - destruct a0 as [[v0 c0] w0]. injection Hr as <- <- <-. cbn.
    apply __cap_available_spec in E0 as ((Hnm & _) & Hn & <-).
    rewrite Hnm, Hname, E. cbn. rewrite Ha. by rewrite __cap_available_valid.
  - destruct a0 as [[v0 r0] w0]. injection Hr as <- <- <-. cbn.
    rewrite Hname, E. cbn. rewrite Ha. by rewrite (IH _ _ E0).
Qed.

(** ** The table implements the interface *)

#[global] Instance caps_service : CapService (list capability * W) := {
  cap_query m s := '(v, tbl, w) ← cap_available s.1 m s.2; Ok (v, (tbl, w));
  cap_env s s' := s.1 = s'.1;
}.

Lemma cap_query_inv m (s s' : list capability * W) v :
  cap_query m s = Ok (v, s') → cap_available s.1 m s.2 = Ok (v, s'.1, s'.2).
Proof. cbn. intros Hr. res_inv Hr. destruct a as [[v0 t0] w0]. by injection Hr as <- <-. Qed.

Lemma cap_settled_inv m (s : list capability * W) v w :
  cap_settled s m v ↔ cap_available s.1 m w = Ok (v, s.1, w).
Proof.
  split.
  - intros Hs%cap_query_inv. by eapply cap_available_fixed.
  - intros Hs. unfold cap_settled. cbn.
    erewrite cap_available_fixed by done. cbn. by destruct s.
Qed.

#[global] Instance caps_service_laws : CapServiceLaws (list capability * W).
Proof.
  split.
  - intros m s v s' Hq%cap_query_inv. apply (cap_settled_inv _ _ _ s'.2).
    by eapply cap_available_settled.
  - intros m v m' s v' s' Hs Hq%cap_query_inv. apply (cap_settled_inv _ _ _ s'.2).
    apply (cap_settled_inv _ _ _ s'.2) in Hs. eapply cap_available_fixed; [done|].
    by eapply cap_available_le.
  - intros m v s s' Hs He. apply (cap_settled_inv _ _ _ s'.2).
    cbn in He. rewrite <- He. by apply cap_settled_inv.
Qed.
End cache.

(** ** Properties of the table *)

Section properties.
Context {W : Type} `{CapOS W}.

Implicit Types (w : W) (cap : capability) (tbl : list capability).

Lemma print_capabilities_le tbl w out tbl' w' :
  print_capabilities tbl w = Ok (out, tbl', w') → caps_le tbl tbl'.
Proof.
  revert w out tbl'. induction tbl as [|cap rest IH]; intros w out tbl'; cbn; [done|].
  destruct (name cap) as [nm|]; [|by intros [= <- <- <-]].
  destruct (internal cap =? 0); intros Hr; res_inv Hr.
  - destruct a as [[v c1] w1]. res_inv Hr. destruct a as [[o r1] w2]. injection Hr as <- <- <-.
    constructor; [by eapply __cap_available_spec|by eapply IH].
  - destruct a as [[o r1] w1]. injection Hr as <- <- <-. constructor; [done|by eapply IH].
Qed.

(** The tables reached by further queries and listings, each in a state of the
    machine of its own. *)
Inductive caps_reach : list capability → list capability → Prop :=
| reach_refl tbl : caps_reach tbl tbl
| reach_query tbl tbl' tbl'' m w v w' :
    cap_available tbl m w = Ok (v, tbl', w') → caps_reach tbl' tbl'' → caps_reach tbl tbl''
| reach_print tbl tbl' tbl'' w out w' :
    print_capabilities tbl w = Ok (out, tbl', w') → caps_reach tbl' tbl'' → caps_reach tbl tbl''.

Lemma caps_reach_le tbl tbl' : caps_reach tbl tbl' → caps_le tbl tbl'.
Proof.
  induction 1 as [tbl|tbl t1 t2 m w v w' Hq _ IH|tbl t1 t2 w out w' Hq _ IH]; [done| |].
  - etrans; [by eapply cap_available_le|done].
  - etrans; [by eapply print_capabilities_le|done].
Qed.

(** C33 [cap_available_cached]: an answer of [cap_available] is final: after any
    further queries and listings, in any state of the machine, the same name
    gets the same answer without a change of the table or the machine. *)
Theorem cap_available_cached tbl m w v tbl' w' tbl'' w2 :
  cap_available tbl m w = Ok (v, tbl', w') → caps_reach tbl' tbl'' →
  cap_available tbl'' m w2 = Ok (v, tbl'', w2).
Proof.
  intros Hq Hr%caps_reach_le. eapply cap_available_fixed; [|done].
  by eapply (cap_available_settled _ _ _ _ _ _ w2).
Qed.

Lemma call_fn_system f w v w' :
  call_fn f w = Ok (v, w') →
  w' = w ∨ (f = Some Fn_sputrace ∧ os_getuid w = 0 ∧ os_stat_ok w (lit "/proc/sputrace") = false ∧
            w' = os_system w (lit "/sbin/modprobe sputrace")).
Proof.
  destruct f as [[]|]; cbn; try (intros [= <- <-]; by left).
  - unfold cap_hugepages. destruct (os_read_byte _ _) as [[c|]|]; intros [= <- <-] || done; by left.
  - unfold cap_sputrace. cbn. destruct (Z.eqb_spec (os_getuid w) 0) as [Hu|Hu]; cbn.
    + destruct (os_stat_ok w _) eqn:Hs; intros [= <- <-]; [by left|by right].
    + intros [= <- <-]. by left.
Qed.

(** [cap_available_modprobe]: the only effect of a query on the machine is
    that root may load the sputrace module, when it is not there yet; nothing is
    loaded for another user, and nothing twice (the answer is cached). *)
Theorem cap_available_modprobe tbl m w v tbl' w' :
  cap_available tbl m w = Ok (v, tbl', w') →
  w' = w ∨
  (os_getuid w = 0 ∧ os_stat_ok w (lit "/proc/sputrace") = false ∧
   w' = os_system w (lit "/sbin/modprobe sputrace") ∧ tbl' ≠ tbl).
Proof.
  revert tbl'. induction tbl as [|cap rest IH]; intros tbl'; cbn; [done|].
  destruct (name cap) as [nm|]; [|intros [= <- <- <-]; by left].
  intros Hr. res_inv Hr. destruct (a =? 0); res_inv Hr.
  - destruct a0 as [[v0 c0] w0]. injection Hr as <- <- <-. unfold __cap_available in E0.
    destruct (Z.eqb_spec (valid cap) 0) as [Hv|Hv]; [|injection E0 as <- <- <-; by left].
    res_inv E0. destruct a0 as [v1 w1]. injection E0 as <- <- <-.
    apply call_fn_system in E1 as [->|(_ & ? & ? & ->)]; [by left|right].
    split_and!; try done. intros [= Hc]. rewrite <- Hc in Hv. done.
  - destruct a0 as [[v0 r0] w0]. injection Hr as <- <- <-.
    destruct (IH _ E0) as [->|(? & ? & ? & ?)]; [by left|right]. split_and!; try done. naive_solver.
Qed.

(** What the names of the table stand for. *)
Definition probe_of (n : bytes) : option cap_fn :=
  if decide (n = lit "always") then Some Fn_always
  else if decide (n = lit "never") then Some Fn_never
  else if decide (n = lit "root") then Some Fn_root
  else if decide (n = lit "affinity") then Some Fn_affinity
  else if decide (n = lit "hugepages") then Some Fn_hugepages
  else if decide (n = lit "sputrace") then Some Fn_sputrace
  else None.

Lemma strcmp_literal s n r :
  nul_free (lit s) → nul_free n →
  ∃ z, strcmp (lit s ++ [NUL]) (n ++ NUL :: r) = Ok z ∧ (z =? 0) = bool_decide (n = lit s).
Proof.
  intros Hs Hn. exists (str_cmp (lit s) n). split; [by apply strcmp_str_cmp|].
  apply eq_bool_prop_intro. rewrite bool_decide_spec, Is_true_true, Z.eqb_eq, str_cmp_eq by done.
  naive_solver.
Qed.

(** [cap_available_first]: the first query of a name runs the probe the name
    stands for and gives its answer; a name that is not in the table gets 0 with
    no probe at all. *)
Theorem cap_available_first n r w :
  nul_free n →
  match probe_of n with
  | Some f => ∀ v w', call_fn (Some f) w = Ok (v, w') →
                ∃ tbl', cap_available caps (n ++ NUL :: r) w = Ok (v, tbl', w')
  | None => cap_available caps (n ++ NUL :: r) w = Ok (0, caps, w)
  end.
Proof.
  intros Hn. unfold probe_of, caps.
  repeat match goal with
  | |- context [decide (n = lit ?s)] =>
      let z := fresh "z" in let Hz := fresh "Hz" in let Hb := fresh "Hb" in
      let Hd := fresh "Hd" in
      destruct (strcmp_literal s n r ltac:(nul_free_lit) Hn) as (z & Hz & Hb);
      destruct (decide (n = lit s)) as [Hd|Hd];
        [rewrite bool_decide_true in Hb by done|rewrite bool_decide_false in Hb by done]
  end; try (intros v w' Hf);
  repeat (cbn [cap_available name mbind res_bind];
    match goal with
    | Hz : strcmp ?a ?b = Ok ?z |- context [strcmp ?a ?b] => rewrite Hz; cbn [mbind res_bind]
    | Hb : (?z =? 0) = _ |- context [?z =? 0] => rewrite Hb
    end); cbn [cap_available name mbind res_bind]; try done;
  unfold __cap_available; cbn [valid fn Z.eqb]; rewrite Hf; cbn; by eexists.
Qed.
End properties.

(** ** Every query for a string is answered *)

Section total.
Context {W : Type} `{CapOSReads W}.

(** The names are strings, every entry but the last has a probe. *)
Definition caps_wf (tbl : list capability) : Prop :=
  Forall (λ c, ∀ n, name c = Some n → nul_free n ∧ is_Some (fn c)) tbl ∧ Exists (λ c, name c = None) tbl.

Lemma caps_wf_caps : caps_wf caps.
Proof.
  split; [|apply Exists_exists; exists (Capability None None 0 0 0); split; [|done];
           unfold caps; rewrite !elem_of_cons; tauto].
  apply Forall_forall. unfold caps. intros c. rewrite !elem_of_cons, elem_of_nil.
  intros [->|[->|[->|[->|[->|[->|[->|[]]]]]]]] n; cbn; intros [= <-];
    (split; [nul_free_lit|by eexists]).
Qed.

Lemma caps_wf_le tbl tbl' : caps_wf tbl → caps_le tbl tbl' → caps_wf tbl'.
Proof.
  intros [Hn He] Hle. split.
  - clear He. induction Hle as [|c c' r r' (Ec & Ef & _) _ IH]; [constructor|].
    apply Forall_cons in Hn as [Hc Hr]. constructor; [by rewrite Ec, Ef|by apply IH].
  - clear Hn. induction Hle as [|c c' r r' (Ec & _) _ IH]; [done|].
    apply Exists_cons in He as [He|He]; [left; by rewrite Ec|right; by apply IH].
Qed.

Lemma call_fn_total f w : is_Some f → ∃ v w', call_fn f w = Ok (v, w').
Proof.
  intros [[] ->]; cbn; try by eexists _, _.
  - unfold cap_hugepages. destruct (os_read_byte w _) as [[c|]|] eqn:E; [by eexists _, _| |by eexists _, _].
    by apply os_reads in E.
  - unfold cap_sputrace. cbn. by repeat case_match; eexists _, _.
Qed.

Lemma __cap_available_total cap w : is_Some (fn cap) → ∃ v cap' w', __cap_available cap w = Ok (v, cap', w').
Proof.
  intros Hf. unfold __cap_available. destruct (valid cap =? 0); [|by eexists _, _, _].
  destruct (call_fn_total _ w Hf) as (v & w' & ->). by eexists _, _, _.
Qed.

Lemma cap_available_total tbl nm r w :
  caps_wf tbl → nul_free nm → ∃ v tbl' w', cap_available tbl (nm ++ NUL :: r) w = Ok (v, tbl', w').
Proof.
  intros [Hn He] Hnm. induction tbl as [|c tbl IH]; [by apply Exists_nil in He|].
  cbn. destruct (name c) as [cn|] eqn:Ec; [|by eexists _, _, _].
  apply Forall_cons in Hn as [Hc Hr]. destruct (Hc cn Ec) as [Hcn Hf].
  rewrite strcmp_str_cmp by done. cbn [mbind res_bind]. destruct (str_cmp cn nm =? 0).
  - destruct (__cap_available_total c w Hf) as (v & c' & w' & ->). by eexists _, _, _.
  - apply Exists_cons in He as [He|He]; [congruence|].
    destruct (IH Hr He) as (v & tbl' & w' & ->). by eexists _, _, _.
Qed.

Lemma cap_available_string tbl nm r r' w :
  caps_wf tbl → nul_free nm → cap_available tbl (nm ++ NUL :: r) w = cap_available tbl (nm ++ NUL :: r') w.
Proof.
  intros [Hn _] Hnm. induction tbl as [|c tbl IH]; [done|].
  cbn. destruct (name c) as [cn|] eqn:Ec; [|done].
  apply Forall_cons in Hn as [Hc Hr]. destruct (Hc cn Ec) as [Hcn _].
  rewrite !strcmp_str_cmp by done. cbn [mbind res_bind]. by rewrite IH.
Qed.

#[global] Instance caps_service_total : CapServiceTotal (list capability * W).
Proof.
  refine {| cap_wf s := caps_wf s.1 |}.
  - intros nm r s Hw Hn. destruct (cap_available_total s.1 nm r s.2 Hw Hn) as (v & tbl' & w' & E).
    exists v, (tbl', w'). cbn [cap_query caps_service]. rewrite E. cbn. split; [done|].
    eapply caps_wf_le; [done|]. by eapply cap_available_le.
  - intros nm r r' s Hw Hn. cbn [cap_query caps_service]. by rewrite (cap_available_string _ _ r r').
Defined.
End total.
