(* ===== verification/TestModel.v ===== *)
(** * The data of one test and its verdicts (bin/test.h, bin/test.c)

    [struct test] as the record [test], its creation, the three verdicts
    ([test_pass], [test_fail], [test_skip]) with the text they print, and the
    requirement check [test_should_run].  A required capability holds the
    address of its name: an offset into the line buffer of [test_read_config],
    whose memory is an explicit argument of whoever dereferences it. *)

From S2P Require Import Prelude CString Interfaces.

Local Open Scope Z_scope.

Inductive test_type := TEST_TYPE_TEST | TEST_TYPE_BENCHMARK.

Inductive test_result := TEST_NOTRUN | TEST_PASSED | TEST_FAILED | TEST_SKIPPED.

#[global] Instance test_type_eq_dec : EqDecision test_type.
Proof. solve_decision. Defined.
#[global] Instance test_result_eq_dec : EqDecision test_result.
Proof. solve_decision. Defined.

(** [cap] is the address of the name, an offset into the line buffer. *)
Record required_cap := RequiredCap { cap : nat; invert : Z }.

(** [pid] is [None] while the field is not initialised. *)
Record test_run := TestRun { stdout_fd : Z; pid : option Z }.

(** [buf] is NULL or a block of [bufsize] bytes. *)
Record test_output := TestOutput { buf : option bytes; len : Z; bufsize : Z }.

Record test := Test {
  type : test_type;
  path : bytes;
  expected_rc : Z;
  expected_sig : Z;
  timeout : Z;
  disabled : Z;
  ignored : Z;
  caps_required : list required_cap;
  n_caps_required : nat;
  run : test_run;
  output : test_output;
  result : test_result;
}.

#[global] Instance required_cap_eq_dec : EqDecision required_cap.
Proof. solve_decision. Defined.
#[global] Instance test_run_eq_dec : EqDecision test_run.
Proof. solve_decision. Defined.
#[global] Instance test_output_eq_dec : EqDecision test_output.
Proof. solve_decision. Defined.
#[global] Instance test_eq_dec : EqDecision test.
Proof. solve_decision. Defined.

(** ** Field assignments *)

Definition set_expected_rc v t := Test (type t) (path t) v (expected_sig t) (timeout t)
  (disabled t) (ignored t) (caps_required t) (n_caps_required t) (run t) (output t) (result t).
Definition set_expected_sig v t := Test (type t) (path t) (expected_rc t) v (timeout t)
  (disabled t) (ignored t) (caps_required t) (n_caps_required t) (run t) (output t) (result t).
Definition set_timeout v t := Test (type t) (path t) (expected_rc t) (expected_sig t) v
  (disabled t) (ignored t) (caps_required t) (n_caps_required t) (run t) (output t) (result t).
Definition set_disabled v t := Test (type t) (path t) (expected_rc t) (expected_sig t) (timeout t)
  v (ignored t) (caps_required t) (n_caps_required t) (run t) (output t) (result t).
Definition set_ignored v t := Test (type t) (path t) (expected_rc t) (expected_sig t) (timeout t)
  (disabled t) v (caps_required t) (n_caps_required t) (run t) (output t) (result t).
Definition set_caps v n t := Test (type t) (path t) (expected_rc t) (expected_sig t) (timeout t)
  (disabled t) (ignored t) v n (run t) (output t) (result t).
Definition set_run v t := Test (type t) (path t) (expected_rc t) (expected_sig t) (timeout t)
  (disabled t) (ignored t) (caps_required t) (n_caps_required t) v (output t) (result t).
Definition set_output v t := Test (type t) (path t) (expected_rc t) (expected_sig t) (timeout t)
  (disabled t) (ignored t) (caps_required t) (n_caps_required t) (run t) v (result t).
Definition set_result v t := Test (type t) (path t) (expected_rc t) (expected_sig t) (timeout t)
  (disabled t) (ignored t) (caps_required t) (n_caps_required t) (run t) (output t) v.

(** ** Creation *)

Definition DEFAULT_TEST_TIMEOUT : Z := 10.
Definition DEFAULT_BENCHMARK_TIMEOUT : Z := 60.

Definition test_create (p : bytes) (ty : test_type) : test :=
  {| type := ty; path := p; expected_rc := 0; expected_sig := 0;
     timeout := match ty with
                | TEST_TYPE_BENCHMARK => DEFAULT_BENCHMARK_TIMEOUT
                | TEST_TYPE_TEST => DEFAULT_TEST_TIMEOUT
                end;
     disabled := 0; ignored := 0; caps_required := []; n_caps_required := 0;
     run := TestRun (-1) None; output := TestOutput None 0 0;
     result := TEST_NOTRUN |}.

(** [talloc_realloc] to one more element, then the assignment. *)
Definition test_add_required_cap (t : test) (c : nat) (inv : Z) : test :=
  let n := n_caps_required t in
  set_caps (<[n:=RequiredCap c inv]> (resize (S n) (RequiredCap 0 0) (caps_required t))) (S n) t.

(** ** Verdicts: the new state and the text printed *)

Definition test_header (t : test) : bytes := pad_right 50 (path t).

(** [strnlen]. *)
Fixpoint strnlen (m : bytes) (n : nat) {struct n} : res nat :=
  match n with
  | O => Ok O
  | S n' =>
      match m with
      | [] => UB
      | c :: r => if decide (c = NUL) then Ok O else S <$> strnlen r n'
      end
  end.

(** The loop that cuts the trailing white space, from offset [p] down. *)
Fixpoint trim_end (m : bytes) (p : nat) : res bytes :=
  match m !! p with
  | None => UB
  | Some c =>
      if isspace c then
        match p with
        | O => UB
        | S p' => trim_end (<[p:=NUL]> m) p'
        end
      else Ok m
  end.

(** The output of a benchmark as [test_pass] prints it. *)
Definition result_time (o : test_output) : res bytes :=
  match buf o with
  | None => UB
  | Some b =>
      n ← strnlen b (Z.to_nat (len o + 1));
      let m := take n b ++ [NUL] in
      k ← span isspace m;
      let stop := (k + Z.to_nat (len o))%nat in
      if decide (stop < length m)%nat then
        let m := <[stop:=NUL]> m in
        if decide (stop = 0%nat) then UB
        else
          m ← trim_end m (stop - 1);
          cstr (drop k m)
      else UB
  end.

Definition test_pass (t : test) : res (test * bytes) :=
  let t := set_result TEST_PASSED t in
  match type t with
  | TEST_TYPE_TEST => Ok (t, lit "PASS" ++ [newline_c])
  | TEST_TYPE_BENCHMARK => s ← result_time (output t); Ok (t, s ++ [newline_c])
  end.

(** [fwrite] of the first [n] bytes of a buffer. *)
Definition fwrite (b : option bytes) (n : Z) : res bytes :=
  match b with
  | None => UB
  | Some m => if decide (Z.to_nat n ≤ length m)%nat then Ok (take (Z.to_nat n) m) else UB
  end.

Definition test_fail (t : test) (msg : bytes) : res (test * bytes) :=
  let t := set_result TEST_FAILED t in
  let head := lit "FAIL    (" ++ msg ++ lit ")" ++ [newline_c] in
  if 0 <? len (output t) then
    o ← fwrite (buf (output t)) (len (output t));
    Ok (t, head ++ lit "test output:" ++ [newline_c] ++ o)
  else Ok (t, head).

Definition test_skip (t : test) (msg : bytes) : test * bytes :=
  (set_result TEST_SKIPPED t, lit "SKIPPED (" ++ msg ++ lit ")" ++ [newline_c]).

(** ** Requirements *)

Section should_run.
Context {S : Type} `{CapService S}.

(** The loop over the required capabilities from index [x]; [mem] is what the
    line buffer's memory holds when the names are read. *)
Fixpoint check_caps (mem : bytes) (rs : list required_cap) (s : S) (t : test)
    : res (bool * test * S * bytes) :=
  match rs with
  | [] => Ok (true, t, s, [])
  | r :: rs =>
      '(v, s) ← cap_query (drop (cap r) mem) s;
      if Bool.eqb (negb (v =? 0)) (negb (invert r =? 0)) then
        nm ← cstr (drop (cap r) mem);
        let '(t, out) := test_skip t
          (lit "requires " ++ (if invert r =? 0 then [] else lit "!") ++ nm) in
        Ok (false, set_result TEST_SKIPPED t, s, out)
      else check_caps mem rs s t
  end.

(** [x < test->n_caps_required] bounds the loop; reading past the array is [UB]. *)
Definition test_should_run (mem : bytes) (s : S) (t : test) : res (bool * test * S * bytes) :=
  if negb (disabled t =? 0) then
    let '(t, out) := test_skip t (lit "disabled") in Ok (false, t, s, out)
  else if decide (n_caps_required t ≤ length (caps_required t))%nat then
    check_caps mem (take (n_caps_required t) (caps_required t)) s t
  else UB.
End should_run.
