(* ===== verification/TestConf.v ===== *)
(** * The tests.conf parser (bin/test.c)

    [test_read_config] on the line buffer as the code sees it: 4096 bytes of
    stack whose old contents are an argument, overwritten by what [read]
    returns, cut in place by [strtok].  TestConfSpec.v has the specification and the
    proof that the buffer loop implements it. *)

From S2P Require Import Prelude CString Interfaces TestModel.

Local Open Scope Z_scope.

(** ** Tokens *)

(** A literal argument: the string and its NUL. *)
Definition cl (s : String.string) : bytes := lit s ++ [NUL].

(** [!strcmp(a, b)]. *)
Definition streq (m : bytes) (s : String.string) : res bool :=
  d ← strcmp m (cl s); Ok (d =? 0).

(** [!strncmp(a, b, strlen(b))]. *)
Definition starts (m : bytes) (s : String.string) : res bool :=
  d ← strncmp m (cl s) (length (lit s)); Ok (d =? 0).

(** [Some v]: the offset of the value from the start of [str]. *)
Definition is_param_str (str : bytes) (param : String.string) : res (option nat) :=
  let l := length (lit param) in
  b ← starts str param;
  if negb b then Ok None
  else
    c ← of_option (str !! l);
    if decide (c = "="%char) then Ok (Some (l + 1)%nat) else Ok None.

(** [m] is the line buffer and [tok] the offset of the token; the result is
    the test and what is printed on [stderr]. *)
Definition handle_testconf_token (t : test) (m : bytes) (tok : nat) : res (test * bytes) :=
  let s := drop tok m in
  b ← streq s "disabled";
  if b : bool then Ok (set_disabled 1 t, []) else
  b ← streq s "ignored";
  if b : bool then Ok (set_ignored 1 t, []) else
  o ← is_param_str s "timeout";
  if o is Some v then n ← atoi (drop v s); Ok (set_timeout n t, []) else
  o ← is_param_str s "expected_rc";
  if o is Some v then n ← atoi (drop v s); Ok (set_expected_rc n t, []) else
  o ← is_param_str s "signal";
  if o is Some v then n ← atoi (drop v s); Ok (set_expected_sig n t, []) else
  b ← starts s "cap_";
  if b : bool then Ok (test_add_required_cap t (tok + 4) 0, []) else
  b ← starts s "!cap_";
  if b : bool then Ok (test_add_required_cap t (tok + 5) 1, []) else
  w ← cstr s;
  Ok (t, lit "Unknown test parameter " ++ w ++ [newline_c]).

Definition conf_delim : bytes := [" "%char; "009"%char].

(** [for (tok = strtok(c, delim); tok; tok = strtok(NULL, delim))] from the
    saved pointer [s]. *)
Fixpoint token_loop (fuel : nat) (t : test) (m : bytes) (s : nat) (err : bytes)
    : res (test * bytes * bytes) :=
  match fuel with
  | O => OutOfFuel
  | S fuel =>
      '(tok, m, s) ← strtok m s conf_delim;
      match tok with
      | None => Ok (t, m, err)
      | Some p =>
          '(t, e) ← handle_testconf_token t m p;
          token_loop fuel t m s (err ++ e)
      end
  end.

(** ** Lines *)

(** The comparisons of one line: the offset after the pattern and whether the
    line is for this test.  [fpat] is the string [filepattern]. *)
Definition line_match (fpat : bytes) (m : bytes) (c : nat) : res (nat * bool) :=
  ch ← of_option (m !! c);
  if decide (ch = "#"%char) then Ok (c, false)
  else
    d ← strncmp (drop c m) (fpat ++ [NUL]) (length fpat);
    if d =? 0 then Ok (c + length fpat, true)%nat
    else
      d ← strncmp (drop c m) (cl "*:") 2;
      if d =? 0 then Ok (c + 2, true)%nat else Ok (c, false).

(** [for (c = buf; c && *c;)]: the test, the buffer and [stderr]. *)
Fixpoint conf_loop (fuel : nat) (fpat : bytes) (t : test) (m : bytes) (c : nat) (err : bytes)
    : res (test * bytes * bytes) :=
  match fuel with
  | O => OutOfFuel
  | S fuel =>
      ch ← of_option (m !! c);
      if decide (ch = NUL) then Ok (t, m, err)
      else
        n ← span isspace (drop c m);
        let c := (c + n)%nat in
        o ← strchr (drop c m) newline_c;
        let newline := (λ i, c + i)%nat <$> o in
        '(c, mtch) ← line_match fpat m c;
        '(t, m, err) ←
          (if mtch : bool then
             let m := match newline with Some i => <[i:=NUL]> m | None => m end in
             token_loop (S (length m)) t m c err
           else Ok (t, m, err));
        match newline with
        | None => Ok (t, m, err)
        | Some i => conf_loop fuel fpat t m (S i) err
        end
  end.

Definition CONF_BUF : nat := 4096.

(** The buffer after [read]: the first bytes of the file over the old contents
    of the stack. *)
Definition conf_buffer (stack content : bytes) : bytes :=
  take CONF_BUF content ++ drop (length (take CONF_BUF content)) stack.

Section read_config.
(** What [open] and [read] give for a path: [None] when [open] fails,
    [Some None] when [read] fails. *)
Context (read_file : bytes → option (option bytes)).

(** The offset of the last slash splits [path] into [dir] and [file]; without
    one, or without a configuration, the test keeps its defaults.  [stack] is
    the memory of [buf] before the call; the result has its memory after. *)
Definition test_read_config (stack : bytes) (t : test) : res (test * bytes * bytes) :=
  o ← strrchr (path t ++ [NUL]) "/"%char;
  match o with
  | None => Ok (t, stack, [])
  | Some i =>
      let dir := take i (path t) in
      let file := drop (S i) (path t) in
      match read_file (dir ++ lit "/tests.conf") with
      | None => Ok (t, stack, [])
      | Some content =>
          let m := match content with Some b => conf_buffer stack b | None => stack end in
          let fpat := file ++ lit ":" in
          conf_loop (S (length m)) fpat t m 0 []
      end
  end.
End read_config.
