(* ===== verification/TestConfSpec.v ===== *)
(** * Specification of the tests.conf parser and its refinement

    [conf_words file s] is the list of option words of the text [s] that apply
    to the test [file]; [conf_spec] folds [apply_word] over it.  The buffer
    loop of bin/test.c computes the same configuration ([conf_rep]). *)

From S2P Require Import Prelude CString Interfaces TestModel TestConf.

Local Open Scope Z_scope.

(** ** Lines and words *)

Fixpoint split_on (p : ascii → bool) (s : bytes) : list bytes :=
  match s with
  | [] => [[]]
  | a :: s =>
      if p a then [] :: split_on p s
      else match split_on p s with
           | l :: ls => (a :: l) :: ls
           | [] => [[a]]
           end
  end.

Fixpoint drop_while (p : ascii → bool) (s : bytes) : bytes :=
  match s with
  | [] => []
  | a :: r => if p a then drop_while p r else s
  end.

Definition is_newline (c : ascii) : bool := bool_decide (c = newline_c).
Definition is_delim (c : ascii) : bool := bool_decide (c ∈ conf_delim).

Definition lines : bytes → list bytes := split_on is_newline.
Definition words (s : bytes) : list bytes := filter (λ w, w ≠ []) (split_on is_delim s).

Definition strip_prefix (p s : bytes) : option bytes :=
  if decide (p `prefix_of` s) then Some (drop (length p) s) else None.

(** The words of one line that apply to [file]: comments are skipped, a line
    is for the test it names or, with a star, for all of them. *)
Definition line_words (file line : bytes) : list bytes :=
  let l := drop_while isspace line in
  if decide (head l = Some "#"%char) then []
  else match strip_prefix (file ++ lit ":") l with
       | Some r => words r
       | None => match strip_prefix (lit "*:") l with
                 | Some r => words r
                 | None => []
                 end
       end.

Definition conf_words (file s : bytes) : list bytes := lines s ≫= line_words file.

(** ** The configuration a list of words describes *)

Record conf := Conf {
  c_rc : Z; c_sig : Z; c_timeout : Z; c_disabled : Z; c_ignored : Z;
  c_caps : list (bytes * Z);
  c_err : bytes;
}.

Definition conf_number (v : bytes) (f : Z → conf) : res conf :=
  n ← atoi (v ++ [NUL]); Ok (f n).

Definition apply_word (c : conf) (w : bytes) : res conf :=
  let '(Conf rc sg tm ds ig cs er) := c in
  if decide (w = lit "disabled") then Ok (Conf rc sg tm 1 ig cs er)
  else if decide (w = lit "ignored") then Ok (Conf rc sg tm ds 1 cs er)
  else if strip_prefix (lit "timeout=") w is Some v then
    conf_number v (λ n, Conf rc sg n ds ig cs er)
  else if strip_prefix (lit "expected_rc=") w is Some v then
    conf_number v (λ n, Conf n sg tm ds ig cs er)
  else if strip_prefix (lit "signal=") w is Some v then
    conf_number v (λ n, Conf rc n tm ds ig cs er)
  else if strip_prefix (lit "cap_") w is Some v then
    Ok (Conf rc sg tm ds ig (cs ++ [(v, 0)]) er)
  else if strip_prefix (lit "!cap_") w is Some v then
    Ok (Conf rc sg tm ds ig (cs ++ [(v, 1)]) er)
  else Ok (Conf rc sg tm ds ig cs (er ++ lit "Unknown test parameter " ++ w ++ [newline_c])).

Fixpoint apply_words (c : conf) (ws : list bytes) : res conf :=
  match ws with
  | [] => Ok c
  | w :: ws => c ← apply_word c w; apply_words c ws
  end.

Definition conf_spec (file s : bytes) (c : conf) : res conf := apply_words c (conf_words file s).

(** ** Representation

    The test [t] with line buffer [m] holds [c]; every capability name is a
    NUL-terminated string of the buffer that ends before [b]. *)

Definition cap_rep (b : nat) (m : bytes) (r : required_cap) (p : bytes * Z) : Prop :=
  invert r = p.2 ∧ nul_free p.1 ∧ (cap r + length p.1 < b)%nat ∧
  ∃ rest, drop (cap r) m = p.1 ++ NUL :: rest.

Record conf_rep (b : nat) (m : bytes) (t : test) (c : conf) : Prop := {
  cr_rc : expected_rc t = c_rc c;
  cr_sig : expected_sig t = c_sig c;
  cr_timeout : timeout t = c_timeout c;
  cr_disabled : disabled t = c_disabled c;
  cr_ignored : ignored t = c_ignored c;
  cr_n : n_caps_required t = length (caps_required t);
  cr_caps : Forall2 (cap_rep b m) (caps_required t) (c_caps c);
}.

(** Nothing but the configuration changes. *)
Definition same_frame (t t' : test) : Prop :=
  type t' = type t ∧ path t' = path t ∧ run t' = run t ∧ output t' = output t ∧ result t' = result t.

#[global] Instance same_frame_preorder : PreOrder same_frame.
Proof. split; [by intros ?; split_and!|]. intros ??? (?&?&?&?&?) (?&?&?&?&?). split_and!; congruence. Qed.

(** The result of the code [r] is the result [a] of the specification. *)
Definition refines (b : nat) (t : test) (r : res (test * bytes * bytes)) (a : res conf) : Prop :=
  match a with
  | Ok c => ∃ t' m', r = Ok (t', m', c_err c) ∧ conf_rep b m' t' c ∧ same_frame t t'
  | UB => r = UB
  | OutOfFuel => False
  end.

(** ** Lemmas: lines and words *)

Lemma split_on_nonempty p s : split_on p s ≠ [].
Proof. destruct s as [|a s]; cbn; [done|]. destruct (p a); [done|]. by destruct (split_on p s). Qed.

Lemma split_on_app p a s :
  Forall (λ x, p x = false) a →
  split_on p (a ++ s) = match split_on p s with l :: ls => (a ++ l) :: ls | [] => [] end.
Proof.
  induction 1 as [|x a Hx _ IH]; cbn.
  - by destruct (split_on p s) eqn:E.
  - rewrite Hx, IH. destruct (split_on p s) eqn:E; [by apply split_on_nonempty in E|done].
Qed.

Lemma split_on_one p a : Forall (λ x, p x = false) a → split_on p a = [a].
Proof. intros Ha. rewrite <- (app_nil_r a) at 1. rewrite split_on_app by done. cbn. by rewrite app_nil_r. Qed.

Lemma split_on_sep p a c s :
  Forall (λ x, p x = false) a → p c = true → split_on p (a ++ c :: s) = a :: split_on p s.
Proof. intros Ha Hc. rewrite split_on_app by done. cbn. rewrite Hc. by rewrite app_nil_r. Qed.

(** A string up to the first character with [p], and the rest. *)
Lemma split_first p (s : bytes) :
  Forall (λ x, p x = false) s ∨
  ∃ a c r, s = a ++ c :: r ∧ Forall (λ x, p x = false) a ∧ p c = true.
Proof.
  induction s as [|x s IH]; [by left|]. destruct (p x) eqn:Hx.
  - right. by exists [], x, s.
  - destruct IH as [IH|(a & c & r & -> & Ha & Hc)]; [left; by constructor|].
    right. exists (x :: a), c, r. split_and!; [done|by constructor|done].
Qed.

Lemma words_skip c s : is_delim c = true → words (c :: s) = words s.
Proof. intros Hc. unfold words. cbn [split_on]. by rewrite Hc. Qed.

Lemma words_skips d s : Forall (λ x, is_delim x = true) d → words (d ++ s) = words s.
Proof. induction 1 as [|x d Hx _ IH]; [done|]. cbn [app]. by rewrite words_skip. Qed.

Lemma words_delims d : Forall (λ x, is_delim x = true) d → words d = [].
Proof. intros Hd. rewrite <- (app_nil_r d). by rewrite words_skips. Qed.

Lemma words_last u : u ≠ [] → Forall (λ x, is_delim x = false) u → words u = [u].
Proof. intros Hu Hf. unfold words. rewrite split_on_one by done. by rewrite filter_cons_True. Qed.

Lemma words_cons u c s :
  u ≠ [] → Forall (λ x, is_delim x = false) u → is_delim c = true → words (u ++ c :: s) = u :: words s.
Proof. intros. unfold words. rewrite split_on_sep by done. by rewrite filter_cons_True. Qed.

Lemma line_words_skip file c l : isspace c = true → line_words file (c :: l) = line_words file l.
Proof. intros Hc. unfold line_words. cbn [drop_while]. by rewrite Hc. Qed.

Lemma strip_prefix_nil p : p ≠ [] → strip_prefix p [] = None.
Proof. intros Hp. unfold strip_prefix. rewrite decide_False; [done|]. by intros ?%prefix_nil_inv. Qed.

Lemma line_words_nil file : line_words file [] = [].
Proof.
  unfold line_words. cbn. rewrite strip_prefix_nil; [done|].
  intros [? ?]%app_eq_nil. done.
Qed.

Lemma conf_words_skip file c s : isspace c = true → conf_words file (c :: s) = conf_words file s.
Proof.
  intros Hc. unfold conf_words, lines. cbn [split_on].
  destruct (is_newline c); [cbn [mbind list_bind]; by rewrite line_words_nil|].
  destruct (split_on is_newline s) as [|l ls] eqn:E; [by apply split_on_nonempty in E|].
  cbn [mbind list_bind]. by rewrite line_words_skip.
Qed.

Lemma conf_words_skips file w s :
  Forall (λ x, isspace x = true) w → conf_words file (w ++ s) = conf_words file s.
Proof. induction 1 as [|x w Hx _ IH]; [done|]. cbn [app]. by rewrite conf_words_skip. Qed.

Lemma conf_words_line file l s :
  Forall (λ x, is_newline x = false) l →
  conf_words file (l ++ newline_c :: s) = line_words file l ++ conf_words file s.
Proof. intros Hl. unfold conf_words, lines. rewrite split_on_sep by done. done. Qed.

Lemma conf_words_last file l :
  Forall (λ x, is_newline x = false) l → conf_words file l = line_words file l.
Proof. intros Hl. unfold conf_words, lines. rewrite split_on_one by done. cbn. by rewrite app_nil_r. Qed.

Lemma apply_words_app c ws1 ws2 :
  apply_words c (ws1 ++ ws2) = (c ← apply_words c ws1; apply_words c ws2).
Proof.
  revert c. induction ws1 as [|w ws1 IH]; intros c; [done|].
  cbn [app apply_words]. rewrite res_bind_assoc. destruct (apply_word c w); cbn; auto.
Qed.

(** ** Lemmas: one word *)

Lemma streq_spec u r s :
  nul_free u → nul_free (lit s) → streq (u ++ NUL :: r) s = Ok (bool_decide (u = lit s)).
Proof.
  intros Hu Hs. unfold streq, cl. rewrite strcmp_str_cmp by done. cbn. f_equal.
  apply eq_bool_prop_intro. rewrite bool_decide_spec. rewrite Is_true_true, Z.eqb_eq.
  by apply str_cmp_eq.
Qed.

Lemma starts_spec u r s :
  nul_free u → nul_free (lit s) → starts (u ++ NUL :: r) s = Ok (bool_decide (lit s `prefix_of` u)).
Proof.
  intros Hu Hs. unfold starts, cl.
  destruct (strncmp_prefix u (lit s) r [NUL] Hu Hs) as (z & -> & Hz). cbn. f_equal.
  apply eq_bool_prop_intro. rewrite bool_decide_spec, Is_true_true, Z.eqb_eq. done.
Qed.

Lemma strip_prefix_Some p s v : strip_prefix p s = Some v ↔ s = p ++ v.
Proof.
  unfold strip_prefix. case_decide as Hp.
  - destruct Hp as [k ->]. rewrite drop_app_length. naive_solver.
  - split; [done|]. intros ->. by destruct Hp; exists v.
Qed.

Lemma strip_prefix_app p v : strip_prefix p (p ++ v) = Some v.
Proof. by apply strip_prefix_Some. Qed.

Lemma strip_prefix_None p s : strip_prefix p s = None ↔ ¬ p `prefix_of` s.
Proof. unfold strip_prefix. by case_decide. Qed.

Lemma is_param_str_spec u r s :
  nul_free u → nul_free (lit s) →
  is_param_str (u ++ NUL :: r) s =
  Ok (if strip_prefix (lit s ++ lit "=") u is Some _ then Some (length (lit s) + 1)%nat else None).
Proof.
  intros Hu Hs. unfold is_param_str. rewrite starts_spec by done. cbn [mbind res_bind].
  case_bool_decide as Hp; cbn [negb].
  - destruct Hp as [k ->]. rewrite <- app_assoc, lookup_app_r, Nat.sub_diag by lia.
    apply nul_free_app in Hu as [_ Hk]. destruct k as [|c k]; cbn [app lookup list_lookup of_option].
    + cbn. destruct (strip_prefix _ _) as [v|] eqn:E; [|done].
      apply strip_prefix_Some in E. apply (f_equal length) in E.
      rewrite !length_app in E. cbn in E. lia.
    + cbn. case_decide as Hc.
      * subst c. change ("="%char :: k) with (lit "=" ++ k). by rewrite app_assoc, strip_prefix_app.
      * destruct (strip_prefix _ _) as [v|] eqn:E; [|done].
        apply strip_prefix_Some in E. rewrite <- app_assoc in E. apply app_inv_head in E.
        cbn in E. congruence.
  - destruct (strip_prefix _ _) as [v|] eqn:E; [|done].
    apply strip_prefix_Some in E as ->. destruct Hp. rewrite <- app_assoc. by apply prefix_app_r.
Qed.

Lemma digits_app acc v r : nul_free v → digits acc (v ++ NUL :: r) = digits acc (v ++ [NUL]).
Proof.
  revert acc. induction v as [|c v IH]; intros acc; cbn; [done|].
  rewrite nul_free_cons. intros [_ Hv]. destruct (isdigit c); [by apply IH|done].
Qed.

Lemma span_NUL p v r : p NUL = false → span p (v ++ NUL :: r) = span p (v ++ [NUL]).
Proof.
  intros Hp. induction v as [|c v IH]; cbn; [by rewrite Hp|].
  destruct (p c); [by rewrite IH|done].
Qed.

Lemma atoi_app v r : nul_free v → atoi (v ++ NUL :: r) = atoi (v ++ [NUL]).
Proof.
  intros Hv. unfold atoi. rewrite (span_NUL isspace) by done.
  destruct (span isspace (v ++ [NUL])) as [n| |] eqn:E; cbn [mbind res_bind]; [|done|done].
  assert (n ≤ length v)%nat as Hn.
  { apply span_inv in E as (c & r' & Hm & _ & _ & Hl).
    apply (f_equal length) in Hm. rewrite !length_app, Hl in Hm. cbn in Hm. lia. }
  rewrite !drop_app_le by done.
  assert (nul_free (drop n v)) as Hd.
  { rewrite <- (take_drop n v) in Hv. by apply nul_free_app in Hv as [_ ?]. }
  destruct (drop n v) as [|c k]; cbn [app]; [done|].
  pose proof Hd as [_ Hk]%nul_free_cons. rewrite !(digits_app _ k r) by done.
  change (c :: k ++ NUL :: r) with ((c :: k) ++ NUL :: r).
  change (c :: k ++ [NUL]) with ((c :: k) ++ [NUL]).
  by rewrite (digits_app 0 (c :: k) r).
Qed.

Lemma span_fuel p m : span p m ≠ OutOfFuel.
Proof. induction m as [|c m IH]; cbn; [done|]. destruct (p c); [|done]. by destruct (span p m). Qed.

Lemma digits_fuel acc m : digits acc m ≠ OutOfFuel.
Proof. revert acc. induction m as [|c m IH]; intros acc; cbn; [done|]. destruct (isdigit c); [apply IH|done]. Qed.

Lemma atoi_fuel m : atoi m ≠ OutOfFuel.
Proof.
  unfold atoi. destruct (span isspace m) as [n| |] eqn:E; cbn [mbind res_bind];
    [|done|by apply span_fuel in E].
  destruct (drop n m) as [|c r]; [done|].
  destruct (if decide _ then _ else _) as [v| |] eqn:D; cbn [mbind res_bind];
    [by destruct (is_int v)|done|].
  exfalso. repeat case_decide; [|by apply digits_fuel in D|by apply digits_fuel in D].
  destruct (digits 0 r) eqn:F; try done. by apply digits_fuel in F.
Qed.

Lemma test_add_required_cap_rep b m t c tok v i rest :
  conf_rep b m t c → drop tok m = v ++ NUL :: rest → nul_free v → (tok + length v < b)%nat →
  conf_rep b m (test_add_required_cap t tok i)
    (Conf (c_rc c) (c_sig c) (c_timeout c) (c_disabled c) (c_ignored c) (c_caps c ++ [(v, i)]) (c_err c)).
Proof.
  intros [] Hd Hv Hb. unfold test_add_required_cap. split; cbn; try done.
  - rewrite length_insert, length_resize. done.
  - rewrite cr_n0. rewrite resize_ge by lia.
    replace (S (length (caps_required t)) - length (caps_required t))%nat with 1%nat by lia.
    rewrite insert_app_r_alt, Nat.sub_diag by lia. cbn.
    apply Forall2_app; [done|]. constructor; [|done].
    split_and!; cbn; try done. by exists rest.
Qed.

(** One number option: the field gets the value, or [atoi] overflows. *)
Ltac number_option Hu :=
  lazymatch goal with
  | E : strip_prefix ?p ?u = Some ?v |- context [atoi (drop ?n (?u ++ NUL :: ?r))] =>
      apply strip_prefix_Some in E; subst u;
      apply nul_free_app in Hu as [_ Hu];
      change (drop n ((p ++ v) ++ NUL :: r)) with (v ++ NUL :: r);
      rewrite (atoi_app v) by done; unfold conf_number;
      let A := fresh "A" in
      destruct (atoi (v ++ [NUL])) eqn:A; cbn; [|done|by apply atoi_fuel in A];
      eexists _, []; split_and!; [done|by rewrite app_nil_r|by split|by split_and!]
  end.

Lemma handle_token_refines b t m tok u rest c :
  drop tok m = u ++ NUL :: rest → nul_free u → (tok + length u < b)%nat → conf_rep b m t c →
  match apply_word c u with
  | Ok c' => ∃ t' e, handle_testconf_token t m tok = Ok (t', e) ∧ c_err c' = c_err c ++ e ∧
                     conf_rep b m t' c' ∧ same_frame t t'
  | UB => handle_testconf_token t m tok = UB
  | OutOfFuel => False
  end.
Proof.
  intros Hd Hu Hb Hr. unfold handle_testconf_token. rewrite Hd.
  rewrite !streq_spec, !is_param_str_spec, !starts_spec by auto with cdb.
  destruct c as [rc sg tm ds ig cs er]. pose proof Hr as [].
  cbn [apply_word mbind res_bind].
  case_decide as H1; [rewrite bool_decide_true by done|rewrite bool_decide_false by done].
  { eexists _, []. split_and!; [done|by rewrite app_nil_r|by split|by split_and!]. }
  case_decide as H2; [rewrite bool_decide_true by done|rewrite bool_decide_false by done].
  { eexists _, []. split_and!; [done|by rewrite app_nil_r|by split|by split_and!]. }
  change (lit "timeout" ++ lit "=") with (lit "timeout=").
  change (lit "expected_rc" ++ lit "=") with (lit "expected_rc=").
  change (lit "signal" ++ lit "=") with (lit "signal=").
  destruct (strip_prefix (lit "timeout=") u) as [v|] eqn:E3; [number_option Hu|].
  destruct (strip_prefix (lit "expected_rc=") u) as [v|] eqn:E4; [number_option Hu|].
  destruct (strip_prefix (lit "signal=") u) as [v|] eqn:E5; [number_option Hu|].
  case_bool_decide as H6.
  { destruct H6 as [v ->]. rewrite strip_prefix_app. eexists _, [].
    split_and!; [done|by rewrite app_nil_r| |by split_and!].
    apply nul_free_app in Hu as [_ Hv]. rewrite length_app in Hb. rewrite <- app_assoc in Hd.
    eapply (test_add_required_cap_rep b m t (Conf rc sg tm ds ig cs er)); [done| |done|cbn in Hb; lia].
    by apply (drop_app_add _ (lit "cap_")). }
  rewrite (proj2 (strip_prefix_None _ _)) by done.
  case_bool_decide as H7.
  { destruct H7 as [v ->]. rewrite strip_prefix_app. eexists _, [].
    split_and!; [done|by rewrite app_nil_r| |by split_and!].
    apply nul_free_app in Hu as [_ Hv]. rewrite length_app in Hb. rewrite <- app_assoc in Hd.
    eapply (test_add_required_cap_rep b m t (Conf rc sg tm ds ig cs er)); [done| |done|cbn in Hb; lia].
    by apply (drop_app_add _ (lit "!cap_")). }
  rewrite (proj2 (strip_prefix_None _ _)) by done.
  rewrite cstr_app by done. eexists _, _. split_and!; [done|done|by split|by split_and!].
Qed.

(** ** Lemmas: the token loop *)

Lemma conf_rep_write b m t c i x :
  conf_rep b m t c → (b ≤ i)%nat → conf_rep b (<[i:=x]> m) t c.
Proof.
  intros [] Hi. split; try done. eapply Forall2_impl; [done|].
  intros r p (? & ? & Hb & rest & Hd). split_and!; try done.
  rewrite drop_insert_ge by lia.
  replace (i - cap r)%nat with (length p.1 + S (i - cap r - length p.1 - 1))%nat by lia.
  rewrite Hd, insert_app_r. cbn. by eexists.
Qed.

Lemma conf_rep_mono b b' m t c : conf_rep b m t c → (b ≤ b')%nat → conf_rep b' m t c.
Proof.
  intros [] Hb. split; try done. eapply Forall2_impl; [done|].
  intros r p (? & ? & ? & ?). split_and!; (done || lia).
Qed.

Lemma drop_lookup_head {A} (m : list A) p a x r : drop p m = a ++ x :: r → m !! (p + length a)%nat = Some x.
Proof.
  intros H. rewrite <- lookup_drop, H. by rewrite lookup_app_r, Nat.sub_diag by lia.
Qed.

Definition delim_free (u : bytes) : Prop := Forall (λ x, is_delim x = false) u.

Lemma tok_char_true u :
  delim_free u → nul_free u →
  Forall (λ c, negb (bool_decide (c ∈ conf_delim)) && negb (bool_decide (c = NUL)) = true) u.
Proof.
  induction 1 as [|x u Hx _ IH]; intros Hn; [done|]. apply nul_free_cons in Hn as [Hx' Hn].
  constructor; [|by apply IH]. unfold is_delim in Hx. rewrite Hx. by rewrite bool_decide_false.
Qed.

(** What one call of [strtok] does to the rest [w] of the line. *)
Lemma strtok_spec m s w r :
  drop s m = w ++ NUL :: r → nul_free w →
  (words w = [] ∧ strtok m s conf_delim = Ok (None, m, s + length w)%nat) ∨
  (∃ d u, w = d ++ u ∧ u ≠ [] ∧ words w = [u] ∧
     strtok m s conf_delim = Ok (Some (s + length d), m, s + length w)%nat) ∨
  (∃ d u c w', w = d ++ u ++ c :: w' ∧ words w = u :: words w' ∧
     strtok m s conf_delim =
       Ok (Some (s + length d), <[(s + length d + length u)%nat:=NUL]> m,
           S (s + length d + length u))%nat).
Proof.
  intros Hd Hn. unfold strtok. rewrite Hd.
  destruct (split_first (λ x, negb (is_delim x)) w) as [Hw|(d & c0 & w0 & -> & Hw & Hc0)].
  { apply Forall_impl with (Q := λ x, is_delim x = true) in Hw;
      [|intros x; by destruct (is_delim x)].
    left. split; [by apply words_delims|]. rewrite span_app by done. cbn.
    rewrite (drop_lookup_head _ _ _ _ _ Hd). done. }
  apply Forall_impl with (Q := λ x, is_delim x = true) in Hw; [|intros x; by destruct (is_delim x)].
  assert (is_delim c0 = false) as Hc by (by destruct (is_delim c0)).
  rewrite <- app_assoc in Hd |- *. rewrite <- app_comm_cons in Hd |- *.
  rewrite span_app by done. cbn [mbind res_bind].
  rewrite (drop_lookup_head _ _ _ _ _ Hd). cbn [of_option mbind res_bind].
  apply nul_free_app in Hn as [_ Hn]. pose proof Hn as [Hc0n _]%nul_free_cons.
  rewrite decide_False by done. apply drop_app_add in Hd as Hd0. rewrite Hd0.
  rewrite words_skips by done.
  destruct (split_first is_delim (c0 :: w0)) as [Hu|(u & c & w' & Hu & Huf & Hcd)].
  - right; left. exists d, (c0 :: w0). split_and!; [done..|by apply words_last|].
    rewrite app_comm_cons in Hd0 |- *. rewrite span_app; [|by apply tok_char_true|done].
    cbn [mbind res_bind]. rewrite (drop_lookup_head _ _ _ _ _ Hd0). cbn. by rewrite length_app, Nat.add_assoc.
  - right; right. rewrite Hu in *. exists d, u, c, w'.
    apply nul_free_app in Hn as [Hun Hwn]. pose proof Hwn as [Hcn _]%nul_free_cons.
    rewrite app_comm_cons, Hu in Hd0 |- *.
    rewrite <- app_assoc in Hd0 |- *. rewrite <- app_comm_cons in Hd0 |- *.
    rewrite span_app; [|by apply tok_char_true|by unfold is_delim in Hcd; rewrite Hcd].
    cbn [mbind res_bind]. rewrite (drop_lookup_head _ _ _ _ _ Hd0). cbn [of_option mbind res_bind].
    rewrite decide_False by done. split_and!; [done| |done].
    apply words_cons; [|done..]. intros ->. cbn in Hu. congruence.
Qed.

Lemma drop_S_app {A} (m : list A) p a x r : drop p m = a ++ x :: r → drop (S (p + length a)) m = r.
Proof.
  intros H. replace (S (p + length a)) with (p + length (a ++ [x]))%nat by (rewrite length_app; cbn; lia).
  apply drop_app_add. by rewrite <- app_assoc.
Qed.

Lemma drop_prefix {A} (m : list A) p a b : drop p m = a ++ b → drop (p + length a) m = b.
Proof. apply drop_app_add. Qed.

(** [token_loop] implements [apply_words], touches only the line and leaves the
    capability names of earlier lines alone. *)
Lemma token_loop_refines fuel t m s w r c :
  drop s m = w ++ NUL :: r → nul_free w → (length w < fuel)%nat → conf_rep s m t c →
  match apply_words c (words w) with
  | Ok c' => ∃ t' m', token_loop fuel t m s (c_err c) = Ok (t', m', c_err c') ∧
      conf_rep (S (s + length w)) m' t' c' ∧ same_frame t t' ∧
      drop (S (s + length w)) m' = r ∧ length m' = length m
  | UB => token_loop fuel t m s (c_err c) = UB
  | OutOfFuel => False
  end.
Proof.
  revert t m s w c. induction fuel as [|fuel IH]; intros t m s w c Hd Hn Hf Hr; [lia|].
  cbn [token_loop].
  destruct (strtok_spec m s w r Hd Hn) as
    [[-> ->]|[(d & u & -> & Hu & -> & ->)|(d & u & x & w' & -> & -> & ->)]];
    cbn [apply_words mbind res_bind].
  - exists t, m. split_and!; [done| |done| |done].
    + eapply conf_rep_mono; [done|lia].
    + by apply drop_S_app in Hd.
  - rewrite <- app_assoc in Hd. apply drop_app_add in Hd as Hdu.
    apply nul_free_app in Hn as [_ Hn]. rewrite length_app in Hf |- *.
    assert (conf_rep (S (s + (length d + length u))) m t c) as Hr1
      by (eapply conf_rep_mono; [done|lia]).
    pose proof (handle_token_refines (S (s + (length d + length u))) t m _ u r c
      Hdu Hn ltac:(lia) Hr1) as Hh.
    destruct (apply_word c u) as [c1| |]; [|by rewrite Hh|done].
    destruct Hh as (t1 & e & -> & He & Hr2 & Hs). cbn [mbind res_bind].
    apply drop_app_add in Hdu as Hd2. rewrite <- Nat.add_assoc in Hd2.
    destruct fuel as [|fuel]; [destruct u; [done|cbn in Hf; lia]|]. cbn [token_loop].
    destruct (strtok_spec m (s + (length d + length u)) [] r Hd2 nul_free_nil) as
      [[_ ->]|[([] & [] & ? & ? & _)|([] & [] & ? & ? & ? & _)]]; try done.
    cbn [mbind res_bind]. exists t1, m. split_and!; try done.
    + by rewrite He.
    + by apply drop_S_app with (a := []) in Hd2; rewrite Nat.add_0_r in Hd2.
  - set (e := (s + length d + length u)%nat) in *.
    assert (drop (s + length d) (<[e:=NUL]> m) = u ++ NUL :: w' ++ NUL :: r) as Hdu.
    { apply drop_app_insert with (x := x). apply drop_app_add. rewrite Hd.
      by rewrite <- !app_assoc, app_comm_cons. }
    rewrite !nul_free_app, nul_free_cons in Hn. destruct Hn as (_ & Hnu & _ & Hnw).
    rewrite !length_app in Hf |- *. cbn [length] in Hf |- *.
    assert (conf_rep (S e) (<[e:=NUL]> m) t c) as Hr1
      by (eapply conf_rep_mono; [apply conf_rep_write; [done|lia]|lia]).
    pose proof (handle_token_refines (S e) t _ _ u _ c Hdu Hnu ltac:(lia) Hr1) as Hh.
    destruct (apply_word c u) as [c1| |]; [|by rewrite Hh|done].
    destruct Hh as (t1 & er & -> & He & Hr2 & Hs). cbn [mbind res_bind].
    apply drop_S_app in Hdu as Hd2. fold e in Hd2. rewrite <- He.
    specialize (IH t1 _ _ w' c1 Hd2 Hnw ltac:(lia) Hr2).
    replace (s + (length d + (length u + S (length w'))))%nat with (S e + length w')%nat by lia.
    destruct (apply_words c1 (words w')) as [c2| |]; try done.
    destruct IH as (t2 & m2 & -> & Hr3 & Hs2 & Hd3 & Hl). exists t2, m2.
    split_and!; try done; [by etrans|by rewrite Hl, length_insert].
Qed.

(** ** Lemmas: one line, all lines *)

Definition newline_free (s : bytes) : Prop := Forall (λ x, is_newline x = false) s.

Lemma newline_free_not_in s : newline_free s ↔ newline_c ∉ s.
Proof.
  unfold newline_free. rewrite Forall_forall. split.
  - intros H Hin. specialize (H _ Hin). unfold is_newline in H. by rewrite bool_decide_true in H.
  - intros H x Hx. unfold is_newline. apply bool_decide_false. by intros ->.
Qed.

Lemma prefix_of_line p l tail :
  newline_free p → (tail = [] ∨ ∃ s, tail = newline_c :: s) →
  p `prefix_of` (l ++ tail) ↔ p `prefix_of` l.
Proof.
  intros Hp Ht. split; [|by apply prefix_app_r].
  destruct Ht as [->|[s ->]]; [by rewrite app_nil_r|]. intros [k Hk].
  apply newline_free_not_in in Hp.
  apply app_eq_inv in Hk as [(j & -> & Hj)|(j & -> & Hj)]; [by exists j|].
  destruct j as [|y j]; [by rewrite app_nil_r|]. cbn in Hj. injection Hj as <- ->.
  set_solver.
Qed.

Lemma line_match_spec file m c l tail r :
  drop c m = l ++ tail ++ NUL :: r → nul_free (l ++ tail) →
  (tail = [] ∨ ∃ s, tail = newline_c :: s) →
  newline_free file → nul_free file → drop_while isspace l = l →
  ∃ k b, line_match (file ++ lit ":") m c = Ok (c + k, b)%nat ∧ (k ≤ length l)%nat ∧
    line_words file l = if b : bool then words (drop k l) else [].
Proof.
  intros Hd Hn Ht Hfl Hfn Hl. unfold line_match, line_words. rewrite Hl.
  assert (newline_free (file ++ lit ":")) as Hp1 by (apply Forall_app; split; [done|repeat constructor]).
  assert (newline_free (lit "*:")) as Hp2 by repeat constructor.
  assert (nul_free (file ++ lit ":")) as Hq1 by (apply nul_free_app; split; [done|nul_free_lit]).
  assert (∃ ch, m !! c = Some ch ∧ (ch = "#"%char ↔ head l = Some "#"%char)) as (ch & Hch & Hhash).
  { destruct l as [|x l]; cbn in Hd.
    - destruct Ht as [->|[s ->]]; cbn in Hd; apply drop_cons_lookup in Hd as [Hx _];
        eexists; (split; [done|]); by split.
    - apply drop_cons_lookup in Hd as [Hx _]. exists x. split; [done|]. naive_solver. }
  rewrite Hch. cbn [of_option mbind res_bind]. rewrite Hd, app_assoc.
  destruct (decide (ch = "#"%char)) as [Hc|Hc].
  { rewrite decide_True by naive_solver. exists 0%nat, false. rewrite Nat.add_0_r. by split_and!; [|lia|]. }
  rewrite decide_False by naive_solver.
  destruct (strncmp_prefix (l ++ tail) (file ++ lit ":") r [NUL] Hn Hq1) as (z & -> & Hz).
  cbn [mbind res_bind]. rewrite prefix_of_line in Hz by done.
  destruct (Z.eqb_spec z 0) as [Hz0|Hz0].
  { apply Hz in Hz0 as [k ->]. rewrite strip_prefix_app.
    eexists _, true. split_and!; [done|len|by rewrite drop_app_length]. }
  rewrite (proj2 (strip_prefix_None _ _)) by naive_solver.
  destruct (strncmp_prefix (l ++ tail) (lit "*:") r [NUL] Hn ltac:(nul_free_lit)) as (z' & Hz1 & Hz').
  change (length (lit "*:")) with 2%nat in Hz1. unfold cl. rewrite Hz1. clear Hz1.
  cbn [mbind res_bind]. rewrite prefix_of_line in Hz' by done.
  destruct (Z.eqb_spec z' 0) as [Hz0'|Hz0'].
  { apply Hz' in Hz0' as [k ->]. rewrite strip_prefix_app.
    exists 2%nat, true. by split_and!; [|cbn; lia|]. }
  rewrite (proj2 (strip_prefix_None _ _)) by naive_solver.
  exists 0%nat, false. rewrite Nat.add_0_r. by split_and!; [|lia|].
Qed.

(** The tokens of the selected part of a line. *)
Lemma matched_line_refines (b : bool) fuel t m c k l r cf :
  drop c m = l ++ NUL :: r → nul_free l → (k ≤ length l)%nat → (length m < fuel)%nat →
  conf_rep (c + k) m t cf →
  match apply_words cf (if b then words (drop k l) else []) with
  | Ok c' => ∃ t' m',
      (if b then token_loop fuel t m (c + k) (c_err cf) else Ok (t, m, c_err cf))
        = Ok (t', m', c_err c') ∧
      conf_rep (S (c + length l)) m' t' c' ∧ same_frame t t' ∧
      drop (S (c + length l)) m' = r ∧ length m' = length m
  | UB => (if b then token_loop fuel t m (c + k) (c_err cf) else Ok (t, m, c_err cf)) = UB
  | OutOfFuel => False
  end.
Proof.
  intros Hd Hn Hk Hf Hr. destruct b.
  - assert (drop (c + k) m = drop k l ++ NUL :: r) as Hd'.
    { rewrite <- drop_drop, Hd. by rewrite drop_app_le. }
    assert (length (drop k l) ≤ length m)%nat.
    { apply (f_equal length) in Hd'. rewrite length_app, !length_drop in *. lia. }
    assert (nul_free (drop k l)) as Hn'.
    { rewrite <- (take_drop k l) in Hn. by apply nul_free_app in Hn as [_ ?]. }
    pose proof (token_loop_refines fuel t m (c + k) (drop k l) r cf Hd' Hn' ltac:(lia) Hr) as Ht.
    rewrite length_drop in Ht. by replace (c + k + (length l - k))%nat with (c + length l)%nat in Ht by lia.
  - cbn. exists t, m. split_and!; [done| |done| |done].
    + eapply conf_rep_mono; [done|lia].
    + by apply drop_S_app in Hd.
Qed.

Lemma drop_while_head p (s : bytes) : (∀ x r, s = x :: r → p x = false) → drop_while p s = s.
Proof. destruct s as [|x r]; intros H; [done|]. cbn. by rewrite (H x r eq_refl). Qed.

Lemma split_spaces (s : bytes) :
  ∃ w s2, s = w ++ s2 ∧ Forall (λ x, isspace x = true) w ∧ (∀ x r, s2 = x :: r → isspace x = false).
Proof.
  destruct (split_first (λ x, negb (isspace x)) s) as [Hw|(w & c & r & -> & Hw & Hc)].
  - exists s, []. split_and!; [by rewrite app_nil_r| |done].
    eapply Forall_impl; [done|]. intros x; cbn; by destruct (isspace x).
  - exists w, (c :: r). split_and!; [done| |].
    + eapply Forall_impl; [done|]. intros x; cbn; by destruct (isspace x).
    + intros x r' [= <- <-]. by destruct (isspace c).
Qed.

Lemma head_line p (l tail : bytes) :
  (∀ x r, l ++ tail = x :: r → p x = false) → ∀ x r, l = x :: r → p x = false.
Proof. intros H x r ->. by eapply H. Qed.

(** A line that ends in a newline, which the parser overwrites when the line is
    selected. *)
Lemma cut_line_refines (b : bool) t m c k l s r cf :
  drop c m = l ++ newline_c :: s ++ NUL :: r → nul_free l → (k ≤ length l)%nat → conf_rep (c + k) m t cf →
  let m1 := <[(c + length l)%nat := NUL]> m in
  let selected := if b then token_loop (S (length m1)) t m1 (c + k) (c_err cf) else Ok (t, m, c_err cf) in
  match apply_words cf (if b then words (drop k l) else []) with
  | Ok c' => ∃ t' m', selected = Ok (t', m', c_err c') ∧ conf_rep (S (c + length l)) m' t' c' ∧ same_frame t t' ∧
      drop (S (c + length l)) m' = s ++ NUL :: r ∧ length m' = length m
  | UB => selected = UB
  | OutOfFuel => False
  end.
Proof.
  intros Hd Hn Hk Hr m1 selected. subst selected. destruct b.
  - assert (drop c m1 = l ++ NUL :: s ++ NUL :: r) as Hd2 by (by eapply drop_app_insert).
    pose proof (matched_line_refines true _ t _ c k l _ cf Hd2 Hn Hk (Nat.lt_succ_diag_r _)
      (conf_rep_write _ _ _ _ (c + length l) NUL Hr ltac:(lia))) as Hm.
    cbn in Hm. destruct (apply_words cf (words (drop k l))); [|exact Hm|done].
    destruct Hm as (t1 & m2 & E & Hr2 & Hs & Hd3 & Hlen). exists t1, m2. split_and!; try done.
    by rewrite Hlen; subst m1; rewrite length_insert.
  - cbn [apply_words]. exists t, m. split_and!; try done; [|by eapply drop_S_app].
    eapply conf_rep_mono; [done|lia].
Qed.

Lemma conf_loop_refines file fuel t m c s r cf :
  newline_free file → nul_free file →
  drop c m = s ++ NUL :: r → nul_free s → (length s < fuel)%nat → conf_rep c m t cf →
  match apply_words cf (conf_words file s) with
  | Ok c' => ∃ t' m', conf_loop fuel (file ++ lit ":") t m c (c_err cf) = Ok (t', m', c_err c') ∧
      conf_rep (S (c + length s)) m' t' c' ∧ same_frame t t' ∧ length m' = length m
  | UB => conf_loop fuel (file ++ lit ":") t m c (c_err cf) = UB
  | OutOfFuel => False
  end.
Proof.
  intros Hfl Hfn. revert t m c s cf.
  induction fuel as [|fuel IH]; intros t m c s cf Hd Hn Hf Hr; [lia|]. cbn [conf_loop].
  destruct s as [|x0 s0].
  { cbn in Hd. apply drop_cons_lookup in Hd as [Hx _]. rewrite Hx. cbn.
    rewrite line_words_nil. cbn. exists t, m. split_and!; try done.
    eapply conf_rep_mono; [done|lia]. }
  assert (m !! c = Some x0) as Hx by (cbn in Hd; by apply drop_cons_lookup in Hd as [Hx _]).
  rewrite Hx. cbn [of_option mbind res_bind]. pose proof Hn as [Hx0 _]%nul_free_cons.
  rewrite decide_False by done. revert Hd Hn Hf. generalize (x0 :: s0). clear x0 s0 Hx Hx0.
  intros s Hd Hn Hf. destruct (split_spaces s) as (w & s2 & -> & Hw & Hs2).
  rewrite conf_words_skips by done. rewrite <- app_assoc in Hd.
  assert (span isspace (drop c m) = Ok (length w)) as ->.
  { rewrite Hd. destruct s2 as [|x s2]; [by apply span_app|]. apply span_app; [done|by eapply Hs2]. }
  cbn [mbind res_bind]. apply drop_app_add in Hd. apply nul_free_app in Hn as [_ Hn].
  rewrite length_app in Hf |- *. set (c1 := (c + length w)%nat) in *.
  assert (conf_rep c1 m t cf) as Hr1 by (eapply conf_rep_mono; [done|lia]).
  destruct (split_first is_newline s2) as [Hl|(l & nl & s3 & -> & Hl & Hnl)].
  - (* the last line *)
    rewrite Hd, strchr_none by (done || by apply newline_free_not_in). cbn [mbind res_bind].
    destruct (line_match_spec file m c1 s2 [] r Hd ltac:(by rewrite app_nil_r) ltac:(by left)
      Hfl Hfn (drop_while_head _ _ Hs2)) as (k & b & -> & Hk & Hlw).
    rewrite conf_words_last, Hlw by done. cbn [mbind res_bind fmap option_fmap option_map].
    pose proof (matched_line_refines b (S (length m)) t m c1 k s2 r cf Hd Hn Hk ltac:(lia)
      (conf_rep_mono _ (c1 + k) _ _ _ Hr1 ltac:(lia))) as Hm.
    destruct (apply_words cf _) as [c'| |]; [|by rewrite Hm|done].
    destruct Hm as (t' & m' & -> & ? & ? & _ & ?). cbn. exists t', m'. split_and!; try done.
    by replace (c + (length w + length s2))%nat with (c1 + length s2)%nat by lia.
  - (* a line that ends in a newline *)
    assert (nl = newline_c) as -> by (unfold is_newline in Hnl; by apply bool_decide_eq_true in Hnl).
    pose proof Hn as [Hn1 [_ Hn3]%nul_free_cons]%nul_free_app.
    rewrite Hd, <- app_assoc, <- app_comm_cons.
    rewrite strchr_found by (done || by apply newline_free_not_in). cbn [mbind res_bind].
    rewrite <- app_assoc in Hd.
    destruct (line_match_spec file m c1 l (newline_c :: s3) r Hd Hn ltac:(eauto)
      Hfl Hfn (drop_while_head _ _ (head_line _ _ _ Hs2))) as (k & b & -> & Hk & Hlw).
    rewrite conf_words_line, Hlw, apply_words_app by done.
    cbn [mbind res_bind fmap option_fmap option_map].
    rewrite length_app in Hf |- *. cbn [length] in Hf |- *.
    replace (c + (length w + (length l + S (length s3))))%nat
      with (S (c1 + length l) + length s3)%nat by lia.
    pose proof (cut_line_refines b t m c1 k l s3 r cf Hd Hn1 Hk (conf_rep_mono _ (c1 + k) _ _ _ Hr1 ltac:(lia))) as Hm.
    cbn zeta in Hm. destruct (apply_words cf _) as [cf1| |]; [|by cbn in Hm |- *; rewrite Hm|done].
    destruct Hm as (t1 & m1 & -> & Hr2 & Hs & Hd3 & Hlen). cbn [mbind res_bind].
    specialize (IH t1 m1 (S (c1 + length l)) s3 cf1 Hd3 Hn3 ltac:(lia) Hr2).
    destruct (apply_words cf1 _) as [cf2| |]; try done. destruct IH as (t2 & m2 & -> & ? & ? & Hl2). exists t2, m2.
    split_and!; try done; [by etrans|by rewrite Hl2].
Qed.

(** ** The parser as a whole *)

Definition conf_of (t : test) : conf :=
  Conf (expected_rc t) (expected_sig t) (timeout t) (disabled t) (ignored t) [] [].

Lemma conf_of_rep b m t :
  caps_required t = [] → n_caps_required t = 0%nat → conf_rep b m t (conf_of t).
Proof. intros Hc Hn. split; try done; [by rewrite Hc|]. rewrite Hc. by constructor. Qed.

Lemma nul_free_path dir file : nul_free (dir ++ "/"%char :: file) → nul_free dir ∧ nul_free file.
Proof. rewrite nul_free_app, nul_free_cons. tauto. Qed.

Lemma strrchr_path dir file :
  nul_free (dir ++ "/"%char :: file) → "/"%char ∉ file →
  strrchr ((dir ++ "/"%char :: file) ++ [NUL]) "/"%char = Ok (Some (length dir)).
Proof. intros Hn Hs. rewrite <- app_assoc, <- app_comm_cons. by apply strrchr_found. Qed.

Lemma conf_buffer_split stack content g r :
  (length content < CONF_BUF)%nat → drop (length content) stack = g ++ NUL :: r →
  conf_buffer stack content = (content ++ g) ++ NUL :: r.
Proof. intros Hl Hd. unfold conf_buffer. rewrite take_ge by lia. by rewrite Hd, app_assoc. Qed.

Lemma test_read_config_refines_lemma read_file stack t dir file content g r :
  path t = dir ++ "/"%char :: file → nul_free (path t) → "/"%char ∉ file → newline_c ∉ file →
  caps_required t = [] → n_caps_required t = 0%nat →
  read_file (dir ++ lit "/tests.conf") = Some (Some content) →
  (length content < CONF_BUF)%nat → nul_free (content ++ g) →
  drop (length content) stack = g ++ NUL :: r →
  refines (S (length (content ++ g))) t (test_read_config read_file stack t)
    (conf_spec file (content ++ g) (conf_of t)).
Proof.
  intros Hp Hn Hs Hnl Hc Hnc Hrf Hl Hcn Hd. unfold test_read_config.
  rewrite Hp in *. rewrite strrchr_path by done. cbn [mbind res_bind].
  rewrite take_app_length, Hrf.
  replace (drop (S (length dir)) (dir ++ "/"%char :: file)) with file
    by (by rewrite cons_middle, app_assoc, drop_app_length' by len).
  rewrite (conf_buffer_split _ _ _ _ Hl Hd).
  apply newline_free_not_in in Hnl. apply nul_free_path in Hn as [_ Hfn].
  unfold refines, conf_spec. cbv beta iota zeta.
  pose proof (conf_loop_refines file (S (length ((content ++ g) ++ NUL :: r))) t
    ((content ++ g) ++ NUL :: r) 0 (content ++ g) r (conf_of t) Hnl Hfn eq_refl Hcn
    ltac:(rewrite (length_app (content ++ g)); lia) (conf_of_rep _ _ _ Hc Hnc)) as H.
  cbn [c_err conf_of] in H.
  destruct (apply_words _ _) as [c'| |]; try done.
  destruct H as (t' & m' & -> & ? & ? & _). by exists t', m'.
Qed.

(** C2 [test_read_config_refines]: on a configuration file of [content] that
    fits the buffer, for the test [file] of the directory [dir],
    [test_read_config] computes the configuration that the specification gives
    for the text [content ++ g], where [g] is what the stack held after the
    bytes read, up to its first NUL (empty when the stack is clean): comments,
    [file:] and star lines, words split on blanks, flags, numbers and (inverted)
    capabilities; it fails exactly when a number does not fit an int. *)
Theorem test_read_config_refines read_file stack t dir file content g r :
  path t = dir ++ "/"%char :: file → nul_free (path t) → "/"%char ∉ file → newline_c ∉ file →
  caps_required t = [] → n_caps_required t = 0%nat →
  read_file (dir ++ lit "/tests.conf") = Some (Some content) →
  (length content < CONF_BUF)%nat → nul_free (content ++ g) →
  drop (length content) stack = g ++ NUL :: r →
  refines (S (length (content ++ g))) t (test_read_config read_file stack t)
    (conf_spec file (content ++ g) (conf_of t)).
Proof. exact (test_read_config_refines_lemma read_file stack t dir file content g r). Qed.

Lemma test_read_config_refines_witness :
  let t := test_create (lit "tests/00/03-skip") TEST_TYPE_TEST in
  let content := lit "03-skip: disabled timeout=7" ++ [newline_c] in
  refines (S (length (content ++ []))) t
    (test_read_config (λ _, Some (Some content)) (replicate CONF_BUF NUL) t)
    (conf_spec (lit "03-skip") (content ++ []) (conf_of t)) ∧
  conf_spec (lit "03-skip") (content ++ []) (conf_of t) = Ok (Conf 0 0 7 1 0 [] []).
Proof.
  intros t content. split; [|vm_compute; reflexivity].
  apply (test_read_config_refines (λ _, Some (Some content)) (replicate CONF_BUF NUL) t
    (lit "tests/00") (lit "03-skip") content [] (replicate 4067 NUL));
    first [nul_free_lit | vm_compute; reflexivity | apply (bool_decide_unpack _); vm_compute; exact I].
Defined.
