(* ===== verification/FindTests.v ===== *)
(** * Finding the tests (bin/run-tests.c, [find_tests])

    The breadth-first walk over the directories, [is_test], and the sort by
    path.  The file system is a pair of functions, [opendir] with the names
    [readdir] gives, and [stat]; the specification ([tests_below]) walks a
    finite tree of which the file system is the image. *)

From S2P Require Import Prelude CString TestModel.

Local Open Scope Z_scope.

(** ** File modes *)

Definition S_IFMT : Z := 0xF000.
Definition S_IFREG : Z := 0x8000.
Definition S_IFDIR : Z := 0x4000.
Definition S_IXUSR : Z := 0x40.

Definition S_ISREG (m : Z) : bool := Z.land m S_IFMT =? S_IFREG.
Definition S_ISDIR (m : Z) : bool := Z.land m S_IFMT =? S_IFDIR.

(** Character [i] of a C string; the terminator is NUL. *)
Definition char_at (s : bytes) (i : nat) : ascii := default NUL (s !! i).

Definition is_test (file : bytes) (st_mode : Z) : bool :=
  S_ISREG st_mode && negb (Z.land st_mode S_IXUSR =? 0)
  && isdigit (char_at file 0) && isdigit (char_at file 1).

Definition qsort_testcmp (a b : test) : res Z := strcmp (path a ++ [NUL]) (path b ++ [NUL]).

(** The order [qsort] sorts by. *)
Definition test_le (a b : test) : Prop :=
  match qsort_testcmp a b with Ok z => z ≤ 0 | _ => False end.

#[global] Instance test_le_dec a b : Decision (test_le a b).
Proof. unfold test_le. destruct (qsort_testcmp a b); apply _. Defined.

Section find_tests.
(** [opendir] and the names [readdir] returns, in its order; [st_mode] of
    [stat], [None] when it fails. *)
Context (opendir : bytes → option (list bytes)) (stat : bytes → option Z).

(** One pass of [while ((dirent = readdir(dir)))] over the names [files]. *)
Fixpoint scan_dir (dir : bytes) (type : test_type) (files : list bytes)
    (dirs : list bytes) (tests : list test) : list bytes * list test :=
  match files with
  | [] => (dirs, tests)
  | file :: files =>
      if decide (char_at file 0 = "."%char) then scan_dir dir type files dirs tests
      else
        let p := dir ++ lit "/" ++ file in
        match stat p with
        | None => scan_dir dir type files dirs tests
        | Some st_mode =>
            if S_ISDIR st_mode then scan_dir dir type files (dirs ++ [p]) tests
            else if is_test file st_mode then
              scan_dir dir type files dirs (tests ++ [test_create p type])
            else scan_dir dir type files dirs tests
        end
  end.

(** [for (d = 0; d < n_dirs; d++)]; [None] is the return of NULL. *)
Fixpoint find_loop (fuel : nat) (type : test_type) (d : nat)
    (dirs : list bytes) (tests : list test) : res (option (list test)) :=
  match dirs !! d with
  | None => Ok (Some tests)
  | Some dir =>
      match fuel with
      | O => OutOfFuel
      | S fuel =>
          match opendir dir with
          | None => Ok None
          | Some files =>
              let '(dirs, tests) := scan_dir dir type files dirs tests in
              find_loop fuel type (S d) dirs tests
          end
      end
  end.

(** The array returned, without the NULL that ends it. *)
Definition find_tests (fuel : nat) (testpath : bytes) (type : test_type)
    : res (option (list test)) :=
  o ← find_loop fuel type 0 [testpath] [];
  Ok (option_map (merge_sort test_le) o).
End find_tests.

(** ** Specification: a finite tree *)

(** An entry of a directory; [Gone] is an entry [stat] fails on. *)
Inductive node :=
| Dir (mode : Z) (entries : list (bytes * node))
| File (mode : Z)
| Gone.

Abbreviation entries := (list (bytes * node)).

Definition hidden (file : bytes) : Prop := char_at file 0 = "."%char.

Definition join (dir file : bytes) : bytes := dir ++ lit "/" ++ file.

(** The test files of one directory. *)
Definition tests_here (p : bytes) (es : entries) : list bytes :=
  es ≫= λ e, match e.2 with
             | File m => if decide (hidden e.1) then [] else
                         if is_test e.1 m then [join p e.1] else []
             | _ => []
             end.

(** Its sub-directories, with their entries. *)
Definition subdirs (p : bytes) (es : entries) : list (bytes * entries) :=
  es ≫= λ e, match e.2 with
             | Dir _ es' => if decide (hidden e.1) then [] else [(join p e.1, es')]
             | _ => []
             end.

(** All the test files below a node, depth first. *)
Fixpoint node_tests (p : bytes) (file : bytes) (n : node) : list bytes :=
  if decide (hidden file) then [] else
  match n with
  | Gone => []
  | File m => if is_test file m then [join p file] else []
  | Dir _ es => concat (map (λ e, node_tests (join p file) e.1 e.2) es)
  end.

Definition tests_below (p : bytes) (es : entries) : list bytes :=
  concat (map (λ e, node_tests p e.1 e.2) es).

(** Number of directories opened below a node. *)
Fixpoint node_dirs (file : bytes) (n : node) : nat :=
  if decide (hidden file) then O else
  match n with
  | Dir _ es => S (sum_list_with (λ e, node_dirs e.1 e.2) es)
  | _ => O
  end.

Definition dirs_below (es : entries) : nat := S (sum_list_with (λ e, node_dirs e.1 e.2) es).

(** The file system shows the tree [es] at [p]. *)
Fixpoint node_shown (opendir : bytes → option (list bytes)) (stat : bytes → option Z)
    (p file : bytes) (n : node) : Prop :=
  ¬ hidden file →
  match n with
  | Gone => stat (join p file) = None
  | File m => stat (join p file) = Some m ∧ S_ISDIR m = false
  | Dir m es =>
      stat (join p file) = Some m ∧ S_ISDIR m = true ∧
      opendir (join p file) = Some (map fst es) ∧
      foldr and True (map (λ e, node_shown opendir stat (join p file) e.1 e.2) es)
  end.

Definition dir_shown (opendir : bytes → option (list bytes)) (stat : bytes → option Z)
    (p : bytes) (es : entries) : Prop :=
  opendir p = Some (map fst es) ∧
  foldr and True (map (λ e, node_shown opendir stat p e.1 e.2) es).

(** ** Lemmas *)

Section proofs.
Context (opendir : bytes → option (list bytes)) (stat : bytes → option Z).

Implicit Types (es : entries) (pend : list (bytes * entries)).

Abbreviation shown := (node_shown opendir stat).
Abbreviation dshown := (dir_shown opendir stat).

Lemma scan_dir_spec dir type es dirs tests :
  foldr and True (map (λ e, shown dir e.1 e.2) es) →
  scan_dir stat dir type (map fst es) dirs tests =
  (dirs ++ map fst (subdirs dir es),
   tests ++ map (λ p, test_create p type) (tests_here dir es)).
Proof.
  revert dirs tests. induction es as [|[file n] es IH]; intros dirs tests Hs.
  { cbn. by rewrite !app_nil_r. }
  destruct Hs as [Hn Hs]. cbn [map scan_dir fst]. unfold subdirs, tests_here. cbn [mbind list_bind fst snd].
  fold (subdirs dir es) (tests_here dir es). fold (join dir file).
  case_decide as Hh.
  { rewrite IH by done. assert (hidden file) as Hh' by done.
    destruct n; cbn; rewrite ?(decide_True _ _ Hh'); done. }
  assert (¬ hidden file) as Hh' by done.
  destruct n as [m es'|m|]; cbn in Hn; specialize (Hn Hh').
  - destruct Hn as (-> & -> & _). rewrite IH by done. rewrite (decide_False _ _ Hh').
    cbn. by rewrite <- app_assoc.
  - destruct Hn as [-> ->]. rewrite (decide_False _ _ Hh'). destruct (is_test file m).
    + rewrite IH by done. cbn. by rewrite <- app_assoc.
    + by rewrite IH.
  - rewrite Hn. by rewrite IH.
Qed.

Lemma tests_below_split p es :
  tests_below p es ≡ₚ tests_here p es ++ (subdirs p es ≫= λ d, tests_below d.1 d.2).
Proof.
  unfold tests_below, tests_here, subdirs.
  induction es as [|[file n] es IH]; [done|]. cbn [map concat mbind list_bind fst snd].
  rewrite IH. destruct n as [m es'|m|]; cbn [node_tests].
  - case_decide; [done|]. cbn. by rewrite Permutation_app_swap_app.
  - case_decide; [done|]. by rewrite <- app_assoc.
  - by case_decide.
Qed.

Lemma dirs_below_split es p :
  dirs_below es = S (sum_list_with (λ d, dirs_below d.2) (subdirs p es)).
Proof.
  unfold dirs_below, subdirs. f_equal.
  induction es as [|[file n] es IH]; [done|]. cbn [sum_list_with mbind list_bind fst snd].
  rewrite IH. destruct n as [m es'|m|]; cbn [node_dirs]; case_decide; done.
Qed.

Lemma subdirs_shown p es :
  foldr and True (map (λ e, shown p e.1 e.2) es) →
  Forall (λ d, dshown d.1 d.2) (subdirs p es).
Proof.
  induction es as [|[file n] es IH]; intros Hs; [constructor|]. destruct Hs as [Hn Hs].
  unfold subdirs. cbn [mbind list_bind fst snd]. apply Forall_app. split; [|by apply IH].
  destruct n as [m es'|m|]; [|constructor..]. case_decide as Hh; [constructor|].
  constructor; [|constructor]. cbn in Hn. by destruct (Hn Hh) as (_ & _ & ? & ?).
Qed.

(** From any point of the walk: [pend] are the directories still to open. *)
Lemma find_loop_spec type pend fuel d dirs tests :
  drop d dirs = map fst pend → Forall (λ p, dshown p.1 p.2) pend →
  (sum_list_with (λ p, dirs_below p.2) pend ≤ fuel)%nat →
  ∃ ps, find_loop opendir stat fuel type d dirs tests =
          Ok (Some (tests ++ map (λ p, test_create p type) ps)) ∧
        ps ≡ₚ pend ≫= λ p, tests_below p.1 p.2.
Proof.
  revert pend d dirs tests. induction fuel as [|fuel IH]; intros pend d dirs tests Hd Hs Hf.
  - destruct pend as [|[p es] pend]; [|cbn in Hf; lia].
    assert (dirs !! d = None) as Hn.
    { apply lookup_ge_None. apply (f_equal length) in Hd. rewrite length_drop in Hd. cbn in Hd. lia. }
    exists []. cbn. rewrite Hn. by rewrite app_nil_r.
  - destruct pend as [|[p es] pend].
    { assert (dirs !! d = None) as Hn.
      { apply lookup_ge_None. apply (f_equal length) in Hd. rewrite length_drop in Hd. cbn in Hd. lia. }
      exists []. cbn. rewrite Hn. by rewrite app_nil_r. }
    apply drop_cons_lookup in Hd as [Hp Hd]. cbn [find_loop]. rewrite Hp.
    apply Forall_cons in Hs as [[Ho Hes] Hs]. cbn in Ho, Hes. cbn [fst]. rewrite Ho.
    rewrite scan_dir_spec by done.
    destruct (IH (pend ++ subdirs p es) (S d) (dirs ++ map fst (subdirs p es))
      (tests ++ map (λ p, test_create p type) (tests_here p es))) as (ps & -> & Hps).
    + rewrite drop_app_le by (apply lookup_lt_Some in Hp; lia). by rewrite Hd, map_app.
    + apply Forall_app. split; [done|by apply subdirs_shown].
    + cbn [sum_list_with snd] in Hf. rewrite (dirs_below_split es p) in Hf.
      rewrite sum_list_with_app. lia.
    + exists (tests_here p es ++ ps). rewrite map_app, <- app_assoc. split; [done|].
      rewrite Hps, bind_app. cbn [mbind list_bind fst snd]. rewrite (tests_below_split p es).
      rewrite <- app_assoc. by rewrite (Permutation_app_comm (pend ≫= _)).
Qed.
End proofs.

(** Every test of the walk is fresh. *)
Lemma find_loop_fresh opendir stat fuel type d dirs tests l :
  find_loop opendir stat fuel type d dirs tests = Ok (Some l) →
  Forall (λ t, result t = TEST_NOTRUN) tests → Forall (λ t, result t = TEST_NOTRUN) l.
Proof.
  assert (∀ dir files dirs tests,
    Forall (λ t, result t = TEST_NOTRUN) tests →
    Forall (λ t, result t = TEST_NOTRUN) (scan_dir stat dir type files dirs tests).2) as Hscan.
  { intros dir files. induction files as [|f files IH]; intros ds ts Ht; cbn; [done|].
    repeat case_match; try (by apply IH). apply IH, Forall_app. split; [done|by repeat constructor]. }
  revert d dirs tests. induction fuel as [|fuel IH]; intros d dirs tests; cbn [find_loop].
  - by destruct (dirs !! d); [|intros [= <-]].
  - destruct (dirs !! d) as [dir|]; [|by intros [= <-]].
    destruct (opendir dir) as [files|]; [|done].
    intros Hl Ht. specialize (Hscan dir files dirs tests Ht).
    destruct (scan_dir stat dir type files dirs tests) as [ds ts]. by eapply IH.
Qed.

(** ** The order of the tests *)

Lemma split_first_NUL (s : bytes) :
  nul_free s ∨ ∃ a r, s = a ++ NUL :: r ∧ nul_free a.
Proof.
  induction s as [|c s IH]; [left; apply nul_free_nil|].
  destruct (decide (c = NUL)) as [->|Hc].
  - right. exists [], s. split; [done|apply nul_free_nil].
  - destruct IH as [IH|(a & r & -> & Ha)]; [left; by apply nul_free_cons|].
    right. exists (c :: a), r. split; [done|by apply nul_free_cons].
Qed.

Lemma cstr_term s : ∃ s0 r, s ++ [NUL] = s0 ++ NUL :: r ∧ nul_free s0.
Proof.
  destruct (split_first_NUL s) as [Hs|(a & r & -> & Ha)].
  - by exists s, [].
  - exists a, (r ++ [NUL]). by rewrite <- app_assoc.
Qed.

Lemma test_le_str_cmp a b :
  ∃ s t, (test_le a b ↔ str_cmp s t ≤ 0) ∧ (test_le b a ↔ str_cmp t s ≤ 0).
Proof.
  unfold test_le, qsort_testcmp.
  destruct (cstr_term (path a)) as (s & r & -> & Hs), (cstr_term (path b)) as (t & r' & -> & Ht).
  exists s, t. by rewrite !strcmp_str_cmp.
Qed.

#[global] Instance test_le_total : Total test_le.
Proof.
  intros a b. destruct (test_le_str_cmp a b) as (s & t & -> & ->).
  rewrite (str_cmp_antisym t s). lia.
Qed.

#[global] Instance test_le_trans : Transitive test_le.
Proof.
  intros a b c. unfold test_le, qsort_testcmp.
  destruct (cstr_term (path a)) as (s & r1 & -> & Hs), (cstr_term (path b)) as (t & r2 & -> & Ht),
    (cstr_term (path c)) as (u & r3 & -> & Hu).
  rewrite !strcmp_str_cmp by done. by apply str_cmp_trans.
Qed.

Lemma find_tests_lemma opendir stat fuel p es type :
  dir_shown opendir stat p es → (dirs_below es ≤ fuel)%nat →
  ∃ l, find_tests opendir stat fuel p type = Ok (Some l) ∧
       map path l ≡ₚ tests_below p es ∧
       StronglySorted test_le l ∧
       Forall (λ t, t = test_create (path t) type) l.
Proof.
  intros Hs Hf. unfold find_tests.
  destruct (find_loop_spec opendir stat type [(p, es)] fuel 0 [p] []) as (ps & -> & Hps);
    [done|by apply Forall_singleton|cbn [sum_list_with snd]; lia|].
  cbn. eexists. split; [done|].
  assert (merge_sort test_le (map (λ p0, test_create p0 type) ps)
          ≡ₚ map (λ p0, test_create p0 type) ps) as Hp by apply merge_sort_Permutation.
  split_and!.
  - rewrite Hp, map_map, map_id, Hps. cbn. by rewrite app_nil_r.
  - apply StronglySorted_merge_sort; apply _.
  - rewrite Hp. apply Forall_map, Forall_true. done.
Qed.

(** C10 [find_tests_complete]: when the directory shows a finite tree,
    [find_tests] returns (the walk ends after as many steps as there are
    directories) exactly the regular files with the execute bit whose names
    start with two digits, in directories and files that do not start with a
    dot, each once, as fresh tests of the given type, sorted by path. *)
Theorem find_tests_complete opendir stat fuel p es type :
  dir_shown opendir stat p es → (dirs_below es ≤ fuel)%nat →
  ∃ l, find_tests opendir stat fuel p type = Ok (Some l) ∧
       map path l ≡ₚ tests_below p es ∧
       StronglySorted test_le l ∧
       Forall (λ t, t = test_create (path t) type) l.
Proof. exact (find_tests_lemma opendir stat fuel p es type). Qed.

(** A small directory: two tests, a helper without digits, a hidden file, a
    file without the execute bit, and a sub-directory with one test. *)
Definition sample_tree : entries := [
  (lit "02-b", File 0x81ED); (lit ".git", Gone); (lit "helper", File 0x81ED);
  (lit "sub", Dir 0x41ED [(lit "01-x", File 0x81ED)]);
  (lit "01-a", File 0x81ED); (lit "03-data", File 0x81A4)].

Definition sample_opendir (p : bytes) : option (list bytes) :=
  if decide (p = lit "t") then Some (map fst sample_tree)
  else if decide (p = lit "t/sub") then Some [lit "01-x"] else None.

Definition sample_stat (p : bytes) : option Z :=
  if decide (p = lit "t/sub") then Some 0x41ED
  else if decide (p ∈ [lit "t/02-b"; lit "t/helper"; lit "t/01-a"; lit "t/sub/01-x"]) then Some 0x81ED
  else if decide (p = lit "t/03-data") then Some 0x81A4 else None.

Lemma find_tests_complete_witness :
  ∃ l, find_tests sample_opendir sample_stat 2 (lit "t") TEST_TYPE_TEST = Ok (Some l) ∧
       map path l ≡ₚ tests_below (lit "t") sample_tree ∧
       StronglySorted test_le l ∧
       Forall (λ t, t = test_create (path t) TEST_TYPE_TEST) l.
Proof.
  apply (find_tests_complete sample_opendir sample_stat 2 (lit "t") sample_tree TEST_TYPE_TEST).
  - vm_compute. repeat split; intros Hh; exact (Hh eq_refl).
  - vm_compute. lia.
Defined.

(** [find_tests_not_a_directory]: on anything [opendir] refuses (a missing
    path, but also the path of a single test file) there are no tests. *)
Theorem find_tests_not_a_directory opendir stat fuel p type :
  opendir p = None → find_tests opendir stat (S fuel) p type = Ok None.
Proof. intros Hp. unfold find_tests. cbn. by rewrite Hp. Qed.

Lemma find_tests_not_a_directory_witness :
  find_tests sample_opendir sample_stat 1 (lit "t/01-a") TEST_TYPE_TEST = Ok None.
Proof. apply (find_tests_not_a_directory sample_opendir sample_stat 0). vm_compute. reflexivity. Defined.
