(* ===== verification/RunTest.v ===== *)
(** * Running one test (bin/run-tests.c)

    [read_test_output], [dmesg_check] and [run_test].  What the kernel answers
    is explicit: a [tick] has the answers of one round of the [for (;;)] loop of
    [run_test], a [klog] those of [klogctl], a [launch] those of the calls
    before the loop.  What the process does is a list of [action]s. *)

From S2P Require Import Prelude CString Interfaces TestModel TestConf.

Local Open Scope Z_scope.

Inductive action :=
| Stdout (s : bytes)
| Stderr (s : bytes)
| Perror (call : String.string)
| Poll (timeout : Z)
| Kill (pid sig : Z)
| Close (fd : Z).

#[global] Instance action_eq_dec : EqDecision action.
Proof. solve_decision. Defined.

(** ** Constants of the system *)

Definition MAX_TALLOC_SIZE : Z := 0x10000000.
Definition POLLERR : Z := 8.
Definition EINTR : Z := 4.
Definition SIGALRM : Z := 14.
Definition CLD_EXITED : Z := 1.
Definition CLD_KILLED : Z := 2.
Definition CLD_DUMPED : Z := 3.

Record timeval := Timeval { tv_sec : Z; tv_usec : Z }.

(** [timercmp(a, b, >)]. *)
Definition timer_gt (a b : timeval) : bool :=
  if tv_sec a =? tv_sec b then tv_usec b <? tv_usec a else tv_sec b <? tv_sec a.

(** [talloc_realloc(ctx, old, char, n)] of a block: NULL for sizes that talloc
    refuses or frees; the bytes past the old ones are what [junk] says. *)
Definition realloc_chars (old : option bytes) (n : Z) (junk : bytes) : option bytes :=
  if (n <=? 0) || (MAX_TALLOC_SIZE <=? n) then None
  else Some (resize (Z.to_nat n) NUL (default [] old ++ junk)).

(** ** [read_test_output] *)

Definition readsize : Z := 4096.

(** The answers of [poll] and [read], and the contents of fresh memory. *)
Record poll_ans := PollAns {
  p_rc : Z; p_errno : Z; p_revents : Z;
  r_rc : Z; r_data : bytes;
  p_junk : bytes;
}.

(** [read] into [buf + len]: a NULL [buf] makes it fail (EFAULT). *)
Definition read_into (o : test_output) (a : poll_ans) : Z :=
  match buf o with None => -1 | Some _ => r_rc a end.

(** Room for [readsize] more bytes. *)
Definition grow_output (o : test_output) (junk : bytes) : test_output :=
  if bufsize o - len o <? readsize then
    let alloc_size := Z.max readsize (bufsize o * 2) in
    TestOutput (realloc_chars (buf o) alloc_size junk) (len o) alloc_size
  else o.

(** The kernel stores [data] at [buf + at]; outside the block it is [UB]. *)
Definition store (b : option bytes) (off : Z) (data : bytes) : res (option bytes) :=
  match b with
  | None => UB
  | Some m =>
      if decide (0 ≤ off ∧ (Z.to_nat off + length data ≤ length m)%nat) then
        Ok (Some (take (Z.to_nat off) m ++ data ++ drop (Z.to_nat off + length data) m))
      else UB
  end.

Definition read_test_output (t : test) (timeout : Z) (a : poll_ans)
    : res (Z * test * list action) :=
  let po := Poll timeout in
  if p_rc a <? 0 then
    Ok (0, t, po :: if p_errno a =? EINTR then [] else [Perror "poll"])
  else if p_rc a =? 0 then Ok (0, t, [po])
  else if negb (0 <? stdout_fd (run t)) then UB
  else if negb (Z.land (p_revents a) POLLERR =? 0) then Ok (-1, t, [po])
  else
    let o := grow_output (output t) (p_junk a) in
    let rc := read_into o a in
    if rc <? 0 then Ok (-1, set_output o t, [po; Perror "read"])
    else if rc =? 0 then Ok (-1, set_output o t, [po])
    else
      b ← store (buf o) (len o) (r_data a);
      Ok (0, set_output (TestOutput b (len o + rc) (bufsize o)) t, [po]).

(** ** [dmesg_check] *)

(** The static variables [buf] and [bufsize]. *)
Record dmesg := Dmesg { dm_buf : option bytes; dm_bufsize : Z }.

Definition dmesg_init : dmesg := Dmesg None 0.

(** [klogctl(10)], [klogctl(3)] and its data, fresh memory. *)
Record klog := Klog { kl_size : Z; kl_rc : Z; kl_data : bytes; kl_junk : bytes }.

Fixpoint is_infix (p s : bytes) : bool :=
  bool_decide (p `prefix_of` s) || match s with [] => false | _ :: s => is_infix p s end.

(** [strstr(m, p) != NULL]. *)
Definition strstr (m p : bytes) : res bool := s ← cstr m; Ok (is_infix p s).

(** The result ([-1], [0] or [1]), the static state and the calls. *)
Definition dmesg_check (d : dmesg) (k : klog) : res (Z * dmesg * list action) :=
  let d := if kl_size k =? dm_bufsize d then d
           else Dmesg (realloc_chars (dm_buf d) (kl_size k) (kl_junk k)) (kl_size k) in
  if kl_rc k <? 0 then Ok (-1, d, [Perror "klogctl"])
  else
    b ← (if decide (kl_data k = []) then Ok (dm_buf d) else store (dm_buf d) 0 (kl_data k));
    m ← of_option b;
    f ← strstr m (lit "Badness");
    Ok (if f : bool then 1 else 0, Dmesg b (dm_bufsize d), []).

(** ** The exit status of the test *)

Record siginfo := Siginfo { si_pid : Z; si_code : Z; si_status : Z }.

Definition fail_with (t : test) (msg : bytes) : res (Z * test * list action) :=
  '(t, s) ← test_fail t msg; Ok (-1, t, [Stdout s]).

Definition pass_with (t : test) : res (Z * test * list action) :=
  '(t, s) ← test_pass t; Ok (0, t, [Stdout s]).

(** The branches on [siginfo]; [rc] is 0 on entry, from [waitid]. *)
Definition check_exit (t : test) (d : dmesg) (k : klog) (i : siginfo)
    : res (Z * test * dmesg * list action) :=
  if si_code i =? CLD_EXITED then
    if negb (si_status i =? expected_rc t) then
      '(rc, t, a) ← fail_with t (lit "rc " ++ fmt_d (si_status i) ++ lit ", expected "
                                   ++ fmt_d (expected_rc t));
      Ok (rc, t, d, a)
    else if negb (expected_sig t =? 0) then
      '(rc, t, a) ← fail_with t (lit "expected sig " ++ fmt_d (expected_sig t));
      Ok (rc, t, d, a)
    else
      '(dm, d, a0) ← dmesg_check d k;
      if negb (dm =? 0) then
        '(rc, t, a) ← fail_with t (lit "dmesg"); Ok (rc, t, d, a0 ++ a)
      else '(rc, t, a) ← pass_with t; Ok (rc, t, d, a0 ++ a)
  else if si_code i =? CLD_KILLED then
    if si_status i =? expected_sig t then '(rc, t, a) ← pass_with t; Ok (rc, t, d, a)
    else if si_status i =? SIGALRM then
      '(rc, t, a) ← fail_with t (lit "timeout"); Ok (rc, t, d, a)
    else
      '(rc, t, a) ← fail_with t (lit "killed, sig " ++ fmt_d (si_status i));
      Ok (rc, t, d, a)
  else Ok (0, t, d, []).

(** ** The loop *)

(** The answers of one round: [waitid], [gettimeofday], and those of
    [read_test_output] and [dmesg_check]. *)
Record tick := Tick {
  tk_waitid : Z; tk_info : siginfo; tk_now : timeval; tk_poll : poll_ans; tk_klog : klog;
}.

Definition set_pid (p : Z) (t : test) : test := set_run (TestRun (stdout_fd (run t)) (Some p)) t.

(** [inl rc]: the loop ended with [rc]; [inr tt]: another round. *)
Definition run_round (enable_timeout : bool) (deadline : timeval) (t : test) (d : dmesg) (k : tick)
    : res ((Z + unit) * test * dmesg * list action) :=
  p ← of_option (pid (run t));
  if negb (tk_waitid k =? 0) then Ok (inl (tk_waitid k), t, d, [Perror "waitpid"])
  else if negb (si_pid (tk_info k) =? 0) then
    '(rc, t, d, a) ← check_exit t d (tk_klog k) (tk_info k);
    Ok (inl rc, set_pid 0 t, d, a)
  else
    let a := if enable_timeout && timer_gt (tk_now k) deadline then [Kill p SIGALRM] else [] in
    let timeout := wraps 32 (1 + 1000 * (tv_sec deadline - tv_sec (tk_now k))) in
    '(_, t, a') ← read_test_output t timeout (tk_poll k);
    Ok (inr tt, t, d, a ++ a').

(** Rounds until the loop ends; [None] when the answers are used up and the
    runner still waits. *)
Fixpoint run_loop (enable_timeout : bool) (deadline : timeval) (ks : list tick)
    (t : test) (d : dmesg) : res (option Z * test * dmesg * list action) :=
  match ks with
  | [] => Ok (None, t, d, [])
  | k :: ks =>
      '(r, t, d, a) ← run_round enable_timeout deadline t d k;
      match r with
      | inl rc => Ok (Some rc, t, d, a)
      | inr tt =>
          '(rc, t, d, a') ← run_loop enable_timeout deadline ks t d;
          Ok (rc, t, d, a ++ a')
      end
  end.

(** ** [run_test] *)

(** The answers before the loop: [pipe] (the two descriptors), [fork] (in the
    parent), [sigaction] and [gettimeofday]; [l_stack] is the stack under the
    line buffer, [l_frame] what is left of the line buffer when the capability
    names are read. *)
Record launch := Launch {
  l_stack : bytes; l_frame : bytes → bytes;
  l_pipe : option (Z * Z); l_fork : Z; l_sigaction : Z; l_now : timeval;
}.

Section run_test.
Context (read_file : bytes → option (option bytes)).
Context {S : Type} `{CapService S}.

Definition run_test (enable_timeout : bool) (l : launch) (ks : list tick)
    (t : test) (s : S) (d : dmesg) : res (option Z * test * S * dmesg * list action) :=
  let head := [Stdout (test_header t)] in
  '(t, m, err) ← test_read_config read_file (l_stack l) t;
  '(b, t, s, out) ← test_should_run (l_frame l m) s t;
  let head := head ++ [Stderr err] in
  if negb b : bool then Ok (Some 0, t, s, d, head ++ [Stdout out])
  else
    match l_pipe l with
    | None => Ok (Some (-1), t, s, d, head ++ [Perror "pipe"])
    | Some (rd, wr) =>
        let t := set_run (TestRun rd (Some (l_fork l))) t in
        if l_fork l <? 0 then Ok (Some (-1), t, s, d, head ++ [Perror "fork"])
        else if negb (l_sigaction l =? 0) then
          Ok (Some (-1), t, s, d, head ++ [Close wr; Perror "sigaction"])
        else
          let deadline := Timeval (tv_sec (l_now l) + timeout t) (tv_usec (l_now l)) in
          '(rc, t, d, a) ← run_loop enable_timeout deadline ks t d;
          Ok (rc, t, s, d, head ++ [Close wr] ++ a ++
                (if rc is Some _ then [Close rd] else []))
    end.
End run_test.

(** ** The child *)

(** The process after [fork] returned 0: [execl] of a path with an environment,
    or an exit. *)
Inductive child :=
| Exec (arg : bytes) (env_path : option bytes)
| Exit_failure (call : String.string).

(** [dup2] twice, [fchdir], and the value of PATH ([printf] shows a NULL
    argument as "(null)"). *)
Definition run_child (p : bytes) (dup2_out dup2_err fchdir : Z) (env_path : option bytes)
    : res child :=
  if dup2_out <? 0 then Ok (Exit_failure "dup 2")
  else if dup2_err <? 0 then Ok (Exit_failure "dup 1")
  else if negb (fchdir =? 0) then Ok (Exit_failure "fchdir")
  else
    c ← strrchr (p ++ [NUL]) "/"%char;
    let new_path :=
      match c with
      | Some i => Some (lit "../" ++ take i p ++ lit ":" ++ default (lit "(null)") env_path)
      | None => env_path
      end in
    Ok (Exec (lit "../" ++ p) new_path).
