(* ===== verification/Requirements.v ===== *)
(** * Which tests run (bin/test.c, [test_should_run])

    [test_should_run] against the interface [CapService]: the decision is the
    conjunction of the requirements, and it stays the right one however the
    machine changes afterwards. *)

From S2P Require Import Prelude CString Interfaces TestModel.

Local Open Scope Z_scope.

Section requirements.
Context {S : Type} `{CapService S} `{!CapServiceLaws S}.

Implicit Types (s : S) (mem : bytes) (t : test) (r : required_cap).

(** The requirement [r] holds: the capability is there, or, inverted, it is not. *)
Definition met s mem r : Prop :=
  ∃ v, cap_settled s (drop (cap r) mem) v ∧ (v ≠ 0 ↔ invert r = 0).

Definition unmet s mem r : Prop :=
  ∃ v, cap_settled s (drop (cap r) mem) v ∧ ¬ (v ≠ 0 ↔ invert r = 0).

(** Any sequence of queries and changes of the machine. *)
Inductive cap_evolves : S → S → Prop :=
| evolves_refl s : cap_evolves s s
| evolves_query s nm v s' s'' :
    cap_query nm s = Ok (v, s') → cap_evolves s' s'' → cap_evolves s s''
| evolves_env s s' s'' : cap_env s s' → cap_evolves s' s'' → cap_evolves s s''.

Lemma settled_evolves s s' nm v : cap_evolves s s' → cap_settled s nm v → cap_settled s' nm v.
Proof.
  induction 1 as [|s nm' v' s' s'' Hq _ IH|s s' s'' He _ IH]; intros Hs; [done| |].
  - apply IH. by eapply cap_settled_query.
  - apply IH. by eapply cap_settled_env.
Qed.

Lemma evolves_trans s1 s2 s3 : cap_evolves s1 s2 → cap_evolves s2 s3 → cap_evolves s1 s3.
Proof. induction 1; [done| |]; intros; by econstructor; eauto. Qed.

Lemma met_evolves s s' mem r : cap_evolves s s' → met s mem r → met s' mem r.
Proof. intros He (v & Hs & Hv). exists v. split; [by eapply settled_evolves|done]. Qed.

Lemma unmet_evolves s s' mem r : cap_evolves s s' → unmet s mem r → unmet s' mem r.
Proof. intros He (v & Hs & Hv). exists v. split; [by eapply settled_evolves|done]. Qed.

Lemma met_not_unmet s mem r : met s mem r → unmet s mem r → False.
Proof.
  intros (v & Hv & Hm) (v' & Hv' & Hu). unfold cap_settled in *. rewrite Hv in Hv'.
  injection Hv' as <-. done.
Qed.

(** The test of the loop, [!!value == !!invert]. *)
Lemma requirement_fails v i :
  Bool.eqb (negb (v =? 0)) (negb (i =? 0)) = true ↔ ¬ (v ≠ 0 ↔ i = 0).
Proof. destruct (Z.eqb_spec v 0), (Z.eqb_spec i 0); cbn; naive_solver. Qed.

Lemma check_caps_spec mem rs s t b t' s' out :
  check_caps mem rs s t = Ok (b, t', s', out) →
  cap_evolves s s' ∧
  if b : bool then Forall (met s' mem) rs ∧ t' = t ∧ out = []
  else Exists (unmet s' mem) rs ∧ t' = set_result TEST_SKIPPED t.
Proof.
  revert s. induction rs as [|r rs IH]; intros s; cbn [check_caps].
  { intros [= <- <- <- <-]. by split; [constructor|]. }
  intros Hc. res_inv Hc. destruct a as [v s1].
  pose proof (cap_query_settles _ _ _ _ E) as Hs1.
  assert (cap_evolves s s1) as He by (econstructor; [done|constructor]).
  destruct (Bool.eqb _ _) eqn:Hb.
  - res_inv Hc. injection Hc as <- <- <- <-. split; [done|]. split; [|done].
    apply Exists_cons_hd. exists v. split; [done|]. by apply requirement_fails.
  - apply IH in Hc as [He' Hr]. split; [by eapply evolves_trans|].
    destruct b; [|destruct Hr; split; [by apply Exists_cons_tl|done]].
    destruct Hr as (Hr & -> & ->). split_and!; [constructor; [|done]|done..].
    eapply met_evolves; [done|]. exists v. split; [done|].
    apply dec_stable. intros Hn%requirement_fails. congruence.
Qed.

Lemma test_should_run_decides_lemma mem s t b t' s' out :
  test_should_run mem s t = Ok (b, t', s', out) →
  (∀ s'', cap_evolves s' s'' →
     (b = true ↔ disabled t = 0 ∧ Forall (met s'' mem) (take (n_caps_required t) (caps_required t)))) ∧
  (b = true → t' = t ∧ out = []) ∧
  (b = false → t' = set_result TEST_SKIPPED t).
Proof.
  unfold test_should_run. destruct (Z.eqb_spec (disabled t) 0) as [Hd|Hd]; cbn [negb].
  - case_decide; [|done]. intros [He Hr]%check_caps_spec. destruct b.
    + destruct Hr as (Hr & -> & ->). split_and!; try done. intros s'' He'. split; [intros _|done]. split; [done|].
      eapply Forall_impl; [exact Hr|]. intros r. by apply met_evolves.
    + destruct Hr as [Hr ->]. split_and!; try done. intros s'' He'. split; [done|]. intros [_ Hm].
      apply Exists_exists in Hr as (r & Hin & Hu). rewrite Forall_forall in Hm.
      destruct (met_not_unmet _ _ _ (Hm _ Hin) (unmet_evolves _ _ _ _ He' Hu)).
  - intros [= <- <- <- <-]. split_and!; [intros s'' _; by split; [|intros []]|done|done].
Qed.

(** C32 [test_should_run_decides]: whatever the table of capabilities answers,
    [test_should_run] lets the test run exactly when it is not disabled and each
    of its requirements (a capability that is there or, inverted, is not) holds
    in the table it leaves, and in every table that later queries and changes of
    the machine make of that one; it then changes nothing and prints nothing, and
    otherwise marks the test as skipped. *)
Theorem test_should_run_decides mem s t b t' s' out :
  test_should_run mem s t = Ok (b, t', s', out) →
  (∀ s'', cap_evolves s' s'' →
     (b = true ↔ disabled t = 0 ∧ Forall (met s'' mem) (take (n_caps_required t) (caps_required t)))) ∧
  (b = true → t' = t ∧ out = []) ∧
  (b = false → t' = set_result TEST_SKIPPED t).
Proof. exact (test_should_run_decides_lemma mem s t b t' s' out). Qed.

End requirements.
