(* ===== verification/RunTestProps.v ===== *)
(** * Correctness of the runner of one test

    The output buffer never overflows and holds what was read
    ([output_wf], [captured]); the loop ends with the verdict of the exit status
    ([verdict]); SIGALRM is sent in the rounds after the deadline and only
    there. *)

From S2P Require Import Prelude CString Interfaces TestModel TestConf RunTest.

Local Open Scope Z_scope.

(** ** The output buffer *)

(** A block of [bufsize] bytes, [len] of them filled; or NULL: nothing read
    yet, or talloc refused a block of [MAX_TALLOC_SIZE] bytes. *)
Record output_wf (o : test_output) : Prop := {
  wf_len : 0 ≤ len o;
  wf_size : bufsize o ≤ 2 * len o + 2 * readsize;
  wf_buf : match buf o with
           | Some b => Z.of_nat (length b) = bufsize o ∧ len o ≤ bufsize o ∧
                       readsize ≤ bufsize o < MAX_TALLOC_SIZE
           | None => (len o = 0 ∧ bufsize o = 0) ∨
                     (MAX_TALLOC_SIZE ≤ bufsize o < 2 * MAX_TALLOC_SIZE ∧
                      len o + readsize ≤ bufsize o)
           end;
}.

(** The bytes read so far. *)
Definition captured (o : test_output) : bytes := take (Z.to_nat (len o)) (default [] (buf o)).

(** What [read] promises: at most [readsize] bytes, as many as it says. *)
Definition ans_ok (a : poll_ans) : Prop :=
  r_rc a ≤ readsize ∧ (0 < r_rc a → Z.of_nat (length (r_data a)) = r_rc a).

Lemma grow_output_wf o junk :
  output_wf o →
  let o' := grow_output o junk in
  output_wf o' ∧ len o' = len o ∧ len o' + readsize ≤ bufsize o' ∧
  (buf o' = None ∨ captured o' = captured o).
Proof.
  intros [Hl Hz Hb]. unfold grow_output, readsize in *.
  destruct (Z.ltb_spec (bufsize o - len o) 4096) as [Hlt|Hge]; cbn zeta.
  2:{ split_and!; [by split|done|lia|by right]. }
  cbn [len bufsize]. unfold realloc_chars, MAX_TALLOC_SIZE in *.
  destruct (buf o) as [b|] eqn:E.
  - destruct Hb as (Hb1 & Hb2 & Hb3). rewrite Z.max_r by lia.
    destruct (Z.leb_spec (bufsize o * 2) 0); [lia|].
    destruct (Z.leb_spec 0x10000000 (bufsize o * 2)); cbn [orb].
    + split_and!; [|done|lia|by left]. split; cbn; [done|unfold readsize in *; lia|]. unfold readsize, MAX_TALLOC_SIZE. right. lia.
    + split_and!; [|done|lia|right].
      * split; cbn; [done|unfold readsize in *; lia|]. rewrite length_resize. unfold readsize, MAX_TALLOC_SIZE. lia.
      * unfold captured. cbn. rewrite E. cbn [default].
        rewrite take_resize_le by lia. rewrite resize_le by (rewrite length_app; lia).
        rewrite take_app_le by lia. done.
  - destruct Hb as [[Hb1 Hb2]|Hb]; [|lia]. rewrite (Z.max_l 4096) by lia.
    cbn [Z.leb Z.compare Pos.compare Pos.compare_cont orb].
    split_and!; [|done|lia|right].
    + split; cbn [len buf bufsize]; [done|unfold readsize in *; lia|]. rewrite length_resize. unfold readsize, MAX_TALLOC_SIZE. lia.
    + unfold captured. cbn [len buf]. by rewrite Hb1, E.
Qed.

Lemma store_ok m off data :
  0 ≤ off → (Z.to_nat off + length data ≤ length m)%nat →
  ∃ m', store (Some m) off data = Ok (Some m') ∧ length m' = length m ∧
        take (Z.to_nat off + length data) m' = take (Z.to_nat off) m ++ data.
Proof.
  intros Ho Hl. unfold store. rewrite decide_True by done. eexists. split; [done|]. split.
  - rewrite !length_app, length_take, length_drop. lia.
  - rewrite app_assoc. apply take_app_length'. rewrite length_app, length_take. lia.
Qed.

(** The configuration fields of a test, which the runner does not touch. *)
Definition same_config (t t' : test) : Prop :=
  type t' = type t ∧ path t' = path t ∧ expected_rc t' = expected_rc t ∧
  expected_sig t' = expected_sig t ∧ timeout t' = timeout t ∧ disabled t' = disabled t ∧
  ignored t' = ignored t ∧ caps_required t' = caps_required t ∧
  n_caps_required t' = n_caps_required t.

#[global] Instance same_config_preorder : PreOrder same_config.
Proof.
  split; [by intros ?; split_and!|].
  intros ??? (?&?&?&?&?&?&?&?&?) (?&?&?&?&?&?&?&?&?). split_and!; congruence.
Qed.

Definition no_kill (a : action) : Prop := match a with Kill _ _ => False | _ => True end.

(** What [read_test_output] leaves: the record but the buffer, no signal. *)
Definition read_frame (t t' : test) (acts : list action) : Prop :=
  same_config t t' ∧ run t' = run t ∧ result t' = result t ∧ Forall no_kill acts.

(** There is something to read. *)
Definition readable (a : poll_ans) : Prop := 0 < p_rc a ∧ Z.land (p_revents a) POLLERR = 0.

(** The buffer has room for one more read, or talloc grants it. *)
Definition fits (o : test_output) : Prop :=
  if bufsize o - len o <? readsize then Z.max readsize (bufsize o * 2) < MAX_TALLOC_SIZE else buf o ≠ None.

(** Up to 128 MB less one read it has, unless it was dropped. *)
Lemma fits_below o :
  output_wf o → len o < MAX_TALLOC_SIZE / 2 - readsize → (buf o = None → bufsize o = 0) → fits o.
Proof.
  intros [Hl Hz Hb] Hm Hn. unfold fits, MAX_TALLOC_SIZE, readsize in *. change (0x10000000 / 2 - 4096) with 134213632 in Hm.
  destruct (Z.ltb_spec (bufsize o - len o) 4096) as [H|H]; [lia|]. intros E. specialize (Hn E). lia.
Qed.

Lemma grow_output_fits o junk : output_wf o → fits o ↔ buf (grow_output o junk) ≠ None.
Proof.
  intros [Hl Hz Hb]. unfold fits, grow_output, realloc_chars. destruct (_ <? _); [|done]. cbn zeta. cbn [buf].
  destruct (Z.leb_spec (Z.max readsize (bufsize o * 2)) 0); [unfold readsize in *; lia|].
  destruct (Z.leb_spec MAX_TALLOC_SIZE (Z.max readsize (bufsize o * 2))); cbn; split; try done; lia.
Qed.

Lemma read_test_output_exact t ms a :
  output_wf (output t) → ans_ok a → 0 < stdout_fd (run t) →
  ∃ rc t' acts, read_test_output t ms a = Ok (rc, t', acts) ∧ output_wf (output t') ∧ read_frame t t' acts ∧
    (¬ readable a → t' = t ∧ rc = if 0 <? p_rc a then -1 else 0) ∧
    (readable a → fits (output t) →
     buf (output t') ≠ None ∧ len (output t') = len (output t) + Z.max 0 (r_rc a) ∧
     captured (output t') = captured (output t) ++ (if 0 <? r_rc a then r_data a else []) ∧
     rc = if 0 <? r_rc a then 0 else -1) ∧
    (readable a → ¬ fits (output t) → buf (output t') = None ∧ len (output t') = len (output t) ∧ rc = -1).
Proof.
  intros Hw [Ha1 Ha2] Hfd. unfold read_test_output, readable.
  destruct (Z.ltb_spec (p_rc a) 0) as [Hp|Hp].
  { eexists _, _, _. split_and!; [done|done|by repeat split; destruct (_ =? _); repeat constructor| |lia..].
    intros _. by rewrite (proj2 (Z.ltb_ge _ _)) by lia. }
  destruct (Z.eqb_spec (p_rc a) 0) as [Hp0|Hp0].
  { eexists _, _, _. split_and!; [done|done|by repeat split; repeat constructor| |lia..].
    intros _. by rewrite (proj2 (Z.ltb_ge _ _)) by lia. }
  rewrite (proj2 (Z.ltb_lt _ _) Hfd), (proj2 (Z.ltb_lt 0 (p_rc a))) by lia. cbn [negb].
  destruct (Z.eqb_spec (Z.land (p_revents a) POLLERR) 0) as [He|He]; cbn [negb].
  2:{ eexists _, _, _. split_and!; [done|done|by repeat split; repeat constructor|done|tauto..]. }
  pose proof (grow_output_fits (output t) (p_junk a) Hw) as Hfit.
  destruct (grow_output_wf (output t) (p_junk a) Hw) as (Hw' & Hlen & Hroom & Hcap).
  set (o := grow_output _ _) in *. cbn zeta. unfold read_into.
  destruct (buf o) as [b|] eqn:Eb.
  2:{ cbn. eexists _, _, _. split_and!; [done|done|by repeat split; repeat constructor|lia|tauto|done]. }
  destruct Hcap as [Hcap|Hcap]; [done|].
  assert (Hfits : fits (output t)) by by apply Hfit.
  destruct (Z.ltb_spec (r_rc a) 0) as [Hr|Hr]; [|destruct (Z.eqb_spec (r_rc a) 0) as [Hr0|Hr0]].
  1, 2: eexists _, _, _; (split_and!; [done|done|by repeat split; repeat constructor|lia| |tauto]);
    intros _ _; cbn [output set_output]; rewrite (proj2 (Z.ltb_ge _ _)), app_nil_r by lia;
    split_and!; [by rewrite Eb|lia|done|done].
  pose proof Hw' as [Hl Hz Hb]. rewrite Eb in Hb.
  destruct (store_ok b (len o) (r_data a)) as (m' & -> & Hlm & Htk); [done|lia|].
  cbn [mbind res_bind]. eexists _, _, _.
  split_and!; [done| |by repeat split; repeat constructor|lia| |tauto].
  - split; cbn; [lia|lia|]. rewrite Hlm. lia.
  - intros _ _. rewrite (proj2 (Z.ltb_lt _ _)) by lia. cbn [output set_output len buf].
    split_and!; [done|lia| |done]. rewrite <- Hcap. unfold captured. cbn [len buf]. rewrite Eb.
    change (take (Z.to_nat (len o + r_rc a)) m' = take (Z.to_nat (len o)) b ++ r_data a).
    rewrite <- Htk. f_equal. lia.
Qed.

Lemma fits_dec o : fits o ∨ ¬ fits o.
Proof. unfold fits. destruct (_ <? _); [lia|]. destruct (buf o); [by left|by right; intros H]. Qed.

(** What the loop needs of it. *)
Lemma read_test_output_safe_lemma t ms a :
  output_wf (output t) → ans_ok a → 0 < stdout_fd (run t) →
  ∃ rc t' acts, read_test_output t ms a = Ok (rc, t', acts) ∧ output_wf (output t') ∧
    len (output t') ≤ len (output t) + Z.of_nat (length (r_data a)) ∧ read_frame t t' acts.
Proof.
  intros Hw Ha Hfd. destruct (read_test_output_exact t ms a Hw Ha Hfd) as (rc & t' & acts & E & Hw' & Hf & Hno & Hyes & Hdrop).
  exists rc, t', acts. split_and!; try done. destruct Ha as [_ Ha].
  assert (readable a ∨ ¬ readable a) as [Hr|Hr] by (unfold readable; lia).
  - destruct (fits_dec (output t)) as [Hft|Hft].
    + destruct (Hyes Hr Hft) as (_ & -> & _). lia.
    + destruct (Hdrop Hr Hft) as (_ & -> & _). lia.
  - destruct (Hno Hr) as [-> _]. lia.
Qed.

(** C22 [read_test_output_safe]: from a well-formed buffer, for any answers of
    [poll] and [read], [read_test_output] does not overflow the buffer and leaves
    it well-formed.  When there is nothing to read it changes nothing, and returns
    -1 exactly on a poll error; when there is, and the buffer has room or talloc
    grants it (up to 128 MB: [fits_below]), it appends exactly the bytes read,
    counts them in [len] and returns 0, or -1 at the end of the output; when
    talloc refuses, the block is dropped, nothing is read and it returns -1. *)
Theorem read_test_output_safe t ms a :
  output_wf (output t) → ans_ok a → 0 < stdout_fd (run t) →
  ∃ rc t' acts, read_test_output t ms a = Ok (rc, t', acts) ∧ output_wf (output t') ∧ read_frame t t' acts ∧
    (¬ readable a → t' = t ∧ rc = if 0 <? p_rc a then -1 else 0) ∧
    (readable a → fits (output t) →
     buf (output t') ≠ None ∧ len (output t') = len (output t) + Z.max 0 (r_rc a) ∧
     captured (output t') = captured (output t) ++ (if 0 <? r_rc a then r_data a else []) ∧
     rc = if 0 <? r_rc a then 0 else -1) ∧
    (readable a → ¬ fits (output t) → buf (output t') = None ∧ len (output t') = len (output t) ∧ rc = -1).
Proof. exact (read_test_output_exact t ms a). Qed.

(** ** The loop while the test runs *)

(** A round in which [waitid] reports nothing. *)
Definition idle (k : tick) : Prop := tk_waitid k = 0 ∧ si_pid (tk_info k) = 0.

(** A round in which [waitid] reports the exit. *)
Definition exited (k : tick) : Prop := tk_waitid k = 0 ∧ si_pid (tk_info k) ≠ 0.

(** The signals sent. *)
Definition kills (acts : list action) : list (Z * Z) :=
  omap (λ a, match a with Kill p s => Some (p, s) | _ => None end) acts.

Definition bytes_read (ks : list tick) : Z :=
  Z.of_nat (sum_list_with (λ k, length (r_data (tk_poll k))) ks).

(** A test that is running as [p] with a good buffer. *)
Record running (p : Z) (t : test) : Prop := {
  rn_pid : pid (run t) = Some p;
  rn_fd : 0 < stdout_fd (run t);
  rn_out : output_wf (output t);
}.

Lemma kills_app a b : kills (a ++ b) = kills a ++ kills b.
Proof. apply omap_app. Qed.

Lemma kills_no_kill acts : Forall no_kill acts → kills acts = [].
Proof. induction 1 as [|a acts Ha _ IH]; [done|]. by destruct a. Qed.

(** The rounds past the deadline. *)
Definition late (deadline : timeval) (ks : list tick) : list tick :=
  filter (λ k, timer_gt (tk_now k) deadline = true) ks.

Lemma run_loop_waits_lemma p e deadline ks t d :
  running p t → Forall idle ks → Forall (λ k, ans_ok (tk_poll k)) ks →
  ∃ t' a, run_loop e deadline ks t d = Ok (None, t', d, a) ∧ running p t' ∧
    same_config t t' ∧ result t' = result t ∧ stdout_fd (run t') = stdout_fd (run t) ∧
    len (output t') ≤ len (output t) + bytes_read ks ∧
    kills a = if e : bool then map (λ _, (p, SIGALRM)) (late deadline ks) else [].
Proof.
  intros Hr Hi Ha. revert t Hr. induction ks as [|k ks IH]; intros t Hr; cbn [run_loop].
  { exists t, []. unfold bytes_read. cbn. split_and!; (done || lia || by destruct e). }
  apply Forall_cons in Hi as [[Hw Hp] Hi]. apply Forall_cons in Ha as [Hk Ha].
  pose proof Hr as [Hpid Hfd Hout]. unfold run_round. rewrite Hpid, Hw, Hp.
  cbn [of_option mbind res_bind negb Z.eqb].
  destruct (read_test_output_safe_lemma t (wraps 32 (1 + 1000 * (tv_sec deadline - tv_sec (tk_now k))))
    (tk_poll k) Hout Hk Hfd) as (rc & t1 & acts & -> & Hw1 & Hl1 & Hc & Hrn & Hres & Hnk).
  cbn [mbind res_bind].
  destruct (IH Hi Ha t1) as (t2 & a2 & -> & Hr2 & Hc2 & Hres2 & Hfd2 & Hl2 & Hk2);
    [by split; rewrite ?Hrn|].
  cbn [mbind res_bind]. eexists _, _. split; [done|]. split_and!; try done.
  - by etrans.
  - congruence.
  - by rewrite Hfd2, Hrn.
  - unfold bytes_read in *. cbn [sum_list_with]. lia.
  - rewrite !kills_app, (kills_no_kill acts), app_nil_r, Hk2 by done.
    unfold late. rewrite filter_cons.
    destruct e, (timer_gt (tk_now k) deadline) eqn:Ht; cbn [andb];
      rewrite ?(decide_True (P := _ = true)), ?(decide_False (P := _ = true)) by done; done.
Qed.

(** [run_loop_waits]: as long as the test runs, the runner waits: it keeps
    the record of the test but for its buffer, and sends SIGALRM to the test once
    in each round after the deadline, never before it, and never at all when
    the time-out is off. *)
Theorem run_loop_waits p e deadline ks t d :
  running p t → Forall idle ks → Forall (λ k, ans_ok (tk_poll k)) ks →
  ∃ t' a, run_loop e deadline ks t d = Ok (None, t', d, a) ∧ running p t' ∧
    same_config t t' ∧ result t' = result t ∧ stdout_fd (run t') = stdout_fd (run t) ∧
    len (output t') ≤ len (output t) + bytes_read ks ∧
    kills a = if e : bool then map (λ _, (p, SIGALRM)) (late deadline ks) else [].
Proof. exact (run_loop_waits_lemma p e deadline ks t d). Qed.

Lemma run_loop_app e deadline ks1 ks2 t d t1 d1 a1 :
  run_loop e deadline ks1 t d = Ok (None, t1, d1, a1) →
  run_loop e deadline (ks1 ++ ks2) t d =
    ('(rc, t2, d2, a2) ← run_loop e deadline ks2 t1 d1; Ok (rc, t2, d2, a1 ++ a2)).
Proof.
  revert t d a1. induction ks1 as [|k ks1 IH]; intros t d a1; cbn [run_loop app].
  { intros [= -> -> <-]. destruct (run_loop e deadline ks2 t1 d1) as [[[[]]]| |]; done. }
  intros Hr. res_inv Hr. destruct a as [[[r t2] d2] a2]. rewrite E. cbn [mbind res_bind].
  destruct r as [rc|[]]; [done|]. res_inv Hr. destruct a as [[[rc t3] d3] a3].
  injection Hr as -> -> -> <-. rewrite (IH _ _ _ E0), res_bind_assoc.
  destruct (run_loop e deadline ks2 t1 d1) as [[[[]]]| |]; cbn; try done.
  by rewrite app_assoc.
Qed.

(** ** The verdict *)

(** [Some true]: pass, [Some false]: fail, [None]: neither. *)
Definition verdict (t : test) (dmesg_bad : bool) (i : siginfo) : option bool :=
  if si_code i =? CLD_EXITED then
    Some ((si_status i =? expected_rc t) && (expected_sig t =? 0) && negb dmesg_bad)
  else if si_code i =? CLD_KILLED then Some (si_status i =? expected_sig t)
  else None.

Definition verdict_result (v : option bool) (t : test) : test_result :=
  match v with Some true => TEST_PASSED | Some false => TEST_FAILED | None => result t end.

Definition verdict_rc (v : option bool) : Z := match v with Some false => -1 | _ => 0 end.

(** The kernel log is read at the exit: only when all else says pass. *)
Definition log_read (t : test) (i : siginfo) : bool :=
  (si_code i =? CLD_EXITED) && (si_status i =? expected_rc t) && (expected_sig t =? 0).

(** The captured output can be printed. *)
Definition printable (o : test_output) : Prop := len o = 0 ∨ ∃ s, fwrite (buf o) (len o) = Ok s.

(** The output that the buffer is sure to hold: 128 MB less one read. *)
Definition MAX_OUTPUT : Z := MAX_TALLOC_SIZE / 2 - readsize.

Lemma output_wf_printable o : output_wf o → len o < MAX_OUTPUT → printable o.
Proof.
  intros [Hl Hz Hb] Hm. unfold MAX_OUTPUT, MAX_TALLOC_SIZE, readsize in *.
  change (0x10000000 / 2 - 4096) with 134213632 in Hm. unfold printable, fwrite.
  destruct (buf o) as [b|]; [right|left; lia].
  rewrite decide_True by lia. by eexists.
Qed.

Lemma fail_with_spec t msg :
  printable (output t) → ∃ s, fail_with t msg = Ok (-1, set_result TEST_FAILED t, [Stdout s]).
Proof.
  intros Hp. unfold fail_with, test_fail. cbn [output set_result].
  destruct (Z.ltb_spec 0 (len (output t))) as [Hl|Hl]; [|cbn; by eexists].
  destruct Hp as [Hp|[s ->]]; [lia|]. cbn. by eexists.
Qed.

Lemma pass_with_spec t :
  type t = TEST_TYPE_TEST → pass_with t = Ok (0, set_result TEST_PASSED t, [Stdout (lit "PASS" ++ [newline_c])]).
Proof. intros Ht. unfold pass_with, test_pass. cbn [type set_result]. by rewrite Ht. Qed.

(** The end of a branch of [check_exit]. *)
Ltac verdict_ends := eexists _, _, _; split_and!; done.

(** One branch of [check_exit] that ends in [fail_with]. *)
Ltac fails Hp :=
  lazymatch goal with
  | |- context [fail_with ?t ?m] =>
      let s := fresh "s" in let E := fresh "E" in
      destruct (fail_with_spec t m Hp) as (s & E); rewrite E; cbn; verdict_ends
  end.

Lemma check_exit_verdict t d k i dm d' a' :
  type t = TEST_TYPE_TEST → printable (output t) → dmesg_check d k = Ok (dm, d', a') →
  ∃ t' d'' a, check_exit t d k i = Ok (verdict_rc (verdict t (negb (dm =? 0)) i), t', d'', a) ∧
    same_config t t' ∧ result t' = verdict_result (verdict t (negb (dm =? 0)) i) t ∧ run t' = run t ∧
    d'' = if log_read t i then d' else d.
Proof.
  intros Ht Hp Hd. unfold check_exit, verdict, log_read.
  destruct (si_code i =? CLD_EXITED); cbn [andb].
  - destruct (si_status i =? expected_rc t); cbn [negb andb]; [|fails Hp].
    destruct (expected_sig t =? 0); cbn [negb andb]; [|fails Hp].
    rewrite Hd. cbn [mbind res_bind]. destruct (dm =? 0); cbn [negb]; [|fails Hp].
    rewrite pass_with_spec by done. cbn. verdict_ends.
  - destruct (si_code i =? CLD_KILLED); [|verdict_ends].
    destruct (si_status i =? expected_sig t).
    + rewrite pass_with_spec by done. cbn. verdict_ends.
    + destruct (si_status i =? SIGALRM); fails Hp.
Qed.

Lemma run_loop_verdict_lemma p e deadline pre k post t d dm d' a' :
  running p t → type t = TEST_TYPE_TEST →
  Forall idle pre → Forall (λ k, ans_ok (tk_poll k)) pre → exited k →
  len (output t) + bytes_read pre < MAX_OUTPUT →
  dmesg_check d (tk_klog k) = Ok (dm, d', a') →
  let v := verdict t (negb (dm =? 0)) (tk_info k) in
  ∃ t' d'' a, run_loop e deadline (pre ++ k :: post) t d = Ok (Some (verdict_rc v), t', d'', a) ∧
    same_config t t' ∧ result t' = verdict_result v t ∧ pid (run t') = Some 0 ∧
    d'' = if log_read t (tk_info k) then d' else d.
Proof.
  intros Hr Hty Hi Ha [Hw Hpid] Hlen Hd. cbn zeta.
  destruct (run_loop_waits_lemma p e deadline pre t d Hr Hi Ha)
    as (t1 & a1 & He & [Hp1 Hf1 Ho1] & Hc1 & Hres1 & _ & Hl1 & _).
  rewrite (run_loop_app _ _ _ _ _ _ _ _ _ He). cbn [run_loop]. unfold run_round.
  rewrite Hp1, Hw. cbn [of_option mbind res_bind negb Z.eqb].
  rewrite (proj2 (Z.eqb_neq _ _) Hpid). cbn [negb].
  pose proof Hc1 as (Hty1 & _ & Hrc1 & Hsg1 & _).
  destruct (check_exit_verdict t1 d (tk_klog k) (tk_info k) dm d' a') as (t2 & d2 & a2 & -> & Hc2 & Hres2 & Hrun2 & Hd2);
    [congruence|by apply output_wf_printable; [|lia]|done|].
  assert (verdict t1 (negb (dm =? 0)) (tk_info k) = verdict t (negb (dm =? 0)) (tk_info k)) as Hv
    by (unfold verdict; by rewrite Hrc1, Hsg1).
  assert (log_read t1 (tk_info k) = log_read t (tk_info k)) as Hg by (unfold log_read; by rewrite Hrc1, Hsg1).
  rewrite Hv, ?Hg in *. cbn [mbind res_bind]. eexists _, _, _. split; [done|]. split_and!.
  - etrans; [done|]. etrans; [done|]. by repeat split.
  - cbn. rewrite Hres2. unfold verdict_result. by destruct (verdict _ _ _) as [[]|].
  - done.
  - done.
Qed.

(** [run_loop_verdict]: when the test exits after the rounds [pre], the loop
    ends in that round with the verdict: an exit passes exactly with the
    expected status, no expected signal and no "Badness" in the kernel log, a
    kill exactly with the expected signal; the return code is 0 for a pass and
    -1 for a failure, and the record holds the result. *)
Theorem run_loop_verdict p e deadline pre k post t d dm d' a' :
  running p t → type t = TEST_TYPE_TEST →
  Forall idle pre → Forall (λ k, ans_ok (tk_poll k)) pre → exited k →
  len (output t) + bytes_read pre < MAX_OUTPUT →
  dmesg_check d (tk_klog k) = Ok (dm, d', a') →
  let v := verdict t (negb (dm =? 0)) (tk_info k) in
  ∃ t' d'' a, run_loop e deadline (pre ++ k :: post) t d = Ok (Some (verdict_rc v), t', d'', a) ∧
    same_config t t' ∧ result t' = verdict_result v t ∧ pid (run t') = Some 0.
Proof.
  intros Hr Ht Hi Ha Hx Hl Hd v.
  destruct (run_loop_verdict_lemma p e deadline pre k post t d dm d' a' Hr Ht Hi Ha Hx Hl Hd)
    as (t' & d'' & a & ? & ? & ? & ? & _). by exists t', d'', a.
Qed.

(** [run_loop_core_dump]: a test that is killed by a signal and dumps core
    gets no verdict at all: the loop ends with 0, as for a pass, the result stays
    what it was and nothing is printed. *)
Theorem run_loop_core_dump p e deadline pre k post t d :
  running p t → Forall idle pre → Forall (λ k, ans_ok (tk_poll k)) pre → exited k →
  si_code (tk_info k) = CLD_DUMPED →
  ∃ t' a1, run_loop e deadline (pre ++ k :: post) t d = Ok (Some 0, t', d, a1) ∧
    result t' = result t ∧
    ∃ t1, run_loop e deadline pre t d = Ok (None, t1, d, a1).
Proof.
  intros Hr Hi Ha [Hw Hpid] Hcode.
  destruct (run_loop_waits_lemma p e deadline pre t d Hr Hi Ha)
    as (t1 & a1 & He & [Hp1 Hf1 Ho1] & Hc1 & Hres1 & _).
  rewrite (run_loop_app _ _ _ _ _ _ _ _ _ He). cbn [run_loop]. unfold run_round.
  rewrite Hp1, Hw. cbn [of_option mbind res_bind negb Z.eqb].
  rewrite (proj2 (Z.eqb_neq _ _) Hpid). cbn [negb]. unfold check_exit. rewrite Hcode. cbn.
  eexists _, _. split; [by rewrite app_nil_r|]. split; [done|]. by exists t1.
Qed.

(** [run_round_poll_timeout]: the time-out a round gives to [poll] is one
    millisecond plus the whole seconds left; once the deadline lies a second
    back it is negative, and [poll] waits without limit. *)
Theorem run_round_poll_timeout p e deadline t d k :
  running p t → idle k → ans_ok (tk_poll k) →
  Z.abs (tv_sec deadline - tv_sec (tk_now k)) < 2 ^ 20 →
  let ms := 1 + 1000 * (tv_sec deadline - tv_sec (tk_now k)) in
  (∃ t' a, run_round e deadline t d k = Ok (inr tt, t', d, a) ∧ Poll ms ∈ a) ∧
  (ms < 0 ↔ tv_sec deadline < tv_sec (tk_now k)).
Proof.
  intros [Hpid Hfd Hout] [Hw Hp] Ha Hs. cbn zeta. split; [|lia].
  unfold run_round. rewrite Hpid, Hw, Hp. cbn [of_option mbind res_bind negb Z.eqb].
  rewrite wraps_small by lia. set (ms := 1 + _).
  destruct (read_test_output_safe_lemma t ms (tk_poll k) Hout Ha Hfd) as (rc & t1 & acts & Hr & _).
  rewrite Hr. cbn [mbind res_bind]. eexists _, _. split; [done|]. apply elem_of_app. right.
  unfold read_test_output in Hr. cbn zeta in Hr.
  repeat case_match; simplify_eq; try set_solver.
  res_inv Hr. simplify_eq. set_solver.
Qed.

(** *** Witnesses: a test that prints two bytes, runs late once, then exits *)

Definition sample_running : test :=
  set_run (TestRun 5 (Some 77)) (test_create (lit "tests/x/01-a") TEST_TYPE_TEST).

Definition sample_quiet : poll_ans := PollAns 0 0 0 0 [] [].
Definition sample_read : poll_ans := PollAns 1 0 1 2 (lit "ok") [].
Definition sample_klog : klog := Klog 8 1 (lit "x") [].

Definition sample_tick (pid code status : Z) (now : Z) (a : poll_ans) : tick :=
  Tick 0 (Siginfo pid code status) (Timeval now 0) a sample_klog.

Definition sample_pre : list tick :=
  [sample_tick 0 0 0 100 sample_read; sample_tick 0 0 0 112 sample_quiet].

Lemma sample_running_ok : running 77 sample_running.
Proof. split; [done|done|]. split; cbn; [lia|unfold readsize; lia|by left]. Defined.

Lemma sample_ans_ok a : a = sample_quiet ∨ a = sample_read → ans_ok a.
Proof. intros [->| ->]; split; cbn; unfold readsize; lia. Defined.

Lemma sample_pre_ok : Forall (λ k, ans_ok (tk_poll k)) sample_pre.
Proof. repeat constructor; apply sample_ans_ok; auto. Defined.

Lemma sample_pre_idle : Forall idle sample_pre.
Proof. by repeat constructor. Defined.

Lemma read_test_output_safe_witness :
  (readable sample_read ∧ fits (output sample_running)) ∧
  ∃ rc t' acts, read_test_output sample_running 10 sample_read = Ok (rc, t', acts) ∧
    output_wf (output t') ∧ read_frame sample_running t' acts ∧
    (¬ readable sample_read → t' = sample_running ∧ rc = 0 - 1) ∧
    (readable sample_read → fits (output sample_running) →
     buf (output t') ≠ None ∧ len (output t') = 2 ∧ captured (output t') = lit "ok" ∧ rc = 0) ∧
    (readable sample_read → ¬ fits (output sample_running) → buf (output t') = None ∧ len (output t') = 0 ∧ rc = -1).
Proof.
  split; [by split|]. apply (read_test_output_safe sample_running 10 sample_read).
  - apply sample_running_ok.
  - apply sample_ans_ok. by right.
  - cbn. lia.
Defined.

Lemma run_loop_waits_witness :
  ∃ t' a, run_loop true (Timeval 110 0) sample_pre sample_running dmesg_init
            = Ok (None, t', dmesg_init, a) ∧ running 77 t' ∧
    same_config sample_running t' ∧ result t' = result sample_running ∧
    stdout_fd (run t') = stdout_fd (run sample_running) ∧
    len (output t') ≤ len (output sample_running) + bytes_read sample_pre ∧
    kills a = map (λ _, (77, SIGALRM)) (late (Timeval 110 0) sample_pre).
Proof.
  apply (run_loop_waits 77 true (Timeval 110 0) sample_pre sample_running dmesg_init).
  - apply sample_running_ok.
  - apply sample_pre_idle.
  - apply sample_pre_ok.
Defined.

Definition sample_exit (code status : Z) : tick := sample_tick 77 code status 113 sample_quiet.

Lemma sample_small : len (output sample_running) + bytes_read sample_pre < MAX_OUTPUT.
Proof. unfold bytes_read, MAX_OUTPUT. vm_compute. reflexivity. Defined.

Lemma sample_exited code status : exited (sample_exit code status).
Proof. split; [done|]. cbn. lia. Defined.

Lemma run_loop_verdict_witness :
  let k := sample_exit CLD_EXITED 0 in
  let v := verdict sample_running (negb (0 =? 0)) (tk_info k) in
  v = Some true ∧
  ∃ t' d'' a, run_loop true (Timeval 110 0) (sample_pre ++ k :: []) sample_running dmesg_init
                = Ok (Some (verdict_rc v), t', d'', a) ∧
    same_config sample_running t' ∧ result t' = verdict_result v sample_running ∧
    pid (run t') = Some 0.
Proof.
  split; [reflexivity|].
  apply (run_loop_verdict 77 true (Timeval 110 0) sample_pre (sample_exit CLD_EXITED 0) []
    sample_running dmesg_init 0 (Dmesg (Some (resize 8 NUL (lit "x"))) 8) []).
  - apply sample_running_ok.
  - reflexivity.
  - apply sample_pre_idle.
  - apply sample_pre_ok.
  - apply sample_exited.
  - apply sample_small.
  - vm_compute. reflexivity.
Defined.

Lemma run_loop_core_dump_witness :
  ∃ t' a1, run_loop true (Timeval 110 0) (sample_pre ++ sample_exit CLD_DUMPED 11 :: [])
             sample_running dmesg_init = Ok (Some 0, t', dmesg_init, a1) ∧
    result t' = result sample_running ∧
    ∃ t1, run_loop true (Timeval 110 0) sample_pre sample_running dmesg_init
            = Ok (None, t1, dmesg_init, a1).
Proof.
  apply (run_loop_core_dump 77).
  - apply sample_running_ok.
  - apply sample_pre_idle.
  - apply sample_pre_ok.
  - apply sample_exited.
  - reflexivity.
Defined.

Lemma run_round_poll_timeout_witness :
  let k := sample_tick 0 0 0 112 sample_quiet in
  (∃ t' a, run_round true (Timeval 110 0) sample_running dmesg_init k
             = Ok (inr tt, t', dmesg_init, a) ∧ Poll (1 + 1000 * (110 - 112)) ∈ a) ∧
  (1 + 1000 * (110 - 112) < 0 ↔ 110 < 112).
Proof.
  apply (run_round_poll_timeout 77 true (Timeval 110 0) sample_running dmesg_init
    (sample_tick 0 0 0 112 sample_quiet)).
  - apply sample_running_ok.
  - done.
  - apply sample_ans_ok. by left.
  - cbn. lia.
Defined.
