(* ===== verification/RunVerdict.v ===== *)
(** * From the text of tests.conf and an exit status to the result of a test

    [run_test] as a whole: the parser, the requirements, the loop and the
    verdict composed.  The table of capabilities is any [CapService]. *)

From S2P Require Import Prelude CString Interfaces TestModel TestConf TestConfSpec Requirements RunTest RunTestProps.

Local Open Scope Z_scope.

(** ** The configuration in force *)

(** [c] is the configuration of [t]: there is no file, or its text describes it
    (with [g], what the stack holds after the text). *)
Inductive configured (read_file : bytes → option (option bytes)) (stack : bytes) (t : test) : conf → Prop :=
| configured_not dir file :
    path t = dir ++ "/"%char :: file → nul_free (path t) → "/"%char ∉ file →
    read_file (dir ++ lit "/tests.conf") = None →
    configured read_file stack t (conf_of t)
| configured_by dir file content g r c :
    path t = dir ++ "/"%char :: file → nul_free (path t) → "/"%char ∉ file → newline_c ∉ file →
    read_file (dir ++ lit "/tests.conf") = Some (Some content) →
    (length content < CONF_BUF)%nat → nul_free (content ++ g) →
    drop (length content) stack = g ++ NUL :: r →
    conf_spec file (content ++ g) (conf_of t) = Ok c →
    configured read_file stack t c.

(** A test before its run, as [test_create] makes it. *)
Record fresh (t : test) : Prop := {
  fr_type : type t = TEST_TYPE_TEST;
  fr_caps : caps_required t = [];
  fr_n : n_caps_required t = 0%nat;
  fr_out : output t = TestOutput None 0 0;
  fr_result : result t = TEST_NOTRUN;
}.

Lemma test_create_fresh p : fresh (test_create p TEST_TYPE_TEST).
Proof. by split. Qed.

Lemma configured_conf read_file stack t c :
  fresh t → configured read_file stack t c →
  ∃ b t' m, test_read_config read_file stack t = Ok (t', m, c_err c) ∧ conf_rep b m t' c ∧ same_frame t t'.
Proof.
  intros [_ Hc Hn _ _]. destruct 1 as [dir file Hp Hnul Hs Hr|dir file content g r c Hp Hnul Hs Hnl Hr Hl Hcn Hd Hspec].
  - exists 0%nat, t, stack. split; [|split; [by apply conf_of_rep|done]].
    unfold test_read_config. rewrite Hp in *. rewrite strrchr_path by done.
    cbn [mbind res_bind]. by rewrite take_app_length, Hr.
  - pose proof (test_read_config_refines_lemma read_file stack t dir file content g r
      Hp Hnul Hs Hnl Hc Hn Hr Hl Hcn Hd) as H.
    rewrite Hspec in H. destruct H as (t' & m' & E & Hrep & Hf). eauto 10.
Qed.

(** ** The requirements *)

Section run_verdict.
Context {S : Type} `{CapService S} `{!CapServiceLaws S} `{!CapServiceTotal S}.

Implicit Types (s : S) (t : test).

(** The requirement (a name, and 1 when it is inverted) holds. *)
Definition holds s (q : bytes * Z) : Prop :=
  ∃ v, cap_settled s (q.1 ++ [NUL]) v ∧ (v ≠ 0 ↔ q.2 = 0).

Lemma cap_rep_settled b mem r q s v :
  cap_wf s → cap_rep b mem r q → cap_settled s (drop (cap r) mem) v ↔ cap_settled s (q.1 ++ [NUL]) v.
Proof.
  intros Hw (_ & Hn & _ & rest & ->). unfold cap_settled. by rewrite (cap_query_string _ rest [] s).
Qed.

Lemma met_holds b mem r q s : cap_wf s → cap_rep b mem r q → met s mem r ↔ holds s q.
Proof.
  intros Hw Hr. pose proof Hr as (Hi & _). unfold met, holds. rewrite Hi.
  by setoid_rewrite (cap_rep_settled b mem r q s _ Hw Hr).
Qed.

Lemma all_met_holds b mem rs qs s :
  cap_wf s → Forall2 (cap_rep b mem) rs qs → Forall (met s mem) rs ↔ Forall (holds s) qs.
Proof.
  intros Hw. induction 1 as [|r q rs qs Hr _ IH]; [by rewrite !Forall_nil|].
  by rewrite !Forall_cons, IH, (met_holds _ _ _ _ _ Hw Hr).
Qed.

(** The requirements are asked one after the other, up to the first that fails:
    whether they all hold, and the table after that. *)
Fixpoint asks (qs : list (bytes * Z)) s : res (bool * S) :=
  match qs with
  | [] => Ok (true, s)
  | q :: qs =>
      '(v, s) ← cap_query (q.1 ++ [NUL]) s;
      if Bool.eqb (negb (v =? 0)) (negb (q.2 =? 0)) then Ok (false, s) else asks qs s
  end.

Lemma asks_holds qs s ok s' :
  asks qs s = Ok (ok, s') → cap_evolves s s' ∧ (ok = true ↔ Forall (holds s') qs).
Proof.
  revert s. induction qs as [|[nm i] qs IH]; intros s; cbn [asks fst snd].
  { intros [= <- <-]. split; [constructor|]. by rewrite Forall_nil. }
  intros Hr. res_inv Hr. destruct a as [v s1]. pose proof (cap_query_settles _ _ _ _ E) as Hs1.
  assert (cap_evolves s s1) as He by (econstructor; [done|constructor]).
  assert (∀ s2, cap_evolves s1 s2 → holds s2 (nm, i) ↔ (v ≠ 0 ↔ i = 0)) as Hh.
  { intros s2 He2. pose proof (settled_evolves _ _ _ _ He2 Hs1) as Hs2. unfold holds. cbn [fst snd]. split; [|by exists v].
    intros (v' & Hv & Hiff). unfold cap_settled in *. rewrite Hs2 in Hv. by injection Hv as <-. }
  destruct (Bool.eqb _ _) eqn:Hb.
  - injection Hr as <- <-. split; [done|]. split; [done|]. intros [Hq _]%Forall_cons.
    apply Hh in Hq; [|constructor]. by apply requirement_fails in Hb.
  - apply IH in Hr as [He' Hiff]. split; [by eapply evolves_trans|]. rewrite Forall_cons, (Hh _ He'), Hiff.
    assert (v ≠ 0 ↔ i = 0); [|tauto]. apply dec_stable. intros Hn%requirement_fails. congruence.
Qed.

(** The table that the run of a test with the configuration [c] leaves. *)
Definition asked_table (c : conf) s s' : Prop :=
  if c_disabled c =? 0 then ∃ ok, asks (c_caps c) s = Ok (ok, s') else s' = s.

Lemma check_caps_total b mem rs qs s t :
  cap_wf s → Forall2 (cap_rep b mem) rs qs →
  ∃ ok t' s' out, check_caps mem rs s t = Ok (ok, t', s', out) ∧ cap_wf s' ∧ asks qs s = Ok (ok, s').
Proof.
  intros Hw Hr. revert s Hw. induction Hr as [|r q rs qs (Hi & Hn & _ & rest & Hd) _ IH]; intros s Hw; cbn.
  { by eexists _, _, _, _. }
  rewrite Hd, Hi, (cap_query_string q.1 [] rest s Hw Hn).
  destruct (cap_query_total q.1 rest s Hw Hn) as (v & s1 & -> & Hw1). cbn.
  destruct (Bool.eqb _ _); [|by apply IH].
  rewrite cstr_app by done. by eexists _, _, _, _.
Qed.

Lemma test_should_run_total b mem t c s :
  cap_wf s → conf_rep b mem t c →
  ∃ ok t' s' out, test_should_run mem s t = Ok (ok, t', s', out) ∧ cap_wf s' ∧ cap_evolves s s' ∧
    asked_table c s s' ∧
    ((ok = true ∧ t' = t ∧ c_disabled c = 0 ∧ Forall (holds s') (c_caps c)) ∨
     (ok = false ∧ t' = set_result TEST_SKIPPED t ∧ ¬ (c_disabled c = 0 ∧ Forall (holds s') (c_caps c)))).
Proof.
  intros Hw Hr. destruct Hr as [_ _ _ Hd _ Hn Hc].
  assert (take (n_caps_required t) (caps_required t) = caps_required t) as Htk by (apply take_ge; lia).
  assert (∃ ok t' s' out, test_should_run mem s t = Ok (ok, t', s', out) ∧ cap_wf s' ∧ cap_evolves s s' ∧
      asked_table c s s') as (ok & t' & s' & out & E & Hw' & He & Hak).
  { unfold test_should_run, asked_table. rewrite <- Hd. destruct (disabled t =? 0); cbn [negb].
    2: { eexists _, _, _, _. split_and!; [done|done|constructor|done]. }
    - rewrite decide_True by lia. rewrite Htk.
      destruct (check_caps_total _ _ _ _ s t Hw Hc) as (ok & t' & s' & out & E & Hw' & Hak).
      eexists _, _, _, _. split_and!; [exact E|done| |by eexists]. by apply check_caps_spec in E as [? _]. }
  destruct (test_should_run_decides_lemma _ _ _ _ _ _ _ E) as (Hiff & Ht & Hf).
  specialize (Hiff s' ltac:(constructor)). rewrite Htk, (all_met_holds _ _ _ _ _ Hw' Hc), Hd in Hiff.
  exists ok, t', s', out. split_and!; [done|done|done|done|]. destruct ok.
  - left. destruct (proj1 Hiff eq_refl). by destruct (Ht eq_refl).
  - right. split_and!; [done|by apply Hf|]. intros Hx. by apply Hiff in Hx.
Qed.

(** ** The whole run *)

(** The result for a test that ran, by its configuration: an exit needs the
    expected status, no expected signal and a clean kernel log, a kill the
    expected signal; otherwise there is no verdict. *)
Definition conf_verdict (c : conf) (dmesg_bad : bool) (i : siginfo) : option bool :=
  if si_code i =? CLD_EXITED then
    Some ((si_status i =? c_rc c) && (c_sig c =? 0) && negb dmesg_bad)
  else if si_code i =? CLD_KILLED then Some (si_status i =? c_sig c)
  else None.

(** The kernel log is read at the exit [i]. *)
Definition conf_log_read (c : conf) (i : siginfo) : bool :=
  (si_code i =? CLD_EXITED) && (si_status i =? c_rc c) && (c_sig c =? 0).

Lemma conf_log_read_eq b m t t' c i :
  conf_rep b m t c → same_config t t' → log_read t' i = conf_log_read c i.
Proof.
  intros [Hr Hs _ _ _ _ _] (_ & _ & Hr' & Hs' & _). unfold log_read, conf_log_read. by rewrite Hr', Hs', Hr, Hs.
Qed.

Lemma conf_verdict_eq b m t t' c bad i :
  conf_rep b m t c → same_config t t' → verdict t' bad i = conf_verdict c bad i.
Proof.
  intros [Hr Hs _ _ _ _ _] (_ & _ & Hr' & Hs' & _). unfold verdict, conf_verdict. by rewrite Hr', Hs', Hr, Hs.
Qed.

(** The calls before the loop succeed, and the buffer of the configuration is
    still there when the names of the capabilities are read. *)
Record launched (l : launch) : Prop := {
  la_frame : ∀ m, l_frame l m = m;
  la_pipe : ∃ rd wr, l_pipe l = Some (rd, wr) ∧ 0 < rd;
  la_fork : 0 ≤ l_fork l;
  la_sigaction : l_sigaction l = 0;
}.

(** The test runs for the rounds [pre] and exits in the round [k]. *)
Record exits (ks : list tick) (k : tick) : Prop := {
  ex_rounds : ∃ pre post, ks = pre ++ k :: post ∧ Forall idle pre ∧ Forall (λ k, ans_ok (tk_poll k)) pre ∧
                          bytes_read pre < MAX_OUTPUT;
  ex_exited : exited k;
}.

(** What happens before the loop: the test is skipped, or goes on. *)
Lemma run_test_head read_file e l ks t c s d :
  fresh t → configured read_file (l_stack l) t c → cap_wf s → (∀ m, l_frame l m = m) →
  ∃ s', cap_wf s' ∧ cap_evolves s s' ∧ asked_table c s s' ∧
    ((¬ (c_disabled c = 0 ∧ Forall (holds s') (c_caps c)) ∧
      ∃ t' a, run_test read_file e l ks t s d = Ok (Some 0, t', s', d, a) ∧
        path t' = path t ∧ ignored t' = c_ignored c ∧ result t' = TEST_SKIPPED) ∨
     (c_disabled c = 0 ∧ Forall (holds s') (c_caps c) ∧
      ∃ b m t1 out, conf_rep b m t1 c ∧ same_frame t t1 ∧
        test_read_config read_file (l_stack l) t = Ok (t1, m, c_err c) ∧
        test_should_run m s t1 = Ok (true, t1, s', out))).
Proof.
  intros Hf Hcfg Hw Hfr.
  destruct (configured_conf _ _ _ _ Hf Hcfg) as (b & t1 & m & Ec & Hrep & Hsf).
  destruct (test_should_run_total b m t1 c s Hw Hrep) as (ok & t2 & s' & out & Es & Hw' & He & Hak & Hcase).
  exists s'. do 3 (split; [done|]). destruct Hcase as [(-> & -> & H1 & H2)|(-> & -> & Hno)].
  - right. split_and!; [done..|]. by exists b, m, t1, out.
  - left. split; [done|]. eexists _, _. split.
    + unfold run_test. rewrite Ec. cbn [mbind res_bind]. rewrite Hfr, Es. cbn. done.
    + destruct Hsf as (_ & Hp & _). destruct Hrep. by split_and!.
Qed.

Lemma run_test_verdict_lemma read_file e l ks k t c s d dm d' a' :
  fresh t → configured read_file (l_stack l) t c → cap_wf s →
  launched l → exits ks k → dmesg_check d (tk_klog k) = Ok (dm, d', a') →
  let v := conf_verdict c (negb (dm =? 0)) (tk_info k) in
  ∃ rc t' s' d'' a, run_test read_file e l ks t s d = Ok (Some rc, t', s', d'', a) ∧
    cap_wf s' ∧ cap_evolves s s' ∧ asked_table c s s' ∧ path t' = path t ∧ ignored t' = c_ignored c ∧
    ((c_disabled c = 0 ∧ Forall (holds s') (c_caps c) ∧
      result t' = verdict_result v t ∧ rc = verdict_rc v ∧
      d'' = if conf_log_read c (tk_info k) then d' else d) ∨
     (¬ (c_disabled c = 0 ∧ Forall (holds s') (c_caps c)) ∧ result t' = TEST_SKIPPED ∧ rc = 0 ∧ d'' = d)).
Proof.
  intros Hf Hcfg Hw [Hfr (rd & wr & Hpipe & Hrd) Hfork Hsig] [(pre & post & -> & Hi & Ha & Hb) Hx] Hd v.
  destruct (run_test_head read_file e l (pre ++ k :: post) t c s d Hf Hcfg Hw Hfr) as (s' & Hw' & He & Hak & Hcase).
  destruct Hcase as [(Hno & t' & a & -> & Hp & Hig & Hres)|(Hdis & Hcs & b & m & t1 & out & Hrep & Hsf & Ec & Es)].
  { eexists _, _, _, _, _. split; [done|]. split_and!; try done. by right. }
  pose proof Hsf as (Hty1 & Hp1 & _ & Ho1 & Hr1).
  set (t2 := set_run (TestRun rd (Some (l_fork l))) t1).
  set (dl := Timeval (tv_sec (l_now l) + timeout t2) (tv_usec (l_now l))).
  assert (output t2 = TestOutput None 0 0) as Ho2 by (rewrite <- (fr_out _ Hf), <- Ho1; done).
  destruct (run_loop_verdict_lemma (l_fork l) e dl pre k post t2 d dm d' a') as (t3 & d3 & a3 & El & Hc3 & Hres3 & _ & Hd3);
    [|by rewrite <- (fr_type _ Hf), <- Hty1|done|done|done| |done|].
  { split; [done|done|]. rewrite Ho2. split; cbn; unfold readsize; lia. }
  { rewrite Ho2. done. }
  pose proof (conf_verdict_eq _ _ _ t2 _ (negb (dm =? 0)) (tk_info k) Hrep) as Hv. rewrite Hv in El, Hres3 by by repeat split.
  rewrite (conf_log_read_eq _ _ _ t2 _ (tk_info k) Hrep) in Hd3 by by repeat split.
  eexists _, t3, s', d3, _. split.
  - unfold run_test. rewrite Ec. cbn [mbind res_bind]. rewrite Hfr, Es. cbn [mbind res_bind negb].
    rewrite Hpipe. cbn zeta. rewrite (proj2 (Z.ltb_ge _ _) Hfork), Hsig. cbn [negb Z.eqb].
    fold t2. fold dl. rewrite El. cbn [mbind res_bind]. done.
  - destruct Hc3 as (_ & Hp3 & _ & _ & _ & _ & Hi3 & _). destruct Hrep as [_ _ _ _ Hig _ _].
    split_and!; [done|done|done|by rewrite Hp3|by rewrite Hi3|]. left. split_and!; try done.
    rewrite Hres3. unfold verdict_result. by destruct (conf_verdict _ _ _) as [[]|]; [..|by rewrite <- Hr1].
Qed.

(** C1 [run_test_verdict]: [run_test] on a fresh test whose configuration file
    describes [c], for a program that is started and exits: the test is skipped
    when it is disabled or a requirement of the file does not hold, and otherwise
    its result is the verdict of its exit status by that configuration; the
    return value is -1 for a failure and 0 else.  Nothing goes wrong on the way.
    The test is one of the tests proper ([TEST_TYPE_TEST], by [fresh]) and prints
    less than 128 MB, and the line buffer of [test_read_config], dead when the
    requirements are checked, is still as it was ([launched]). *)
Theorem run_test_verdict read_file e l ks k t c s d dm d' a' :
  fresh t → configured read_file (l_stack l) t c → cap_wf s →
  launched l → exits ks k → dmesg_check d (tk_klog k) = Ok (dm, d', a') →
  let v := conf_verdict c (negb (dm =? 0)) (tk_info k) in
  ∃ rc t' s' d'' a, run_test read_file e l ks t s d = Ok (Some rc, t', s', d'', a) ∧
    cap_wf s' ∧ cap_evolves s s' ∧ path t' = path t ∧ ignored t' = c_ignored c ∧
    ((c_disabled c = 0 ∧ Forall (holds s') (c_caps c) ∧
      result t' = verdict_result v t ∧ rc = verdict_rc v) ∨
     (¬ (c_disabled c = 0 ∧ Forall (holds s') (c_caps c)) ∧ result t' = TEST_SKIPPED ∧ rc = 0)).
Proof.
  intros Hf Hc Hw Hl Hx Hd v.
  destruct (run_test_verdict_lemma read_file e l ks k t c s d dm d' a' Hf Hc Hw Hl Hx Hd)
    as (rc & t' & s' & d'' & a & ? & ? & ? & _ & ? & ? & Hcase). exists rc, t', s', d'', a.
  split_and!; try done. destruct Hcase as [(? & ? & ? & ? & _)|(? & ? & ? & _)]; [by left|by right].
Qed.
End run_verdict.
