(* ===== verification/Options.v ===== *)
(** * The options of the runner (bin/run-tests.c)

    The table [options] and [getopt_long] of the C library as the runner calls it:
    options without arguments, long names that can be shortened, operands before
    and between the options (POSIXLY_CORRECT is not set).  The elements of [argv]
    are given without their NUL. *)

From S2P Require Import Prelude CString.

Local Open Scope Z_scope.

(** ** The table *)

(** [struct option]; the runner leaves [flag] NULL. *)
Record struct_option := StructOption { opt_name : option bytes; has_arg : Z; val : Z }.

(** A character constant is an [int]. *)
Definition chr (c : ascii) : Z := Z.of_nat (nat_of_ascii c).

Definition options : list struct_option := [
  StructOption (Some (lit "continue")) 0 (chr "c");
  StructOption (Some (lit "benchmark")) 0 (chr "b");
  StructOption (Some (lit "capabilities")) 0 (chr "p");
  StructOption (Some (lit "help")) 0 (chr "h");
  StructOption (Some (lit "no-timeout")) 0 (chr "t");
  StructOption None 0 0
].

Definition optstring : bytes := lit "cbtph".

(** ** [getopt_long] *)

(** The entries up to the one without a name. *)
Fixpoint entries (t : list struct_option) : list (bytes * struct_option) :=
  match t with
  | o :: t => match opt_name o with Some n => (n, o) :: entries t | None => [] end
  | [] => []
  end.

Inductive found := Found (name : bytes) (o : struct_option) | Ambiguous (names : list bytes) | Unknown.

Definition same_option (o o' : struct_option) : bool := (has_arg o =? has_arg o') && (val o =? val o').

(** An exact name first; else the only entry that the name begins, or the first
    of several that do the same. *)
Definition find_long (name : bytes) (t : list struct_option) : found :=
  match List.find (λ o, bool_decide (o.1 = name)) (entries t) with
  | Some (n, o) => Found n o
  | None =>
      match List.filter (λ o, bool_decide (name `prefix_of` o.1)) (entries t) with
      | [] => Unknown
      | (n, o) :: rest =>
          match List.filter (λ o', negb (same_option o o'.2)) rest with
          | [] => Found n o
          | others => Ambiguous (n :: map fst others)
          end
      end
  end.

(** [nextchar], the elements from [optind] on, and the operands passed over. *)
Record getopt := Getopt { g_next : bytes; g_rest : list bytes; g_operands : list bytes }.

(** Value [-1] is [None]; else the value and what is printed on stderr. *)
Definition answer : Type := option (Z * bytes).

Section getopt_long.
Context (progname : bytes) (optstring : bytes) (table : list struct_option).

(** "prog: ...", ended by a newline. *)
Definition complain (msg : bytes) : answer := Some (chr "?", progname ++ lit ": " ++ msg ++ [newline_c]).

Definition quoted (name : bytes) : bytes := lit "'--" ++ name ++ lit "'".

Definition short_option (c : ascii) : answer :=
  if decide (c ∈ optstring) then Some (chr c, [])
  else complain (lit "invalid option -- '" ++ [c] ++ lit "'").

(** The characters before "=", or all. *)
Fixpoint name_part (word : bytes) : bytes :=
  match word with
  | [] => []
  | c :: word => if decide (c = "="%char) then [] else c :: name_part word
  end.

(** [word] is what follows "--": a name, or a name, "=" and a value. *)
Definition long_option (word : bytes) : answer :=
  let name := name_part word in
  match find_long name table with
  | Unknown => complain (lit "unrecognized option " ++ quoted word)
  | Ambiguous names =>
      complain (lit "option " ++ quoted word ++ lit " is ambiguous; possibilities:"
        ++ concat (map (λ n, lit " " ++ quoted n) names))
  | Found n o =>
      if decide (length name < length word)%nat then
        complain (lit "option " ++ quoted n ++ lit " doesn't allow an argument")
      else Some (val o, [])
  end.

(** The next element that is an option; those before it become operands. *)
Fixpoint next_element (rest operands : list bytes) : answer * getopt :=
  match rest with
  | [] => (None, Getopt [] [] operands)
  | a :: rest =>
      match a with
      | ("-" :: "-" :: [])%char => (None, Getopt [] [] (operands ++ rest))
      | ("-" :: "-" :: word)%char => (long_option word, Getopt [] rest operands)
      | ("-" :: c :: next)%char => (short_option c, Getopt next rest operands)
      | _ => next_element rest (operands ++ [a])
      end
  end.

Definition getopt_long (g : getopt) : answer * getopt :=
  match g_next g with
  | c :: next => (short_option c, Getopt next (g_rest g) (g_operands g))
  | [] => next_element (g_rest g) (g_operands g)
  end.

(** What is left to look at; every value uses some of it up. *)
Definition pending (g : getopt) : nat :=
  (length (g_next g) + sum_list_with (λ a, S (length a)) (g_rest g))%nat.

Lemma next_element_pending rest ops v g :
  next_element rest ops = (Some v, g) → (pending g < sum_list_with (λ a, S (length a)) rest)%nat.
Proof.
  revert ops. induction rest as [|a rest IH]; intros ops; [done|]. cbn [next_element sum_list_with].
  intros H. repeat case_match; simplify_eq; unfold pending; cbn [length g_next g_rest] in *;
    solve [lia|apply IH in H; unfold pending in H; lia].
Qed.

Lemma getopt_long_pending g v g' : getopt_long g = (Some v, g') → (pending g' < pending g)%nat.
Proof.
  unfold getopt_long. destruct (g_next g) as [|c next] eqn:E.
  - intros H%next_element_pending. unfold pending at 2. rewrite E. done.
  - intros [= _ <-]. unfold pending. rewrite E. cbn. lia.
Qed.
End getopt_long.
