(* ===== verification/Runner.v ===== *)
(** * Running all the tests (bin/run-tests.c)

    [run_tests], [print_summary] and [main] on top of [find_tests] and
    [run_test].  The machine is a parameter: the file system, what [read] gives
    for a configuration file, and for each test the answers of its run. *)

From S2P Require Import Prelude CString Interfaces TestModel TestConf RunTest FindTests Capabilities Options.

Local Open Scope Z_scope.

(** ** [run_tests] *)

(** [struct tm] as [strftime] reads it: the month counts from 0. *)
Record tm := Tm { tm_year : Z; tm_mon : Z; tm_mday : Z; tm_hour : Z; tm_min : Z; tm_sec : Z }.

(** A conversion of [strftime] with two digits. *)
Definition dec2 (x : Z) : bytes := (if x <? 10 then lit "0" else []) ++ fmt_d x.

(** [strftime] of "run.%Y-%m-%d.%H:%m:%S". *)
Definition working_dir (t : tm) : bytes :=
  lit "run." ++ fmt_d (1900 + tm_year t) ++ lit "-" ++ dec2 (tm_mon t + 1) ++ lit "-"
  ++ dec2 (tm_mday t) ++ lit "." ++ dec2 (tm_hour t) ++ lit ":" ++ dec2 (tm_mon t + 1)
  ++ lit ":" ++ dec2 (tm_sec t).

Definition EEXIST : Z := 17.

(** The answers before the first test: [klogctl], [localtime], [mkdir] with
    [errno], [open]. *)
Record suite_start := SuiteStart {
  ss_klog : klog; ss_tm : tm; ss_mkdir : Z; ss_errno : Z; ss_open : Z;
}.

(** The answers of the run of one test. *)
Record test_env := TestEnv { te_launch : launch; te_ticks : list tick }.

Section run_tests.
Context (read_file : bytes → option (option bytes)).
Context {S : Type} `{CapService S}.

(** [for (test = tests; *test; test++)]: the return value ([None] while a test
    still runs), the tests after their runs, the other state, the actions. *)
Fixpoint run_all (cont_on_failure enable_timeout : bool) (tests : list (test * test_env))
    (rc : Z) (s : S) (d : dmesg) : res (option Z * list test * S * dmesg * list action) :=
  match tests with
  | [] => Ok (Some rc, [], s, d, [])
  | (t, env) :: rest =>
      '(r, t, s, d, a) ← run_test read_file enable_timeout (te_launch env) (te_ticks env) t s d;
      match r with
      | None => Ok (None, t :: map fst rest, s, d, a)
      | Some r =>
          let rc := Z.lor rc r in
          if negb (rc =? 0) && negb cont_on_failure then
            Ok (Some (-1), t :: map fst rest, s, d, a)
          else
            '(r, ts, s, d, a') ← run_all cont_on_failure enable_timeout rest rc s d;
            Ok (r, t :: ts, s, d, a ++ a')
      end
  end.

(** The directory is closed only when all the tests have run. *)
Definition run_tests (cont_on_failure enable_timeout : bool) (tests : list (test * test_env))
    (u : suite_start) (s : S) (d : dmesg) : res (option Z * list test * S * dmesg * list action) :=
  '(bad, d, a0) ← dmesg_check d (ss_klog u);
  if negb (bad =? 0) then
    Ok (Some (-1), map fst tests, s, d,
        a0 ++ [Stderr (lit "dmesg check failed: not running tests" ++ [newline_c])])
  else if negb (ss_mkdir u =? 0) && negb (ss_errno u =? EEXIST) then
    Ok (Some (-1), map fst tests, s, d, [Perror "mkdir"])
  else if ss_open u <? 0 then Ok (Some (-1), map fst tests, s, d, [Perror "open"])
  else
    '(r, ts, s, d, a) ← run_all cont_on_failure enable_timeout tests 0 s d;
    Ok (r, ts, s, d,
        a ++ match r with
             | Some r => if (r =? 0) || cont_on_failure then [Close (ss_open u)] else []
             | None => []
             end).
End run_tests.

(** ** [print_summary] *)

Record summary := Summary { n_tests : Z; n_pass : Z; n_fail : Z; n_skip : Z }.

(** One round of the loop over the tests. *)
Definition count_test (c : summary) (t : test) : summary :=
  if decide (result t = TEST_NOTRUN) then c
  else if negb (ignored t =? 0) then c
  else
    let c := Summary (n_tests c + 1) (n_pass c) (n_fail c) (n_skip c) in
    match result t with
    | TEST_PASSED => Summary (n_tests c) (n_pass c + 1) (n_fail c) (n_skip c)
    | TEST_FAILED => Summary (n_tests c) (n_pass c) (n_fail c + 1) (n_skip c)
    | TEST_SKIPPED => Summary (n_tests c) (n_pass c) (n_fail c) (n_skip c + 1)
    | TEST_NOTRUN => c
    end.

Definition count_tests (tests : list test) : summary :=
  fold_left count_test tests (Summary 0 0 0 0).

Definition print_summary (tests : list test) : bytes :=
  let c := count_tests tests in
  fmt_d (n_tests c) ++ lit " tests run: " ++ fmt_d (n_pass c) ++ lit " passed, "
  ++ fmt_d (n_fail c) ++ lit " failed, " ++ fmt_d (n_skip c) ++ lit " skipped" ++ [newline_c].

(** ** [main] *)

Definition EXIT_SUCCESS : Z := 0.
Definition EXIT_FAILURE : Z := 1.

Definition usage (progname : bytes) : action :=
  Stderr (lit "usage: " ++ progname
    ++ lit " [--benchmark] [--continue] [--no-timeout] [testdir]" ++ [newline_c]).

(** The variables that the options set. *)
Record settings := Settings { o_cont : bool; o_benchmark : bool; o_timeout : bool }.

Section main.
Context {W : Type} `{CapOS W}.
Context (opendir : bytes → option (list bytes)) (stat : bytes → option Z)
        (read_file : bytes → option (option bytes)).

Implicit Types (st : list capability * W).

(** The loop over the options: what they set with the operands, or the exit
    status with what is printed. *)
Fixpoint option_loop (fuel : nat) (progname : bytes) (g : getopt) (o : settings) (st : list capability * W)
    : res (settings * list bytes + Z * list action) :=
  match fuel with
  | O => OutOfFuel
  | S fuel =>
      let '(c, g) := getopt_long progname optstring options g in
      match c with
      | None => Ok (inl (o, g_operands g))
      | Some (c, msg) =>
          if c =? chr "c" then option_loop fuel progname g (Settings true (o_benchmark o) (o_timeout o)) st
          else if c =? chr "b" then option_loop fuel progname g (Settings (o_cont o) true (o_timeout o)) st
          else if c =? chr "t" then option_loop fuel progname g (Settings (o_cont o) (o_benchmark o) false) st
          else if c =? chr "p" then
            '(out, _, _) ← print_capabilities st.1 st.2; Ok (inr (EXIT_SUCCESS, [Stdout out]))
          else if c =? chr "h" then Ok (inr (EXIT_SUCCESS, [usage progname]))
          else Ok (inr (EXIT_FAILURE, [Stderr msg; usage progname]))
      end
  end.

(** The fuel is more than the number of values that [getopt_long] can return. *)
Definition parse_options (progname : bytes) (args : list bytes) (st : list capability * W)
    : res (settings * list bytes + Z * list action) :=
  let g := Getopt [] args [] in
  option_loop (S (pending g)) progname g (Settings false false true) st.

(** The arguments after the options: the test directory. *)
Definition test_dir (progname : bytes) (operands : list bytes) : bytes + Z * list action :=
  match operands with
  | [] => inl (lit "tests")
  | [d] => inl d
  | _ => inr (EXIT_FAILURE, [usage progname])
  end.

(** [argv] is the name of the program with [args]; [fuel] bounds the walk of [find_tests]; [env_of] has the answers of each
    test's run; the status is [None] while a test still runs.  [run_tests] on a
    NULL array is [UB]. *)
Definition main (fuel : nat) (progname : bytes) (args : list bytes)
    (env_of : bytes → test_env) (u ub : suite_start) (st : list capability * W)
    : res (option Z * list action) :=
  o ← parse_options progname args st;
  match o with
  | inr (rc, a) => Ok (Some rc, a)
  | inl (o, operands) =>
      match test_dir progname operands with
      | inr (rc, a) => Ok (Some rc, a)
      | inl testdir =>
          ts ← find_tests opendir stat fuel testdir TEST_TYPE_TEST;
          match ts with
          | None => Ok (Some EXIT_FAILURE, [Stderr (lit "No tests found" ++ [newline_c])])
          | Some ts =>
              '(rc, ts, st, d, a) ← run_tests read_file (o_cont o) (o_timeout o)
                (map (λ t, (t, env_of (path t))) ts) u st dmesg_init;
              match rc with
              | None => Ok (None, a)
              | Some rc =>
                  let a := a ++ [Stdout (print_summary ts)] in
                  if negb (rc =? 0) || negb (o_benchmark o) then Ok (Some rc, a)
                  else
                    let a := a ++ [Stdout (lit "--- Running benchmarks" ++ [newline_c])] in
                    bs ← find_tests opendir stat fuel (lit "benchmarks") TEST_TYPE_BENCHMARK;
                    bs ← of_option bs;
                    '(r, _, _, _, a') ← run_tests read_file false false
                      (map (λ t, (t, env_of (path t))) bs) ub st d;
                    Ok (match r with Some _ => Some 0 | None => None end, a ++ a')
              end
          end
      end
  end.
End main.
