(* ===== verification/RunnerProps.v ===== *)
(** * Correctness of the runner of the suite

    What the return value of [run_tests] means, which tests run, what the
    summary counts, and how [main] ends. *)

From S2P Require Import Prelude CString Interfaces TestModel TestConf Requirements RunTest RunTestProps FindTests Capabilities Runner.

Local Open Scope Z_scope.

Section suite.
Context (read_file : bytes → option (option bytes)).
Context {S : Type} `{CapService S}.

Implicit Types (s : S) (d : dmesg) (t : test).

(** The runs of a list of tests one after the other: their return values, the
    tests they leave and the state at the end. *)
Inductive suite_run (e : bool) : list (test * test_env) → S → dmesg → list Z → list test →
    S → dmesg → Prop :=
| suite_nil s d : suite_run e [] s d [] [] s d
| suite_cons t env rest s d r t' s1 d1 a rs ts s2 d2 :
    run_test read_file e (te_launch env) (te_ticks env) t s d = Ok (Some r, t', s1, d1, a) →
    suite_run e rest s1 d1 rs ts s2 d2 →
    suite_run e ((t, env) :: rest) s d (r :: rs) (t' :: ts) s2 d2.

(** The codes [rs] of the tests that ran end the run: --continue is off, and the
    last of them is the first that is not 0. *)
Definition stops_at (cont : bool) (rs : list Z) : Prop :=
  cont = false ∧ ∃ rs0 r, rs = rs0 ++ [r] ∧ Forall (λ r, r = 0) rs0 ∧ r ≠ 0.

Lemma run_all_outcome_lemma cont e tests s d rc ts s' d' a :
  run_all read_file cont e tests 0 s d = Ok (Some rc, ts, s', d', a) →
  ∃ n rs ts1, suite_run e (take n tests) s d rs ts1 s' d' ∧
    ts = ts1 ++ map fst (drop n tests) ∧
    (rc = 0 ↔ Forall (λ r, r = 0) rs) ∧
    ((length tests ≤ n)%nat ∧ rc = foldr Z.lor 0 rs ∧ (cont = true ∨ Forall (λ r, r = 0) rs) ∨
     stops_at cont rs ∧ rc = -1).
Proof.
  assert (∀ rc0, (rc0 = 0 ∨ cont = true) →
    run_all read_file cont e tests rc0 s d = Ok (Some rc, ts, s', d', a) →
    ∃ n rs ts1, suite_run e (take n tests) s d rs ts1 s' d' ∧
      ts = ts1 ++ map fst (drop n tests) ∧
      (rc = 0 ↔ rc0 = 0 ∧ Forall (λ r, r = 0) rs) ∧
      ((length tests ≤ n)%nat ∧ rc = Z.lor rc0 (foldr Z.lor 0 rs) ∧
       (cont = true ∨ Forall (λ r, r = 0) rs) ∨ stops_at cont rs ∧ rc = -1)) as Hgen.
  { revert s d ts a. induction tests as [|[t env] rest IH]; intros s d ts a rc0 Hrc0; cbn [run_all].
    { intros [= <- <- <- <- <-]. exists 0%nat, [], []. split_and!; [constructor|done| |left; split_and!; [done|cbn; by rewrite Z.lor_0_r|by right]].
      split; [by intros|tauto]. }
    intros Hr. res_inv Hr. destruct a0 as [[[[r t1] s1] d1] a1].
    destruct r as [r|]; [|done].
    destruct (negb (Z.lor rc0 r =? 0) && negb cont) eqn:Hstop.
    - injection Hr as <- <- <- <- <-. apply andb_true_iff in Hstop as [Hz Hc].
      apply negb_true_iff in Hz, Hc. apply Z.eqb_neq in Hz.
      destruct Hrc0 as [->|Hrc0]; [|congruence]. rewrite Z.lor_0_l in Hz.
      exists 1%nat, [r], [t1]. cbn. split_and!; [by econstructor; [|constructor]|done| |].
      + split; [done|]. intros [_ Hf]. by inversion Hf.
      + right. split; [|done]. split; [done|]. by exists [], r.
    - res_inv Hr. destruct a0 as [[[[r2 ts2] s2] d2] a2]. injection Hr as -> <- -> -> <-.
      apply andb_false_iff in Hstop.
      assert (Z.lor rc0 r = 0 ∨ cont = true) as Hrc1.
      { destruct Hstop as [Hz|Hz]; apply negb_false_iff in Hz; [left; by apply Z.eqb_eq|by right]. }
      destruct (IH s1 d1 ts2 a2 _ Hrc1 E0) as (n & rs & ts1 & Hs & -> & Hz & Hn).
      exists (Datatypes.S n), (r :: rs), (t1 :: ts1). cbn. split_and!; [by econstructor|done| |].
      + rewrite Hz, Z.lor_eq_0_iff, Forall_cons. tauto.
      + destruct Hn as [(Hn & -> & Hc)|[(Hc & rs0 & r0 & -> & Hf & Hr0) ->]]; [left|right].
        { split_and!; [lia|cbn; by rewrite Z.lor_assoc|]. destruct Hrc1 as [[_ Hz1]%Z.lor_eq_0_iff|Hz1]; [|by left].
          destruct Hc as [Hc|Hc]; [by left|right; by constructor]. }
        split; [|done]. split; [done|]. exists (r :: rs0), r0. split_and!; [done| |done].
        constructor; [|done]. destruct Hrc1 as [Hl%Z.lor_eq_0_iff|Hl]; [tauto|congruence]. }
  intros Hr. destruct (Hgen 0 ltac:(by left) Hr) as (n & rs & ts1 & ? & ? & Hz & ?).
  exists n, rs, ts1. split_and!; try done. rewrite Hz. tauto.
Qed.

(** C8 [run_all_outcome]: [run_tests] runs the first [n] tests in order and leaves
    the rest untouched.  Either it runs all of them, and then --continue is on or
    every one returned 0, and the status is the "or" of what they returned; or
    --continue is off, the last that ran is the first that did not return 0, and
    the status is -1.  It is 0 exactly when every test that ran returned 0. *)
Theorem run_all_outcome cont e tests s d rc ts s' d' a :
  run_all read_file cont e tests 0 s d = Ok (Some rc, ts, s', d', a) →
  ∃ n rs ts1, suite_run e (take n tests) s d rs ts1 s' d' ∧
    ts = ts1 ++ map fst (drop n tests) ∧
    (rc = 0 ↔ Forall (λ r, r = 0) rs) ∧
    ((length tests ≤ n)%nat ∧ rc = foldr Z.lor 0 rs ∧ (cont = true ∨ Forall (λ r, r = 0) rs) ∨
     stops_at cont rs ∧ rc = -1).
Proof. exact (run_all_outcome_lemma cont e tests s d rc ts s' d' a). Qed.
End suite.

(** ** What the return value of one test says *)

Definition other_exit (k : tick) : Prop :=
  exited k ∧ si_code (tk_info k) ≠ CLD_EXITED ∧ si_code (tk_info k) ≠ CLD_KILLED.

Lemma fail_with_result t msg rc t' a :
  fail_with t msg = Ok (rc, t', a) → rc = -1 ∧ result t' = TEST_FAILED.
Proof.
  unfold fail_with, test_fail. intros Hr. res_inv Hr. destruct a0 as [t1 o1].
  injection Hr as <- <- <-. split; [done|].
  destruct (0 <? _); [res_inv E; by injection E as <- _|by injection E as <- _].
Qed.

Lemma pass_with_result t rc t' a :
  pass_with t = Ok (rc, t', a) → rc = 0 ∧ result t' = TEST_PASSED.
Proof.
  unfold pass_with, test_pass. intros Hr. res_inv Hr. destruct a0 as [t1 o1].
  injection Hr as <- <- <-. split; [done|].
  destruct (type _); [by injection E as <- _|res_inv E; by injection E as <- _].
Qed.

Lemma fail_branch t msg (d : dmesg) (g : list action → list action) rc t' d' a :
  ('(rc, t, a) ← fail_with t msg; Ok (rc, t, d, g a)) = Ok (rc, t', d', a) →
  rc = -1 ∧ result t' = TEST_FAILED.
Proof.
  intros Hr. res_inv Hr. destruct a0 as [[rc1 t1] a1]. apply fail_with_result in E.
  by injection Hr as <- <- _ _.
Qed.

Lemma pass_branch t (d : dmesg) (g : list action → list action) rc t' d' a :
  ('(rc, t, a) ← pass_with t; Ok (rc, t, d, g a)) = Ok (rc, t', d', a) →
  rc = 0 ∧ result t' = TEST_PASSED.
Proof.
  intros Hr. res_inv Hr. destruct a0 as [[rc1 t1] a1]. apply pass_with_result in E.
  by injection Hr as <- <- _ _.
Qed.

Lemma check_exit_result t d k i rc t' d' a :
  check_exit t d k i = Ok (rc, t', d', a) →
  (rc = 0 ∧ result t' = TEST_PASSED) ∨ (rc = -1 ∧ result t' = TEST_FAILED) ∨
  (rc = 0 ∧ t' = t ∧ si_code i ≠ CLD_EXITED ∧ si_code i ≠ CLD_KILLED).
Proof.
  unfold check_exit. destruct (Z.eqb_spec (si_code i) CLD_EXITED).
  - destruct (negb _); [intros Hr%(fail_branch _ _ _ id); auto|].
    destruct (negb _); [intros Hr%(fail_branch _ _ _ id); auto|].
    intros Hr. res_inv Hr. destruct a0 as [[dm d1] a0]. revert Hr.
    destruct (negb _); [intros Hr%(fail_branch _ _ _ (app a0)); auto|].
    intros Hr%(pass_branch _ _ (app a0)); auto.
  - destruct (Z.eqb_spec (si_code i) CLD_KILLED); [|intros [= <- <- <- <-]; right; right; by split_and!].
    destruct (_ =? _); [intros Hr%(pass_branch _ _ id); auto|].
    destruct (_ =? _); intros Hr%(fail_branch _ _ _ id); auto.
Qed.

Lemma read_test_output_result t ms k rc t' a :
  read_test_output t ms k = Ok (rc, t', a) → result t' = result t.
Proof.
  unfold read_test_output. cbn zeta.
  repeat case_match; intros Hr; simplify_eq; try done.
  res_inv Hr. by injection Hr as _ <- _.
Qed.

Lemma run_loop_result e dl ks t d rc t' d' a :
  run_loop e dl ks t d = Ok (Some rc, t', d', a) →
  (rc = 0 ∧ result t' = TEST_PASSED) ∨ (rc ≠ 0 ∧ result t' = TEST_FAILED) ∨
  (rc ≠ 0 ∧ result t' = result t ∧ Exists (λ k, tk_waitid k ≠ 0) ks) ∨
  (rc = 0 ∧ result t' = result t ∧ Exists other_exit ks).
Proof.
  revert t d a. induction ks as [|k ks IH]; intros t d a; cbn [run_loop]; [done|].
  intros Hr. res_inv Hr. destruct a0 as [[[r t1] d1] a1]. unfold run_round in E. res_inv E.
  destruct (Z.eqb_spec (tk_waitid k) 0) as [Hw|Hw]; cbn [negb] in E.
  2:{ injection E as <- <- <- <-. injection Hr as <- <- <- <-. right; right; left.
      split_and!; [done|done|by left]. }
  destruct (Z.eqb_spec (si_pid (tk_info k)) 0) as [Hp|Hp]; cbn [negb] in E.
  - res_inv E. destruct a2 as [[rc0 t2] a2]. injection E as <- <- <- <-.
    apply read_test_output_result in E1.
    apply res_bind_ok in Hr as ([[[r3 t3] d3] a3] & E & Hr).
    injection Hr as -> <- <- <-. apply IH in E.
    destruct E as [?|[?|[(?&?&?)|(?&?&?)]]]; rewrite ?E1 in *; auto.
    + right; right; left. split_and!; [done|congruence|by right].
    + right; right; right. split_and!; [done|congruence|by right].
  - res_inv E. destruct a2 as [[[rc0 t2] d2] a2]. injection E as <- <- <- <-.
    injection Hr as <- <- <- <-.
    apply check_exit_result in E1 as [[-> Hres]|[[-> Hres]|(-> & -> & Hc1 & Hc2)]]; [by left| |].
    + right; left. by split; [lia|].
    + right; right; right. split_and!; [done|done|left]. by repeat split.
Qed.

Section green.
Context (read_file : bytes → option (option bytes)).
Context {S : Type} `{CapServiceLaws S}.

Lemma token_loop_result fuel t m c err t' m' err' :
  token_loop fuel t m c err = Ok (t', m', err') → result t' = result t.
Proof.
  revert t m c err. induction fuel as [|fuel IH]; intros t m c err; cbn [token_loop]; [done|].
  intros Hr. res_inv Hr. destruct a as [[[p|] m1] s1]; [|by injection Hr as <- _ _].
  res_inv Hr. destruct a as [t1 e]. apply IH in Hr. rewrite Hr.
  unfold handle_testconf_token in E0.
  repeat (res_inv E0; case_match; try (by injection E0 as <- _)); res_inv E0; by injection E0 as <- _.
Qed.

Lemma conf_loop_result fuel fpat t m c err t' m' err' :
  conf_loop fuel fpat t m c err = Ok (t', m', err') → result t' = result t.
Proof.
  revert t m c err. induction fuel as [|fuel IH]; intros t m c err; cbn [conf_loop]; [done|].
  intros Hr. res_inv Hr. case_decide; [by injection Hr as <- _ _|].
  res_inv Hr. destruct a2 as [c1 b]. res_inv Hr. destruct a2 as [[t1 m1] e1].
  assert (result t1 = result t) as Ht.
  { destruct b; [by eapply token_loop_result|by injection E3 as <- _ _]. }
  destruct a1; cbn in Hr; [apply IH in Hr; congruence|by injection Hr as <- _ _].
Qed.

Lemma test_read_config_result stack t t' m' err' :
  test_read_config read_file stack t = Ok (t', m', err') → result t' = result t.
Proof.
  unfold test_read_config. intros Hr. res_inv Hr.
  destruct a as [i|]; [|by injection Hr as <- _ _].
  destruct (read_file _) as [content|]; [by eapply conf_loop_result|by injection Hr as <- _ _].
Qed.

Lemma run_test_result e l ks t (s : S) d rc t' s' d' a :
  run_test read_file e l ks t s d = Ok (Some rc, t', s', d', a) →
  (rc = 0 ∧ (result t' = TEST_PASSED ∨ result t' = TEST_SKIPPED)) ∨
  (rc ≠ 0 ∧ (result t' = TEST_FAILED ∨ result t' = result t)) ∨
  (rc = 0 ∧ result t' = result t ∧ Exists other_exit ks).
Proof.
  unfold run_test. intros Hr. res_inv Hr. destruct a0 as [[t1 m1] err1].
  apply res_bind_ok in Hr as ([[[b t2] s2] out] & E1 & Hr).
  apply test_read_config_result in E. apply test_should_run_decides_lemma in E1 as (_ & Ht & Hf).
  destruct b; cbn [negb] in Hr.
  2:{ injection Hr as <- <- _ _ _. left. split; [done|right]. by rewrite Hf. }
  destruct (Ht eq_refl) as [-> _].
  destruct (l_pipe l) as [[rd wr]|]; [|injection Hr as <- <- _ _ _; right; left; by split; [|right]].
  destruct (l_fork l <? 0); [injection Hr as <- <- _ _ _; right; left; by split; [|right]|].
  destruct (negb _); [injection Hr as <- <- _ _ _; right; left; by split; [|right]|].
  apply res_bind_ok in Hr as ([[[r t3] d3] a3] & E2 & Hr). injection Hr as -> -> _ _ _.
  apply run_loop_result in E2 as [[-> ?]|[[? ?]|[(? & Hs & _)|(-> & Hs & ?)]]].
  - left. auto.
  - right; left. auto.
  - right; left. split; [done|right]. by rewrite Hs.
  - right; right. split_and!; [done| |done]. by rewrite Hs.
Qed.

Lemma suite_run_green e tests (s : S) d rs ts s' d' :
  suite_run read_file e tests s d rs ts s' d' → Forall (λ r, r = 0) rs →
  Forall (λ te, result te.1 = TEST_NOTRUN) tests →
  Forall2 (λ te t', result t' = TEST_PASSED ∨ result t' = TEST_SKIPPED ∨
    (result t' = TEST_NOTRUN ∧ Exists other_exit (te_ticks te.2))) tests ts.
Proof.
  induction 1 as [|t env rest s d r t1 s1 d1 a rs ts s2 d2 Hr _ IH]; [constructor|].
  intros [-> Hz]%Forall_cons [Ht Hts]%Forall_cons. cbn in Ht. constructor; [|by apply IH].
  cbn. apply run_test_result in Hr as [[_ [?|?]]|[[? _]|(_ & Hres & ?)]]; [auto|auto|done|].
  right; right. split; [congruence|done].
Qed.
End green.

(** ** The summary *)

Definition counted (t : test) : Prop := result t ≠ TEST_NOTRUN ∧ ignored t = 0.

#[global] Instance counted_dec t : Decision (counted t).
Proof. unfold counted. apply _. Defined.

(** The tests with a verdict that are not ignored, with result [r]. *)
Definition tally (r : test_result) (ts : list test) : Z :=
  Z.of_nat (length (filter (λ t, counted t ∧ result t = r) ts)).

(** 1 when [P] holds. *)
Definition one_if (P : Prop) `{Decision P} : Z := if decide P then 1 else 0.

Lemma length_filter_cons {A} (P : A → Prop) `{∀ x, Decision (P x)} x l :
  Z.of_nat (length (filter P (x :: l))) = one_if (P x) + Z.of_nat (length (filter P l)).
Proof. unfold one_if. rewrite filter_cons. case_decide; cbn [length]; lia. Qed.

Lemma one_if_iff (P Q : Prop) `{Decision P, Decision Q} : (P ↔ Q) → one_if P = one_if Q.
Proof. intros HPQ. unfold one_if. repeat case_decide; tauto. Qed.

Lemma one_if_true P `{Decision P} : P → one_if P = 1.
Proof. intros HP. unfold one_if. by rewrite decide_True. Qed.

Lemma one_if_false P `{Decision P} : ¬ P → one_if P = 0.
Proof. intros HP. unfold one_if. by rewrite decide_False. Qed.

Lemma count_test_spec c t :
  n_tests (count_test c t) = n_tests c + one_if (counted t) ∧
  n_pass (count_test c t) = n_pass c + one_if (counted t ∧ result t = TEST_PASSED) ∧
  n_fail (count_test c t) = n_fail c + one_if (counted t ∧ result t = TEST_FAILED) ∧
  n_skip (count_test c t) = n_skip c + one_if (counted t ∧ result t = TEST_SKIPPED).
Proof.
  unfold count_test. destruct (decide (counted t)) as [Hc|Hc].
  - rewrite (one_if_true (counted t)) by done. destruct Hc as [Hr Hi].
    rewrite decide_False, Hi by done. cbn [negb Z.eqb].
    destruct (decide (result t = TEST_PASSED)) as [E|E];
      [|destruct (decide (result t = TEST_FAILED)) as [E'|E']].
    + rewrite one_if_true by done. rewrite !one_if_false by (rewrite E; naive_solver).
      rewrite E. cbn. lia.
    + rewrite (one_if_true (_ ∧ result t = TEST_FAILED)) by done.
      rewrite !one_if_false by (rewrite E'; naive_solver). rewrite E'. cbn. lia.
    + assert (result t = TEST_SKIPPED) as E2 by (by destruct (result t)).
      rewrite (one_if_true (_ ∧ result t = TEST_SKIPPED)) by done.
      rewrite !one_if_false by (rewrite E2; naive_solver). rewrite E2. cbn. lia.
  - rewrite !one_if_false by tauto. unfold counted in Hc.
    case_decide; [lia|]. rewrite (proj2 (Z.eqb_neq (ignored t) 0)) by tauto. cbn. lia.
Qed.

Lemma count_tests_from c ts :
  let c' := fold_left count_test ts c in
  n_tests c' = n_tests c + Z.of_nat (length (filter counted ts)) ∧
  n_pass c' = n_pass c + tally TEST_PASSED ts ∧
  n_fail c' = n_fail c + tally TEST_FAILED ts ∧
  n_skip c' = n_skip c + tally TEST_SKIPPED ts.
Proof.
  cbn zeta. revert c. induction ts as [|t ts IH]; intros c; cbn [fold_left].
  { unfold tally. cbn. lia. }
  destruct (IH (count_test c t)) as (-> & -> & -> & ->). clear IH. unfold tally.
  rewrite !length_filter_cons. destruct (count_test_spec c t) as (-> & -> & -> & ->). lia.
Qed.

Lemma print_summary_counts_lemma ts :
  let c := count_tests ts in
  n_pass c = tally TEST_PASSED ts ∧ n_fail c = tally TEST_FAILED ts ∧
  n_skip c = tally TEST_SKIPPED ts ∧ n_tests c = n_pass c + n_fail c + n_skip c.
Proof.
  cbn zeta. unfold count_tests.
  destruct (count_tests_from (Summary 0 0 0 0) ts) as (Hn & -> & -> & ->). cbn [n_pass n_fail n_skip].
  split_and!; [done..|]. rewrite Hn. cbn [n_tests]. unfold tally. clear Hn.
  induction ts as [|t ts IH]; [done|]. rewrite !length_filter_cons, Z.add_0_l in *. rewrite IH.
  enough (one_if (counted t) = one_if (counted t ∧ result t = TEST_PASSED)
    + one_if (counted t ∧ result t = TEST_FAILED) + one_if (counted t ∧ result t = TEST_SKIPPED)) by lia.
  destruct (decide (counted t)) as [Hc|Hc]; [|rewrite !one_if_false by tauto; lia].
  rewrite one_if_true by done. pose proof Hc as [Hr _]. unfold one_if.
  repeat case_decide; try lia; exfalso;
    assert (result t = TEST_PASSED ∨ result t = TEST_FAILED ∨ result t = TEST_SKIPPED)
      by (destruct (result t); tauto); intuition congruence.
Qed.

(** [print_summary_counts]: the numbers of the summary are the numbers of
    tests, not ignored, that passed, failed and were skipped, and the number of
    tests "run" is their sum: a skipped test counts as run, a test without a
    verdict does not. *)
Theorem print_summary_counts ts :
  let c := count_tests ts in
  n_pass c = tally TEST_PASSED ts ∧ n_fail c = tally TEST_FAILED ts ∧
  n_skip c = tally TEST_SKIPPED ts ∧ n_tests c = n_pass c + n_fail c + n_skip c.
Proof. exact (print_summary_counts_lemma ts). Qed.

(** ** The suite as a whole *)

Section main_props.
Context (read_file : bytes → option (option bytes)).
Context {S : Type} `{CapServiceLaws S}.

Lemma run_all_green_lemma cont e tests (s : S) d ts s' d' a :
  run_all read_file cont e tests 0 s d = Ok (Some 0, ts, s', d', a) →
  Forall (λ te, result te.1 = TEST_NOTRUN) tests →
  Forall2 (λ te t', result t' = TEST_PASSED ∨ result t' = TEST_SKIPPED ∨
    (result t' = TEST_NOTRUN ∧ Exists other_exit (te_ticks te.2))) tests ts.
Proof.
  intros (n & rs & ts1 & Hs & -> & Hz & Hn)%run_all_outcome_lemma Hr.
  destruct Hn as [[Hn _]|[_ Hn]]; [|done].
  rewrite take_ge in Hs by done. rewrite drop_ge by done. cbn. rewrite app_nil_r.
  eapply (suite_run_green _ _ _ _ _ rs); [exact Hs|by apply Hz|done].
Qed.

(** [run_all_green]: when [run_tests] returns 0 on fresh tests, every test
    ran and passed or was skipped, but for those that ended otherwise than by an
    exit or a plain kill (with a core dump), which have no result at all. *)
Theorem run_all_green cont e tests (s : S) d ts s' d' a :
  run_all read_file cont e tests 0 s d = Ok (Some 0, ts, s', d', a) →
  Forall (λ te, result te.1 = TEST_NOTRUN) tests →
  Forall2 (λ te t', result t' = TEST_PASSED ∨ result t' = TEST_SKIPPED ∨
    (result t' = TEST_NOTRUN ∧ Exists other_exit (te_ticks te.2))) tests ts.
Proof. exact (run_all_green_lemma cont e tests s d ts s' d' a). Qed.

Lemma green_no_failure (tests : list (test * test_env)) ts :
  Forall2 (λ te t', result t' = TEST_PASSED ∨ result t' = TEST_SKIPPED ∨
    (result t' = TEST_NOTRUN ∧ Exists other_exit (te_ticks te.2))) tests ts →
  tally TEST_FAILED ts = 0.
Proof.
  intros Hg. unfold tally. induction Hg as [|te t' tests ts Ht _ IH]; [done|].
  rewrite filter_cons_False; [done|]. intros [_ Hr]. rewrite Hr in Ht. naive_solver.
Qed.
End main_props.

Section main_exit.
Context {W : Type} `{CapOS W}.
Context (opendir : bytes → option (list bytes)) (stat : bytes → option Z)
        (read_file : bytes → option (option bytes)).

Implicit Types (st : list capability * W).

(** [main_success]: a run of the tests (no benchmarks) that ends with status
    0 has printed a summary with no failed test. *)
Theorem main_success fuel progname args operands env_of u ub st o a :
  parse_options progname args st = Ok (inl (o, operands)) →
  o_benchmark o = false →
  main opendir stat read_file fuel progname args env_of u ub st = Ok (Some 0, a) →
  ∃ ts, Stdout (print_summary ts) ∈ a ∧ n_fail (count_tests ts) = 0.
Proof.
  intros Ho Hb Hm. unfold main in Hm. rewrite Ho in Hm. cbn [mbind res_bind] in Hm.
  destruct (test_dir progname operands) as [dir|[rc a0]] eqn:Hd.
  2:{ injection Hm as -> _. unfold test_dir, EXIT_FAILURE in Hd. destruct operands as [|? [|? ?]]; congruence. }
  apply res_bind_ok in Hm as (fts & Hf & Hm). destruct fts as [fts|]; [|done].
  apply res_bind_ok in Hm as ([[[[rc ts] st1] d1] a1] & Hr & Hm).
  destruct rc as [rc|]; [|done]. rewrite Hb, orb_true_r in Hm. injection Hm as -> <-.
  exists ts. split; [set_solver|].
  rewrite (proj1 (proj2 (print_summary_counts_lemma ts))).
  unfold run_tests in Hr. apply res_bind_ok in Hr as ([[bad d2] a2] & _ & Hr).
  destruct (negb (bad =? 0)); [done|]. destruct (_ && _); [done|].
  destruct (ss_open u <? 0); [done|].
  apply res_bind_ok in Hr as ([[[[r2 ts2] st2] d3] a3] & Hr & Heq).
  injection Heq as -> -> _ _ _. eapply green_no_failure, run_all_green_lemma; [apply _|exact Hr|].
  unfold find_tests in Hf. apply res_bind_ok in Hf as (l & Hl & Hf). injection Hf as Hf.
  destruct l as [l|]; [|done]. injection Hf as <-.
  assert (Forall (λ t, result t = TEST_NOTRUN) l) as Hl'.
  { eapply find_loop_fresh; [done|constructor]. }
  apply Forall_map. cbn. rewrite merge_sort_Permutation. done.
Qed.

(** [main_without_benchmarks]: with --benchmark, when the tests succeed and
    there is no directory of benchmarks, [main] runs the tests of a NULL array. *)
Theorem main_without_benchmarks fuel progname args operands env_of u ub st o ts dir ts' st' d' a :
  parse_options progname args st = Ok (inl (o, operands)) → o_benchmark o = true →
  test_dir progname operands = inl dir →
  find_tests opendir stat (Datatypes.S fuel) dir TEST_TYPE_TEST = Ok (Some ts) →
  run_tests read_file (o_cont o) (o_timeout o) (map (λ t, (t, env_of (path t))) ts) u st dmesg_init
    = Ok (Some 0, ts', st', d', a) →
  opendir (lit "benchmarks") = None →
  main opendir stat read_file (Datatypes.S fuel) progname args env_of u ub st = UB.
Proof.
  intros Ho Hb Hd Hf Hr Hn. unfold main. rewrite Ho. cbn [mbind res_bind]. rewrite Hd, Hf.
  cbn [mbind res_bind]. rewrite Hr. cbn [mbind res_bind]. rewrite Hb. cbn [negb orb Z.eqb].
  unfold find_tests. cbn [find_loop lookup list_lookup]. by rewrite Hn.
Qed.
End main_exit.
