(* ===== verification/OptionProps.v ===== *)
(** * The command line of the runner

    Options and operands in any order: [parse_options] ends on every [argv], and
    on one spelled by [word]s it sets what the options ask for and hands the
    operands over in their order. *)

From S2P Require Import Prelude CString Interfaces TestModel Capabilities Options RunTest Runner.

Local Open Scope Z_scope.

(** ** Words of a command line *)

(** [Flags] is an element such as -cb, [Long] one such as --continue or --cont. *)
Inductive word := Flags (cs : bytes) | Long (name : bytes) | Operand (a : bytes).

Definition spelled (w : word) : bytes :=
  match w with Flags cs => "-"%char :: cs | Long n => lit "--" ++ n | Operand a => a end.

(** The options that the runner goes on after. *)
Definition settable : list Z := [chr "c"; chr "b"; chr "t"].

Definition option_values (w : word) : list Z :=
  match w with
  | Flags cs => map chr cs
  | Long n => match find_long n options with Found _ o => [val o] | _ => [] end
  | Operand _ => []
  end.

Definition operands_of (w : word) : list bytes := match w with Operand a => [a] | _ => [] end.

Definition word_ok (w : word) : Prop :=
  Forall (λ c, c ∈ settable) (option_values w) ∧
  match w with
  | Flags cs => cs ≠ [] ∧ Forall (λ c, c ∈ optstring) cs
  | Long n => n ≠ [] ∧ name_part n = n ∧ option_values w ≠ []
  | Operand a => match a with ("-" :: _ :: _)%char => False | _ => True end
  end.

(** What [options] ask for. *)
Definition asked (cs : list Z) : settings :=
  Settings (bool_decide (chr "c" ∈ cs)) (bool_decide (chr "b" ∈ cs)) (bool_decide (chr "t" ∉ cs)).

(** An element that [getopt_long] refuses. *)
Definition refused (a : bytes) : Prop :=
  match a with
  | ("-" :: "-" :: n)%char =>
      n ≠ [] ∧ match find_long (name_part n) options with
               | Found _ _ => name_part n ≠ n | Ambiguous _ | Unknown => True end
  | ("-" :: c :: _)%char => c ∉ optstring
  | _ => False
  end.

(** ** The loop without its fuel *)

Lemma name_part_le n : (length (name_part n) ≤ length n)%nat ∧ (name_part n ≠ n → length (name_part n) < length n)%nat.
Proof.
  induction n as [|c n [IH1 IH2]]; cbn; [done|]. case_decide; cbn; [split; lia|]. split; [lia|].
  intros Hn. apply Nat.succ_lt_mono in IH2; [done|]. congruence.
Qed.

Section loop.
Context {W : Type} `{CapOS W} (progname : bytes) (st : list capability * W).

Lemma option_loop_fuel f f' g o :
  (pending g < f)%nat → (pending g < f')%nat →
  option_loop f progname g o st = option_loop f' progname g o st.
Proof.
  revert f' g o. induction f as [|f IH]; intros f' g o Hf Hf'; [lia|]. destruct f' as [|f']; [lia|].
  cbn [option_loop]. destruct (getopt_long _ _ _ g) as [[[c msg]|] g'] eqn:E; [|done].
  apply getopt_long_pending in E. repeat case_match; try done; apply IH; lia.
Qed.

Definition settle (g : getopt) (o : settings) : res (settings * list bytes + Z * list action) :=
  option_loop (S (pending g)) progname g o st.

Definition set_option (o : settings) (c : Z) : settings :=
  if c =? chr "c" then Settings true (o_benchmark o) (o_timeout o)
  else if c =? chr "b" then Settings (o_cont o) true (o_timeout o)
  else Settings (o_cont o) (o_benchmark o) false.

Lemma settle_value g o c msg g' :
  getopt_long progname optstring options g = (Some (c, msg), g') → c ∈ settable →
  settle g o = settle g' (set_option o c).
Proof.
  intros E Hc. unfold settle at 1. cbn [option_loop]. rewrite E. apply getopt_long_pending in E.
  unfold settable in Hc. rewrite !elem_of_cons in Hc.
  destruct Hc as [->|[->|[->|Hc%elem_of_nil]]]; [..|done]; apply option_loop_fuel; lia.
Qed.

Lemma short_ok c : c ∈ optstring → short_option progname optstring c = Some (chr c, []).
Proof. intros Hc. unfold short_option. by rewrite decide_True. Qed.

Lemma next_short c next rest ops :
  c ≠ "-"%char →
  next_element progname optstring options (("-"%char :: c :: next) :: rest) ops
  = (short_option progname optstring c, Getopt next rest ops).
Proof. by destruct c as [[] [] [] [] [] [] [] []]. Qed.

Lemma settle_flags cs rest ops o :
  Forall (λ c, c ∈ optstring) cs → Forall (λ c, c ∈ settable) (map chr cs) →
  settle (Getopt cs rest ops) o = settle (Getopt [] rest ops) (fold_left set_option (map chr cs) o).
Proof.
  revert o. induction cs as [|c cs IH]; intros o Hcs Hv; [done|].
  apply Forall_cons in Hcs as [Hc Hcs]. apply Forall_cons in Hv as [Hs Hv].
  erewrite settle_value; [|cbn; by rewrite short_ok|done]. by apply IH.
Qed.

Lemma settle_long n rest ops o :
  word_ok (Long n) →
  settle (Getopt [] ((lit "--" ++ n) :: rest) ops) o
  = settle (Getopt [] rest ops) (fold_left set_option (option_values (Long n)) o).
Proof.
  intros [Hv (Hn & Hp & Hne)]. cbn [option_values] in *.
  destruct (find_long n options) as [m p| |] eqn:E; [|done..].
  apply Forall_cons in Hv as [Hv _]. destruct n as [|c n]; [done|].
  cbn [fold_left]. apply settle_value with (msg := []); [|exact Hv]. cbn [getopt_long g_next g_rest next_element lit app String.list_ascii_of_string].
  unfold long_option. rewrite Hp, E, decide_False by lia. done.
Qed.

(** A word is dealt with, and the elements after it are left. *)
Lemma settle_word w rest ops o :
  word_ok w →
  settle (Getopt [] (spelled w :: rest) ops) o
  = settle (Getopt [] rest (ops ++ operands_of w)) (fold_left set_option (option_values w) o).
Proof.
  destruct w as [cs|n|a]; intros Hw.
  - destruct Hw as [Hv [Hne Hcs]]. cbn [operands_of]. rewrite app_nil_r.
    destruct cs as [|c cs]; [done|]. apply Forall_cons in Hcs as [Hc Hcs].
    cbn [option_values map] in Hv. apply Forall_cons in Hv as [Hs Hv].
    assert (c ≠ "-"%char) as Hd by (intros ->; revert Hc; apply (bool_decide_unpack (_ ∉ _)); done).
    etrans; [|by apply (settle_flags cs rest ops (set_option o (chr c)))]. apply settle_value with (msg := []); [|done].
    cbn [getopt_long g_next g_rest g_operands spelled]. by rewrite next_short, short_ok.
  - cbn [operands_of]. rewrite app_nil_r. by apply settle_long.
  - destruct Hw as [_ Ha]. unfold settle.
    assert (next_element progname optstring options (a :: rest) ops
            = next_element progname optstring options rest (ops ++ [a])) as E.
    { cbn. destruct a as [|[[] [] [] [] [] [] [] []] [|c a]]; done. }
    rewrite (option_loop_fuel _ (S (pending (Getopt [] (a :: rest) ops))) (Getopt [] rest _)) by (unfold pending; cbn; lia).
    cbn [option_loop]. unfold getopt_long. cbn [g_next g_rest g_operands spelled]. by rewrite E.
Qed.

Lemma settle_words ws rest ops o :
  Forall word_ok ws →
  settle (Getopt [] (map spelled ws ++ rest) ops) o
  = settle (Getopt [] rest (ops ++ concat (map operands_of ws)))
      (fold_left set_option (concat (map option_values ws)) o).
Proof.
  revert ops o. induction ws as [|w ws IH]; intros ops o Hws; cbn [map concat app].
  - by rewrite app_nil_r.
  - apply Forall_cons in Hws as [Hw Hws]. rewrite settle_word, IH by done.
    by rewrite fold_left_app, <- app_assoc.
Qed.

Lemma set_options cs o :
  Forall (λ c, c ∈ settable) cs →
  fold_left set_option cs o
  = Settings (o_cont o || o_cont (asked cs)) (o_benchmark o || o_benchmark (asked cs)) (o_timeout o && o_timeout (asked cs)).
Proof.
  revert o. induction cs as [|c cs IH]; intros [co be ti] Hcs; cbn [fold_left].
  - cbn. by rewrite !orb_false_r, andb_true_r.
  - apply Forall_cons in Hcs as [Hc Hcs]. rewrite IH by done. clear IH Hcs.
    unfold settable in Hc. rewrite !elem_of_cons in Hc. unfold asked. cbn [o_cont o_benchmark o_timeout].
    destruct Hc as [->|[->|[->|Hc%elem_of_nil]]]; [..|done]; cbn;
      rewrite ?orb_true_r, ?andb_false_r; f_equal; repeat case_bool_decide; try done; set_solver.
Qed.
End loop.

Section command_line.
Context {W : Type} `{CapOS W} (progname : bytes) (st : list capability * W).

Lemma settle_refused a rest ops o :
  refused a → ∃ msg, settle progname st (Getopt [] (a :: rest) ops) o
    = Ok (inr (EXIT_FAILURE, [Stderr msg; usage progname])).
Proof.
  intros Ha. assert (∃ msg g, getopt_long progname optstring options (Getopt [] (a :: rest) ops)
    = (Some (chr "?", msg), g)) as (msg & g & E).
  { cbn [getopt_long g_next g_rest g_operands].
    destruct a as [|c [|d a]]; [done|by destruct c as [[] [] [] [] [] [] [] []]|].
    destruct (decide (c = "-"%char)) as [->|Hc].
    - destruct (decide (d = "-"%char)) as [->|Hd].
      + destruct Ha as [Hn Hf]. destruct a as [|c a]; [done|].
        cbn [next_element]. unfold long_option. destruct (find_long _ options) as [m p| |]; [|by do 2 eexists..].
        rewrite decide_True by by apply name_part_le. by do 2 eexists.
      + rewrite next_short by done. unfold short_option. rewrite decide_False; [by do 2 eexists|].
        revert Ha Hd. by destruct d as [[] [] [] [] [] [] [] []].
    - by destruct c as [[] [] [] [] [] [] [] []]. }
  exists msg. unfold settle. cbn [option_loop]. by rewrite E.
Qed.

Lemma parse_words ws :
  Forall word_ok ws →
  let o := asked (concat (map option_values ws)) in
  let operands := concat (map operands_of ws) in
  parse_options progname (map spelled ws) st = Ok (inl (o, operands)) ∧
  ∀ tail, parse_options progname (map spelled ws ++ tail) st
    = settle progname st (Getopt [] tail operands) o.
Proof.
  intros Hws o operands.
  assert (∀ tail, parse_options progname (map spelled ws ++ tail) st
    = settle progname st (Getopt [] tail operands) o) as Hrun.
  { intros tail. unfold parse_options. fold (settle progname st (Getopt [] (map spelled ws ++ tail) []) (Settings false false true)).
    rewrite settle_words by done. rewrite set_options; [by destruct (asked _)|].
    apply Forall_concat, Forall_map. eapply Forall_impl; [done|]. by intros w [Hw _]. }
  split; [|done]. by rewrite <- (app_nil_r (map spelled ws)), Hrun.
Qed.

(** C26 [options_any_order]: options and operands may come in any order, short
    options bundled and long ones shortened: [parse_options] then goes on with
    what the options ask for and with the operands in their order.  After "--"
    every element is an operand; at a --help the usage is printed and the status
    is success; an element that is refused ends the program with the usage and
    the status of failure, whatever comes after it. *)
Theorem options_any_order ws rest :
  Forall word_ok ws →
  let o := asked (concat (map option_values ws)) in
  let operands := concat (map operands_of ws) in
  let run tail := parse_options progname (map spelled ws ++ tail) st in
  run [] = Ok (inl (o, operands)) ∧
  run (lit "--" :: rest) = Ok (inl (o, operands ++ rest)) ∧
  run (lit "--help" :: rest) = Ok (inr (EXIT_SUCCESS, [usage progname])) ∧
  (∀ a, refused a → ∃ msg, run (a :: rest) = Ok (inr (EXIT_FAILURE, [Stderr msg; usage progname]))).
Proof.
  intros Hws o operands run. assert (∀ tail, run tail = settle progname st (Getopt [] tail operands) o) as Hrun.
  { by apply parse_words. }
  rewrite !Hrun. split_and!; [done..|]. intros a Ha. rewrite Hrun. by apply settle_refused.
Qed.
End command_line.

(** [parse_options_ends]: on any [argv] the loop over the options ends, unless
    the table of capabilities does not. *)
Theorem parse_options_ends {W} `{CapOS W} progname args (st : list capability * W) :
  print_capabilities st.1 st.2 ≠ OutOfFuel → parse_options progname args st ≠ OutOfFuel.
Proof.
  intros Hp. unfold parse_options. generalize (Getopt [] args []), (Settings false false true). intros g o.
  assert (pending g < S (pending g))%nat as Hf by lia. revert Hf. generalize (S (pending g)). intros f. revert g o.
  induction f as [|f IH]; intros g o Hf; [lia|]. cbn [option_loop].
  destruct (getopt_long _ _ _ g) as [[[c msg]|] g'] eqn:E; [|done]. apply getopt_long_pending in E.
  repeat case_match; try done; try (apply IH; lia).
  by destruct (print_capabilities st.1 st.2) as [[[out tbl] w]| |].
Qed.
