(* ===== verification/SuiteRun.v ===== *)
(** * The suite finishes

    [run_tests] as a whole: the kernel log is checked without an error, each
    test that can be started and exits gets its verdict, and the suite returns.
    What the runner does when a test cannot be started. *)

From S2P Require Import Prelude CString Interfaces TestModel TestConf TestConfSpec Requirements RunTest RunTestProps RunVerdict Runner.

Local Open Scope Z_scope.

(** ** The kernel log *)

(** [m] holds a string: some byte is NUL. *)
Definition terminated (m : bytes) : Prop := NUL ∈ m.

(** The static buffer for a kernel log of [n] bytes: not there yet, or of that
    size and ended by a NUL. *)
Definition dmesg_wf (n : Z) (d : dmesg) : Prop :=
  d = dmesg_init ∨
  dm_bufsize d = n ∧ ∃ m, dm_buf d = Some (m ++ [NUL]) ∧ Z.of_nat (length (m ++ [NUL])) = n.

(** What the kernel answers for a log of [n] bytes: fewer bytes than that (and
    fresh memory whose last byte is clear). *)
Record klog_ok (n : Z) (k : klog) : Prop := {
  ko_size : kl_size k = n;
  ko_range : 0 < n < MAX_TALLOC_SIZE;
  ko_data : Z.of_nat (length (kl_data k)) < n;
  ko_junk : ∃ m, resize (Z.to_nat n) NUL (kl_junk k) = m ++ [NUL];
}.

Lemma cstr_total m : terminated m → ∃ s, cstr m = Ok s.
Proof.
  intros (a & b & ->)%list_elem_of_split. induction a as [|c a (s & E)]; cbn [app cstr].
  - eexists. by rewrite decide_True.
  - rewrite E. case_decide; by eexists.
Qed.

Lemma strstr_total m p : terminated m → ∃ f, strstr m p = Ok f.
Proof. intros [s Hs]%cstr_total. unfold strstr. rewrite Hs. by eexists. Qed.

Lemma store_front m data :
  (length data ≤ length m)%nat → store (Some (m ++ [NUL])) 0 data = Ok (Some ((data ++ drop (length data) m) ++ [NUL])).
Proof.
  intros Hl. unfold store. rewrite decide_True by (rewrite length_app; cbn; lia).
  cbn. rewrite drop_app_le by done. by rewrite <- app_assoc.
Qed.

Lemma dmesg_room n d k :
  dmesg_wf n d → klog_ok n k →
  let d' := if kl_size k =? dm_bufsize d then d
            else Dmesg (realloc_chars (dm_buf d) (kl_size k) (kl_junk k)) (kl_size k) in
  dm_bufsize d' = n ∧ ∃ m, dm_buf d' = Some (m ++ [NUL]) ∧ Z.of_nat (length (m ++ [NUL])) = n.
Proof.
  intros Hd [-> Hn _ [m Hm]]. cbn zeta. destruct Hd as [->|[Hs Hb]].
  - cbn. destruct (Z.eqb_spec n 0); [lia|]. cbn. split; [done|]. exists m.
    unfold realloc_chars. rewrite (proj2 (Z.leb_gt _ _)), (proj2 (Z.leb_gt _ _)) by lia. cbn.
    rewrite Hm. split; [done|]. rewrite <- Hm, length_resize. lia.
  - rewrite Hs, Z.eqb_refl. by split.
Qed.

(** [dmesg_check] on such a log: it ends, and the buffer stays well formed. *)
Lemma dmesg_check_total n d k :
  dmesg_wf n d → klog_ok n k → ∃ dm d' a, dmesg_check d k = Ok (dm, d', a) ∧ dmesg_wf n d'.
Proof.
  intros Hd Hk. destruct (dmesg_room n d k Hd Hk) as (Hs & m & Hm & Hl). destruct Hk as [_ _ Hdata _].
  unfold dmesg_check. revert Hs Hm. generalize (if kl_size k =? dm_bufsize d then d
    else Dmesg (realloc_chars (dm_buf d) (kl_size k) (kl_junk k)) (kl_size k)). intros d1 Hs Hm.
  destruct (kl_rc k <? 0).
  { eexists _, _, _. split; [done|]. right. split; [done|]. by exists m. }
  rewrite length_app in Hl. cbn in Hl.
  assert (∃ m', (if decide (kl_data k = []) then Ok (dm_buf d1) else store (dm_buf d1) 0 (kl_data k))
                = Ok (Some (m' ++ [NUL])) ∧ length m' = length m) as (m' & -> & Hm').
  { case_decide; rewrite Hm; [by exists m|]. rewrite store_front by lia. eexists. split; [done|].
    rewrite length_app, length_drop. lia. }
  cbn [of_option mbind res_bind]. destruct (strstr_total (m' ++ [NUL]) (lit "Badness")) as [f ->].
  { apply elem_of_app. right. by apply list_elem_of_singleton. }
  cbn. eexists _, _, _. split; [done|]. right. split; [done|]. exists m'. split; [done|].
  rewrite length_app. cbn. lia.
Qed.

(** ** The suite *)

Section suite_run.
Context (read_file : bytes → option (option bytes)).
Context {S : Type} `{CapService S} `{!CapServiceLaws S} `{!CapServiceTotal S}.

Implicit Types (s : S) (d : dmesg) (t : test).

(** A test that can be started and exits, with its answers. *)
Definition ready (n : Z) (te : test * test_env) : Prop :=
  fresh te.1 ∧ (∃ c, configured read_file (l_stack (te_launch te.2)) te.1 c) ∧
  launched (te_launch te.2) ∧ ∃ k, exits (te_ticks te.2) k ∧ klog_ok n (tk_klog k).

(** What the run of [te] leaves, [t'], by its configuration [c] and its exit [k]:
    from the table [s] and the log buffer [d], with the table [s'] that asking for
    its requirements leaves ([asked_table]), and the buffer [d'].  [bad] is what the check
    of the kernel log of that exit gives, from [d]. *)
Definition outcome (te : test * test_env) s d (t' : test) s' d' : Prop :=
  path t' = path te.1 ∧ cap_wf s' ∧ cap_evolves s s' ∧
  ∃ c k bad d1 a, configured read_file (l_stack (te_launch te.2)) te.1 c ∧ exits (te_ticks te.2) k ∧
    dmesg_check d (tk_klog k) = Ok (bad, d1, a) ∧ asked_table c s s' ∧ ignored t' = c_ignored c ∧
    ((c_disabled c = 0 ∧ Forall (holds s') (c_caps c) ∧
      result t' = verdict_result (conf_verdict c (negb (bad =? 0)) (tk_info k)) te.1 ∧
      d' = if conf_log_read c (tk_info k) then d1 else d) ∨
     (¬ (c_disabled c = 0 ∧ Forall (holds s') (c_caps c)) ∧ result t' = TEST_SKIPPED ∧ d' = d)).

(** What a run of the tests leaves, and its status, from the table and the log
    buffer to those at the end: the tests run in order, each with its outcome in
    the state that the one before it has left; a failure makes the status -1 and,
    without --continue, is the end: the tests after it are as before. *)
Inductive suite (cont : bool) : list (test * test_env) → S → dmesg → list test → Z → S → dmesg → Prop :=
| suite_end s d : suite cont [] s d [] 0 s d
| suite_stop te rest s d t' s1 d1 :
    outcome te s d t' s1 d1 → result t' = TEST_FAILED → cont = false →
    suite cont (te :: rest) s d (t' :: map fst rest) (-1) s1 d1
| suite_next te rest s d t' s1 d1 ts rc s2 d2 :
    outcome te s d t' s1 d1 → (result t' = TEST_FAILED → cont = true) →
    suite cont rest s1 d1 ts rc s2 d2 →
    suite cont (te :: rest) s d (t' :: ts) (if decide (result t' = TEST_FAILED) then -1 else rc) s2 d2.

Lemma run_test_outcome n e te s d :
  ready n te → cap_wf s → dmesg_wf n d →
  ∃ t' s' d' a, run_test read_file e (te_launch te.2) (te_ticks te.2) te.1 s d
      = Ok (Some (if decide (result t' = TEST_FAILED) then -1 else 0), t', s', d', a) ∧
    dmesg_wf n d' ∧ outcome te s d t' s' d'.
Proof.
  intros (Hf & [c Hc] & Hl & k & Hx & Hk) Hw Hd.
  destruct (dmesg_check_total n d (tk_klog k) Hd Hk) as (dm & d1 & a1 & E & Hd1).
  destruct (run_test_verdict_lemma read_file e _ _ k te.1 c s d dm d1 a1 Hf Hc Hw Hl Hx E)
    as (rc & t' & s' & d' & a & Er & Hw' & He & Hak & Hp & Hi & Hres).
  exists t', s', d', a. split.
  { rewrite Er. do 5 f_equal. destruct Hres as [(_ & _ & -> & -> & _)|(_ & -> & -> & _)]; [|done].
    unfold verdict_result, verdict_rc. rewrite (fr_result _ Hf). by destruct (conf_verdict _ _ _) as [[]|]. }
  split.
  { destruct Hres as [(_ & _ & _ & _ & ->)|(_ & _ & _ & ->)]; [by case_match|done]. }
  do 3 (split; [done|]). exists c, k, dm, d1, a1. do 5 (split; [done|]).
  destruct Hres as [(? & ? & ? & _ & ?)|(? & ? & _ & ?)]; [left|right]; by split_and!.
Qed.

(** [rc] is the status so far. *)
Lemma run_all_finishes n cont e tests rc s d :
  Forall (ready n) tests → cap_wf s → dmesg_wf n d → rc = 0 ∨ rc = -1 ∧ cont = true →
  ∃ rc' ts s' d' a, run_all read_file cont e tests rc s d = Ok (Some (Z.lor rc rc'), ts, s', d', a) ∧
    suite cont tests s d ts rc' s' d'.
Proof.
  intros Ht. revert rc s d. induction Ht as [|te tests Ht _ IH]; intros rc s d Hw Hd Hrc.
  { exists 0, [], s, d, []. split; [cbn; by rewrite Z.lor_0_r|constructor]. }
  destruct (run_test_outcome n e te s d Ht Hw Hd) as (t' & s1 & d1 & a1 & E & Hd1 & Ho). pose proof Ho as (_ & Hw1 & _).
  destruct te as [t env]. cbn in E |- *. rewrite E. cbn [mbind res_bind].
  destruct (decide (result t' = TEST_FAILED)) as [Hfail|Hok].
  - assert (Z.lor rc (-1) = -1) as -> by apply Z.lor_m1_r. destruct cont; cbn [negb andb Z.eqb].
    + destruct (IH (-1) s1 d1 Hw1 Hd1 ltac:(auto)) as (rc' & ts & s2 & d2 & a2 & -> & Hs).
      exists (-1), (t' :: ts), s2, d2, (a1 ++ a2). rewrite Z.lor_m1_l, Z.lor_m1_r. split; [done|].
      rewrite <- (decide_True (P := result t' = TEST_FAILED) (-1) rc' Hfail). by eapply suite_next.
    + exists (-1), (t' :: map fst tests), s1, d1, a1. rewrite Z.lor_m1_r. split; [done|]. by eapply suite_stop.
  - rewrite Z.lor_0_r. assert (negb (rc =? 0) && negb cont = false) as ->.
    { destruct Hrc as [->|[-> ->]]; done. }
    destruct (IH rc s1 d1 Hw1 Hd1 Hrc) as (rc' & ts & s2 & d2 & a2 & -> & Hs).
    exists rc', (t' :: ts), s2, d2, (a1 ++ a2). split; [done|].
    rewrite <- (decide_False (P := result t' = TEST_FAILED) (-1) rc' Hok). by eapply suite_next.
Qed.

(** The calls of [run_tests] before the first test succeed. *)
Definition suite_started (u : suite_start) : Prop :=
  (ss_mkdir u = 0 ∨ ss_errno u = EEXIST) ∧ 0 ≤ ss_open u.

Lemma suite_finishes_lemma n cont e tests u s d :
  Forall (ready n) tests → cap_wf s → dmesg_wf n d → klog_ok n (ss_klog u) → suite_started u →
  ∃ dm d1 a1 rc ts s' d' a, dmesg_check d (ss_klog u) = Ok (dm, d1, a1) ∧
    run_tests read_file cont e tests u s d = Ok (Some rc, ts, s', d', a) ∧
    ((dm ≠ 0 ∧ rc = -1 ∧ ts = map fst tests) ∨ (dm = 0 ∧ suite cont tests s d1 ts rc s' d')).
Proof.
  intros Ht Hw Hd Hk [Hm Ho]. destruct (dmesg_check_total n d _ Hd Hk) as (dm & d1 & a1 & E & Hd1).
  unfold run_tests. rewrite E. cbn [mbind res_bind]. destruct (Z.eqb_spec dm 0) as [->|Hdm]; cbn [negb].
  - assert (negb (ss_mkdir u =? 0) && negb (ss_errno u =? EEXIST) = false) as ->.
    { destruct Hm as [->| ->]; [done|by rewrite andb_false_r]. }
    rewrite (proj2 (Z.ltb_ge _ _) Ho).
    destruct (run_all_finishes n cont e tests 0 s d1 Ht Hw Hd1 ltac:(auto)) as (rc & ts & s' & d' & a & -> & ?).
    cbn [mbind res_bind]. eexists 0, d1, a1, rc, _, s', d', _. split_and!; [done..|]. by right.
  - eexists dm, d1, a1, _, _, _, _, _. split_and!; [done..|]. by left.
Qed.

(** C34 [suite_finishes]: on tests that can be started and exit, each with a
    configuration file that describes a configuration, and a kernel log of a
    fixed size, [run_tests] returns: either the check of the log at the start
    fails and no test has run, or the tests have run one after the other, from
    the table and the log buffer then to those that [run_tests] leaves, up to the
    first failure or, with --continue, all of them.  The outcome of each
    ([outcome]) is fixed by its configuration, the answers to its requirements in
    the table it leaves, its exit status and the check of the kernel log at its
    exit. *)
Theorem suite_finishes n cont e tests u s d :
  Forall (ready n) tests → cap_wf s → dmesg_wf n d → klog_ok n (ss_klog u) → suite_started u →
  ∃ dm d1 a1 rc ts s' d' a, dmesg_check d (ss_klog u) = Ok (dm, d1, a1) ∧
    run_tests read_file cont e tests u s d = Ok (Some rc, ts, s', d', a) ∧
    ((dm ≠ 0 ∧ rc = -1 ∧ ts = map fst tests) ∨ (dm = 0 ∧ suite cont tests s d1 ts rc s' d')).
Proof. exact (suite_finishes_lemma n cont e tests u s d). Qed.

(** ** A test that cannot be started *)

(** The first call that fails, in the order of the code. *)
Definition launch_error (l : launch) : option String.string :=
  match l_pipe l with
  | None => Some "pipe"
  | Some _ => if l_fork l <? 0 then Some "fork" else if negb (l_sigaction l =? 0) then Some "sigaction" else None
  end.

(** C29 [run_test_launch_error]: when pipe, fork or sigaction fails for a test that
    would run, [run_test] prints the error, returns -1 and leaves the test
    without a result, so that the summary does not count it; the kernel log is
    not looked at, no process is signalled, and the read end of the pipe stays
    open.  The line buffer of [test_read_config], dead when the requirements are
    checked, is taken to be as it was ([l_frame]). *)
Theorem run_test_launch_error e l ks t c s d call :
  fresh t → configured read_file (l_stack l) t c → cap_wf s → (∀ m, l_frame l m = m) →
  launch_error l = Some call →
  ∃ rc t' s' a, run_test read_file e l ks t s d = Ok (Some rc, t', s', d, a) ∧ path t' = path t ∧
    ((c_disabled c = 0 ∧ Forall (holds s') (c_caps c) ∧
      rc = -1 ∧ result t' = TEST_NOTRUN ∧ last a = Some (Perror call) ∧
      (∀ p sig, Kill p sig ∉ a) ∧ (∀ rd wr, l_pipe l = Some (rd, wr) → Close rd ∈ a → rd = wr)) ∨
     (¬ (c_disabled c = 0 ∧ Forall (holds s') (c_caps c)) ∧ rc = 0 ∧ result t' = TEST_SKIPPED)).
Proof.
  intros Hf Hcfg Hw Hfr Hle.
  destruct (run_test_head read_file e l ks t c s d Hf Hcfg Hw Hfr) as (s' & Hw' & He & _ & Hcase).
  destruct Hcase as [(Hno & t' & a & -> & Hp & Hig & Hres)|(Hdis & Hcs & b & m & t1 & out & Hrep & Hsf & Ec & Es)].
  { eexists _, _, _, _. split; [done|]. split; [done|]. by right. }
  pose proof Hsf as (_ & Hp1 & _ & _ & Hr1). rewrite (fr_result _ Hf) in Hr1.
  unfold run_test. rewrite Ec. cbn [mbind res_bind]. rewrite Hfr, Es. cbn [mbind res_bind negb].
  unfold launch_error in Hle. revert Hle.
  destruct (l_pipe l) as [[rd wr]|]; [destruct (l_fork l <? 0); [|destruct (negb (l_sigaction l =? 0)); [|done]]|];
    intros [= <-]; eexists _, _, s', _; (split; [done|]); (split; [by cbn|]); left;
    (do 5 (split; [by cbn|])); split; intros; set_solver.
Qed.
End suite_run.
