(* ===== verification/MainRun.v ===== *)
(** * The runner from its command line to its exit status

    [main] on a command line, a directory tree and programs that can be started:
    the theorems on options, on [find_tests] and on the suite put together. *)

From S2P Require Import Prelude CString Interfaces TestModel TestConf Capabilities Requirements RunTest RunTestProps FindTests RunVerdict Options Runner RunnerProps OptionProps SuiteRun.

Local Open Scope Z_scope.

Section main_run.
Context {W : Type} `{CapOS W, !CapOSReads W}.
Context (opendir : bytes → option (list bytes)) (stat : bytes → option Z)
        (read_file : bytes → option (option bytes)).

Implicit Types (st : list capability * W).

(** The status of a suite is 0 exactly when no test has failed. *)
Lemma suite_green cont tests (s : list capability * W) d ts rc s' d' :
  Forall (λ te, fresh te.1) tests → suite read_file cont tests s d ts rc s' d' →
  (rc = 0 ∨ rc = -1) ∧ (rc = 0 ↔ Forall (λ t, result t ≠ TEST_FAILED) ts).
Proof.
  intros Hf Hs. induction Hs as [s d|te rest s d t' s1 d1 _ Hr _|te rest s d t' s1 d1 ts rc s2 d2 _ _ _ IH].
  - by split; [left|].
  - split; [by right|]. split; [done|]. by intros [? _]%Forall_cons.
  - apply Forall_cons in Hf as [_ Hf]. destruct (IH Hf) as [Hrc IH']. rewrite Forall_cons.
    case_decide as Hd; [|by rewrite IH'; naive_solver]. split; [by right|]. split; [done|]. by intros [? _].
Qed.

(** C4 [main_runs_the_tree]: [main] on a command line of options without
    --benchmark and one directory that shows a finite tree, whose tests can be
    started and exit: it ends with a status, 0 or -1.  The tests it runs are
    exactly the test programs of the tree, sorted; unless the check of
    the kernel log fails at the start, they run one after the other, from the
    table and the log buffer that [main] has then, up to the first failure or,
    with --continue, all of them.  Each has the outcome ([outcome]) that its
    configuration, the answers to its requirements, its exit status and the check
    of the kernel log at its exit fix.  The status is 0 exactly when no test
    failed, and the last thing printed is the summary. *)
Theorem main_runs_the_tree n progname ws dir es fuel env_of u ub st :
  Forall word_ok ws → concat (map operands_of ws) = [dir] →
  let o := asked (concat (map option_values ws)) in
  o_benchmark o = false →
  dir_shown opendir stat dir es → (dirs_below es ≤ fuel)%nat →
  (∀ p, p ∈ tests_below dir es → ready read_file n (test_create p TEST_TYPE_TEST, env_of p)) →
  cap_wf st → klog_ok n (ss_klog u) → suite_started u →
  ∃ rc a l ts bad d a0,
    main opendir stat read_file fuel progname (map spelled ws) env_of u ub st
      = Ok (Some rc, a ++ [Stdout (print_summary ts)]) ∧
    (rc = 0 ∨ rc = -1) ∧
    map path l ≡ₚ tests_below dir es ∧ StronglySorted test_le l ∧
    dmesg_check dmesg_init (ss_klog u) = Ok (bad, d, a0) ∧
    ((bad ≠ 0 ∧ rc = -1 ∧ ts = l) ∨
     (bad = 0 ∧
      (∃ st' d', suite read_file (o_cont o) (map (λ t, (t, env_of (path t))) l) st d ts rc st' d') ∧
      (rc = 0 ↔ Forall (λ t, result t ≠ TEST_FAILED) ts))).
Proof.
  intros Hws Hops o Hb Hdir Hfuel Hready Hw Hk Hu.
  destruct (parse_words progname st ws Hws) as [Ho _]. cbn zeta in Ho. rewrite Hops in Ho. fold o in Ho.
  destruct (find_tests_lemma opendir stat fuel dir es TEST_TYPE_TEST Hdir Hfuel) as (l & Hl & Hp & Hs & Hty).
  assert (Forall (ready read_file n) (map (λ t, (t, env_of (path t))) l)) as Hr.
  { apply Forall_map, Forall_forall. intros t Ht. cbn. rewrite Forall_forall in Hty.
    rewrite (Hty t Ht) at 1. apply Hready. rewrite <- Hp. by apply (list_elem_of_fmap_2 path). }
  destruct (suite_finishes_lemma read_file n (o_cont o) (o_timeout o) _ u st dmesg_init Hr Hw
    ltac:(by left) Hk Hu) as (dm & d1 & a1 & rc & ts & s' & d' & a & E & Er & Hcase).
  exists rc, a, l, ts, dm, d1, a1. unfold main. rewrite Ho. cbn [mbind res_bind test_dir]. rewrite Hl. cbn [mbind res_bind].
  rewrite Er. cbn [mbind res_bind]. rewrite Hb, orb_true_r. split; [done|].
  rewrite map_map, map_id in Hcase.
  destruct Hcase as [(Hd & -> & ->)|[-> Hsuite]]; [split_and!; try done; [by right|by left]|].
  destruct (suite_green _ _ _ _ _ _ _ _ ltac:(eapply Forall_impl; [exact Hr|]; by intros te [? _]) Hsuite) as [Hrc Hgreen].
  split_and!; try done. right. split_and!; [done|by eexists _, _|done].
Qed.
End main_run.
