(* ===== verification/TestTypes.v ===== *)
(** * The types of the fields of a test

    The C types of [struct test]: [int] fields in the range of [int], flags that
    are 0 or 1, a count that is the length of the array, and addresses of names
    inside the line buffer.  Whatever the configuration file holds and however
    the run ends, a test keeps them. *)

From S2P Require Import Prelude CString Interfaces TestModel TestConf TestConfSpec Requirements RunTest RunTestProps Runner RunnerProps.

Local Open Scope Z_scope.

Definition is_flag (x : Z) : Prop := x = 0 ∨ x = 1.

(** [n] is the size of the line buffer. *)
Definition cap_typed (n : nat) (r : required_cap) : Prop := (cap r ≤ n)%nat ∧ is_flag (invert r).

Record test_typed (n : nat) (t : test) : Prop := {
  ty_rc : is_int (expected_rc t) = true;
  ty_sig : is_int (expected_sig t) = true;
  ty_timeout : is_int (timeout t) = true;
  ty_disabled : is_flag (disabled t);
  ty_ignored : is_flag (ignored t);
  ty_count : n_caps_required t = length (caps_required t);
  ty_caps : Forall (cap_typed n) (caps_required t);
}.

Lemma test_create_typed n p ty : test_typed n (test_create p ty).
Proof. split; cbn; try done; try (by left). by destruct ty. Qed.

(** The fields the runner does not touch. *)
Lemma same_config_typed n t t' : same_config t t' → test_typed n t → test_typed n t'.
Proof.
  intros (_ & _ & E1 & E2 & E3 & E4 & E5 & E6 & E7) []. split; rewrite ?E1, ?E2, ?E3, ?E4, ?E5, ?E6, ?E7; done.
Qed.

(** ** The configuration *)

Lemma atoi_int m n : atoi m = Ok n → is_int n = true.
Proof.
  unfold atoi. intros H. res_inv H. destruct (drop a m) as [|c r]; [done|].
  apply res_bind_ok in H as (v & _ & H). destruct (is_int v) eqn:E0; [|done]. by injection H as <-.
Qed.

Lemma strncmp_length s t k : nul_free t → strncmp s (t ++ [NUL]) (length t) = Ok 0 → k = length t → (k ≤ length s)%nat.
Proof.
  intros Ht H ->. revert s H. induction t as [|b t IH]; intros s; [cbn; lia|].
  apply nul_free_cons in Ht as [Hb Ht]. cbn [length app strncmp]. destruct s as [|a s]; [done|].
  case_decide as Hab; [subst a; rewrite decide_False by done|].
  - intros H. specialize (IH Ht s H). cbn. lia.
  - intros [= H]. exfalso. apply Hab, code_inj. lia.
Qed.

Lemma starts_length m u : nul_free (lit u) → starts m u = Ok true → (length (lit u) ≤ length m)%nat.
Proof.
  intros Hu H. unfold starts, cl in H. res_inv H. injection H as H. apply Z.eqb_eq in H as ->.
  by eapply strncmp_length.
Qed.

Lemma add_cap_typed n t c i :
  (c ≤ n)%nat → is_flag i → test_typed n t → test_typed n (test_add_required_cap t c i).
Proof.
  intros Hc Hi [? ? ? ? ? Hn Hcs]. unfold test_add_required_cap. rewrite Hn.
  assert (<[length (caps_required t):=RequiredCap c i]>
      (resize (S (length (caps_required t))) (RequiredCap 0 0) (caps_required t))
    = caps_required t ++ [RequiredCap c i]) as ->.
  { rewrite resize_ge by lia. replace (S _ - _)%nat with 1%nat by lia. cbn [replicate].
    rewrite <- (Nat.add_0_r (length (caps_required t))). by rewrite insert_app_r. }
  split; cbn; try done.
  - rewrite length_app. cbn. lia.
  - apply Forall_app. split; [done|]. apply Forall_singleton. by split.
Qed.

Lemma handle_token_typed n t m tok t' e :
  handle_testconf_token t m tok = Ok (t', e) → (length m ≤ n)%nat → test_typed n t → test_typed n t'.
Proof.
  intros H Hn Ht. unfold handle_testconf_token in H. res_inv H.
  destruct a; [injection H as <- _; destruct Ht; split; cbn; try done; by right|]. res_inv H.
  destruct a; [injection H as <- _; destruct Ht; split; cbn; try done; by right|]. res_inv H.
  destruct a; [res_inv H; injection H as <- _; apply atoi_int in E2; by destruct Ht|]. res_inv H.
  destruct a; [res_inv H; injection H as <- _; apply atoi_int in E3; by destruct Ht|]. res_inv H.
  destruct a; [res_inv H; injection H as <- _; apply atoi_int in E4; by destruct Ht|]. res_inv H.
  destruct a.
  { injection H as <- _. apply starts_length in E4; [|nul_free_lit]. rewrite length_drop in E4.
    change (length (lit "cap_")) with 4%nat in E4. apply add_cap_typed; [lia|by left|done]. }
  res_inv H. destruct a.
  { injection H as <- _. apply starts_length in E5; [|nul_free_lit]. rewrite length_drop in E5.
    change (length (lit "!cap_")) with 5%nat in E5. apply add_cap_typed; [lia|by right|done]. }
  res_inv H. by injection H as <- _.
Qed.

Lemma strtok_length m s d o m' s' : strtok m s d = Ok (o, m', s') → length m' = length m.
Proof.
  unfold strtok. intros H. res_inv H. case_decide; [by injection H as _ <- _|].
  res_inv H. case_decide; injection H as _ <- _; [done|]. by rewrite length_insert.
Qed.

Lemma token_loop_typed n fuel t m s err t' m' err' :
  token_loop fuel t m s err = Ok (t', m', err') → (length m ≤ n)%nat → test_typed n t →
  test_typed n t' ∧ length m' = length m.
Proof.
  revert t m s err. induction fuel as [|fuel IH]; intros t m s err; cbn [token_loop]; [done|].
  intros H Hn Ht. res_inv H. destruct a as [[o m1] s1]. apply strtok_length in E.
  destruct o as [p|]; [|by injection H as <- <- _].
  res_inv H. destruct a as [t1 e]. rewrite <- E in Hn |- *.
  eapply IH; [exact H|done|]. by eapply handle_token_typed.
Qed.

Lemma conf_loop_typed n fuel fpat t m c err t' m' err' :
  conf_loop fuel fpat t m c err = Ok (t', m', err') → (length m ≤ n)%nat → test_typed n t → test_typed n t'.
Proof.
  revert t m c err. induction fuel as [|fuel IH]; intros t m c err; cbn [conf_loop]; [done|].
  intros H Hn Ht. res_inv H. case_decide; [by injection H as <- _ _|].
  res_inv H. destruct a2 as [c1 b]. res_inv H. destruct a2 as [[t1 m1] e1].
  assert (test_typed n t1 ∧ (length m1 ≤ n)%nat) as [Ht1 Hn1].
  { destruct b; [|by injection E3 as <- <- _]. set (m0 := match _ with Some i => _ | None => m end) in E3.
    assert (length m0 = length m) as Hm0 by (unfold m0; destruct a1; [apply length_insert|done]).
    apply (token_loop_typed n) in E3 as [? Hl]; [split; [done|lia]|lia|done]. }
  destruct a1; cbn in H; [by eapply IH|by injection H as <- _ _].
Qed.

Section typed.
Context (read_file : bytes → option (option bytes)).

Lemma test_read_config_typed stack t t' m err :
  test_read_config read_file stack t = Ok (t', m, err) → length stack = CONF_BUF →
  test_typed CONF_BUF t → test_typed CONF_BUF t'.
Proof.
  unfold test_read_config. intros H Hs Ht. res_inv H.
  destruct a as [i|]; [|by injection H as <- _ _].
  destruct (read_file _) as [content|]; [|by injection H as <- _ _].
  eapply conf_loop_typed; [exact H| |done]. destruct content as [b|]; [|lia].
  unfold conf_buffer. rewrite length_app, length_drop, length_take. lia.
Qed.
End typed.

(** ** The run *)

Lemma set_result_config v t : same_config t (set_result v t).
Proof. by repeat split. Qed.

Lemma fail_with_config t msg rc t' a : fail_with t msg = Ok (rc, t', a) → same_config t t'.
Proof.
  unfold fail_with, test_fail. intros H. res_inv H. destruct a0 as [t1 o]. injection H as _ <- _.
  destruct (0 <? _); [res_inv E; by injection E as <- _|by injection E as <- _].
Qed.

Lemma pass_with_config t rc t' a : pass_with t = Ok (rc, t', a) → same_config t t'.
Proof.
  unfold pass_with, test_pass. intros H. res_inv H. destruct a0 as [t1 o]. injection H as _ <- _.
  destruct (type _); [by injection E as <- _|res_inv E; by injection E as <- _].
Qed.

(** The end of a branch of [check_exit]. *)
Lemma branch_config (r : res (Z * test * list action)) (d : dmesg) (g : list action → list action) t rc t' d' a :
  (∀ rc t1 a1, r = Ok (rc, t1, a1) → same_config t t1) →
  ('(rc, t, a) ← r; Ok (rc, t, d, g a)) = Ok (rc, t', d', a) → same_config t t'.
Proof.
  intros Hr H. res_inv H. destruct a0 as [[rc1 t1] a1]. injection H as _ <- _ _. by eapply Hr.
Qed.

Lemma check_exit_config t d k i rc t' d' a : check_exit t d k i = Ok (rc, t', d', a) → same_config t t'.
Proof.
  unfold check_exit. pose proof (fail_with_config t) as Hf. pose proof (pass_with_config t) as Hp.
  destruct (_ =? CLD_EXITED).
  - destruct (negb _); [intros H%(branch_config _ _ id t); [done|intros; by eapply Hf]|].
    destruct (negb _); [intros H%(branch_config _ _ id t); [done|intros; by eapply Hf]|].
    intros H. res_inv H. destruct a0 as [[dm d1] a0].
    destruct (negb _); apply (branch_config _ _ (app a0) t) in H; try done; intros; first [by eapply Hf|by eapply Hp].
  - destruct (_ =? CLD_KILLED); [|by intros [= _ <- _ _]].
    destruct (_ =? _); [intros H%(branch_config _ _ id t); [done|intros; by eapply Hp]|].
    destruct (_ =? _); intros H%(branch_config _ _ id t); try done; intros; by eapply Hf.
Qed.

Lemma read_test_output_config t ms k rc t' a : read_test_output t ms k = Ok (rc, t', a) → same_config t t'.
Proof.
  unfold read_test_output. cbn zeta. repeat case_match; intros Hr; simplify_eq; try done.
  res_inv Hr. by injection Hr as _ <- _.
Qed.

Lemma run_loop_config e dl ks t d rc t' d' a : run_loop e dl ks t d = Ok (rc, t', d', a) → same_config t t'.
Proof.
  revert t d a. induction ks as [|k ks IH]; intros t d a; cbn [run_loop]; [by intros [= _ <- _ _]|].
  intros H. res_inv H. destruct a0 as [[[r t1] d1] a1].
  assert (same_config t t1) as Ht.
  { unfold run_round in E. res_inv E. destruct (negb _); [by injection E as _ <- _ _|].
    destruct (negb _); res_inv E.
    - destruct a2 as [[[rc0 t2] d2] a2]. injection E as _ <- _ _. by eapply check_exit_config in E1.
    - destruct a2 as [[rc0 t2] a2]. injection E as _ <- _ _. by eapply read_test_output_config. }
  destruct r as [r|[]]; [by injection H as _ <- _ _|].
  apply res_bind_ok in H as ([[[r2 t2] d2] a2] & E2 & H).
  injection H as <- <- <- _. etrans; [exact Ht|by eapply IH].
Qed.

Section run_typed.
Context (read_file : bytes → option (option bytes)).
Context {S : Type} `{CapServiceLaws S}.

(** C27 [run_test_typed]: whatever the text of the configuration file, the answers
    of the machine and the way the run ends, a test whose fields have their
    types keeps them: numbers from the file are in the range of [int], flags
    are 0 or 1, the count of the requirements is the length of their array, and
    their names lie in the line buffer. *)
Theorem run_test_typed e l ks t (s : S) d rc t' s' d' a :
  run_test read_file e l ks t s d = Ok (rc, t', s', d', a) → length (l_stack l) = CONF_BUF →
  test_typed CONF_BUF t → test_typed CONF_BUF t'.
Proof.
  intros Hr Hs Ht. unfold run_test in Hr. res_inv Hr. destruct a0 as [[t1 m1] err1].
  apply test_read_config_typed in E; [|done..].
  apply res_bind_ok in Hr as ([[[b t2] s2] out] & E1 & Hr).
  assert (test_typed CONF_BUF t2) as Ht2.
  { apply test_should_run_decides_lemma in E1 as (_ & Hyes & Hno). destruct b.
    - by destruct (Hyes eq_refl) as [-> _].
    - rewrite (Hno eq_refl). by eapply same_config_typed; [apply set_result_config|]. }
  destruct b; cbn [negb] in Hr; [|by injection Hr as _ <- _ _ _].
  destruct (l_pipe l) as [[rd wr]|]; [|by injection Hr as _ <- _ _ _].
  assert (test_typed CONF_BUF (set_run (TestRun rd (Some (l_fork l))) t2)) as Ht3
    by (eapply same_config_typed; [|exact Ht2]; by repeat split).
  destruct (l_fork l <? 0); [by injection Hr as _ <- _ _ _|].
  destruct (negb _); [by injection Hr as _ <- _ _ _|].
  res_inv Hr. destruct a0 as [[[r t4] d4] a4]. injection Hr as _ <- _ _ _.
  eapply same_config_typed; [by eapply run_loop_config|done].
Qed.
End run_typed.
