(* ===== verification/Verdicts.v ===== *)
(** * How the result of a benchmark is printed (bin/test.c, [test_pass])

    [test_pass] copies the captured output of a benchmark, skips the leading
    white space, and cuts the trailing one in place.  The copy is right for
    output that starts with a visible character, and writes past its block for
    output that starts with two or more blanks. *)

From S2P Require Import Prelude CString TestModel.

Local Open Scope Z_scope.

Lemma strnlen_app s y rest :
  nul_free s →
  strnlen (s ++ y :: rest) (S (length s)) = Ok (if decide (y = NUL) then length s else S (length s)).
Proof.
  induction s as [|c s IH]; cbn [app strnlen length].
  - intros _. by case_decide.
  - rewrite nul_free_cons. intros [Hc Hs]. rewrite decide_False by done.
    cbn [strnlen] in IH. rewrite IH by done. cbn. by case_decide.
Qed.

Lemma trim_end_stop m p c : m !! p = Some c → isspace c = false → trim_end m p = Ok m.
Proof. intros Hm Hc. destruct p; cbn [trim_end]; by rewrite Hm, Hc. Qed.

(** The trailing blanks [ws] become NULs. *)
Lemma trim_end_spec core z ws tail :
  isspace z = false → Forall (λ x, isspace x = true) ws →
  trim_end ((core ++ [z]) ++ ws ++ tail) (length core + length ws)
  = Ok ((core ++ [z]) ++ replicate (length ws) NUL ++ tail).
Proof.
  intros Hz. revert tail. induction ws as [|w ws IH] using rev_ind; intros tail Hw.
  - cbn [length replicate app]. rewrite Nat.add_0_r. apply (trim_end_stop _ _ z); [|done].
    rewrite <- app_assoc. by rewrite lookup_app_r, Nat.sub_diag by lia.
  - apply Forall_app in Hw as [Hw [Hw1 _]%Forall_cons].
    set (pre := (core ++ [z]) ++ ws).
    assert (S (length core + length ws) = length pre) as Hl by (unfold pre; len).
    replace ((core ++ [z]) ++ (ws ++ [w]) ++ tail) with (pre ++ w :: tail)
      by (unfold pre; by rewrite <- !app_assoc).
    replace (length core + length (ws ++ [w]))%nat with (S (length core + length ws)) by len.
    cbn [trim_end]. rewrite Hl, lookup_app_r, Nat.sub_diag by lia. cbn [lookup list_lookup]. rewrite Hw1.
    replace (length pre) with (length pre + 0)%nat by lia. rewrite insert_app_r.
    cbn [insert list_insert]. unfold pre. rewrite <- app_assoc, (IH (NUL :: tail)) by done.
    rewrite length_app. cbn [length].
    do 2 f_equal. rewrite Nat.add_1_r, replicate_S_end, <- app_assoc. done.
Qed.

Lemma cstr_replicate core n tail :
  nul_free core → cstr (core ++ replicate n NUL ++ NUL :: tail) = Ok core.
Proof. intros Hc. destruct n as [|n]; cbn; by apply cstr_app. Qed.

(** The copy made by [talloc_strndup]. *)
Lemma benchmark_copy s y rest n :
  n = (if decide (y = NUL) then length s else S (length s)) →
  ∃ t, take n (s ++ y :: rest) ++ [NUL] = s ++ t :: (if decide (y = NUL) then [] else [NUL]) ∧
       (y = NUL → t = NUL).
Proof.
  intros ->. case_decide as Hy.
  - exists NUL. by rewrite take_app_length.
  - exists y. split; [|done]. rewrite (cons_middle y), app_assoc, take_app_length' by len.
    by rewrite <- app_assoc.
Qed.

(** [result_time_trims]: for captured output [core ++ ws], where [core]
    starts and ends with a visible character and [ws] is white space, in a
    buffer with room for one more byte, a benchmark prints exactly [core]. *)
Theorem result_time_trims x mid z ws y rest cap :
  let core := x :: mid ++ [z] in
  let s := core ++ ws in
  isspace x = false → isspace z = false → Forall (λ c, isspace c = true) ws → nul_free s →
  result_time (TestOutput (Some (s ++ y :: rest)) (Z.of_nat (length s)) cap) = Ok core.
Proof.
  intros core s Hx Hz Hw Hn. unfold result_time. cbn [buf len].
  replace (Z.to_nat (Z.of_nat (length s) + 1)) with (S (length s)) by lia.
  rewrite strnlen_app by done. cbn [mbind res_bind].
  destruct (benchmark_copy s y rest _ eq_refl) as (t & -> & _).
  set (tl := if decide (y = NUL) then [] else [NUL]).
  assert (span isspace (s ++ t :: tl) = Ok 0%nat) as -> by (cbn; by rewrite Hx).
  cbn [mbind res_bind]. rewrite Nat2Z.id, Nat.add_0_l.
  rewrite decide_True by len. rewrite decide_False by (unfold s, core; len).
  replace (length s) with (length s + 0)%nat by lia. rewrite insert_app_r. cbn [insert list_insert].
  assert (length s + 0 - 1 = length (x :: mid) + length ws)%nat as ->
    by (unfold s, core; rewrite !length_app; cbn [length]; rewrite length_app; cbn [length]; lia).
  unfold s, core. rewrite <- app_assoc, app_comm_cons.
  rewrite trim_end_spec by done. cbn [mbind res_bind]. rewrite drop_0.
  apply cstr_replicate. unfold s in Hn. by apply nul_free_app in Hn as [? _].
Qed.

Lemma result_time_trims_witness :
  result_time (TestOutput (Some (lit "0.125" ++ [newline_c] ++ replicate 4090 NUL)) 6 4096)
  = Ok (lit "0.125").
Proof.
  apply (result_time_trims "0"%char (lit ".12") "5"%char [newline_c] NUL (replicate 4089 NUL)).
  - reflexivity.
  - reflexivity.
  - repeat constructor.
  - nul_free_lit.
Defined.

Lemma span_ge p a m n : Forall (λ c, p c = true) a → span p (a ++ m) = Ok n → (length a ≤ n)%nat.
Proof.
  intros Ha. revert n. induction Ha as [|x a Hx _ IH]; intros n; cbn; [lia|].
  rewrite Hx. destruct (span p (a ++ m)) as [k| |]; cbn; [|done|done].
  intros [= <-]. specialize (IH k eq_refl). lia.
Qed.

(** [result_time_leading_blanks]: output that starts with two blanks makes
    [test_pass] write past the end of the copy; so does an empty buffer. *)
Theorem result_time_leading_blanks b1 b2 r y rest cap :
  let s := b1 :: b2 :: r in
  isspace b1 = true → isspace b2 = true → nul_free s →
  result_time (TestOutput (Some (s ++ y :: rest)) (Z.of_nat (length s)) cap) = UB ∧
  result_time (TestOutput None 0 0) = UB.
Proof.
  intros s H1 H2 Hn. split; [|done]. unfold result_time. cbn [buf len].
  replace (Z.to_nat (Z.of_nat (length s) + 1)) with (S (length s)) by lia.
  rewrite strnlen_app by done. cbn [mbind res_bind].
  destruct (benchmark_copy s y rest _ eq_refl) as (t & -> & _).
  set (tl := if decide (y = NUL) then [] else [NUL]).
  assert (length tl ≤ 1)%nat by (unfold tl; case_decide; cbn; lia).
  destruct (span isspace (s ++ t :: tl)) as [k| |] eqn:E; [|done|exfalso].
  - cbn [mbind res_bind]. rewrite Nat2Z.id.
    assert (2 ≤ k)%nat.
    { change (s ++ t :: tl) with ([b1; b2] ++ (r ++ t :: tl)) in E.
      apply span_ge in E; [done|]. by repeat constructor. }
    rewrite decide_False; [done|]. len.
  - clear -E. induction (s ++ t :: tl) as [|c m IH]; cbn in E; [done|].
    destruct (isspace c); [|done]. by destruct (span isspace m).
Qed.

Lemma result_time_leading_blanks_witness :
  result_time (TestOutput (Some (lit "  7" ++ newline_c :: replicate 4092 NUL)) 3 4096) = UB ∧
  result_time (TestOutput None 0 0) = UB.
Proof.
  apply (result_time_leading_blanks " "%char " "%char (lit "7") newline_c (replicate 4092 NUL)).
  - reflexivity.
  - reflexivity.
  - nul_free_lit.
Defined.
