(* ===== verification/ParseCore.v ===== *)
(** * The core file checker (tests/11-coredump/parse-core.c)

    The mapped file is [mem]; a pointer into it is an offset, and a read outside
    [mem] is [UB].  Integers have the widths of the C types: [uint32_t] header
    words, [int] offsets, and [size_t] of [wb] bits, 32 or 64.  The host is
    big-endian, as the PowerPC the program is for. *)

From S2P Require Import Prelude CString.

Local Open Scope Z_scope.

(** ** Reading the mapping *)

(** The mapping from offset [p] on. *)
Definition at_ptr (mem : bytes) (p : Z) : bytes := if p <? 0 then [] else drop (Z.to_nat p) mem.

(** A big-endian unsigned integer of [n] bytes. *)
Fixpoint be_read (n : nat) (acc : Z) (m : bytes) : res Z :=
  match n with
  | O => Ok acc
  | S n => match m with [] => UB | c :: m => be_read n (acc * 256 + code c) m end
  end.

Definition u16 (mem : bytes) (p : Z) : res Z := be_read 2 0 (at_ptr mem p).
Definition u32 (mem : bytes) (p : Z) : res Z := be_read 4 0 (at_ptr mem p).
Definition u64 (mem : bytes) (p : Z) : res Z := be_read 8 0 (at_ptr mem p).

Definition byte_at (mem : bytes) (p : Z) : res ascii := of_option (head (at_ptr mem p)).

(** [!memcmp(p, s, n)] with [n] the length of [s]. *)
Definition mem_is (m s : bytes) : res bool :=
  if decide (length s ≤ length m)%nat then Ok (bool_decide (take (length s) m = s)) else UB.

(** ** Output *)

Inductive out := Out (s : bytes) | Err (s : bytes).

#[global] Instance out_eq_dec : EqDecision out.
Proof. solve_decision. Defined.

Definition line (s : bytes) : bytes := s ++ [newline_c].

(** ** Options *)

Inductive core_action := LIST_NOTES | CHECK_NOTES | CHECK_FD | DUMP_NOTE | FIND_EXEC.

#[global] Instance core_action_eq_dec : EqDecision core_action.
Proof. solve_decision. Defined.

(** The strings are those of the command line, without the NUL; [None] is a
    field that was not set. *)
Record options := Options {
  opt_action : core_action; dump_note_name : option bytes; opt_fd : option bytes;
}.

(** ** Notes *)

Definition SPU_NOTE_PREFIX : bytes := lit "SPU/".

(** [sizeof(Elf_Nhdr)]. *)
Definition NHDR : Z := 12.

Definition n_namesz (mem : bytes) (p : Z) : res Z := u32 mem p.
Definition n_descsz (mem : bytes) (p : Z) : res Z := u32 mem (p + 4).
Definition n_type (mem : bytes) (p : Z) : res Z := u32 mem (p + 8).

(** [(x + 3) & ~3] on [int]; the argument is converted, the sum may overflow. *)
Definition pad (x : Z) : res Z :=
  let x := wraps 32 x in
  if int_max <? x + 3 then UB else Ok (Z.land (x + 3) (Z.lnot 3)).

Definition note_name (p : Z) : Z := p + NHDR.

Definition note_desc (mem : bytes) (p : Z) : res Z :=
  n ← n_namesz mem p; q ← pad n; Ok (p + NHDR + q).

(** [fprintf(stderr, "...%s...", name)]. *)
Definition err_name (mem : bytes) (name : Z) (pre post : bytes) : res (Z * list out) :=
  s ← cstr (at_ptr mem name); Ok (-1, [Err (line (pre ++ s ++ post))]).

(** [for (i = 2; i < len - 1; i++)] over the characters from [i] on: the first
    one that is not a digit. *)
Fixpoint hex_scan (n : nat) (m : bytes) : res (option ascii) :=
  match n with
  | O => Ok None
  | S n =>
      match m with
      | [] => UB
      | c :: m => if isxdigit c then hex_scan n m else Ok (Some c)
      end
  end.

Definition check_hex_note (mem : bytes) (p : Z) : res (Z * list out) :=
  let len := Z.of_nat (length (lit "0x0123456789abcdef")) + 1 in
  let name := note_name p in
  desc ← note_desc mem p;
  sz ← n_descsz mem p;
  if negb (sz =? len) then
    err_name mem name (lit "wrong size (" ++ fmt_d (wraps 32 sz) ++ lit ") for note ") []
  else
    c0 ← byte_at mem desc;
    c1 ← (if decide (c0 = "0"%char) then byte_at mem (desc + 1) else Ok "x"%char);
    if negb (bool_decide (c0 = "0"%char)) || negb (bool_decide (c1 = "x"%char)) then
      err_name mem name (lit "Invalid format for note ") (lit ": no leading '0x'")
    else
      o ← hex_scan (Z.to_nat (len - 1 - 2)) (at_ptr mem (desc + 2));
      match o with
      | Some c => err_name mem name (lit "Invalid format for note ")
                    (lit ": invalid char '" ++ [c] ++ lit "'")
      | None => Ok (0, [])
      end.

(** [fn] is [check_hex_note] or NULL; a [size] of 0 is not checked. *)
Record spu_note_check := NoteCheck { nc_name : bytes; nc_size : Z; nc_hex : bool }.

(** The table up to its NULL entry. *)
Definition note_checks : list spu_note_check := [
  NoteCheck (lit "regs") 0x800 false;
  NoteCheck (lit "fpcr") 0x10 false;
  NoteCheck (lit "lslr") 0 true;
  NoteCheck (lit "decr") 0 true;
  NoteCheck (lit "decr_status") 0 true;
  NoteCheck (lit "mem") 0x40000 false;
  NoteCheck (lit "signal1") 0x4 false;
  NoteCheck (lit "signal1_type") 0 true;
  NoteCheck (lit "signal2") 0x4 false;
  NoteCheck (lit "signal2_type") 0 true;
  NoteCheck (lit "event_mask") 0 true;
  NoteCheck (lit "event_status") 0 true;
  NoteCheck (lit "mbox_info") 0x4 false;
  NoteCheck (lit "ibox_info") 0x4 false;
  NoteCheck (lit "wbox_info") 0x10 false;
  NoteCheck (lit "dma_info") 0x228 false;
  NoteCheck (lit "proxydma_info") 0x118 false;
  NoteCheck (lit "object-id") 0 true;
  NoteCheck (lit "npc") 0 true].

(** [for (check = note_checks; check->name != NULL; check++)]; unknown notes
    are allowed. *)
Fixpoint check_table (mem : bytes) (p : Z) (file_name : bytes) (tbl : list spu_note_check)
    : res (Z * list out) :=
  match tbl with
  | [] => Ok (0, [])
  | check :: tbl =>
      d ← strcmp file_name (nc_name check ++ [NUL]);
      if negb (d =? 0) then check_table mem p file_name tbl
      else
        sz ← n_descsz mem p;
        if negb (nc_size check =? 0) && negb (nc_size check =? sz) then
          err_name mem (note_name p)
            (lit "Invalid size (" ++ fmt_d (wraps 32 sz) ++ lit ") for note ") []
        else if nc_hex check then check_hex_note mem p
        else Ok (0, [])
  end.

Definition check_note (mem : bytes) (p : Z) : res (Z * list out) :=
  let name := note_name p in
  o ← strrchr (at_ptr mem name) "/"%char;
  match o with
  | None => err_name mem name (lit "Invalid note name ") []
  | Some i =>
      (* [c] from [name + 4] up to the last slash *)
      let pid := take (i - length SPU_NOTE_PREFIX) (drop (length SPU_NOTE_PREFIX) (at_ptr mem name)) in
      if negb (forallb isdigit pid) then err_name mem name (lit "Invalid note name ") []
      else check_table mem p (drop (S i) (at_ptr mem name)) note_checks
  end.

Definition check_fd (mem : bytes) (p : Z) (fd : option bytes) : res (Z * list out) :=
  let name := note_name p in
  str ← cstr (at_ptr mem name);
  o ← strchr (str ++ [NUL]) "/"%char;
  match o with
  | None => err_name mem name (lit "note ") (lit ": doesn't contain '/'")
  | Some i =>
      let fdstr := drop (S i) (str ++ [NUL]) in
      o ← strchr fdstr "/"%char;
      match o with
      | None => err_name mem name (lit "note ") (lit ": doesn't contain enough '/'s")
      | Some sep =>
          fd ← of_option fd;
          let fdstr := <[sep:=NUL]> fdstr in
          d ← strcmp (fd ++ [NUL]) fdstr;
          if negb (d =? 0) then
            s ← cstr fdstr;
            err_name mem name (lit "note ")
              (lit ": wrong fd: got " ++ s ++ lit ", expecting " ++ fd)
          else Ok (0, [])
      end
  end.

(** One SPU note under the options: [inl rc]: [parse_notes] returns [rc];
    [inr tt]: it goes on. *)
Definition spu_note (mem : bytes) (p : Z) (opts : options) : res ((Z + unit) * list out) :=
  let name := note_name p in
  match opt_action opts with
  | LIST_NOTES =>
      sz ← n_descsz mem p;
      s ← cstr (at_ptr mem (name + 4));
      Ok (inr tt, [Out (line (lit "0x" ++ fmt_hex 8 sz ++ lit " " ++ s))])
  | CHECK_NOTES =>
      '(rc, a) ← check_note mem p;
      Ok (if rc =? 0 then inr tt else inl (-1), a)
  | CHECK_FD =>
      '(rc, a) ← check_fd mem p (opt_fd opts);
      Ok (if rc =? 0 then inr tt else inl (-1), a)
  | DUMP_NOTE =>
      want ← of_option (dump_note_name opts);
      d ← strcmp (at_ptr mem name) (want ++ [NUL]);
      d ← (if d =? 0 then Ok 0 else strcmp (at_ptr mem (name + 4)) (want ++ [NUL]));
      if d =? 0 then
        desc ← note_desc mem p;
        sz ← n_descsz mem p;
        Ok (inl 0, [Out (take (Z.to_nat sz) (at_ptr mem desc))])
      else Ok (inr tt, [])
  | FIND_EXEC => Ok (inr tt, [])
  end.

Section parse.
(** Bits of [size_t]. *)
Context (wb : Z).

(** The filter on type and name, then [spu_note]. *)
Definition one_note (mem : bytes) (p : Z) (opts : options) : res ((Z + unit) * list out) :=
  ty ← n_type mem p;
  if negb (ty =? 1) then Ok (inr tt, [])
  else
    nsz ← n_namesz mem p;
    if nsz <? Z.of_nat (length SPU_NOTE_PREFIX) + 1 then Ok (inr tt, [])
    else
      d ← strncmp (at_ptr mem (note_name p)) (SPU_NOTE_PREFIX ++ [NUL]) (length SPU_NOTE_PREFIX);
      if negb (d =? 0) then Ok (inr tt, []) else spu_note mem p opts.

(** The loop of [parse_notes] at [offset]; sums are in [size_t], and the new
    offset is converted to [int]. *)
Fixpoint notes_loop (fuel : nat) (mem : bytes) (notes notes_size : Z) (opts : options) (offset : Z)
    : res (Z * list out) :=
  if negb (wrapu 32 offset <? notes_size) then
    match opt_action opts with
    | DUMP_NOTE =>
        want ← of_option (dump_note_name opts);
        Ok (-1, [Err (line (lit "note " ++ want ++ lit " not found"))])
    | _ => Ok (0, [])
    end
  else
    match fuel with
    | O => OutOfFuel
    | S fuel =>
        let nhdr := notes + offset in
        n ← n_namesz mem nhdr; namesz ← pad n;
        d ← n_descsz mem nhdr; descsz ← pad d;
        if notes_size <? wrapu wb (offset + NHDR + namesz) then
          Ok (-1, [Err (line (lit "note name extends past notes section"))])
        else if notes_size <? wrapu wb (offset + NHDR + namesz + descsz) then
          Ok (-1, [Err (line (lit "note descriptor extends past notes section"))])
        else
          let offset := wraps 32 (offset + (NHDR + namesz + descsz)) in
          '(r, a) ← one_note mem nhdr opts;
          match r with
          | inl rc => Ok (rc, a)
          | inr tt =>
              '(rc, a') ← notes_loop fuel mem notes notes_size opts offset;
              Ok (rc, a ++ a')
          end
    end.

Definition parse_notes (fuel : nat) (mem : bytes) (notes notes_size : Z) (opts : options)
    : res (Z * list out) :=
  notes_loop fuel mem notes notes_size opts 0.

(** ** Sections *)

Definition PT_LOAD : Z := 1.
Definition PT_NOTE : Z := 4.
Definition ELFMAG : bytes := "127"%char :: lit "ELF".

Definition parse_section (fuel : nat) (mem : bytes) (section size type : Z) (opts : options)
    : res (Z * list out) :=
  if (type =? PT_LOAD) && bool_decide (opt_action opts = FIND_EXEC) then
    b ← mem_is (at_ptr mem section) ELFMAG;
    Ok (if b : bool then 0 else -1, [])
  else if type =? PT_NOTE then
    '(rc, a) ← parse_notes fuel mem section (wrapu 32 size) opts;
    Ok (if rc =? 0 then 1 else -1, a)
  else Ok (1, []).
End parse.
