(* ===== verification/ParseElf.v ===== *)
(** * The ELF part of the core file checker (tests/11-coredump/parse-core.c)

    The header checks, the walk over the program headers and [main].  The 32
    and the 64 bit routine have the same text over other types of elf.h, given
    by an [elf_class]. *)

From S2P Require Import Prelude CString ParseCore.

Local Open Scope Z_scope.

(** The offsets and the word of [Elf32_Ehdr]/[Elf32_Phdr] and of
    [Elf64_Ehdr]/[Elf64_Phdr], with the machine the routine wants. *)
Record elf_class := ElfClass {
  ec_machine : Z; ec_machine_name : bytes;
  (** bits of [Elf_Off], and a read of one *)
  ec_bits : Z; ec_word : bytes → Z → res Z;
  o_phoff : Z; o_phentsize : Z; o_phnum : Z;
  sizeof_phdr : Z; o_p_offset : Z; o_p_filesz : Z;
}.

(** [e_machine] is at the same offset in both. *)
Definition o_machine : Z := 18.

Definition EM_PPC : Z := 20.
Definition EM_PPC64 : Z := 21.

Definition elf32 : elf_class :=
  ElfClass EM_PPC (lit "EM_PPC") 32 u32 28 42 44 32 4 16.
Definition elf64 : elf_class :=
  ElfClass EM_PPC64 (lit "EM_PPC64") 64 u64 32 54 56 56 8 32.

Definition err (s : bytes) : res (Z * list out) := Ok (-1, [Err (line s)]).

(** One entry of the program header table, at [phdr]: the checks and
    [parse_section]. *)
Definition parse_phdr (wb : Z) (fuel : nat) (k : elf_class) (file : bytes) (map_size : Z)
    (opts : options) (i phdr : Z) : res (Z * list out) :=
  off ← ec_word k file (phdr + o_p_offset k);
  let msg verb := lit "Program header entry " ++ fmt_d i ++ lit " " ++ verb ++ lit " at 0x"
                  ++ fmt_hex 16 off ++ lit ", which is past end-of-file" in
  if map_size <? off then err (msg (lit "starts"))
  else
    filesz ← ec_word k file (phdr + o_p_filesz k);
    if map_size <? wrapu (ec_bits k) (off + filesz) then err (msg (lit "ends"))
    else
      type ← u32 file phdr;
      parse_section wb fuel file off (wraps 32 filesz) type opts.

(** [for (i = 0; i < ehdr->e_phnum; i++)] with [n] entries left. *)
Fixpoint phdrs_loop (wb : Z) (fuel : nat) (k : elf_class) (file : bytes) (map_size : Z)
    (opts : options) (phoff : Z) (n : nat) (i : Z) : res (Z * list out) :=
  match n with
  | O => Ok (0, [])
  | S n =>
      '(rc, a) ← parse_phdr wb fuel k file map_size opts i (phoff + i * sizeof_phdr k);
      if rc <? 0 then Ok (-1, a)
      else if rc =? 0 then Ok (0, a)
      else
        '(rc, a') ← phdrs_loop wb fuel k file map_size opts phoff n (i + 1);
        Ok (rc, a ++ a')
  end.

Definition parse_elf_class (wb : Z) (fuel : nat) (k : elf_class) (file : bytes) (map_size : Z)
    (opts : options) : res (Z * list out) :=
  machine ← u16 file o_machine;
  if negb (machine =? ec_machine k) then
    err (lit "Invlid ELF file: e_machine (" ++ fmt_d machine ++ lit ") != " ++ ec_machine_name k)
  else
    phoff ← ec_word k file (o_phoff k);
    if negb (phoff <? map_size) then err (lit "Program header table past end of file")
    else
      phentsize ← u16 file (o_phentsize k);
      if negb (phentsize =? sizeof_phdr k) then
        err (lit "Program header entries are " ++ fmt_d phentsize ++ lit " bytes, expected "
             ++ fmt_d (sizeof_phdr k))
      else
        phnum ← u16 file (o_phnum k);
        if map_size <? wrapu (ec_bits k) (phoff + phentsize * phnum) then
          err (lit "Program header table extends past end of file")
        else phdrs_loop wb fuel k file map_size opts phoff (Z.to_nat phnum) 0.

Definition parse_elf_32 (wb : Z) (fuel : nat) := parse_elf_class wb fuel elf32.
Definition parse_elf_64 (wb : Z) (fuel : nat) := parse_elf_class wb fuel elf64.

(** [%x] of a character. *)
Definition fmt_x (x : Z) : bytes := fmt_hex (if x <? 16 then 1 else 2) x.

Definition parse_elf (wb : Z) (fuel : nat) (file : bytes) (map_size : Z) (opts : options)
    : res (Z * list out) :=
  m ← mem_is file ELFMAG;
  if negb m then err (lit "Invalid ELF file: bad e_ident magic")
  else
    data ← byte_at file 5;
    if negb (code data =? 2) then err (lit "Invalid ELF file: bad data encoding")
    else
      version ← byte_at file 6;
      if negb (code version =? 1) then
        err (lit "Invalid ELF file: bad file version (" ++ fmt_d (code version) ++ lit ")")
      else
        class ← byte_at file 4;
        if code class =? 1 then parse_elf_32 wb fuel file map_size opts
        else if code class =? 2 then parse_elf_64 wb fuel file map_size opts
        else err (lit "Invalid ELF file: bad elf class (0x" ++ fmt_x (code class) ++ lit ")").

(** ** [main] *)

(** The mapping of a file of content [c]: whole pages, the rest of the last one
    zero. *)
Definition mmap (page : nat) (c : bytes) : bytes :=
  c ++ replicate ((page - length c mod page) mod page) NUL.

(** [files f] is the content when [open] and [fstat] succeed; an empty file
    cannot be mapped. *)
Definition map_file (page : nat) (files : bytes → option bytes) (filename : bytes)
    : option (bytes * Z) * list out :=
  match files filename with
  | None => (None, [Err (lit "open")])
  | Some [] => (None, [Err (lit "mmap")])
  | Some c => (Some (mmap page c, wrapu 32 (Z.of_nat (length c))), [])
  end.

Definition usage (prog : bytes) : list out := map (Err ∘ line) [
  lit "usage:	" ++ prog ++ lit " [--list-notes] <corefile>";
  lit "	" ++ prog ++ lit " --check-notes <corefile>";
  lit "	" ++ prog ++ lit " --check-fd <fd> <corefile>";
  lit "	" ++ prog ++ lit " --print-note <notename> <corefile>";
  lit "	" ++ prog ++ lit " --find-exec <corefile>"].

(** One turn of the switch over the values of [getopt_long], [optarg] with
    them; [None]: the default case. *)
Definition set_option (o : options) (c : ascii) (optarg : option bytes) : option options :=
  if decide (c = "l"%char) then Some (Options LIST_NOTES (dump_note_name o) (opt_fd o))
  else if decide (c = "c"%char) then Some (Options CHECK_NOTES (dump_note_name o) (opt_fd o))
  else if decide (c = "d"%char) then Some (Options CHECK_FD (dump_note_name o) optarg)
  else if decide (c = "p"%char) then Some (Options DUMP_NOTE optarg (opt_fd o))
  else if decide (c = "f"%char) then Some (Options FIND_EXEC (dump_note_name o) (opt_fd o))
  else None.

Fixpoint set_options (o : options) (cs : list (ascii * option bytes)) : option options :=
  match cs with
  | [] => Some o
  | (c, arg) :: cs => o ← set_option o c arg; set_options o cs
  end.

(** [operands] are the arguments from [optind] on. *)
Definition main (wb : Z) (fuel page : nat) (files : bytes → option bytes) (prog : bytes)
    (cs : list (ascii * option bytes)) (operands : list bytes) : res (Z * list out) :=
  match set_options (Options LIST_NOTES None None) cs, operands with
  | Some opts, [f] =>
      match map_file page files f with
      | (None, a) => Ok (1, a)
      | (Some (map, size), a) =>
          '(rc, a') ← parse_elf wb fuel map size opts; Ok (rc, a ++ a')
      end
  | _, _ => Ok (1, usage prog)
  end.
