(* ===== verification/NoteSpec.v ===== *)
(** * What the note checks of parse-core.c decide

    A note as it was written: its name (a string, without its NUL), its
    descriptor and its type; [encode_note] is its image in the file.  The
    checks of ParseCore.v on an image are the specification on the note. *)

From S2P Require Import Prelude CString ParseCore.

Local Open Scope Z_scope.

Record note := Note { nt_name : bytes; nt_desc : bytes; nt_type : Z }.

(** ** The image of a note *)

Definition pad4 (n : nat) : nat := (4 * ((n + 3) / 4))%nat.

Definition padded (s : bytes) : bytes := s ++ replicate (pad4 (length s) - length s) NUL.

Definition encode_note (n : note) : bytes :=
  be_bytes 4 (Z.of_nat (length (nt_name n)) + 1) ++ be_bytes 4 (Z.of_nat (length (nt_desc n)))
  ++ be_bytes 4 (nt_type n) ++ padded (nt_name n ++ [NUL]) ++ padded (nt_desc n).

Definition encode_notes (ns : list note) : bytes := ns ≫= encode_note.

(** A note the format can hold. *)
Definition wf_note (n : note) : Prop := nul_free (nt_name n) ∧ 0 ≤ nt_type n < 2 ^ 32.

(** ** Words *)

Lemma code_byte_of x : 0 ≤ x < 256 → code (byte_of x) = x.
Proof. intros H. unfold code, byte_of. rewrite N_ascii_embedding; lia. Qed.

Lemma be_read_app n acc m m' v : be_read n acc m = Ok v → be_read n acc (m ++ m') = Ok v.
Proof. revert acc m. induction n as [|n IH]; intros acc [|c m]; cbn; try done. apply IH. Qed.

Lemma be_read_split a b acc m m' v :
  length m = a → be_read a acc m = Ok v → be_read (a + b) acc (m ++ m') = be_read b v m'.
Proof.
  revert acc m. induction a as [|a IH]; intros acc [|c m] Hl Hv; cbn in *; try discriminate.
  - by injection Hv as [= ->].
  - apply IH; [lia|done].
Qed.

Lemma be_read_bytes n acc x :
  0 ≤ x < 256 ^ Z.of_nat n → be_read n acc (be_bytes n x) = Ok (acc * 256 ^ Z.of_nat n + x).
Proof.
  revert x. induction n as [|n IH]; intros x Hx.
  - cbn in *. f_equal. lia.
  - rewrite Nat2Z.inj_succ, Z.pow_succ_r in * by lia. cbn [be_bytes].
    pose proof (Z.mod_pos_bound x 256 ltac:(lia)) as Hm.
    replace (S n) with (n + 1)%nat by lia.
    erewrite be_read_split; [|apply length_be_bytes|apply IH]; cbn [be_read].
    + f_equal. rewrite code_byte_of by lia. pose proof (Z.div_mod x 256). lia.
    + split; [apply Z.div_pos; lia|apply Z.div_lt_upper_bound; lia].
Qed.

Lemma at_ptr_ge mem p : 0 ≤ p → at_ptr mem p = drop (Z.to_nat p) mem.
Proof. intros H. unfold at_ptr. destruct (Z.ltb_spec p 0); [lia|done]. Qed.

(** A pointer [length a] further. *)
Lemma at_ptr_app mem p a b k :
  0 ≤ p → at_ptr mem p = a ++ b → k = Z.of_nat (length a) → at_ptr mem (p + k) = b.
Proof.
  intros Hp H ->. rewrite at_ptr_ge in * by lia.
  rewrite Z2Nat.inj_add, Nat2Z.id by lia. by apply drop_app_add with (a := a).
Qed.

Lemma u32_at mem p x r :
  at_ptr mem p = be_bytes 4 x ++ r → 0 ≤ x < 2 ^ 32 → u32 mem p = Ok x.
Proof.
  intros E H. unfold u32. rewrite E. apply be_read_app.
  rewrite be_read_bytes; [f_equal; lia|]. change (256 ^ Z.of_nat 4) with (2 ^ 32). lia.
Qed.

Lemma pad_spec x : 0 ≤ x ≤ int_max - 3 → pad x = Ok (4 * ((x + 3) / 4)).
Proof.
  unfold int_max. intros H. unfold pad. rewrite wraps_small by lia.
  unfold int_max. destruct (Z.ltb_spec (2 ^ 31 - 1) (x + 3)); [lia|]. f_equal.
  change 3 with (Z.ones 2) at 2. rewrite <- Z.ldiff_land, Z.ldiff_ones_r by lia.
  rewrite Z.shiftl_mul_pow2, Z.shiftr_div_pow2 by lia. change (2 ^ 2) with 4. lia.
Qed.

Lemma pad_nat n : Z.of_nat n ≤ int_max - 3 → pad (Z.of_nat n) = Ok (Z.of_nat (pad4 n)).
Proof. intros H. rewrite pad_spec by lia. f_equal. unfold pad4.
  by rewrite Nat2Z.inj_mul, Nat2Z.inj_div, Nat2Z.inj_add.
Qed.

Lemma pad4_ge n : (n ≤ pad4 n < n + 4)%nat.
Proof.
  unfold pad4. pose proof (Nat.div_mod_eq (n + 3) 4). pose proof (Nat.mod_upper_bound (n + 3) 4). lia.
Qed.

Lemma length_padded s : length (padded s) = pad4 (length s).
Proof. unfold padded. pose proof (pad4_ge (length s)). len. Qed.

(** ** A note in the mapping *)

(** The image of [n] is at [p]; its sizes are [int]s that [pad] can round. *)
Record note_in (mem : bytes) (p : Z) (n : note) : Prop := {
  ni_pos : 0 ≤ p;
  ni_img : ∃ r, at_ptr mem p = encode_note n ++ r;
  ni_wf : wf_note n;
  ni_name : Z.of_nat (length (nt_name n)) + 1 ≤ int_max - 3;
  ni_desc : Z.of_nat (length (nt_desc n)) ≤ int_max - 3;
}.

Section note_in.
Context (mem : bytes) (p : Z) (n : note) (Hn : note_in mem p n).

Let name := nt_name n.
Let desc := nt_desc n.

Lemma note_in_header :
  n_namesz mem p = Ok (Z.of_nat (length name) + 1) ∧
  n_descsz mem p = Ok (Z.of_nat (length desc)) ∧
  n_type mem p = Ok (nt_type n).
Proof.
  subst name desc. destruct Hn as [Hp (r & Hr) [Hf Ht] Hl Hd]. unfold int_max in *.
  unfold encode_note in Hr. rewrite <- !app_assoc in Hr.
  unfold n_namesz, n_descsz, n_type. split_and!.
  - eapply u32_at; [exact Hr|lia].
  - eapply u32_at; [|lia]. eapply at_ptr_app; [done|exact Hr|by rewrite length_be_bytes].
  - eapply u32_at; [|exact Ht]. rewrite app_assoc in Hr.
    eapply at_ptr_app; [done|exact Hr|by rewrite length_app, !length_be_bytes].
Qed.

Lemma note_in_name : ∃ r, at_ptr mem (note_name p) = name ++ NUL :: r.
Proof.
  subst name. destruct Hn as [Hp (r & Hr) _ _ _]. unfold note_name, NHDR.
  unfold encode_note in Hr. rewrite <- !app_assoc in Hr. rewrite 2!app_assoc in Hr.
  eexists. erewrite at_ptr_app; [|done|exact Hr|by rewrite !length_app, !length_be_bytes].
  unfold padded at 1. by rewrite <- !app_assoc.
Qed.

Lemma note_in_pads :
  pad (Z.of_nat (length name) + 1) = Ok (Z.of_nat (pad4 (length name + 1))) ∧
  pad (Z.of_nat (length desc)) = Ok (Z.of_nat (pad4 (length desc))).
Proof.
  subst name desc. destruct Hn as [_ _ _ Hl Hd]. split; [|by apply pad_nat].
  replace (_ + 1) with (Z.of_nat (length (nt_name n) + 1)) by lia. apply pad_nat. lia.
Qed.

Lemma note_in_desc :
  ∃ q r, note_desc mem p = Ok q ∧ 0 ≤ q ∧ at_ptr mem q = desc ++ r.
Proof.
  destruct note_in_header as (E & _ & _), note_in_pads as [P _].
  exists (p + NHDR + Z.of_nat (pad4 (length name + 1))).
  subst name desc. destruct Hn as [Hp (r & Hr) _ _ _].
  unfold note_desc. rewrite E. cbn. rewrite P. cbn. unfold encode_note in Hr.
  rewrite <- !app_assoc in Hr. rewrite 3!app_assoc in Hr. eexists. split_and!; [done|unfold NHDR; lia|].
  rewrite <- Z.add_assoc. erewrite at_ptr_app; [|done|exact Hr|].
  - unfold padded at 1. by rewrite <- !app_assoc.
  - rewrite !length_app, !length_be_bytes, length_padded, length_app. cbn. unfold NHDR. lia.
Qed.

Lemma note_in_err pre post :
  err_name mem (note_name p) pre post = Ok (-1, [Err (line (pre ++ name ++ post))]).
Proof.
  destruct note_in_name as [r Hr]. unfold err_name. rewrite Hr, cstr_app; [done|].
  apply (ni_wf _ _ _ Hn).
Qed.

Lemma note_in_file_name k :
  (k ≤ length name)%nat → ∃ r, at_ptr mem (note_name p + Z.of_nat k) = drop k name ++ NUL :: r.
Proof.
  intros Hk. destruct note_in_name as [r Hr]. exists r.
  rewrite <- (take_drop k name), <- app_assoc in Hr.
  eapply at_ptr_app; [|exact Hr|rewrite length_take; lia].
  destruct Hn. unfold note_name, NHDR. lia.
Qed.
End note_in.

(** ** The checks *)

#[local] Arguments err_name : simpl never.
#[local] Arguments note_name : simpl never.
#[local] Arguments fmt_d : simpl never.
#[local] Arguments lit : simpl never.
#[local] Arguments n_descsz : simpl never.

(** [check_hex_note]: "0x" and sixteen hexadecimal digits, then one more byte,
    whatever it is. *)
Definition hex_desc (d : bytes) : Prop :=
  ∃ h c, d = lit "0x" ++ h ++ [c] ∧ length h = 16%nat ∧ Forall (λ c, isxdigit c = true) h.

Lemma hex_scan_spec n h r :
  length h = n →
  (hex_scan n (h ++ r) = Ok None ∧ Forall (λ c, isxdigit c = true) h) ∨
  (∃ c, hex_scan n (h ++ r) = Ok (Some c) ∧ ¬ Forall (λ c, isxdigit c = true) h).
Proof.
  revert h. induction n as [|n IH]; intros [|c h]; cbn; try done; [by left|]. intros [= Hl].
  destruct (isxdigit c) eqn:Hc.
  - destruct (IH h Hl) as [[-> Hf]|(d & -> & Hf)].
    + left. split; [done|]. by constructor.
    + right. exists d. split; [done|]. by intros [_ ?]%Forall_cons.
  - right. exists c. split; [done|]. intros [? _]%Forall_cons. congruence.
Qed.

#[local] Arguments hex_scan : simpl never.

Lemma hex_desc_dec d : length d = 19%nat →
  ∃ c0 c1 h c, d = c0 :: c1 :: h ++ [c] ∧ length h = 16%nat ∧
    (hex_desc d ↔ c0 = "0"%char ∧ c1 = "x"%char ∧ Forall (λ c, isxdigit c = true) h).
Proof.
  intros Hl. destruct d as [|c0 [|c1 d]]; try discriminate. cbn in Hl.
  destruct d as [|c h _] using rev_ind; [done|]. rewrite length_app in Hl. cbn in Hl.
  exists c0, c1, h, c. split; [done|]. split; [lia|]. split.
  - intros (h' & c' & E & Hl' & Hf). cbn in E. injection E as [= -> -> E].
    apply app_inj_tail in E as [-> ->]. done.
  - intros (-> & -> & Hf). exists h, c. split_and!; [done|lia|done].
Qed.

(** What the two results of a check have in common. *)
Definition decides (m : res (Z * list out)) (P : Prop) : Prop :=
  (m = Ok (0, []) ∧ P) ∨ (∃ e, m = Ok (-1, [Err e]) ∧ ¬ P).

Lemma decides_iff m P Q : (P ↔ Q) → decides m P → decides m Q.
Proof. unfold decides. intros H [[? ?]|(e & ? & ?)]; [left|right; exists e]; tauto. Qed.

Lemma decides_no m P pre mem p n post :
  note_in mem p n → ¬ P → m = err_name mem (note_name p) pre post → decides m P.
Proof. intros Hn HP ->. right. rewrite (note_in_err _ _ _ Hn). eauto. Qed.

Lemma decides_yes m P : P → m = Ok (0, []) → decides m P.
Proof. left. by split. Qed.

Lemma check_hex_note_decides mem p n :
  note_in mem p n → decides (check_hex_note mem p) (hex_desc (nt_desc n)).
Proof.
  intros Hn. destruct (note_in_desc _ _ _ Hn) as (q & r & Eq & Hq & Er).
  destruct (note_in_header _ _ _ Hn) as (_ & Ed & _). unfold check_hex_note. rewrite Eq, Ed.
  change (Z.of_nat (length (lit "0x0123456789abcdef")) + 1) with 19. cbn.
  destruct (Z.eqb_spec (Z.of_nat (length (nt_desc n))) 19) as [Hl|Hl]; cbn.
  2:{ eapply decides_no; [exact Hn| |]. 2: done. intros (h & c & E & Hh & _). apply Hl.
      by rewrite E, !length_app, Hh. }
  destruct (hex_desc_dec (nt_desc n) ltac:(lia)) as (c0 & c1 & h & c & E & Hh & Hiff).
  rewrite E in Er. cbn in Er. unfold byte_at. rewrite Er. cbn.
  erewrite (at_ptr_app _ q [c0] _ 1); [|done|exact Er|done].
  erewrite (at_ptr_app _ q [c0; c1] _ 2); [|done|exact Er|done]. cbn.
  rewrite <- app_assoc. destruct (decide (c0 = "0"%char)) as [->|H0]; cbn.
  2:{ rewrite bool_decide_eq_false_2 by done. eapply decides_no; [exact Hn|rewrite Hiff; tauto|done]. }
  destruct (decide (c1 = "x"%char)) as [->|H1]; cbn.
  2:{ rewrite (bool_decide_eq_false_2 (c1 = _)) by done. eapply decides_no; [exact Hn|rewrite Hiff; tauto|done]. }
  change (Z.to_nat (19 - 1 - 2)) with 16%nat.
  destruct (hex_scan_spec 16 h (c :: r) Hh) as [[-> Hf]|(x & -> & Hf)].
  - by apply decides_yes; [apply Hiff|].
  - eapply decides_no; [exact Hn|rewrite Hiff; tauto|done].
Qed.

#[local] Arguments check_hex_note : simpl never.

(** A name of the table, with its check. *)
Definition table_ok (tbl : list spu_note_check) (file d : bytes) : Prop :=
  ∀ k, list_find (λ k, nc_name k = file) tbl = Some k →
    (nc_size k.2 ≠ 0 → Z.of_nat (length d) = nc_size k.2) ∧ (nc_hex k.2 = true → hex_desc d).

(** [check_note]: a last component after a slash, digits between "SPU/" and that
    slash, and what the table asks of the component. *)
Definition note_ok (s d : bytes) : Prop :=
  ∃ pre file, (s = pre ++ "/"%char :: file) ∧ ("/"%char ∉ file) ∧
    Forall (λ c, isdigit c = true) (drop 4 pre) ∧ table_ok note_checks file d.

Lemma table_names_nul_free : Forall (λ k, nul_free (nc_name k)) note_checks.
Proof. apply (bool_decide_unpack _). vm_compute. exact I. Qed.

Lemma check_table_decides mem p n file r tbl :
  note_in mem p n → nul_free file → Forall (λ k, nul_free (nc_name k)) tbl →
  decides (check_table mem p (file ++ NUL :: r) tbl) (table_ok tbl file (nt_desc n)).
Proof.
  intros Hn Hf. induction 1 as [|k tbl Hk _ IH]; cbn.
  { apply decides_yes; [|done]. intros k. by cbn. }
  rewrite strcmp_str_cmp by done. cbn.
  pose proof (str_cmp_eq file (nc_name k) Hf Hk) as Heq.
  destruct (Z.eqb_spec (str_cmp file (nc_name k)) 0) as [E|E]; cbn.
  2:{ eapply decides_iff; [|exact IH]. unfold table_ok. cbn.
      rewrite decide_False by (intros <-; tauto).
      split; intros H [i j].
      - destruct (list_find _ tbl) as [[i' j']|] eqn:F; [|done]. intros [= <- <-]. exact (H _ eq_refl).
      - intros F. rewrite F in H. exact (H _ eq_refl). }
  apply Heq in E. subst file. destruct (note_in_header _ _ _ Hn) as (_ & Hd & _). rewrite Hd. cbn.
  assert (table_ok (k :: tbl) (nc_name k) (nt_desc n) ↔
    (nc_size k ≠ 0 → Z.of_nat (length (nt_desc n)) = nc_size k) ∧ (nc_hex k = true → hex_desc (nt_desc n))) as Hiff.
  { unfold table_ok. cbn. rewrite decide_True by done. split; [intros H; exact (H (0%nat, k) eq_refl)|].
    by intros H j [= <-]. }
  eapply decides_iff; [symmetry; exact Hiff|].
  destruct (Z.eqb_spec (nc_size k) 0) as [Hz|Hz]; cbn.
  - destruct (nc_hex k); [|by apply decides_yes].
    eapply decides_iff; [|by apply check_hex_note_decides]. intuition congruence.
  - destruct (Z.eqb_spec (nc_size k) (Z.of_nat (length (nt_desc n)))) as [Hs|Hs]; cbn.
    + destruct (nc_hex k).
      * eapply decides_iff; [|by apply check_hex_note_decides]. intuition congruence.
      * apply decides_yes; [|done]. intuition congruence.
    + eapply decides_no; [exact Hn| |done]. intuition congruence.
Qed.

(** The last slash of a string. *)
Lemma last_slash (s : bytes) :
  "/"%char ∉ s ∨ ∃ pre file, (s = pre ++ "/"%char :: file) ∧ "/"%char ∉ file.
Proof.
  induction s as [|c s [IH|(pre & file & -> & Hf)]]; [left; apply not_elem_of_nil| |].
  - destruct (decide (c = "/"%char)) as [->|Hc]; [right; by exists [], s|].
    left. rewrite not_elem_of_cons. by split.
  - right. by exists (c :: pre), file.
Qed.

Lemma last_slash_unique (pre pre' file file' : bytes) :
  pre ++ "/"%char :: file = pre' ++ "/"%char :: file' → "/"%char ∉ file → "/"%char ∉ file' →
  pre = pre' ∧ file = file'.
Proof.
  revert pre'. induction pre as [|c pre IH]; intros [|c' pre'] E Hf Hf'; cbn in E.
  - by injection E.
  - injection E as [= <- ->]. exfalso. apply Hf. apply elem_of_app. right. by left.
  - injection E as [= -> <-]. exfalso. apply Hf'. apply elem_of_app. right. by left.
  - injection E as [= -> E]. destruct (IH pre' E Hf Hf') as [-> ->]. done.
Qed.

Lemma check_note_decides_lemma mem p n :
  note_in mem p n → decides (check_note mem p) (note_ok (nt_name n) (nt_desc n)).
Proof.
  intros Hn. pose proof (proj1 (ni_wf _ _ _ Hn)) as Hf.
  destruct (note_in_name _ _ _ Hn) as [r Hr]. unfold check_note. rewrite Hr.
  destruct (last_slash (nt_name n)) as [Hs|(pre & file & E & Hs)].
  { rewrite strrchr_none by done. cbn. eapply decides_no; [exact Hn| |done].
    intros (pre & file & E & _). apply Hs. rewrite E. apply elem_of_app. right. by left. }
  rewrite E in *. pose proof Hf as Hf'. rewrite nul_free_app, nul_free_cons in Hf'.
  change (length SPU_NOTE_PREFIX) with 4%nat.
  rewrite <- app_assoc. cbn [app]. rewrite strrchr_found by done.
  cbn -[check_table drop take Nat.sub note_checks].
  assert (take (length pre - 4) (drop 4 (pre ++ "/"%char :: file ++ NUL :: r)) = drop 4 pre) as ->.
  { 
    destruct (decide (4 ≤ length pre)%nat) as [H4|H4].
    - rewrite drop_app_le by lia. rewrite take_app_le by len. apply take_ge. len.
    - replace (length pre - 4)%nat with 0%nat by lia. cbn. symmetry. apply drop_ge. lia. }
  assert (drop (S (length pre)) (pre ++ "/"%char :: file ++ NUL :: r) = file ++ NUL :: r) as ->.
  { pose proof (drop_app_length (pre ++ ["/"%char]) (file ++ NUL :: r)) as H.
    rewrite <- app_assoc, length_app, Nat.add_1_r in H. exact H. }
  assert (note_ok (pre ++ "/"%char :: file) (nt_desc n) ↔
    Forall (λ c, isdigit c = true) (drop 4 pre) ∧ table_ok note_checks file (nt_desc n)) as Hiff.
  { split; [|by exists pre, file].
    intros (pre' & file' & E' & Hs' & ?). by apply last_slash_unique in E' as [-> ->]. }
  eapply decides_iff; [symmetry; exact Hiff|].
  pose proof (forallb_Forall isdigit (drop 4 pre)) as Hd.
  destruct (forallb isdigit (drop 4 pre)); cbn -[check_table note_checks].
  - eapply decides_iff; [|apply check_table_decides; [done|tauto|apply table_names_nul_free]]. tauto.
  - eapply decides_no; [exact Hn| |done]. intuition congruence.
Qed.

(** [check_fd]: the second component is [fd]. *)
Definition fd_ok (s fd : bytes) : Prop :=
  ∃ a rest, s = a ++ "/"%char :: fd ++ "/"%char :: rest ∧ ("/"%char ∉ a) ∧ ("/"%char ∉ fd).

Lemma first_slash (s : bytes) :
  "/"%char ∉ s ∨ ∃ a b, s = a ++ "/"%char :: b ∧ ("/"%char ∉ a).
Proof.
  destruct (decide ("/"%char ∈ s)) as [H|H]; [right|by left].
  apply list_elem_of_split_l in H as (a & b & -> & Ha). by exists a, b.
Qed.

Lemma first_slash_unique (a a' b b' : bytes) :
  a ++ "/"%char :: b = a' ++ "/"%char :: b' → "/"%char ∉ a → "/"%char ∉ a' → a = a' ∧ b = b'.
Proof.
  revert a'. induction a as [|c a IH]; intros [|c' a'] E Ha Ha'; cbn in E.
  - by injection E.
  - injection E as [= <- ->]. exfalso. apply Ha'. by left.
  - injection E as [= -> <-]. exfalso. apply Ha. by left.
  - injection E as [= <- E]. rewrite not_elem_of_cons in Ha, Ha'. destruct (IH a' E) as [-> ->]; tauto.
Qed.

Lemma check_fd_decides_lemma mem p n fd :
  note_in mem p n → nul_free fd → decides (check_fd mem p (Some fd)) (fd_ok (nt_name n) fd).
Proof.
  intros Hn Hfd. pose proof (proj1 (ni_wf _ _ _ Hn)) as Hf.
  destruct (note_in_name _ _ _ Hn) as [r Hr]. unfold check_fd. rewrite Hr, cstr_app by done. cbn.
  destruct (first_slash (nt_name n)) as [Hs|(a & b & E & Ha)].
  { rewrite strchr_none by done. cbn. eapply decides_no; [exact Hn| |done].
    intros (a & rest & E & _). apply Hs. rewrite E. apply elem_of_app. right. by left. }
  rewrite E in *. rewrite nul_free_app, nul_free_cons in Hf. destruct Hf as (Hfa & _ & Hfb).
  rewrite <- app_assoc. cbn [app]. rewrite strchr_found by done. cbn -[drop].
  assert (drop (S (length a)) (a ++ "/"%char :: b ++ [NUL]) = b ++ [NUL]) as ->.
  { pose proof (drop_app_length (a ++ ["/"%char]) (b ++ [NUL])) as H.
    rewrite <- app_assoc, length_app, Nat.add_1_r in H. exact H. }
  assert (∀ f rest, fd_ok (a ++ "/"%char :: b) fd → b = f ++ "/"%char :: rest → "/"%char ∉ f → f = fd) as Hok.
  { intros f rest (a' & rest' & E' & Ha' & Hs') -> Hfs.
    apply first_slash_unique in E' as [_ E']; [|done|done]. by apply first_slash_unique in E' as [-> _]. }
  destruct (first_slash b) as [Hs|(f & rest & -> & Hs)].
  { rewrite strchr_none by done. cbn. eapply decides_no; [exact Hn| |done].
    intros (a' & rest & E' & Ha' & _). apply first_slash_unique in E' as [_ ->]; [|done|done].
    apply Hs. apply elem_of_app. right. by left. }
  rewrite nul_free_app, nul_free_cons in Hfb. destruct Hfb as (Hff & _ & _).
  rewrite <- app_assoc. cbn [app]. rewrite strchr_found by done. cbn -[insert].
  replace (length f) with (length f + 0)%nat by lia. rewrite insert_app_r. cbn.
  rewrite strcmp_str_cmp by done. cbn. pose proof (str_cmp_eq fd f Hfd Hff) as Heq.
  destruct (Z.eqb_spec (str_cmp fd f) 0) as [Z0|Z0]; cbn.
  - apply Heq in Z0. subst f. apply decides_yes; [|done]. by exists a, rest.
  - rewrite cstr_app by done. cbn. eapply decides_no; [exact Hn| |done].
    intros H. apply Z0, Heq. symmetry. by apply (Hok f rest).
Qed.
