(* ===== verification/NotesProps.v ===== *)
(** * The walk over a note section (parse-core.c, [parse_notes])

    On the image of a list of notes the loop visits each note once, and each
    action computes its specification; on other sections it may not return. *)

From S2P Require Import Prelude CString ParseCore NoteSpec.

Local Open Scope Z_scope.

#[local] Arguments wrapu : simpl never.
#[local] Arguments wraps : simpl never.
#[local] Arguments lit : simpl never.
#[local] Arguments one_note : simpl never.
#[local] Arguments pad : simpl never.
#[local] Arguments pad4 : simpl never.
#[local] Arguments encode_note : simpl never.
#[local] Arguments n_namesz : simpl never.
#[local] Arguments n_descsz : simpl never.
#[local] Arguments n_type : simpl never.
#[local] Arguments check_note : simpl never.
#[local] Arguments check_fd : simpl never.
#[local] Arguments note_desc : simpl never.
#[local] Arguments note_name : simpl never.

(** ** A note section *)

(** The image of the notes [ns] is at [notes]; its size is an [int]. *)
Record note_section (mem : bytes) (notes : Z) (ns : list note) : Prop := {
  ns_pos : 0 ≤ notes;
  ns_img : ∃ r, at_ptr mem notes = encode_notes ns ++ r;
  ns_wf : Forall wf_note ns;
  ns_size : Z.of_nat (length (encode_notes ns)) ≤ int_max;
}.

Lemma length_encode_note n :
  length (encode_note n) = (12 + pad4 (length (nt_name n) + 1) + pad4 (length (nt_desc n)))%nat.
Proof. unfold encode_note. rewrite !length_app, !length_be_bytes, !length_padded, length_app. cbn. lia. Qed.

Lemma encode_notes_cons n ns : encode_notes (n :: ns) = encode_note n ++ encode_notes ns.
Proof. done. Qed.

Lemma note_section_cons mem notes n ns :
  note_section mem notes (n :: ns) →
  note_in mem notes n ∧ note_section mem (notes + Z.of_nat (length (encode_note n))) ns.
Proof.
  intros [Hp [r Hr] [Hw Hws]%Forall_cons Hs].
  rewrite encode_notes_cons in Hr, Hs. rewrite length_app in Hs. rewrite <- app_assoc in Hr. split.
  - split; [done|eauto|done|..]; rewrite length_encode_note in Hs;
      pose proof (pad4_ge (length (nt_name n) + 1)); pose proof (pad4_ge (length (nt_desc n))); lia.
  - split; [lia| |done|lia]. exists r. by eapply at_ptr_app.
Qed.

(** The notes the program looks at. *)
Definition is_spu (n : note) : bool :=
  (nt_type n =? 1) && bool_decide (SPU_NOTE_PREFIX `prefix_of` nt_name n).

Lemma one_note_spec mem p n opts :
  note_in mem p n →
  one_note mem p opts = if is_spu n then spu_note mem p opts else Ok (inr tt, []).
Proof.
  intros Hn. destruct (note_in_header _ _ _ Hn) as (E1 & _ & E3), (note_in_name _ _ _ Hn) as [r Hr].
  unfold one_note, is_spu. rewrite E3. cbn.
  destruct (nt_type n =? 1); cbn; [|done]. rewrite E1. cbn.
  change (length SPU_NOTE_PREFIX) with 4%nat.
  destruct (Z.ltb_spec (Z.of_nat (length (nt_name n)) + 1) (Z.of_nat 4 + 1)) as [Hl|Hl].
  { rewrite bool_decide_eq_false_2; [done|]. intros H%prefix_length. change (length SPU_NOTE_PREFIX) with 4%nat in H. lia. }
  rewrite Hr. destruct (strncmp_prefix (nt_name n) SPU_NOTE_PREFIX r [NUL]) as (z & E & Hz).
  { apply (ni_wf _ _ _ Hn). } { nul_free_lit. }
  change (length SPU_NOTE_PREFIX) with 4%nat in E. rewrite E. cbn.
  destruct (Z.eqb_spec z 0) as [H0|H0]; cbn.
  - by rewrite bool_decide_eq_true_2 by tauto.
  - by rewrite bool_decide_eq_false_2 by tauto.
Qed.

(** ** The loop *)

(** What is returned after the last note. *)
Definition at_end (opts : options) : res (Z * list out) :=
  match opt_action opts with
  | DUMP_NOTE =>
      want ← of_option (dump_note_name opts);
      Ok (-1, [Err (line (lit "note " ++ want ++ lit " not found"))])
  | _ => Ok (0, [])
  end.

Section walk.
Context (wb : Z) (Hwb : 32 ≤ wb).

Lemma notes_loop_end fuel mem notes size opts :
  0 ≤ size < 2 ^ 32 → notes_loop wb fuel mem notes size opts size = at_end opts.
Proof.
  intros H. destruct fuel; cbn; rewrite wrapu_small, Z.ltb_irrefl by lia; done.
Qed.

Lemma notes_loop_step fuel mem notes size opts offset n :
  note_in mem (notes + offset) n → 0 ≤ offset →
  offset + Z.of_nat (length (encode_note n)) ≤ size → size ≤ int_max →
  notes_loop wb (S fuel) mem notes size opts offset =
    ('(r, a) ← one_note mem (notes + offset) opts;
     match r with
     | inl rc => Ok (rc, a)
     | inr tt =>
         '(rc, a') ← notes_loop wb fuel mem notes size opts (offset + Z.of_nat (length (encode_note n)));
         Ok (rc, a ++ a')
     end).
Proof.
  intros Hn H0 Hsz Hmax. destruct (note_in_header _ _ _ Hn) as (E1 & E2 & _), (note_in_pads _ _ _ Hn) as [P1 P2].
  pose proof (length_encode_note n) as Hlen. unfold int_max in Hmax.
  set (a := pad4 (length (nt_name n) + 1)) in *.
  set (b := pad4 (length (nt_desc n))) in *. clearbody a b.
  assert (2 ^ 32 ≤ 2 ^ wb) by (apply Z.pow_le_mono_r; lia).
  cbn [notes_loop]. rewrite (wrapu_small 32), (proj2 (Z.ltb_lt offset size)) by lia.
  rewrite E1, E2. cbn. rewrite P1. cbn. rewrite P2. cbn. unfold NHDR.
  rewrite !(wrapu_small wb) by lia. rewrite !(proj2 (Z.ltb_ge size _)) by lia.
  rewrite wraps_small by (change (32 - 1) with 31; lia).
  by replace (offset + (12 + Z.of_nat a + Z.of_nat b)) with (offset + Z.of_nat (length (encode_note n))) by lia.
Qed.

(** The run of the loop over [ns] when a note [n] may give what [R n] says. *)
Inductive runs (R : note → (Z + unit) * list out → Prop) (fin : Z * list out) :
    list note → Z * list out → Prop :=
| runs_nil : runs R fin [] fin
| runs_stop n ns rc a : R n (inl rc, a) → runs R fin (n :: ns) (rc, a)
| runs_go n ns a rc a' : R n (inr tt, a) → runs R fin ns (rc, a') → runs R fin (n :: ns) (rc, a ++ a').

Lemma notes_loop_runs R fin mem opts notes size ns :
  at_end opts = Ok fin →
  (∀ p n, note_in mem p n → ∃ r, one_note mem p opts = Ok r ∧ R n r) →
  size ≤ int_max →
  ∀ fuel offset,
  note_section mem (notes + offset) ns → 0 ≤ offset →
  offset + Z.of_nat (length (encode_notes ns)) = size → (length ns ≤ fuel)%nat →
  ∃ res, notes_loop wb fuel mem notes size opts offset = Ok res ∧ runs R fin ns res.
Proof.
  intros Hfin HR Hmax. induction ns as [|n ns IH]; intros fuel offset Hs H0 Hsz Hf.
  - cbn in Hsz. rewrite Z.add_0_r in Hsz. subst size. unfold int_max in *.
    rewrite notes_loop_end, Hfin by lia. eauto using runs.
  - destruct fuel as [|fuel]; [cbn in Hf; lia|]. apply note_section_cons in Hs as [Hn Hs].
    rewrite encode_notes_cons, length_app in Hsz.
    rewrite (notes_loop_step _ _ _ _ _ _ n) by (done || lia).
    destruct (HR _ _ Hn) as ([[rc|[]] a] & -> & Hr); cbn; [eauto using runs|].
    destruct (IH fuel (offset + Z.of_nat (length (encode_note n)))) as ([rc a'] & -> & Hruns).
    + by rewrite Z.add_assoc.
    + lia.
    + lia.
    + cbn in Hf. lia.
    + eauto using runs.
Qed.

Lemma parse_notes_runs R fin mem opts notes ns fuel :
  at_end opts = Ok fin →
  (∀ p n, note_in mem p n → ∃ r, one_note mem p opts = Ok r ∧ R n r) →
  note_section mem notes ns → (length ns ≤ fuel)%nat →
  ∃ res, parse_notes wb fuel mem notes (Z.of_nat (length (encode_notes ns))) opts = Ok res
         ∧ runs R fin ns res.
Proof.
  intros Hfin HR Hs Hf. unfold parse_notes.
  eapply notes_loop_runs; try done; [apply Hs|by rewrite Z.add_0_r].
Qed.

(** The result of checking a note. *)
Definition check_rel (P : note → Prop) (n : note) (r : (Z + unit) * list out) : Prop :=
  (r = (inr tt, []) ∧ P n) ∨ (∃ e, r = (inl (-1), [Err e]) ∧ ¬ P n).

(** A walk whose notes are checked: 0 if and only if all are good. *)
Lemma runs_check P ns res :
  runs (check_rel P) (0, []) ns res →
  (res = (0, []) ∧ Forall P ns) ∨ (∃ e, res = (-1, [Err e]) ∧ ¬ Forall P ns).
Proof.
  induction 1 as [|n ns rc a Hr|n ns a rc a' Hr _ IH].
  - left. split; [done|constructor].
  - right. destruct Hr as [[[=] _]|(e & [= -> ->] & Hn)]. exists e. split; [done|]. by intros [? _]%Forall_cons.
  - destruct Hr as [[[= ->] Hn]|(e & [=] & _)]. cbn. rewrite Forall_cons.
    destruct IH as [[-> Hf]|(e & -> & Hf)]; [by left|right]. exists e. split; [done|]. rewrite Forall_cons. tauto.
Qed.

(** A walk that goes on with [f]. *)
Lemma runs_list (f : note → list out) ns res :
  runs (λ n r, r = (inr tt, f n)) (0, []) ns res → res = (0, ns ≫= f).
Proof.
  induction 1 as [|n ns rc a Hr|n ns a rc a' Hr _ IH]; [done|discriminate Hr|].
  injection Hr as [= ->]. by injection IH as [= -> ->].
Qed.

(** A walk that stops at the first note [p] holds of. *)
Lemma runs_find (p : note → bool) (f : note → list out) fin ns res :
  runs (λ n r, r = if p n then (inl 0, f n) else (inr tt, [])) fin ns res →
  res = match List.find p ns with Some n => (0, f n) | None => fin end.
Proof.
  induction 1 as [|n ns rc a Hr|n ns a rc a' Hr _ IH]; cbn; [done| |]; destruct (p n); try done.
  - by injection Hr as [= -> ->].
  - by injection Hr as [= ->].
Qed.
End walk.

(** ** The actions *)

Lemma one_note_check mem p n opts f P :
  note_in mem p n →
  spu_note mem p opts = ('(rc, a) ← f mem p; Ok (if rc =? 0 then inr tt else inl (-1), a)) →
  decides (f mem p) P →
  ∃ r, one_note mem p opts = Ok r ∧
    ((r = (inr tt, []) ∧ (is_spu n = true → P)) ∨ (∃ e, r = (inl (-1), [Err e]) ∧ ¬ (is_spu n = true → P))).
Proof.
  intros Hn E Hd. rewrite (one_note_spec _ _ _ _ Hn).
  destruct (is_spu n); [|eexists; split; [done|left; split; [done|discriminate]]].
  rewrite E. destruct Hd as [[-> HP]|(e & -> & HP)]; cbn; eexists; (split; [done|]).
  - left. by split.
  - right. exists e. split; [done|tauto].
Qed.

Lemma parse_notes_check_lemma (wb : Z) mem notes ns opts fuel :
  32 ≤ wb → note_section mem notes ns → (length ns ≤ fuel)%nat → opt_action opts = CHECK_NOTES →
  let size := Z.of_nat (length (encode_notes ns)) in
  let good n := is_spu n = true → note_ok (nt_name n) (nt_desc n) in
  (parse_notes wb fuel mem notes size opts = Ok (0, []) ∧ Forall good ns) ∨
  (∃ e, parse_notes wb fuel mem notes size opts = Ok (-1, [Err e]) ∧ ¬ Forall good ns).
Proof.
  intros Hwb Hs Hf Ha size good. subst size.
  edestruct (parse_notes_runs wb Hwb (check_rel good) (0, []) mem opts notes ns fuel) as (res & E & Hr); [..|exact Hs|exact Hf|].
  - unfold at_end. by rewrite Ha.
  - intros p n Hn. eapply one_note_check; [exact Hn| |by apply check_note_decides_lemma].
    unfold spu_note. by rewrite Ha.
  - rewrite E. apply runs_check in Hr as [[-> ?]|(e & -> & ?)]; [by left|right; eauto].
Qed.

(** C5 [parse_notes_check]: with --check-notes, on the image of any list of
    notes, [parse_notes] returns 0 and prints nothing when every SPU note (type
    1, a name that starts with "SPU/") has a well-formed name and what the table
    asks for that name, and -1 with one message otherwise; the walk ends. *)
Theorem parse_notes_check (wb : Z) mem notes ns opts fuel :
  32 ≤ wb → note_section mem notes ns → (length ns ≤ fuel)%nat → opt_action opts = CHECK_NOTES →
  let size := Z.of_nat (length (encode_notes ns)) in
  let good n := is_spu n = true → note_ok (nt_name n) (nt_desc n) in
  (parse_notes wb fuel mem notes size opts = Ok (0, []) ∧ Forall good ns) ∨
  (∃ e, parse_notes wb fuel mem notes size opts = Ok (-1, [Err e]) ∧ ¬ Forall good ns).
Proof. exact (parse_notes_check_lemma wb mem notes ns opts fuel). Qed.

(** [parse_notes_check_fd]: with --check-fd [fd], the walk returns 0 when the
    second component of the name of every SPU note is [fd], and -1 with one
    message otherwise. *)
Theorem parse_notes_check_fd (wb : Z) mem notes ns opts fuel fd :
  32 ≤ wb → note_section mem notes ns → (length ns ≤ fuel)%nat →
  opt_action opts = CHECK_FD → opt_fd opts = Some fd → nul_free fd →
  let size := Z.of_nat (length (encode_notes ns)) in
  let good n := is_spu n = true → fd_ok (nt_name n) fd in
  (parse_notes wb fuel mem notes size opts = Ok (0, []) ∧ Forall good ns) ∨
  (∃ e, parse_notes wb fuel mem notes size opts = Ok (-1, [Err e]) ∧ ¬ Forall good ns).
Proof.
  intros Hwb Hs Hf Ha Hfd Hnul size good. subst size.
  edestruct (parse_notes_runs wb Hwb (check_rel good) (0, []) mem opts notes ns fuel) as (res & E & Hr); [..|exact Hs|exact Hf|].
  - unfold at_end. by rewrite Ha.
  - intros p n Hn. eapply (one_note_check _ _ _ _ (λ m p, check_fd m p (Some fd)));
      [exact Hn| |by apply check_fd_decides_lemma]. unfold spu_note. by rewrite Ha, Hfd.
  - rewrite E. apply runs_check in Hr as [[-> ?]|(e & -> & ?)]; [by left|right; eauto].
Qed.

(** What --list-notes prints of a note. *)
Definition list_line (n : note) : list out :=
  if is_spu n then
    [Out (line (lit "0x" ++ fmt_hex 8 (Z.of_nat (length (nt_desc n))) ++ lit " " ++ drop 4 (nt_name n)))]
  else [].

Lemma is_spu_length n : is_spu n = true → (4 ≤ length (nt_name n))%nat.
Proof.
  unfold is_spu. rewrite andb_true_iff, bool_decide_eq_true. intros [_ H%prefix_length]. exact H.
Qed.

Lemma parse_notes_list_lemma (wb : Z) mem notes ns opts fuel :
  32 ≤ wb → note_section mem notes ns → (length ns ≤ fuel)%nat → opt_action opts = LIST_NOTES →
  parse_notes wb fuel mem notes (Z.of_nat (length (encode_notes ns))) opts = Ok (0, ns ≫= list_line).
Proof.
  intros Hwb Hs Hf Ha.
  edestruct (parse_notes_runs wb Hwb (λ n r, r = (inr tt, list_line n)) (0, []) mem opts notes ns fuel) as (res & E & Hr);
    [..|exact Hs|exact Hf|by rewrite E; apply runs_list in Hr as ->].
  - unfold at_end. by rewrite Ha.
  - intros p n Hn. rewrite (one_note_spec _ _ _ _ Hn). unfold list_line, spu_note. rewrite Ha.
    destruct (is_spu n) eqn:Hi; [|eauto].
    destruct (note_in_header _ _ _ Hn) as (_ & -> & _).
    destruct (note_in_file_name _ _ _ Hn 4) as [r E4]; [by apply is_spu_length|].
    change (Z.of_nat 4) with 4 in E4. cbn -[drop fmt_hex]. rewrite E4, cstr_app; [eauto|].
    pose proof (proj1 (ni_wf _ _ _ Hn)) as Hnul.
    rewrite <- (take_drop 4 (nt_name n)), nul_free_app in Hnul. tauto.
Qed.

(** [parse_notes_list]: --list-notes prints one line for each SPU note, in
    the order of the file: the size in hexadecimal and the name after "SPU/". *)
Theorem parse_notes_list (wb : Z) mem notes ns opts fuel :
  32 ≤ wb → note_section mem notes ns → (length ns ≤ fuel)%nat → opt_action opts = LIST_NOTES →
  parse_notes wb fuel mem notes (Z.of_nat (length (encode_notes ns))) opts = Ok (0, ns ≫= list_line).
Proof. exact (parse_notes_list_lemma wb mem notes ns opts fuel). Qed.

(** The name, whole or after "SPU/", is the one asked for. *)
Definition is_wanted (want : bytes) (n : note) : bool :=
  is_spu n && (bool_decide (nt_name n = want) || bool_decide (drop 4 (nt_name n) = want)).

Lemma spu_note_dump mem p n opts want :
  note_in mem p n → is_spu n = true → nul_free want →
  opt_action opts = DUMP_NOTE → dump_note_name opts = Some want →
  spu_note mem p opts =
    Ok (if is_wanted want n then (inl 0, [Out (nt_desc n)]) else (inr tt, [])).
Proof.
  intros Hn Hi Hnul Ha Hw. unfold is_wanted, spu_note. rewrite Ha, Hw, Hi. cbn -[drop].
  pose proof (proj1 (ni_wf _ _ _ Hn)) as Hf'. pose proof Hf' as Hf4.
  rewrite <- (take_drop 4 (nt_name n)), nul_free_app in Hf4. destruct Hf4 as [_ Hf4].
  destruct (note_in_name _ _ _ Hn) as [r E], (note_in_file_name _ _ _ Hn 4) as [r4 E4]; [by apply is_spu_length|].
  change (Z.of_nat 4) with 4 in E4. rewrite E, E4, !strcmp_str_cmp by done. cbn -[drop].
  pose proof (str_cmp_eq _ _ Hf' Hnul) as H1. pose proof (str_cmp_eq _ _ Hf4 Hnul) as H2.
  destruct (note_in_header _ _ _ Hn) as (_ & Hd & _), (note_in_desc _ _ _ Hn) as (q & rd & Hq & _ & Ed).
  rewrite Hq, Hd. cbn -[drop]. rewrite Nat2Z.id, Ed, take_app_length.
  destruct (Z.eqb_spec (str_cmp (nt_name n) want) 0) as [Z1|Z1]; cbn -[drop].
  { by rewrite (bool_decide_eq_true_2 (_ = want)) by tauto. }
  rewrite (bool_decide_eq_false_2 (nt_name n = want)) by tauto. cbn -[drop].
  destruct (Z.eqb_spec (str_cmp (drop 4 (nt_name n)) want) 0) as [Z2|Z2].
  - by rewrite bool_decide_eq_true_2 by tauto.
  - by rewrite bool_decide_eq_false_2 by tauto.
Qed.

Lemma parse_notes_dump_lemma (wb : Z) mem notes ns opts fuel want :
  32 ≤ wb → note_section mem notes ns → (length ns ≤ fuel)%nat →
  opt_action opts = DUMP_NOTE → dump_note_name opts = Some want → nul_free want →
  parse_notes wb fuel mem notes (Z.of_nat (length (encode_notes ns))) opts =
    Ok (match List.find (is_wanted want) ns with
        | Some n => (0, [Out (nt_desc n)])
        | None => (-1, [Err (line (lit "note " ++ want ++ lit " not found"))])
        end).
Proof.
  intros Hwb Hs Hf Ha Hw Hnul.
  edestruct (parse_notes_runs wb Hwb
    (λ n r, r = if is_wanted want n then (inl 0, [Out (nt_desc n)]) else (inr tt, []))
    (-1, [Err (line (lit "note " ++ want ++ lit " not found"))]) mem opts notes ns fuel) as (res & E & Hr);
    [..|exact Hs|exact Hf|by rewrite E; apply runs_find in Hr as ->].
  - unfold at_end. rewrite Ha, Hw. done.
  - intros p n Hn. rewrite (one_note_spec _ _ _ _ Hn). unfold is_wanted.
    destruct (is_spu n) eqn:Hi; eexists; (split; [|done]).
    + rewrite (spu_note_dump _ _ n _ want) by done. unfold is_wanted. by rewrite Hi.
    + done.
Qed.

(** [parse_notes_dump]: --print-note [want] writes the descriptor of the first
    SPU note of that name, exactly its bytes, and returns 0; without one it
    returns -1 and says so. *)
Theorem parse_notes_dump (wb : Z) mem notes ns opts fuel want :
  32 ≤ wb → note_section mem notes ns → (length ns ≤ fuel)%nat →
  opt_action opts = DUMP_NOTE → dump_note_name opts = Some want → nul_free want →
  parse_notes wb fuel mem notes (Z.of_nat (length (encode_notes ns))) opts =
    Ok (match List.find (is_wanted want) ns with
        | Some n => (0, [Out (nt_desc n)])
        | None => (-1, [Err (line (lit "note " ++ want ++ lit " not found"))])
        end).
Proof. exact (parse_notes_dump_lemma wb mem notes ns opts fuel want). Qed.

(** --find-exec looks at no note. *)
Lemma parse_notes_skip (wb : Z) mem notes ns opts fuel :
  32 ≤ wb → note_section mem notes ns → (length ns ≤ fuel)%nat → opt_action opts = FIND_EXEC →
  parse_notes wb fuel mem notes (Z.of_nat (length (encode_notes ns))) opts = Ok (0, []).
Proof.
  intros Hwb Hs Hf Ha.
  edestruct (parse_notes_runs wb Hwb (λ n r, r = (inr tt, [])) (0, []) mem opts notes ns fuel)
    as (res & E & Hr); [..|exact Hs|exact Hf|].
  - unfold at_end. by rewrite Ha.
  - intros p n Hn. rewrite (one_note_spec _ _ _ _ Hn). unfold spu_note. rewrite Ha. destruct (is_spu n); eauto.
  - rewrite E. apply (runs_list (λ _, [])) in Hr as ->. do 2 f_equal. clear. by induction ns.
Qed.

(** ** Any section: when the walk ends *)

(** The operations without a loop bound never run out of it. *)
Definition halts {A} (m : res A) : Prop := m ≠ OutOfFuel.

Create HintDb halts discriminated.

Lemma halts_bind {A B} (m : res A) (f : A → res B) : halts m → (∀ a, halts (f a)) → halts (m ≫= f).
Proof. unfold halts. destruct m; cbn; [|done..]. intros _ H. apply H. Qed.

Lemma halts_fmap {A B} (m : res A) (f : A → B) : halts m → halts (f <$> m).
Proof. unfold halts. by destruct m. Qed.

Lemma halts_ok {A} (a : A) : halts (Ok a).
Proof. done. Qed.

Lemma halts_of_option {A} (o : option A) : halts (of_option o).
Proof. by destruct o. Qed.

#[export] Hint Resolve halts_ok halts_of_option halts_fmap : halts.

(** Follow the structure of an operation. *)
Ltac halts :=
  repeat first
    [ progress intros
    | apply halts_bind
    | match goal with |- halts (match ?x with _ => _ end) => destruct x eqn:? end
    | solve [eauto with halts]
    | done ].

Lemma halts_be_read n acc m : halts (be_read n acc m).
Proof. revert acc m. induction n as [|n IH]; intros acc [|c m]; cbn; halts. Qed.
Lemma halts_cstr m : halts (cstr m).
Proof. induction m as [|c m IH]; cbn; halts. Qed.
Lemma halts_strcmp s t : halts (strcmp s t).
Proof. revert t. induction s as [|c s IH]; intros [|d t]; cbn; halts. Qed.
Lemma halts_strncmp s t n : halts (strncmp s t n).
Proof. revert s t. induction n as [|n IH]; intros [|c s] [|d t]; cbn; halts. Qed.
Lemma halts_strchr m c : halts (strchr m c).
Proof. induction m as [|d m IH]; cbn; halts. Qed.
Lemma halts_strrchr m c : halts (strrchr m c).
Proof. induction m as [|d m IH]; cbn; halts. Qed.
Lemma halts_hex_scan n m : halts (hex_scan n m).
Proof. revert m. induction n as [|n IH]; intros [|c m]; cbn; halts. Qed.

#[export] Hint Resolve halts_be_read halts_cstr halts_strcmp halts_strncmp halts_strchr
  halts_strrchr halts_hex_scan : halts.

Lemma halts_u32 mem p : halts (u32 mem p).
Proof. apply halts_be_read. Qed.
Lemma halts_pad x : halts (pad x).
Proof. unfold pad; halts. Qed.
Lemma halts_err_name mem p pre post : halts (err_name mem p pre post).
Proof. unfold err_name; halts. Qed.
#[export] Hint Resolve halts_u32 halts_pad halts_err_name : halts.

Lemma halts_note_desc mem p : halts (note_desc mem p).
Proof. unfold note_desc, n_namesz; halts. Qed.
Lemma halts_check_hex_note mem p : halts (check_hex_note mem p).
Proof.
  unfold check_hex_note, n_descsz, byte_at. pose proof halts_note_desc. halts.
Qed.
#[export] Hint Resolve halts_note_desc halts_check_hex_note : halts.

Lemma halts_check_table mem p f tbl : halts (check_table mem p f tbl).
Proof. induction tbl as [|k tbl IH]; cbn -[fmt_d]; unfold n_descsz; halts. Qed.
#[export] Hint Resolve halts_check_table : halts.

Lemma halts_one_note mem p opts : halts (one_note mem p opts).
Proof.
  unfold one_note, spu_note, check_note, check_fd, n_type, n_namesz, n_descsz. halts.
Qed.

(** The headers that the walk comes to: the first, and the one after each note
    that ends before the section does, name and descriptor padded to four bytes. *)
Inductive header (mem : bytes) (notes size : Z) : Z → Prop :=
| header_first : 0 < size → header mem notes size 0
| header_next o n d :
    header mem notes size o → n_namesz mem (notes + o) = Ok n → n_descsz mem (notes + o) = Ok d →
    o + 12 + 4 * ((n + 3) / 4) + 4 * ((d + 3) / 4) < size →
    header mem notes size (o + 12 + 4 * ((n + 3) / 4) + 4 * ((d + 3) / 4)).

(** No size word of those headers has its top bit set: as an [int] it is not
    negative. *)
Definition sane_sizes (mem : bytes) (notes size : Z) : Prop :=
  ∀ o n, header mem notes size o →
    n_namesz mem (notes + o) = Ok n ∨ n_descsz mem (notes + o) = Ok n → n < 2 ^ 31.

Lemma pad_bounds x y : 0 ≤ x < 2 ^ 31 → pad x = Ok y → y = 4 * ((x + 3) / 4) ∧ x ≤ y ≤ int_max - 3.
Proof.
  intros Hx. destruct (Z.le_gt_cases x (int_max - 3)) as [Hle|Hgt].
  - rewrite pad_spec by lia. intros [= <-]. split; [done|]. unfold int_max in *.
    pose proof (Z.div_mod (x + 3) 4 ltac:(lia)). pose proof (Z.mod_pos_bound (x + 3) 4 ltac:(lia)). lia.
  - unfold pad. rewrite wraps_small by (change (32 - 1) with 31; lia).
    by rewrite (proj2 (Z.ltb_lt int_max (x + 3))) by lia.
Qed.

Lemma be_read_nonneg n acc m v : 0 ≤ acc → be_read n acc m = Ok v → 0 ≤ v.
Proof.
  revert acc m. induction n as [|n IH]; intros acc [|c m] Ha; cbn; try done; [by intros [= <-]..|].
  apply IH. pose proof (code_range c). lia.
Qed.

Lemma halts_bind_eq {A B} (m : res A) (f : A → res B) :
  halts m → (∀ a, m = Ok a → halts (f a)) → halts (m ≫= f).
Proof. unfold halts. destruct m; cbn; [|done..]. intros _ H. by apply H. Qed.

(** The loop gains a header each turn. *)
Lemma notes_loop_halts wb mem notes size opts fuel offset :
  34 ≤ wb → sane_sizes mem notes size → size ≤ int_max → 0 ≤ offset ≤ size →
  (offset < size → header mem notes size offset) →
  size - offset < 12 * Z.of_nat fuel → halts (notes_loop wb fuel mem notes size opts offset).
Proof.
  intros Hwb Hs Hmax. revert offset. assert (2 ^ 34 ≤ 2 ^ wb) by (apply Z.pow_le_mono_r; lia).
  unfold int_max in *. induction fuel as [|fuel IH]; intros offset H0 Hh Hf; [lia|].
  cbn [notes_loop]. rewrite wrapu_small by lia.
  destruct (Z.ltb_spec offset size) as [Hlt|Hge]; cbn; [|halts].
  apply halts_bind_eq; [apply halts_u32|]. intros n1 E1.
  apply halts_bind_eq; [apply halts_pad|]. intros y1 P1.
  apply halts_bind_eq; [apply halts_u32|]. intros n2 E2.
  apply halts_bind_eq; [apply halts_pad|]. intros y2 P2.
  specialize (Hh Hlt).
  apply pad_bounds in P1 as [R1 P1]; [|split; [by eapply be_read_nonneg in E1|apply (Hs offset); auto]].
  apply pad_bounds in P2 as [R2 P2]; [|split; [by eapply be_read_nonneg in E2|apply (Hs offset); auto]].
  assert (0 ≤ n1 ∧ 0 ≤ n2) as [? ?] by (split; [by eapply be_read_nonneg in E1|by eapply be_read_nonneg in E2]).
  unfold int_max, NHDR in *. rewrite !(wrapu_small wb) by lia.
  destruct (Z.ltb_spec size (offset + 12 + y1)); [halts|].
  destruct (Z.ltb_spec size (offset + 12 + y1 + y2)); [halts|].
  apply halts_bind; [apply halts_one_note|]. intros [[rc|[]] a]; [halts|].
  apply halts_bind; [|halts]. rewrite wraps_small by (change (32 - 1) with 31; lia).
  replace (offset + (12 + y1 + y2)) with (offset + 12 + y1 + y2) by lia.
  apply IH; [lia| |lia]. intros Hin. rewrite R1, R2 in *. by eapply header_next.
Qed.

(** C37 [parse_notes_terminates]: when none of the headers that the walk comes to
    has a size word with its top bit set, and the section is no longer than an
    [int] can count, [parse_notes] returns (or a read leaves the mapping, [UB])
    within one turn for each twelve bytes.  [size_t] has 64 bits: with 32 the sum
    of the second check can wrap. *)
Theorem parse_notes_terminates (wb : Z) mem notes size opts fuel :
  wb = 64 → sane_sizes mem notes size → 0 ≤ size ≤ int_max →
  size < 12 * Z.of_nat fuel → parse_notes wb fuel mem notes size opts ≠ OutOfFuel.
Proof. intros -> Hs Hsz Hf. apply notes_loop_halts; try (done || lia). intros H. by apply header_first. Qed.

(** [parse_notes_diverges]: a header whose name size is 0xfffffff4 (-12 as an
    [int]), with no descriptor and a type the program ignores, passes both
    checks and moves the offset by 0: the walk stays on it for ever, whatever
    the bound, on a 32 and on a 64 bit host. *)
Theorem parse_notes_diverges (wb : Z) mem notes size opts ty r :
  32 ≤ wb → 0 ≤ notes → 0 < size → 0 ≤ ty < 2 ^ 32 → ty ≠ 1 →
  at_ptr mem notes = be_bytes 4 0xfffffff4 ++ be_bytes 4 0 ++ be_bytes 4 ty ++ r →
  ∀ fuel, parse_notes wb fuel mem notes size opts = OutOfFuel.
Proof.
  intros Hwb Hn Hsz Hty Hty1 E fuel. unfold parse_notes.
  assert (2 ^ 32 ≤ 2 ^ wb) by (apply Z.pow_le_mono_r; lia).
  induction fuel as [|fuel IH]; cbn [notes_loop]; rewrite wrapu_small, (proj2 (Z.ltb_lt 0 size)) by lia; [done|].
  cbn [negb]. rewrite Z.add_0_r.
  assert (n_namesz mem notes = Ok 0xfffffff4) as -> by (eapply u32_at; [exact E|lia]).
  assert (n_descsz mem notes = Ok 0) as ->.
  { eapply u32_at; [|lia]. eapply at_ptr_app; [done|exact E|by rewrite length_be_bytes]. }
  assert (n_type mem notes = Ok ty) as Et.
  { rewrite app_assoc in E. eapply u32_at; [|exact Hty].
    eapply at_ptr_app; [done|exact E|by rewrite length_app, !length_be_bytes]. }
  assert (pad 0xfffffff4 = Ok (-12)) as P1 by done. assert (pad 0 = Ok 0) as P2 by done.
  unfold NHDR. cbn -[one_note notes_loop]. rewrite P1, P2. cbn -[one_note notes_loop].
  rewrite !wrapu_small, !(proj2 (Z.ltb_ge size _)) by lia.
  unfold one_note. rewrite Et. cbn -[notes_loop]. rewrite (proj2 (Z.eqb_neq ty 1)) by done. cbn -[notes_loop].
  change (wraps 32 _) with 0. by rewrite IH.
Qed.
