(* ===== verification/ElfProps.v ===== *)
(** * Core files (parse-core.c, [parse_elf] and what it calls)

    A core file as a list of segments; on it the walk over the program headers
    is a fold over the segments, for both ELF classes, and each action of the
    program is what the fold computes. *)

From S2P Require Import Prelude CString ParseCore ParseElf NoteSpec NotesProps.

Local Open Scope Z_scope.

#[local] Arguments wrapu : simpl never.
#[local] Arguments wraps : simpl never.
#[local] Arguments lit : simpl never.
#[local] Arguments u16 : simpl never.
#[local] Arguments u32 : simpl never.
#[local] Arguments fmt_hex : simpl never.
#[local] Arguments fmt_d : simpl never.
#[local] Arguments parse_notes : simpl never.

(** ** The image of a core file *)

(** A program header, with the notes of the segment when it is a PT_NOTE. *)
Record segment := Segment { p_type : Z; p_offset : Z; p_filesz : Z; seg_notes : list note }.

Definition elf_class_of (k : elf_class) : Prop := k = elf32 ∨ k = elf64.

(** EI_CLASS of the class. *)
Definition ei_class (k : elf_class) : Z := if ec_bits k =? 32 then 1 else 2.

(** The header at [p] is that of [s], and [s] is inside the file; nothing
    wraps. *)
Record segment_in (k : elf_class) (file : bytes) (size p : Z) (s : segment) : Prop := {
  si_type : u32 file p = Ok (p_type s);
  si_offset : ec_word k file (p + o_p_offset k) = Ok (p_offset s);
  si_filesz : ec_word k file (p + o_p_filesz k) = Ok (p_filesz s);
  si_pos : 0 ≤ p_offset s ∧ 0 ≤ p_filesz s;
  si_end : p_offset s + p_filesz s ≤ size;
  si_notes : p_type s = PT_NOTE →
    note_section file (p_offset s) (seg_notes s) ∧
    p_filesz s = Z.of_nat (length (encode_notes (seg_notes s)));
}.

(** A big-endian PowerPC core file of class [k] with the segments [ss], whose
    header table is at [phoff]. *)
Record core_file (k : elf_class) (file : bytes) (size phoff : Z) (ss : list segment) : Prop := {
  cf_class : elf_class_of k;
  cf_size : 0 ≤ size ≤ int_max;
  cf_magic : ∃ r, file = ELFMAG ++ r;
  cf_ei_class : byte_at file 4 = Ok (byte_of (ei_class k));
  cf_ei_data : byte_at file 5 = Ok "002"%char;
  cf_ei_version : byte_at file 6 = Ok "001"%char;
  cf_machine : u16 file o_machine = Ok (ec_machine k);
  cf_phoff : ec_word k file (o_phoff k) = Ok phoff ∧ 0 ≤ phoff < size;
  cf_phentsize : u16 file (o_phentsize k) = Ok (sizeof_phdr k);
  cf_phnum : u16 file (o_phnum k) = Ok (Z.of_nat (length ss));
  cf_table : phoff + sizeof_phdr k * Z.of_nat (length ss) ≤ size;
  cf_segments : ∀ i s, ss !! i = Some s → segment_in k file size (phoff + Z.of_nat i * sizeof_phdr k) s;
}.

(** ** One header *)

Section header.
Context (wb : Z) (fuel : nat) (k : elf_class) (file : bytes) (size : Z) (opts : options).
Context (i p off filesz ty : Z).
Context (Hoff : ec_word k file (p + o_p_offset k) = Ok off)
        (Hfilesz : ec_word k file (p + o_p_filesz k) = Ok filesz)
        (Hty : u32 file p = Ok ty).

Lemma parse_phdr_eq :
  parse_phdr wb fuel k file size opts i p =
    (let msg verb := lit "Program header entry " ++ fmt_d i ++ lit " " ++ verb ++ lit " at 0x"
                     ++ fmt_hex 16 off ++ lit ", which is past end-of-file" in
     if size <? off then err (msg (lit "starts"))
     else if size <? wrapu (ec_bits k) (off + filesz) then err (msg (lit "ends"))
     else parse_section wb fuel file off (wraps 32 filesz) ty opts).
Proof. unfold parse_phdr. rewrite Hoff. cbn. by rewrite Hfilesz, Hty. Qed.
End header.

(** C38 [parse_phdr_in_file]: when offset plus size does not wrap, the two checks
    of a program header let a segment through exactly when it ends inside the
    file; the others are errors. *)
Theorem parse_phdr_in_file (wb : Z) fuel k file size opts i p off filesz ty :
  ec_word k file (p + o_p_offset k) = Ok off → ec_word k file (p + o_p_filesz k) = Ok filesz →
  u32 file p = Ok ty → 0 ≤ off → 0 ≤ filesz → off + filesz < 2 ^ ec_bits k →
  (off + filesz ≤ size →
   parse_phdr wb fuel k file size opts i p = parse_section wb fuel file off (wraps 32 filesz) ty opts) ∧
  (size < off + filesz → ∃ e, parse_phdr wb fuel k file size opts i p = Ok (-1, [Err e])).
Proof.
  intros H1 H2 H3 Ho Hf Hw. rewrite (parse_phdr_eq _ _ _ _ _ _ _ _ _ _ _ H1 H2 H3). cbv zeta.
  rewrite wrapu_small by lia. unfold err.
  destruct (Z.ltb_spec size off), (Z.ltb_spec size (off + filesz)); split; intros; (eauto || lia).
Qed.

(** [parse_phdr_wraps]: the sum is of the type of the fields (32 bits in a 32
    bit file): a segment whose end wraps past the type's limit to a value inside
    the file is let through although it ends past the file. *)
Theorem parse_phdr_wraps (wb : Z) fuel k file size opts i p off filesz ty :
  ec_word k file (p + o_p_offset k) = Ok off → ec_word k file (p + o_p_filesz k) = Ok filesz →
  u32 file p = Ok ty → 0 ≤ off ≤ size → size < 2 ^ ec_bits k →
  2 ^ ec_bits k ≤ off + filesz ≤ 2 ^ ec_bits k + size →
  size < off + filesz ∧
  parse_phdr wb fuel k file size opts i p = parse_section wb fuel file off (wraps 32 filesz) ty opts.
Proof.
  intros H1 H2 H3 Ho Hs Hw. split; [lia|].
  rewrite (parse_phdr_eq _ _ _ _ _ _ _ _ _ _ _ H1 H2 H3). cbv zeta.
  rewrite (proj2 (Z.ltb_ge size off)) by lia.
  assert (wrapu (ec_bits k) (off + filesz) = off + filesz - 2 ^ ec_bits k) as ->.
  { unfold wrapu. symmetry. apply (Z.mod_unique _ _ 1); lia. }
  by rewrite (proj2 (Z.ltb_ge size _)) by lia.
Qed.

(** ** The walk *)

(** The result of the walk when [sec] is the result of each section. *)
Fixpoint run_segments (sec : segment → Z * list out) (ss : list segment) : Z * list out :=
  match ss with
  | [] => (0, [])
  | s :: ss =>
      let '(rc, a) := sec s in
      if rc <? 0 then (-1, a)
      else if rc =? 0 then (0, a)
      else let '(rc, a') := run_segments sec ss in (rc, a ++ a')
  end.

Section walk.
Context (wb : Z) (fuel : nat) (k : elf_class) (file : bytes) (size : Z) (opts : options).
Context (sec : segment → Z * list out).

Definition section_gives (s : segment) : Prop :=
  parse_section wb fuel file (p_offset s) (p_filesz s) (p_type s) opts = Ok (sec s).

Lemma phdrs_loop_walk phoff ss i :
  elf_class_of k → 0 ≤ size ≤ int_max →
  (∀ j s, ss !! j = Some s →
     segment_in k file size (phoff + (i + Z.of_nat j) * sizeof_phdr k) s ∧ section_gives s) →
  phdrs_loop wb fuel k file size opts phoff (length ss) i = Ok (run_segments sec ss).
Proof.
  intros Hk Hsz. revert i. induction ss as [|s ss IH]; intros i Hs; cbn; [done|].
  destruct (Hs 0%nat s eq_refl) as [[H1 H2 H3 H4 H5 _] Hg]. rewrite Z.add_0_r in *.
  assert (2 ^ 32 ≤ 2 ^ ec_bits k) by (destruct Hk as [-> | ->]; by vm_compute).
  unfold int_max in *.
  rewrite (parse_phdr_eq _ _ _ _ _ _ _ _ _ _ _ H2 H3 H1). cbv zeta.
  rewrite wrapu_small, !(proj2 (Z.ltb_ge size _)), wraps_small by (change (32 - 1) with 31 in *; lia).
  rewrite Hg. destruct (sec s) as [rc a]. cbn.
  destruct (rc <? 0); [done|]. destruct (rc =? 0); [done|].
  rewrite IH; [cbn; by destruct (run_segments sec ss)|].
  intros j s' Hj. specialize (Hs (S j) s' Hj).
  by replace (i + Z.of_nat (S j)) with (i + 1 + Z.of_nat j) in Hs by lia.
Qed.

Lemma parse_elf_walk phoff ss :
  core_file k file size phoff ss → Forall section_gives ss →
  parse_elf wb fuel file size opts = Ok (run_segments sec ss).
Proof.
  intros [Hk Hsz [r Hm] H4 H5 H6 Hmach [Hpo Hpr] Hpe Hpn Ht Hseg] Hg.
  assert (parse_elf_class wb fuel k file size opts = Ok (run_segments sec ss)) as Hc.
  { unfold parse_elf_class. rewrite Hmach. cbn. rewrite Z.eqb_refl. cbn. rewrite Hpo. cbn.
    rewrite (proj2 (Z.ltb_lt phoff size)) by lia. cbn. rewrite Hpe. cbn. rewrite Z.eqb_refl. cbn.
    rewrite Hpn. cbn.
    assert (2 ^ 32 ≤ 2 ^ ec_bits k) by (destruct Hk as [-> | ->]; by vm_compute).
    assert (0 ≤ sizeof_phdr k) by (destruct Hk as [-> | ->]; by vm_compute). unfold int_max in *.
    rewrite wrapu_small, (proj2 (Z.ltb_ge size _)), Nat2Z.id by lia.
    apply phdrs_loop_walk; [done|unfold int_max; lia|].
    intros j s Hj. rewrite Z.add_0_l. split; [by apply Hseg|].
    by eapply Forall_lookup_1 in Hg. }
  assert (mem_is file ELFMAG = Ok true) as Hmag.
  { unfold mem_is. rewrite Hm, decide_True by len. by rewrite take_app_length, bool_decide_eq_true_2. }
  unfold parse_elf. rewrite Hmag. cbn -[byte_at parse_elf_32 parse_elf_64].
  rewrite H5. cbn -[byte_at parse_elf_32 parse_elf_64]. rewrite H6. cbn -[byte_at parse_elf_32 parse_elf_64].
  rewrite H4. destruct Hk as [-> | ->]; exact Hc.
Qed.
End walk.

(** ** The actions on a core file *)

(** Turns enough for the notes of every segment. *)
Definition enough (fuel : nat) (ss : list segment) : Prop :=
  Forall (λ s, length (seg_notes s) ≤ fuel)%nat ss.

(** The notes of the PT_NOTE segments. *)
Definition core_notes (ss : list segment) : list note :=
  ss ≫= λ s, if p_type s =? PT_NOTE then seg_notes s else [].

Section actions.
Context (wb : Z) (Hwb : 32 ≤ wb) (fuel : nat) (k : elf_class) (file : bytes) (size phoff : Z).
Context (ss : list segment) (Hcore : core_file k file size phoff ss) (Hfuel : enough fuel ss).

(** What a segment of the file is. *)
Lemma core_segment s : s ∈ ss →
  p_type s = PT_NOTE →
  note_section file (p_offset s) (seg_notes s) ∧
  wrapu 32 (p_filesz s) = Z.of_nat (length (encode_notes (seg_notes s))) ∧
  (length (seg_notes s) ≤ fuel)%nat.
Proof.
  intros Hs Hty. pose proof (list_elem_of_lookup_1 _ _ Hs) as [i Hi].
  destruct (cf_segments _ _ _ _ _ Hcore i s Hi) as [_ _ _ Hp He Hn].
  destruct (Hn Hty) as [? E]. pose proof (cf_size _ _ _ _ _ Hcore). unfold int_max in *.
  split_and!; [done| |].
  - rewrite <- E. apply wrapu_small. lia.
  - unfold enough in Hfuel. rewrite Forall_forall in Hfuel. by apply Hfuel.
Qed.

(** A segment that is not looked at. *)
Lemma parse_section_other s opts :
  p_type s ≠ PT_NOTE → (p_type s = PT_LOAD → opt_action opts ≠ FIND_EXEC) →
  parse_section wb fuel file (p_offset s) (p_filesz s) (p_type s) opts = Ok (1, []).
Proof.
  intros Hn Hl. unfold parse_section. rewrite (proj2 (Z.eqb_neq _ PT_NOTE)) by done.
  destruct (Z.eqb_spec (p_type s) PT_LOAD); cbn; [|done]. by rewrite bool_decide_eq_false_2 by auto.
Qed.

(** A note segment. *)
Lemma parse_section_note s opts rc a :
  p_type s = PT_NOTE → s ∈ ss →
  parse_notes wb fuel file (p_offset s) (Z.of_nat (length (encode_notes (seg_notes s)))) opts = Ok (rc, a) →
  parse_section wb fuel file (p_offset s) (p_filesz s) (p_type s) opts = Ok (if rc =? 0 then 1 else -1, a).
Proof.
  intros Hty Hs E. destruct (core_segment s Hs Hty) as (_ & Hsz & _).
  unfold parse_section. rewrite Hty. cbn. by rewrite Hsz, E.
Qed.

(** The walk over the whole file from the result of its segments. *)
Lemma parse_elf_segments opts (R : segment → Z * list out → Prop) :
  (∀ s, s ∈ ss → ∃ r,
     parse_section wb fuel file (p_offset s) (p_filesz s) (p_type s) opts = Ok r ∧ R s r) →
  ∃ sec, parse_elf wb fuel file size opts = Ok (run_segments sec ss) ∧ ∀ s, s ∈ ss → R s (sec s).
Proof.
  intros HR.
  set (sec s := match parse_section wb fuel file (p_offset s) (p_filesz s) (p_type s) opts with
                | Ok r => r | _ => (0, []) end).
  exists sec. split; [|intros s Hs; destruct (HR s Hs) as (r & E & Hr); subst sec; cbn; by rewrite E].
  eapply parse_elf_walk; [exact Hcore|]. apply Forall_forall. intros s Hs.
  destruct (HR s Hs) as (r & E & _). unfold section_gives. subst sec. cbn. by rewrite E.
Qed.
End actions.

Lemma run_segments_check (P : segment → Prop) sec ss :
  (∀ s, s ∈ ss → (sec s = (1, []) ∧ P s) ∨ (∃ e, sec s = (-1, [Err e]) ∧ ¬ P s)) →
  (run_segments sec ss = (0, []) ∧ Forall P ss) ∨
  (∃ e, run_segments sec ss = (-1, [Err e]) ∧ ¬ Forall P ss).
Proof.
  induction ss as [|s ss IH]; intros H; cbn; [left; by split|].
  destruct (H s ltac:(by left)) as [[-> HP]|(e & -> & HP)]; cbn.
  - destruct IH as [[-> Hf]|(e & -> & Hf)]; [intros; apply H; by right|left; by split; [|constructor]|].
    right. exists e. split; [done|]. rewrite Forall_cons. tauto.
  - right. exists e. split; [done|]. rewrite Forall_cons. tauto.
Qed.

Lemma run_segments_go (f : segment → list out) sec ss :
  (∀ s, s ∈ ss → sec s = (1, f s)) → run_segments sec ss = (0, ss ≫= f).
Proof.
  induction ss as [|s ss IH]; intros H; cbn; [done|].
  rewrite (H s ltac:(by left)). cbn. rewrite IH; [done|]. intros; apply H; by right.
Qed.

Lemma Forall_core_notes (P : note → Prop) ss :
  Forall P (core_notes ss) ↔ Forall (λ s, p_type s = PT_NOTE → Forall P (seg_notes s)) ss.
Proof.
  induction ss as [|s ss IH]; [done|]. cbn. rewrite Forall_app, Forall_cons.
  unfold core_notes in IH. rewrite IH.
  destruct (Z.eqb_spec (p_type s) PT_NOTE); [tauto|]. split; [intuition congruence|intros [_ ?]; by split].
Qed.

(** C6 [parse_elf_check_notes]: parse-core --check-notes on a core file of either
    class exits with 0 and prints nothing when every SPU note of its PT_NOTE
    segments passes the checks, and with an error and one message otherwise. *)
Theorem parse_elf_check_notes (wb : Z) fuel k file size phoff ss opts :
  32 ≤ wb → core_file k file size phoff ss → enough fuel ss → opt_action opts = CHECK_NOTES →
  let good n := is_spu n = true → note_ok (nt_name n) (nt_desc n) in
  (parse_elf wb fuel file size opts = Ok (0, []) ∧ Forall good (core_notes ss)) ∨
  (∃ e, parse_elf wb fuel file size opts = Ok (-1, [Err e]) ∧ ¬ Forall good (core_notes ss)).
Proof.
  intros Hwb Hc Hf Ha good.
  pose (P s := p_type s = PT_NOTE → Forall good (seg_notes s)).
  destruct (parse_elf_segments wb fuel k file size phoff ss Hc opts
    (λ s r, (r = (1, []) ∧ P s) ∨ (∃ e, r = (-1, [Err e]) ∧ ¬ P s))) as (sec & -> & Hsec).
  - intros s Hs. destruct (decide (p_type s = PT_NOTE)) as [Hty|Hty].
    + destruct (core_segment fuel k file size phoff ss Hc Hf s Hs Hty) as (Hns & _ & Hfu).
      destruct (parse_notes_check_lemma wb file _ _ opts fuel Hwb Hns Hfu Ha) as [[E Hg]|(e & E & Hg)].
      * eexists. split; [exact (parse_section_note wb fuel k file size phoff ss Hc Hf s opts _ _ Hty Hs E)|]. left. split; [done|]. by intros _.
      * eexists. split; [exact (parse_section_note wb fuel k file size phoff ss Hc Hf s opts _ _ Hty Hs E)|]. right. exists e. split; [done|].
        intros HP. by apply Hg, HP.
    + eexists. split; [apply parse_section_other; [done|congruence]|]. left. split; [done|]. by intros ?%Hty.
  - destruct (run_segments_check P sec ss Hsec) as [[-> ?]|(e & -> & ?)]; [left|right; exists e];
      (split; [done|by rewrite Forall_core_notes]).
Qed.

(** [parse_elf_list_notes]: --list-notes prints the lines of the notes of all
    PT_NOTE segments, in the order of the file. *)
Theorem parse_elf_list_notes (wb : Z) fuel k file size phoff ss opts :
  32 ≤ wb → core_file k file size phoff ss → enough fuel ss → opt_action opts = LIST_NOTES →
  parse_elf wb fuel file size opts = Ok (0, core_notes ss ≫= list_line).
Proof.
  intros Hwb Hc Hf Ha.
  pose (f s := if p_type s =? PT_NOTE then seg_notes s ≫= list_line else []).
  destruct (parse_elf_segments wb fuel k file size phoff ss Hc opts (λ s r, r = (1, f s))) as (sec & -> & Hsec).
  - intros s Hs. destruct (decide (p_type s = PT_NOTE)) as [Hty|Hty].
    + destruct (core_segment fuel k file size phoff ss Hc Hf s Hs Hty) as (Hns & _ & Hfu).
      pose proof (parse_notes_list_lemma wb file _ _ opts fuel Hwb Hns Hfu Ha) as E.
      eexists. split; [exact (parse_section_note wb fuel k file size phoff ss Hc Hf s opts _ _ Hty Hs E)|]. subst f. cbn. by rewrite Hty.
    + eexists. split; [apply parse_section_other; [done|congruence]|]. subst f. cbn.
      by rewrite (proj2 (Z.eqb_neq _ _) Hty).
  - rewrite (run_segments_go f) by done. do 2 f_equal. clear. unfold core_notes.
    induction ss as [|s ss IH]; [done|]. cbn. rewrite bind_app, IH. f_equal. subst f. cbn.
    by destruct (p_type s =? PT_NOTE).
Qed.

(** The segment, when it has notes, has the wanted one. *)
Definition has_note (want : bytes) (s : segment) : Prop :=
  p_type s = PT_NOTE → List.find (is_wanted want) (seg_notes s) ≠ None.

(** What --print-note writes for a segment that has the note. *)
Definition dump_segment (want : bytes) (s : segment) : list out :=
  if p_type s =? PT_NOTE then
    match List.find (is_wanted want) (seg_notes s) with Some n => [Out (nt_desc n)] | None => [] end
  else [].

(** [parse_elf_dump_note]: --print-note looks for the note in every PT_NOTE
    segment, not in the file: it exits with 0 only when each of them has it, and
    then writes one descriptor per segment; a file without PT_NOTE segment exits
    with 0 and no output. *)
Theorem parse_elf_dump_note (wb : Z) fuel k file size phoff ss opts want :
  32 ≤ wb → core_file k file size phoff ss → enough fuel ss →
  opt_action opts = DUMP_NOTE → dump_note_name opts = Some want → nul_free want →
  ∃ rc a, parse_elf wb fuel file size opts = Ok (rc, a) ∧
    (rc = 0 ↔ Forall (has_note want) ss) ∧ (rc = 0 → a = ss ≫= dump_segment want).
Proof.
  intros Hwb Hc Hf Ha Hw Hnul.
  destruct (parse_elf_segments wb fuel k file size phoff ss Hc opts
    (λ s r, (r = (1, dump_segment want s) ∧ has_note want s) ∨ (r.1 = -1 ∧ ¬ has_note want s)))
    as (sec & -> & Hsec).
  - intros s Hs. destruct (decide (p_type s = PT_NOTE)) as [Hty|Hty].
    + destruct (core_segment fuel k file size phoff ss Hc Hf s Hs Hty) as (Hns & _ & Hfu).
      pose proof (parse_notes_dump_lemma wb file _ _ opts fuel want Hwb Hns Hfu Ha Hw Hnul) as E.
      unfold dump_segment, has_note. rewrite (proj2 (Z.eqb_eq _ _) Hty).
      destruct (List.find _ _) as [n|] eqn:Hfind; eexists;
        (split; [exact (parse_section_note wb fuel k file size phoff ss Hc Hf s opts _ _ Hty Hs E)|]); cbn; [by left|right].
      split; [done|]. intros H. by apply (H Hty).
    + eexists. split; [apply parse_section_other; [done|congruence]|]. left.
      unfold dump_segment. rewrite (proj2 (Z.eqb_neq _ _) Hty). split; [done|]. by intros ?%Hty.
  - destruct (run_segments sec ss) as [rc a] eqn:E. exists rc, a. split; [done|].
    clear - Hsec E. revert rc a E. induction ss as [|s ss IH]; intros rc a; cbn; [by intros [= <- <-]|].
    rewrite Forall_cons. specialize (IH (λ s' Hs', Hsec s' ltac:(by right))).
    destruct (Hsec s ltac:(by left)) as [[-> Hh]|[Hr Hh]].
    + cbn. destruct (run_segments sec ss) as [rc' a']. intros [= <- <-].
      destruct (IH _ _ eq_refl) as [? Ha']. split; [tauto|]. intros H0. by rewrite (Ha' H0).
    + destruct (sec s) as [rc' a']. cbn in Hr. subst rc'. cbn. intros [= <- <-].
      split; [|done]. split; [done|]. tauto.
Qed.

Lemma mem_is_prefix m s :
  (length s ≤ length m)%nat → mem_is m s = Ok (if decide (s `prefix_of` m) then true else false).
Proof.
  intros Hl. unfold mem_is. rewrite decide_True by done. f_equal.
  case_decide as Hp; [apply bool_decide_eq_true|apply bool_decide_eq_false].
  - destruct Hp as [r ->]. apply take_app_length.
  - intros E. apply Hp. exists (drop (length s) m). by rewrite <- E at 1; rewrite take_drop.
Qed.

(** [parse_elf_find_exec]: --find-exec decides whether the first PT_LOAD
    segment of a core file starts with the ELF magic, whatever (well-formed)
    notes come before it; a file without a PT_LOAD segment passes. *)
Theorem parse_elf_find_exec (wb : Z) fuel k file size phoff ss opts :
  32 ≤ wb → core_file k file size phoff ss → enough fuel ss → opt_action opts = FIND_EXEC →
  (∀ s, s ∈ ss → p_type s = PT_LOAD → (length ELFMAG ≤ length (at_ptr file (p_offset s)))%nat) →
  parse_elf wb fuel file size opts =
    Ok (match List.find (λ s, p_type s =? PT_LOAD) ss with
        | Some s => if decide (ELFMAG `prefix_of` at_ptr file (p_offset s)) then 0 else -1
        | None => 0
        end, []).
Proof.
  intros Hwb Hc Hf Ha Hl.
  pose (f s := if p_type s =? PT_LOAD
               then if decide (ELFMAG `prefix_of` at_ptr file (p_offset s)) then 0 else -1 else 1).
  destruct (parse_elf_segments wb fuel k file size phoff ss Hc opts (λ s r, r = (f s, []))) as (sec & -> & Hsec).
  - intros s Hs. unfold f. destruct (Z.eqb_spec (p_type s) PT_LOAD) as [Hty|Hty].
    + eexists. split; [|done]. unfold parse_section. rewrite Hty, Ha. cbn -[mem_is].
      rewrite mem_is_prefix by auto. cbn. by case_decide.
    + destruct (decide (p_type s = PT_NOTE)) as [Htn|Htn].
      * destruct (core_segment fuel k file size phoff ss Hc Hf s Hs Htn) as (Hns & _ & Hfu).
        pose proof (parse_notes_skip wb file _ _ opts fuel Hwb Hns Hfu Ha) as E.
        eexists. split; [exact (parse_section_note wb fuel k file size phoff ss Hc Hf s opts _ _ Htn Hs E)|done].
      * eexists. split; [apply parse_section_other; done|done].
  - do 1 f_equal. revert Hsec. clear. induction ss as [|s ss IH]; intros Hsec; cbn; [done|].
    rewrite (Hsec s ltac:(by left)). unfold f. destruct (p_type s =? PT_LOAD); cbn.
    + by case_decide.
    + rewrite IH; [done|]. intros; apply Hsec; by right.
Qed.
