(* ===== verification/ParseWitnesses.v ===== *)
(** * A concrete core file

    The theorems on parse-core.c applied to a 32 bit core file with a note
    segment and a load segment. *)

From S2P Require Import Prelude CString ParseCore ParseElf NoteSpec NotesProps ElfProps.

Local Open Scope Z_scope.

Definition sample_notes : list note := [
  Note (lit "CORE") (lit "abc") 6;
  Note (lit "SPU/3/object-id") (lit "0x0123456789abcdef" ++ [NUL]) 1;
  Note (lit "SPU/3/mbox_info") (lit "wxyz") 1].

(** The offset of the load segment: the two headers, then the notes. *)
Definition sample_load : Z := 116 + Z.of_nat (length (encode_notes sample_notes)).

Definition sample_segments : list segment := [
  Segment PT_NOTE 116 (Z.of_nat (length (encode_notes sample_notes))) sample_notes;
  Segment PT_LOAD sample_load 8 []].

Definition sample_phdr (type offset filesz : Z) : bytes :=
  be_bytes 4 type ++ be_bytes 4 offset ++ be_bytes 8 0 ++ be_bytes 4 filesz ++ be_bytes 12 0.

Definition sample_ehdr (phnum : Z) : bytes :=
  ELFMAG ++ ["001"; "002"; "001"]%char ++ be_bytes 9 0
  ++ be_bytes 2 4 ++ be_bytes 2 EM_PPC ++ be_bytes 4 1 ++ be_bytes 4 0 ++ be_bytes 4 52
  ++ be_bytes 10 0 ++ be_bytes 2 32 ++ be_bytes 2 phnum ++ be_bytes 6 0.

Definition sample_core : bytes :=
  sample_ehdr 2 ++ concat (map (λ s, sample_phdr (p_type s) (p_offset s) (p_filesz s)) sample_segments)
  ++ encode_notes sample_notes ++ ELFMAG ++ be_bytes 4 0.

Definition sample_size : Z := Z.of_nat (length sample_core).

Definition sample_opts (a : core_action) : options := Options a (Some (lit "3/mbox_info")) (Some (lit "3")).

Lemma sample_section : note_section sample_core 116 sample_notes.
Proof.
  split.
  - done.
  - exists (ELFMAG ++ be_bytes 4 0). vm_compute. reflexivity.
  - repeat constructor; cbn; try lia; nul_free_lit.
  - vm_compute. discriminate.
Qed.

Lemma sample_segment_in i s :
  sample_segments !! i = Some s →
  segment_in elf32 sample_core sample_size (52 + Z.of_nat i * sizeof_phdr elf32) s.
Proof.
  destruct i as [|[|i]]; intros [= <-]; split.
  all: try (vm_compute; reflexivity).
  all: try (vm_compute; split; discriminate).
  - vm_compute. discriminate.
  - intros _. split; [apply sample_section|vm_compute; reflexivity].
  - vm_compute. discriminate.
Qed.

Lemma sample_core_file : core_file elf32 sample_core sample_size 52 sample_segments.
Proof.
  split.
  - by left.
  - vm_compute. split; discriminate.
  - exists (drop 4 sample_core). vm_compute. reflexivity.
  - vm_compute. reflexivity.
  - vm_compute. reflexivity.
  - vm_compute. reflexivity.
  - vm_compute. reflexivity.
  - split; [vm_compute; reflexivity|]. vm_compute. split; [discriminate|reflexivity].
  - vm_compute. reflexivity.
  - vm_compute. reflexivity.
  - vm_compute. discriminate.
  - exact sample_segment_in.
Qed.

Lemma sample_enough : enough 3 sample_segments.
Proof. unfold enough. repeat constructor; cbn; lia. Qed.

Lemma sample_good : Forall (λ n, is_spu n = true → note_ok (nt_name n) (nt_desc n)) sample_notes.
Proof.
  repeat constructor; cbn [nt_name nt_desc]; [discriminate|..]; intros _.
  - exists (lit "SPU/3"), (lit "object-id"). split_and!; [done|by apply (bool_decide_unpack _)|by repeat constructor|].
    intros k [= <-]. split; [done|]. intros _.
    exists (lit "0123456789abcdef"), NUL. split_and!; [done..|by repeat constructor].
  - exists (lit "SPU/3"), (lit "mbox_info"). split_and!; [done|by apply (bool_decide_unpack _)|by repeat constructor|].
    intros k [= <-]. by split.
Qed.

(** ** Note sections *)

Lemma parse_notes_check_witness :
  parse_notes 64 3 sample_core 116 (Z.of_nat (length (encode_notes sample_notes)))
    (sample_opts CHECK_NOTES) = Ok (0, []).
Proof.
  destruct (parse_notes_check 64 sample_core 116 sample_notes (sample_opts CHECK_NOTES) 3)
    as [[E _]|(e & _ & H)]; [lia|apply sample_section|cbn; lia|done|exact E|].
  exfalso. apply H, sample_good.
Defined.

Lemma parse_notes_check_fd_witness :
  parse_notes 64 3 sample_core 116 (Z.of_nat (length (encode_notes sample_notes)))
    (sample_opts CHECK_FD) = Ok (0, []).
Proof.
  destruct (parse_notes_check_fd 64 sample_core 116 sample_notes (sample_opts CHECK_FD) 3 (lit "3"))
    as [[E _]|(e & _ & H)]; [lia|apply sample_section|cbn; lia|done|done|nul_free_lit|exact E|].
  exfalso. apply H. repeat constructor; cbn [nt_name]; [discriminate|..]; intros _.
  - exists (lit "SPU"), (lit "object-id"). split_and!; [done|by apply (bool_decide_unpack _)..].
  - exists (lit "SPU"), (lit "mbox_info"). split_and!; [done|by apply (bool_decide_unpack _)..].
Defined.

Lemma parse_notes_list_witness :
  parse_notes 32 3 sample_core 116 (Z.of_nat (length (encode_notes sample_notes))) (sample_opts LIST_NOTES)
    = Ok (0, [Out (line (lit "0x00000013 3/object-id")); Out (line (lit "0x00000004 3/mbox_info"))]).
Proof.
  rewrite (parse_notes_list 32 sample_core 116 sample_notes (sample_opts LIST_NOTES) 3);
    [vm_compute; reflexivity|lia|apply sample_section|cbn; lia|done].
Defined.

Lemma parse_notes_dump_witness :
  parse_notes 64 3 sample_core 116 (Z.of_nat (length (encode_notes sample_notes))) (sample_opts DUMP_NOTE)
    = Ok (0, [Out (lit "wxyz")]).
Proof.
  rewrite (parse_notes_dump 64 sample_core 116 sample_notes (sample_opts DUMP_NOTE) 3 (lit "3/mbox_info"));
    [vm_compute; reflexivity|lia|apply sample_section|cbn; lia|done|done|nul_free_lit].
Defined.

(** A section of two notes, with bytes above 0x7f, and the header that stops the
    walk. *)
Definition small_section : bytes := encode_notes [Note (lit "CORE") ["255"; "254"]%char 6; Note (lit "SPU") ["200"%char] 6].
Definition stuck_section : bytes := be_bytes 4 0xfffffff4 ++ be_bytes 4 0 ++ be_bytes 4 6.

Lemma small_headers o : header small_section 0 44 o → o = 0 ∨ o = 24.
Proof.
  induction 1 as [|o n d _ [->| ->] En Ed Hlt]; [by left| |].
  - vm_compute in En, Ed. injection En as <-. injection Ed as <-. by right.
  - vm_compute in En, Ed. injection En as <-. injection Ed as <-. by vm_compute in Hlt.
Qed.

Lemma small_sane : sane_sizes small_section 0 44.
Proof.
  intros o n [->| ->]%small_headers [E|E]; vm_compute in E; injection E as <-; lia.
Qed.

Lemma parse_notes_terminates_witness :
  header small_section 0 44 24 ∧ parse_notes 64 4 small_section 0 44 (sample_opts CHECK_NOTES) ≠ OutOfFuel.
Proof.
  split.
  - by apply (header_next small_section 0 44 0 5 2); [apply header_first|vm_compute..].
  - exact (parse_notes_terminates 64 small_section 0 44 (sample_opts CHECK_NOTES) 4 eq_refl small_sane
      ltac:(vm_compute; split; discriminate) ltac:(lia)).
Defined.

Lemma parse_notes_diverges_witness :
  ∀ fuel, parse_notes 64 fuel stuck_section 0 12 (sample_opts LIST_NOTES) = OutOfFuel.
Proof.
  apply (parse_notes_diverges 64 stuck_section 0 12 (sample_opts LIST_NOTES) 6 []); try lia.
  vm_compute. reflexivity.
Defined.

(** ** Core files *)

(** A header whose end wraps: 52 + (2^32 - 52) is 0. *)
Definition wrapping_phdr : bytes := sample_phdr PT_NOTE 52 (2 ^ 32 - 52).

Lemma parse_phdr_in_file_witness :
  parse_phdr 64 3 elf32 sample_core sample_size (sample_opts LIST_NOTES) 0 52
  = parse_section 64 3 sample_core 116 (wraps 32 (sample_load - 116)) PT_NOTE (sample_opts LIST_NOTES).
Proof.
  apply (parse_phdr_in_file 64 3 elf32 sample_core sample_size (sample_opts LIST_NOTES) 0 52
    116 (sample_load - 116) PT_NOTE); vm_compute; (reflexivity || discriminate).
Defined.

Lemma parse_phdr_wraps_witness :
  100 < 52 + (2 ^ 32 - 52) ∧
  parse_phdr 64 3 elf32 wrapping_phdr 100 (sample_opts LIST_NOTES) 0 0
  = parse_section 64 3 wrapping_phdr 52 (wraps 32 (2 ^ 32 - 52)) PT_NOTE (sample_opts LIST_NOTES).
Proof.
  apply (parse_phdr_wraps 64 3 elf32 wrapping_phdr 100 (sample_opts LIST_NOTES) 0 0 52 (2 ^ 32 - 52) PT_NOTE);
    vm_compute; try split; (reflexivity || discriminate).
Defined.

Lemma parse_elf_check_notes_witness :
  parse_elf 64 3 sample_core sample_size (sample_opts CHECK_NOTES) = Ok (0, []).
Proof.
  destruct (parse_elf_check_notes 64 3 elf32 sample_core sample_size 52 sample_segments
    (sample_opts CHECK_NOTES)) as [[E _]|(e & _ & H)];
    [lia|apply sample_core_file|apply sample_enough|done|exact E|].
  exfalso. apply H. assert (core_notes sample_segments = sample_notes) as -> by (vm_compute; reflexivity).
  apply sample_good.
Defined.

Lemma parse_elf_list_notes_witness :
  parse_elf 64 3 sample_core sample_size (sample_opts LIST_NOTES)
  = Ok (0, [Out (line (lit "0x00000013 3/object-id")); Out (line (lit "0x00000004 3/mbox_info"))]).
Proof.
  rewrite (parse_elf_list_notes 64 3 elf32 sample_core sample_size 52 sample_segments (sample_opts LIST_NOTES));
    [vm_compute; reflexivity|lia|apply sample_core_file|apply sample_enough|done].
Defined.

Lemma parse_elf_dump_note_witness :
  ∃ a, parse_elf 64 3 sample_core sample_size (sample_opts DUMP_NOTE) = Ok (0, a) ∧ a = [Out (lit "wxyz")].
Proof.
  destruct (parse_elf_dump_note 64 3 elf32 sample_core sample_size 52 sample_segments
    (sample_opts DUMP_NOTE) (lit "3/mbox_info")) as (rc & a & E & Hrc & Ha);
    [lia|apply sample_core_file|apply sample_enough|done|done|nul_free_lit|].
  assert (rc = 0) as ->.
  { apply Hrc. repeat constructor; cbn; [|discriminate]. intros _. discriminate. }
  exists a. split; [exact E|]. rewrite (Ha eq_refl). vm_compute. reflexivity.
Defined.

Lemma parse_elf_find_exec_witness :
  parse_elf 64 3 sample_core sample_size (sample_opts FIND_EXEC) = Ok (0, []).
Proof.
  rewrite (parse_elf_find_exec 64 3 elf32 sample_core sample_size 52 sample_segments (sample_opts FIND_EXEC));
    [vm_compute; reflexivity|lia|apply sample_core_file|apply sample_enough|done|].
  intros s Hs. apply list_elem_of_In in Hs as [<-|[<-|[]]]; vm_compute; [discriminate|lia].
Defined.
