(* ===== verification/Talloc.v ===== *)
(** * The hierarchical allocator (lib/talloc/talloc.c): the heap and its operations

    A chunk and the memory behind it have one address [loc]: the pointer to the
    memory is the pointer to the chunk plus a constant.  The heap maps the
    addresses of live chunks to their fields; what a field of a dead chunk holds
    is not known, so following one is [UB] (talloc may notice and abort).  The
    functions are programs in a state monad over the heap and the two static
    variables. *)

From S2P Require Import Prelude CString.

Local Open Scope Z_scope.

Abbreviation loc := positive.

(** ** Data *)

(** The destructors of the library and those of its clients. *)
Inductive dtor :=
| dtor_reference
| dtor_autofree
| dtor_busy                 (* (talloc_destructor_t)-1 *)
| dtor_user (d : nat).

(** A name: NULL, TALLOC_MAGIC_REFERENCE, a string constant, or the string in
    the memory of a chunk. *)
Inductive cname := name_null | TALLOC_MAGIC_REFERENCE | name_const (s : bytes) | name_in (p : loc).

(** The memory of a chunk: bytes, or a [struct talloc_reference_handle]. *)
Inductive payload :=
| Bytes (b : bytes)
| Handle (h_next h_prev h_ptr : option loc).

#[global] Instance dtor_eq_dec : EqDecision dtor.
Proof. solve_decision. Defined.

#[global] Instance cname_eq_dec : EqDecision cname.
Proof. solve_decision. Defined.

#[global] Instance payload_eq_dec : EqDecision payload.
Proof. solve_decision. Defined.

(** [struct talloc_chunk] with its memory; the flags are the magic number and
    two bits. *)
Record talloc_chunk := Chunk {
  tc_next : option loc; tc_prev : option loc;
  tc_parent : option loc; tc_child : option loc;
  tc_refs : option loc;
  tc_destructor : option dtor;
  tc_name : cname;
  tc_size : Z;
  tc_flag_free : bool; tc_flag_loop : bool;
  tc_data : payload;
}.

#[global] Instance talloc_chunk_eq_dec : EqDecision talloc_chunk.
Proof. solve_decision. Defined.

Definition set_next v c := Chunk v (tc_prev c) (tc_parent c) (tc_child c) (tc_refs c)
  (tc_destructor c) (tc_name c) (tc_size c) (tc_flag_free c) (tc_flag_loop c) (tc_data c).
Definition set_prev v c := Chunk (tc_next c) v (tc_parent c) (tc_child c) (tc_refs c)
  (tc_destructor c) (tc_name c) (tc_size c) (tc_flag_free c) (tc_flag_loop c) (tc_data c).
Definition set_parent v c := Chunk (tc_next c) (tc_prev c) v (tc_child c) (tc_refs c)
  (tc_destructor c) (tc_name c) (tc_size c) (tc_flag_free c) (tc_flag_loop c) (tc_data c).
Definition set_child v c := Chunk (tc_next c) (tc_prev c) (tc_parent c) v (tc_refs c)
  (tc_destructor c) (tc_name c) (tc_size c) (tc_flag_free c) (tc_flag_loop c) (tc_data c).
Definition set_refs v c := Chunk (tc_next c) (tc_prev c) (tc_parent c) (tc_child c) v
  (tc_destructor c) (tc_name c) (tc_size c) (tc_flag_free c) (tc_flag_loop c) (tc_data c).
Definition set_destructor v c := Chunk (tc_next c) (tc_prev c) (tc_parent c) (tc_child c) (tc_refs c)
  v (tc_name c) (tc_size c) (tc_flag_free c) (tc_flag_loop c) (tc_data c).
Definition set_name v c := Chunk (tc_next c) (tc_prev c) (tc_parent c) (tc_child c) (tc_refs c)
  (tc_destructor c) v (tc_size c) (tc_flag_free c) (tc_flag_loop c) (tc_data c).
Definition set_size v c := Chunk (tc_next c) (tc_prev c) (tc_parent c) (tc_child c) (tc_refs c)
  (tc_destructor c) (tc_name c) v (tc_flag_free c) (tc_flag_loop c) (tc_data c).
Definition set_flag_free v c := Chunk (tc_next c) (tc_prev c) (tc_parent c) (tc_child c) (tc_refs c)
  (tc_destructor c) (tc_name c) (tc_size c) v (tc_flag_loop c) (tc_data c).
Definition set_flag_loop v c := Chunk (tc_next c) (tc_prev c) (tc_parent c) (tc_child c) (tc_refs c)
  (tc_destructor c) (tc_name c) (tc_size c) (tc_flag_free c) v (tc_data c).
Definition set_data v c := Chunk (tc_next c) (tc_prev c) (tc_parent c) (tc_child c) (tc_refs c)
  (tc_destructor c) (tc_name c) (tc_size c) (tc_flag_free c) (tc_flag_loop c) v.

Abbreviation chunks := (gmap loc talloc_chunk).

(** The functions given to [atexit]. *)
Inductive exit_fn := talloc_report_null | talloc_report_null_full | talloc_autofree.

(** The live chunks, the static variables and the exit functions. *)
Record heap := Heap {
  mem : chunks; null_context : option loc; autofree_context : option loc;
  at_exit : list exit_fn;
}.

Definition set_mem m h := Heap m (null_context h) (autofree_context h) (at_exit h).
Definition set_null_context v h := Heap (mem h) v (autofree_context h) (at_exit h).
Definition set_autofree_context v h := Heap (mem h) (null_context h) v (at_exit h).
Definition atexit f h := Heap (mem h) (null_context h) (autofree_context h) (f :: at_exit h).

(** ** The monad *)

Definition M (A : Type) : Type := heap → res (A * heap).

#[global] Instance M_ret : MRet M := λ A a h, Ok (a, h).
#[global] Instance M_bind : MBind M := λ A B f m h, '(a, h) ← m h; f a h.

Definition lift {A} (m : res A) : M A := λ h, a ← m; Ok (a, h).
Definition undefined {A} : M A := λ h, UB.
Definition out_of_fuel {A} : M A := λ h, OutOfFuel.
Definition get_heap : M heap := λ h, Ok (h, h).
Definition modify (f : heap → heap) : M unit := λ h, Ok (tt, f h).

(** [*p] and [p->field = v] of a chunk. *)
Definition get (p : loc) : M talloc_chunk := λ h, c ← of_option (mem h !! p); Ok (c, h).
Definition upd (p : loc) (f : talloc_chunk → talloc_chunk) : M unit :=
  λ h, c ← of_option (mem h !! p); Ok (tt, set_mem (<[p := f c]> (mem h)) h).

(** Following a pointer that is not NULL. *)
Definition deref (p : option loc) : M loc := lift (of_option p).

(** A field of the chunk a pointer points to. *)
Definition fld {A} (f : talloc_chunk → A) (p : loc) : M A := c ← get p; mret (f c).

(** [if (p) ...] *)
Definition when_some (p : option loc) (k : loc → M unit) : M unit :=
  match p with Some q => k q | None => mret tt end.

(** [talloc_chunk_from_ptr]: the chunk of a pointer, with the check of its
    flags. *)
Definition talloc_chunk_from_ptr (ptr : option loc) : M loc :=
  p ← deref ptr; f ← fld tc_flag_free p;
  if f : bool then undefined else mret p.

(** ** The list macros *)

(** The fields that link a list: those of the chunks, or those of the handles
    (which a chunk of bytes does not have). *)
Record links := Links {
  lk_next : talloc_chunk → option (option loc); lk_prev : talloc_chunk → option (option loc);
  lk_set_next : option loc → talloc_chunk → talloc_chunk;
  lk_set_prev : option loc → talloc_chunk → talloc_chunk;
}.

Definition chunk_links : links :=
  Links (λ c, Some (tc_next c)) (λ c, Some (tc_prev c)) set_next set_prev.

Definition handle_links : links :=
  Links (λ c, match tc_data c with Handle n _ _ => Some n | _ => None end)
        (λ c, match tc_data c with Handle _ v _ => Some v | _ => None end)
        (λ v c, match tc_data c with Handle _ p t => set_data (Handle v p t) c | _ => c end)
        (λ v c, match tc_data c with Handle n _ t => set_data (Handle n v t) c | _ => c end).

Definition link (f : talloc_chunk → option (option loc)) (p : loc) : M (option loc) :=
  c ← get p; lift (of_option (f c)).

(** The list heads: [o->child] and [o->refs]. *)
Definition head_field : Type := (talloc_chunk → option loc) * (option loc → talloc_chunk → talloc_chunk).
Definition child_head : head_field := (tc_child, set_child).
Definition refs_head : head_field := (tc_refs, set_refs).

Definition TLIST_ADD (lk : links) (hd : head_field) (o p : loc) : M unit :=
  l ← fld hd.1 o;
  match l with
  | None =>
      upd o (hd.2 (Some p));; upd p (lk_set_prev lk None);; upd p (lk_set_next lk None)
  | Some l =>
      upd l (lk_set_prev lk (Some p));; upd p (lk_set_next lk (Some l));;
      upd p (lk_set_prev lk None);; upd o (hd.2 (Some p))
  end.

Definition TLIST_REMOVE (lk : links) (hd : head_field) (o p : loc) : M unit :=
  l ← fld hd.1 o;
  (if decide (l = Some p) then
     n ← link (lk_next lk) p; upd o (hd.2 n);;
     when_some n (λ n, upd n (lk_set_prev lk None))
   else
     v ← link (lk_prev lk) p; n ← link (lk_next lk) p;
     when_some v (λ v, upd v (lk_set_next lk n));;
     n ← link (lk_next lk) p; v ← link (lk_prev lk) p;
     when_some n (λ n, upd n (lk_set_prev lk v)));;
  l ← fld hd.1 o;
  if decide (l = Some p) then mret tt
  else upd p (lk_set_prev lk None);; upd p (lk_set_next lk None).

(** ** Walks

    A walk is bounded by the number of chunks: in a well-formed heap none is
    longer. *)

Definition bound : M nat := h ← get_heap; mret (S (size (mem h))).

(** [while (tc->prev) tc = tc->prev;] *)
Fixpoint first_sibling_loop (n : nat) (tc : loc) : M loc :=
  v ← fld tc_prev tc;
  match v with
  | None => mret tc
  | Some v => match n with O => out_of_fuel | S n => first_sibling_loop n v end
  end.

Definition first_sibling (tc : loc) : M loc := n ← bound; first_sibling_loop n tc.

Definition talloc_parent_chunk (ptr : option loc) : M (option loc) :=
  match ptr with
  | None => mret None
  | Some _ => tc ← talloc_chunk_from_ptr ptr; tc ← first_sibling tc; fld tc_parent tc
  end.

Definition talloc_parent (ptr : option loc) : M (option loc) := talloc_parent_chunk ptr.

Definition talloc_parent_name (ptr : option loc) : M cname :=
  tc ← talloc_parent_chunk ptr;
  match tc with Some tc => fld tc_name tc | None => mret name_null end.

(** The loop of [talloc_is_parent], [talloc_find_parent_byname] and
    [talloc_show_parents]: [visit] looks at a chunk and may stop with a value. *)
Fixpoint ancestors_loop {A} (n : nat) (visit : loc → M (option A)) (tc : option loc) : M (option A) :=
  match tc with
  | None => mret None
  | Some p =>
      v ← visit p;
      match v with
      | Some a => mret (Some a)
      | None =>
          match n with
          | O => out_of_fuel
          | S n => p ← first_sibling p; up ← fld tc_parent p; ancestors_loop n visit up
          end
      end
  end.

Definition talloc_is_parent (context ptr : option loc) : M Z :=
  match context with
  | None => mret 0
  | Some _ =>
      tc ← talloc_chunk_from_ptr context; n ← bound;
      r ← ancestors_loop n (λ p, mret (if decide (Some p = ptr) then Some tt else None)) (Some tc);
      mret (if r is Some _ then 1 else 0)
  end.

(** ** Names *)

(** The string in the memory of a chunk. *)
Definition string_at (p : loc) : M bytes :=
  d ← fld tc_data p; match d with Bytes b => lift (cstr b) | Handle _ _ _ => undefined end.

(** The string of a name that is not NULL; reading through
    TALLOC_MAGIC_REFERENCE is undefined. *)
Definition name_string (n : cname) : M (option bytes) :=
  match n with
  | name_null => mret None
  | TALLOC_MAGIC_REFERENCE => undefined
  | name_const s => mret (Some s)
  | name_in p => s ← string_at p; mret (Some s)
  end.

Definition _talloc_set_name_const (ptr : option loc) (name : cname) : M unit :=
  tc ← talloc_chunk_from_ptr ptr; upd tc (set_name name).

Definition talloc_set_name_const := _talloc_set_name_const.

Definition talloc_get_name (ptr : option loc) : M bytes :=
  tc ← talloc_chunk_from_ptr ptr; n ← fld tc_name tc;
  match n with
  | TALLOC_MAGIC_REFERENCE => mret (lit ".reference")
  | n => s ← name_string n; mret (default (lit "UNNAMED") s)
  end.

(** Equal pointers point to equal strings, so only the strings are compared. *)
Definition talloc_check_name (ptr : option loc) (name : bytes) : M (option loc) :=
  match ptr with
  | None => mret None
  | Some _ =>
      pname ← talloc_get_name ptr; d ← lift (strcmp (pname ++ [NUL]) (name ++ [NUL]));
      mret (if d =? 0 then ptr else None)
  end.

Definition talloc_find_parent_byname (context : option loc) (name : bytes) : M (option loc) :=
  match context with
  | None => mret None
  | Some _ =>
      tc ← talloc_chunk_from_ptr context; n ← bound;
      ancestors_loop n (λ p,
        nm ← fld tc_name p; s ← name_string nm;
        match s with
        | None => mret None
        | Some s => d ← lift (strcmp (s ++ [NUL]) (name ++ [NUL]));
                    mret (if d =? 0 then Some p else None)
        end) (Some tc)
  end.

(** ** Allocation *)

Definition MAX_TALLOC_SIZE : Z := 0x10000000.

Definition context_or_null (context : option loc) : M (option loc) :=
  match context with Some _ => mret context | None => h ← get_heap; mret (null_context h) end.

(** [talloc_set_destructor]. *)
Definition _talloc_set_destructor (ptr : option loc) (d : option dtor) : M unit :=
  tc ← talloc_chunk_from_ptr ptr; upd tc (set_destructor d).

(** Take a chunk out of the list it is in. *)
Definition unlink_chunk (tc : loc) : M unit :=
  par ← fld tc_parent tc;
  match par with
  | Some par =>
      TLIST_REMOVE chunk_links child_head par tc;;
      par ← fld tc_parent tc; par ← deref par;
      c ← fld tc_child par;
      when_some c (λ c, upd c (set_parent (Some par)))
  | None =>
      v ← fld tc_prev tc; n ← fld tc_next tc;
      when_some v (λ v, upd v (set_next n));;
      n ← fld tc_next tc; v ← fld tc_prev tc;
      when_some n (λ n, upd n (set_prev v))
  end.

(** [talloc_steal]. *)
Definition _talloc_steal (new_ctx ptr : option loc) : M (option loc) :=
  match ptr with
  | None => mret None
  | Some _ =>
      new_ctx ← context_or_null new_ctx;
      tc ← talloc_chunk_from_ptr ptr;
      match new_ctx with
      | None =>
          unlink_chunk tc;;
          upd tc (set_prev None);; upd tc (set_next None);; upd tc (set_parent None);;
          mret ptr
      | Some _ =>
          new_tc ← talloc_chunk_from_ptr new_ctx;
          par ← fld tc_parent tc;
          if decide (tc = new_tc) then mret ptr
          else if decide (par = Some new_tc) then mret ptr
          else
            unlink_chunk tc;;
            upd tc (set_parent (Some new_tc));;
            c ← fld tc_child new_tc;
            when_some c (λ c, upd c (set_parent None));;
            TLIST_ADD chunk_links child_head new_tc tc;;
            mret ptr
      end
  end.

(** [_talloc_move]: the result and the new value of [*pptr]. *)
Definition _talloc_move (new_ctx pptr : option loc) : M (option loc * option loc) :=
  ret ← _talloc_steal new_ctx pptr; mret (ret, None).

Section talloc.
(** Bits of [size_t] and of a pointer. *)
Context (wb : Z).
(** The allocator: the address [malloc] gives for a size, the address
    [realloc] gives for a chunk and a size (NULL: no memory), and what fresh
    memory holds. *)
Context (malloc : heap → Z → option loc) (realloc : heap → loc → Z → option loc)
        (junk : nat → bytes).
(** The destructors of the clients. *)
Context (user_dtor : nat → loc → M Z).

Definition sizeof_ptr : Z := wb / 8.

(** Nine words: the last one is [flags] with its padding. *)
Definition TC_HDR_SIZE : Z := Z.land (9 * sizeof_ptr + 15) (Z.lnot 15).

Definition sizeof_handle : Z := 3 * sizeof_ptr.

(** The chunk [malloc] returned, its links not set yet. *)
Definition new_chunk (size : Z) : talloc_chunk :=
  Chunk None None None None None None name_null size false false (Bytes (junk (Z.to_nat size))).

Definition __talloc (context : option loc) (size : Z) : M (option loc) :=
  context ← context_or_null context;
  if MAX_TALLOC_SIZE <=? size then mret None
  else
    h ← get_heap;
    match malloc h (TC_HDR_SIZE + size) with
    | None => mret None
    | Some tc =>
        modify (λ h, set_mem (<[tc := new_chunk size]> (mem h)) h);;
        match context with
        | Some _ =>
            parent ← talloc_chunk_from_ptr context;
            c ← fld tc_child parent;
            match c with
            | Some c =>
                upd c (set_parent None);;
                upd tc (set_next (Some c));;
                upd c (set_prev (Some tc))
            | None => upd tc (set_next None)
            end;;
            upd tc (set_parent (Some parent));;
            upd tc (set_prev None);;
            upd parent (set_child (Some tc))
        | None =>
            upd tc (set_parent None);; upd tc (set_prev None);; upd tc (set_next None)
        end;;
        mret (Some tc)
    end.

Definition _talloc := __talloc.

Definition _talloc_named_const (context : option loc) (size : Z) (name : cname) : M (option loc) :=
  ptr ← __talloc context size;
  match ptr with
  | None => mret None
  | Some _ => _talloc_set_name_const ptr name;; mret ptr
  end.

Definition talloc_named_const := _talloc_named_const.

Definition _talloc_reference (context ptr : option loc) : M (option loc) :=
  match ptr with
  | None => mret None
  | Some _ =>
      tc ← talloc_chunk_from_ptr ptr;
      handle ← _talloc_named_const context sizeof_handle TALLOC_MAGIC_REFERENCE;
      match handle with
      | None => mret None
      | Some hd =>
          _talloc_set_destructor handle (Some dtor_reference);;
          upd hd (set_data (Handle None None ptr));;
          TLIST_ADD handle_links refs_head tc hd;;
          mret ptr
      end
  end.

Definition talloc_increase_ref_count (ptr : option loc) : M Z :=
  h ← get_heap; r ← _talloc_reference (null_context h) ptr;
  mret (match r with None => -1 | Some _ => 0 end).

Definition talloc_reference_destructor (handle : loc) : M Z :=
  d ← fld tc_data handle;
  match d with
  | Handle _ _ ptr =>
      ptr_tc ← talloc_chunk_from_ptr ptr; TLIST_REMOVE handle_links refs_head ptr_tc handle;; mret 0
  | Bytes _ => undefined
  end.

Definition talloc_autofree_destructor (ptr : loc) : M Z :=
  modify (set_autofree_context None);; mret 0.

(** ** [_talloc_free] *)

Definition call_destructor (d : dtor) (ptr : loc) : M Z :=
  match d with
  | dtor_reference => talloc_reference_destructor ptr
  | dtor_autofree => talloc_autofree_destructor ptr
  | dtor_busy => undefined
  | dtor_user d => user_dtor d ptr
  end.

(** [true]: the chunk is not to be freed. *)
Definition run_destructor (tc : loc) : M bool :=
  d ← fld tc_destructor tc;
  match d with
  | None => mret false
  | Some dtor_busy => mret true
  | Some d =>
      upd tc (set_destructor (Some dtor_busy));;
      rc ← call_destructor d tc;
      if rc =? -1 then upd tc (set_destructor (Some d));; mret true
      else upd tc (set_destructor None);; mret false
  end.

(** Who gets a child that cannot be freed: the owner of its first reference. *)
Definition reference_owner (refs : option loc) : M (option loc) :=
  h ← get_heap;
  match refs with
  | None => mret (null_context h)
  | Some _ => p ← talloc_parent_chunk refs; mret (if p is Some _ then p else null_context h)
  end.

(** [while (tc->child) ...] of [_talloc_free] and [talloc_free_children]. *)
Fixpoint free_children_loop (free : option loc → M Z) (n : nat) (tc : loc) : M unit :=
  c ← fld tc_child tc;
  match c with
  | None => mret tt
  | Some child =>
      match n with
      | O => out_of_fuel
      | S n =>
          refs ← fld tc_refs child;
          new_parent ← reference_owner refs;
          rc ← free (Some child);
          (if rc =? -1 then
             h ← get_heap;
             new_parent ←
               (if decide (new_parent = null_context h) then
                  p ← talloc_parent_chunk (Some tc);
                  mret (if p is Some _ then p else new_parent)
                else mret new_parent);
             _talloc_steal new_parent (Some child);; mret tt
           else mret tt);;
          free_children_loop free n tc
      end
  end.

Fixpoint _talloc_free (fuel : nat) (ptr : option loc) : M Z :=
  match fuel with
  | O => out_of_fuel
  | S fuel =>
      match ptr with
      | None => mret (-1)
      | Some _ =>
          tc ← talloc_chunk_from_ptr ptr;
          refs ← fld tc_refs tc;
          match refs with
          | Some _ =>
              is_child ← talloc_is_parent refs ptr;
              _talloc_free fuel refs;;
              if is_child =? 0 then mret (-1) else _talloc_free fuel ptr
          | None =>
              looping ← fld tc_flag_loop tc;
              if looping : bool then mret 0
              else
                refused ← run_destructor tc;
                if refused : bool then mret (-1)
                else
                  unlink_chunk tc;;
                  upd tc (set_flag_loop true);;
                  free_children_loop (_talloc_free fuel) fuel tc;;
                  upd tc (set_flag_free true);;
                  modify (λ h, set_mem (delete tc (mem h)) h);;
                  mret 0
          end
      end
  end.

Definition talloc_free := _talloc_free.

Definition talloc_free_children (fuel : nat) (ptr : option loc) : M unit :=
  match ptr with
  | None => mret tt
  | Some _ =>
      tc ← talloc_chunk_from_ptr ptr; free_children_loop (_talloc_free fuel) fuel tc
  end.

(** ** References *)

(** The search loop of [talloc_unreference]. *)
Fixpoint find_reference (n : nat) (context h : option loc) : M (option loc) :=
  match h with
  | None => mret None
  | Some r =>
      p ← talloc_parent_chunk h;
      if decide (p = context) then mret h
      else match n with
           | O => out_of_fuel
           | S n => nx ← link (lk_next handle_links) r; find_reference n context nx
           end
  end.

Definition talloc_unreference (fuel : nat) (context ptr : option loc) : M Z :=
  tc ← talloc_chunk_from_ptr ptr;
  context ← context_or_null context;
  refs ← fld tc_refs tc; n ← bound;
  h ← find_reference n context refs;
  match h with None => mret (-1) | Some _ => _talloc_free fuel h end.

Definition talloc_unlink (fuel : nat) (context ptr : option loc) : M Z :=
  match ptr with
  | None => mret (-1)
  | Some _ =>
      context ← context_or_null context;
      rc ← talloc_unreference fuel context ptr;
      if rc =? 0 then mret 0
      else
        match context with None => mret tt | Some _ => talloc_chunk_from_ptr context;; mret tt end;;
        p ← talloc_parent_chunk ptr;
        if negb (bool_decide (p = context)) then mret (-1)
        else
          tc_p ← talloc_chunk_from_ptr ptr;
          refs ← fld tc_refs tc_p;
          match refs with
          | None => _talloc_free fuel ptr
          | Some _ =>
              new_parent ← talloc_parent_chunk refs;
              rc ← talloc_unreference fuel new_parent ptr;
              if negb (rc =? 0) then mret (-1)
              else _talloc_steal new_parent ptr;; mret 0
          end
  end.

(** The loop of [talloc_reference_count]. *)
Fixpoint count_references (n : nat) (h : option loc) : M Z :=
  match h with
  | None => mret 0
  | Some r =>
      match n with
      | O => out_of_fuel
      | S n => nx ← link (lk_next handle_links) r; k ← count_references n nx; mret (1 + k)
      end
  end.

Definition talloc_reference_count (ptr : option loc) : M Z :=
  tc ← talloc_chunk_from_ptr ptr; refs ← fld tc_refs tc; n ← bound; count_references n refs.

(** ** Naming with a formatted text

    The text is what [vsnprintf] writes, [None] when it fails. *)

Definition talloc_vasprintf (t : option loc) (text : option bytes) : M (option loc) :=
  match text with
  | None => mret None
  | Some s =>
      ret ← __talloc t (Z.of_nat (length s) + 1);
      match ret with
      | None => mret None
      | Some r => upd r (set_data (Bytes (s ++ [NUL])));; _talloc_set_name_const ret (name_in r);; mret ret
      end
  end.

Definition talloc_asprintf := talloc_vasprintf.

Definition talloc_set_name_v (ptr : option loc) (text : option bytes) : M cname :=
  tc ← talloc_chunk_from_ptr ptr;
  s ← talloc_vasprintf ptr text;
  upd tc (set_name (match s with Some s => name_in s | None => name_null end));;
  match s with
  | Some _ => _talloc_set_name_const s (name_const (lit ".name"))
  | None => mret tt
  end;;
  fld tc_name tc.

Definition talloc_set_name := talloc_set_name_v.

(** Name a fresh pointer, or give it back. *)
Definition name_or_free (fuel : nat) (ptr : option loc) (text : option bytes) : M (option loc) :=
  match ptr with
  | None => mret None
  | Some _ =>
      name ← talloc_set_name_v ptr text;
      if decide (name = name_null) then _talloc_free fuel ptr;; mret None else mret ptr
  end.

Definition talloc_named (fuel : nat) (context : option loc) (size : Z) (text : option bytes)
    : M (option loc) :=
  ptr ← __talloc context size; name_or_free fuel ptr text.

Definition talloc_enable_null_tracking : M unit :=
  h ← get_heap;
  match null_context h with
  | Some _ => mret tt
  | None => p ← _talloc_named_const None 0 (name_const (lit "null_context")); modify (set_null_context p)
  end.

Definition talloc_disable_null_tracking (fuel : nat) : M unit :=
  h ← get_heap; _talloc_free fuel (null_context h);; modify (set_null_context None).

Definition talloc_enable_leak_report : M unit :=
  talloc_enable_null_tracking;; modify (atexit talloc_report_null).

Definition talloc_enable_leak_report_full : M unit :=
  talloc_enable_null_tracking;; modify (atexit talloc_report_null_full).

Definition talloc_init (fuel : nat) (text : option bytes) : M (option loc) :=
  talloc_enable_null_tracking;; ptr ← __talloc None 0; name_or_free fuel ptr text.

Definition talloc_autofree_context : M (option loc) :=
  h ← get_heap;
  match autofree_context h with
  | Some _ => mret (autofree_context h)
  | None =>
      p ← _talloc_named_const None 0 (name_const (lit "autofree_context"));
      modify (set_autofree_context p);;
      _talloc_set_destructor p (Some dtor_autofree);;
      modify (atexit talloc_autofree);;
      mret p
  end.

(** ** Changing the size *)

(** The memory after [realloc]: the bytes that fit stay. *)
Definition resize (d : payload) (size : Z) : payload :=
  match d with
  | Bytes b =>
      let n := Z.to_nat size in Bytes (take n b ++ junk (n - length b))
  | Handle _ _ _ => d
  end.

Definition _talloc_realloc (fuel : nat) (context ptr : option loc) (size : Z) (name : cname)
    : M (option loc) :=
  if size =? 0 then _talloc_free fuel ptr;; mret None
  else if MAX_TALLOC_SIZE <=? size then mret None
  else
    match ptr with
    | None => _talloc_named_const context size name
    | Some _ =>
        tc ← talloc_chunk_from_ptr ptr;
        refs ← fld tc_refs tc;
        match refs with
        | Some _ => mret None
        | None =>
            upd tc (set_flag_free true);;
            h ← get_heap;
            match realloc h tc (size + TC_HDR_SIZE) with
            | None => upd tc (set_flag_free false);; mret None
            | Some new =>
                c ← get tc;
                modify (λ h, set_mem (<[new := set_data (resize (tc_data c) size) c]>
                                        (delete tc (mem h))) h);;
                let tc := new in
                upd tc (set_flag_free false);;
                par ← fld tc_parent tc; when_some par (λ p, upd p (set_child (Some tc)));;
                ch ← fld tc_child tc; when_some ch (λ c, upd c (set_parent (Some tc)));;
                v ← fld tc_prev tc; when_some v (λ v, upd v (set_next (Some tc)));;
                n ← fld tc_next tc; when_some n (λ n, upd n (set_prev (Some tc)));;
                upd tc (set_size size);;
                _talloc_set_name_const (Some tc) name;;
                mret (Some tc)
            end
        end
    end.

Definition talloc_realloc_fn (fuel : nat) (context ptr : option loc) (size : Z) : M (option loc) :=
  _talloc_realloc fuel context ptr size name_null.

(** ** Sizes *)

Definition talloc_get_size (context : option loc) : M Z :=
  match context with
  | None => mret 0
  | Some _ => tc ← talloc_chunk_from_ptr context; fld tc_size tc
  end.

(** [for (c = tc->child; c; c = c->next) total += f(c);] *)
Fixpoint sum_siblings (f : loc → M Z) (n : nat) (c : option loc) (total : Z) : M Z :=
  match c with
  | None => mret total
  | Some p =>
      match n with
      | O => out_of_fuel
      | S n => k ← f p; nx ← fld tc_next p; sum_siblings f n nx (wrapu wb (total + k))
      end
  end.

(** [talloc_total_size] and [talloc_total_blocks] on a pointer: [own] is what
    a chunk adds to its children. *)
Fixpoint total_loop (own : talloc_chunk → Z) (n : nat) (ptr : loc) : M Z :=
  tc ← talloc_chunk_from_ptr (Some ptr);
  looping ← fld tc_flag_loop tc;
  if looping : bool then mret 0
  else
    upd tc (set_flag_loop true);;
    match n with
    | O => out_of_fuel
    | S n =>
        k ← fld own tc; c ← fld tc_child tc;
        t ← sum_siblings (total_loop own n) n c k;
        upd tc (set_flag_loop false);;
        mret t
    end.

Definition talloc_total_size (ptr : option loc) : M Z :=
  ptr ← context_or_null ptr;
  match ptr with None => mret 0 | Some p => n ← bound; total_loop tc_size n p end.

(** Unlike [talloc_total_size] it follows a NULL argument. *)
Definition talloc_total_blocks (ptr : option loc) : M Z :=
  p ← deref ptr; n ← bound; total_loop (λ _, 1) n p.

(** ** Copies and strings *)

(** Overwrite the memory of a chunk from an offset on. *)
Definition write_at (p : loc) (off : nat) (s : bytes) : M unit :=
  d ← fld tc_data p;
  match d with
  | Bytes b =>
      if decide (off + length s ≤ length b)%nat
      then upd p (set_data (Bytes (take off b ++ s ++ drop (off + length s) b)))
      else undefined
  | Handle _ _ _ => undefined
  end.

Definition _talloc_zero (ctx : option loc) (size : Z) (name : cname) : M (option loc) :=
  p ← _talloc_named_const ctx size name;
  when_some p (λ p, write_at p 0 (replicate (Z.to_nat size) NUL));; mret p.

(** [p] is the memory of the argument. *)
Definition _talloc_memdup (t : option loc) (p : bytes) (size : Z) (name : cname) : M (option loc) :=
  newp ← _talloc_named_const t size name;
  when_some newp (λ q,
    if decide (Z.to_nat size ≤ length p)%nat then write_at q 0 (take (Z.to_nat size) p) else undefined);;
  mret newp.

Definition __talloc_strlendup (t : option loc) (p : bytes) (len : nat) : M (option loc) :=
  ret ← __talloc t (Z.of_nat len + 1);
  match ret with
  | None => mret None
  | Some r =>
      (if decide (len ≤ length p)%nat then write_at r 0 (take len p) else undefined);;
      write_at r len [NUL];;
      _talloc_set_name_const ret (name_in r);;
      mret ret
  end.

(** A string argument is the memory from the pointer on, [None] for NULL. *)
Definition talloc_strdup (t : option loc) (p : option bytes) : M (option loc) :=
  match p with
  | None => mret None
  | Some p => n ← lift (strlen p); __talloc_strlendup t p n
  end.

Fixpoint strnlen (m : bytes) (n : nat) {struct n} : res nat :=
  match n with
  | O => Ok O
  | S n => match m with [] => UB | c :: m => if decide (c = NUL) then Ok O else S <$> strnlen m n end
  end.

Definition talloc_strndup (t : option loc) (p : option bytes) (n : nat) : M (option loc) :=
  match p with
  | None => mret None
  | Some p => n ← lift (strnlen p n); __talloc_strlendup t p n
  end.

(** ** Arrays *)

(** [count] is an [unsigned]. *)
Definition array_too_big (el_size count : Z) : M bool :=
  if el_size =? 0 then undefined else mret (MAX_TALLOC_SIZE / el_size <=? count).

Definition _talloc_array (ctx : option loc) (el_size count : Z) (name : cname) : M (option loc) :=
  b ← array_too_big el_size count;
  if b : bool then mret None else _talloc_named_const ctx (wrapu wb (el_size * count)) name.

Definition _talloc_zero_array (ctx : option loc) (el_size count : Z) (name : cname) : M (option loc) :=
  b ← array_too_big el_size count;
  if b : bool then mret None else _talloc_zero ctx (wrapu wb (el_size * count)) name.

Definition _talloc_realloc_array (fuel : nat) (ctx ptr : option loc) (el_size count : Z) (name : cname)
    : M (option loc) :=
  b ← array_too_big el_size count;
  if b : bool then mret None else _talloc_realloc fuel ctx ptr (wrapu wb (el_size * count)) name.

(** ** Appending to a string *)

(** [talloc_realloc(NULL, s, char, n)]. *)
Definition realloc_char (fuel : nat) (s : option loc) (n : Z) : M (option loc) :=
  _talloc_realloc_array fuel None s 1 (wrapu 32 n) (name_const (lit "char")).

Definition __talloc_strlendup_append (fuel : nat) (s : option loc) (slen : nat) (a : bytes) (alen : nat)
    : M (option loc) :=
  ret ← realloc_char fuel s (Z.of_nat slen + Z.of_nat alen + 1);
  match ret with
  | None => mret None
  | Some r =>
      (if decide (alen ≤ length a)%nat then write_at r slen (take alen a) else undefined);;
      write_at r (slen + alen) [NUL];;
      _talloc_set_name_const ret (name_in r);;
      mret ret
  end.

(** Where the append starts: the end of the string, or of the buffer. *)
Definition string_end (s : loc) : M nat := t ← string_at s; mret (length t).

Definition buffer_end (s : loc) : M nat :=
  n ← talloc_get_size (Some s); mret (if 0 <? n then Z.to_nat (n - 1) else O).

(** The four [talloc_str*dup_append*]: [end_of] and [len_of] are [strlen] or the
    size of the buffer, [strlen] or [strnlen]. *)
Definition strdup_append_gen (fuel : nat) (end_of : loc → M nat) (len_of : bytes → res nat)
    (s : option loc) (a : option bytes) : M (option loc) :=
  match s, a with
  | None, _ => talloc_strdup None a
  | Some _, None => mret s
  | Some p, Some a =>
      slen ← end_of p; alen ← lift (len_of a); __talloc_strlendup_append fuel s slen a alen
  end.

Definition talloc_strdup_append fuel := strdup_append_gen fuel string_end strlen.
Definition talloc_strdup_append_buffer fuel := strdup_append_gen fuel buffer_end strlen.
Definition talloc_strndup_append fuel s a (n : nat) :=
  strdup_append_gen fuel string_end (λ a, strnlen a n) s a.
Definition talloc_strndup_append_buffer fuel s a (n : nat) :=
  strdup_append_gen fuel buffer_end (λ a, strnlen a n) s a.

Definition __talloc_vaslenprintf_append (fuel : nat) (s : option loc) (slen : nat) (text : option bytes)
    : M (option loc) :=
  match text with
  | None | Some [] => mret s
  | Some a =>
      s ← realloc_char fuel s (Z.of_nat slen + Z.of_nat (length a) + 1);
      match s with
      | None => mret None
      | Some p =>
          write_at p slen (a ++ [NUL]);; _talloc_set_name_const s (name_in p);; mret s
      end
  end.

Definition vasprintf_append_gen (fuel : nat) (end_of : loc → M nat) (s : option loc)
    (text : option bytes) : M (option loc) :=
  match s with
  | None => talloc_vasprintf None text
  | Some p => slen ← end_of p; __talloc_vaslenprintf_append fuel s slen text
  end.

Definition talloc_vasprintf_append fuel := vasprintf_append_gen fuel string_end.
Definition talloc_vasprintf_append_buffer fuel := vasprintf_append_gen fuel buffer_end.
Definition talloc_asprintf_append := talloc_vasprintf_append.
Definition talloc_asprintf_append_buffer := talloc_vasprintf_append_buffer.

(** ** Reports *)

(** [for (c = tc->child; c; c = c->next) ...], the results in order. *)
Fixpoint walk_siblings {A} (f : loc → M (list A)) (n : nat) (c : option loc) : M (list A) :=
  match c with
  | None => mret []
  | Some p =>
      match n with
      | O => out_of_fuel
      | S n => a ← f p; nx ← fld tc_next p; b ← walk_siblings f n nx; mret (a ++ b)
      end
  end.

(** [callback ptr depth is_ref]; the results of the calls, in order. *)
Fixpoint report_loop {A} (callback : option loc → Z → bool → M A) (max_depth : Z) (n : nat)
    (ptr : loc) (depth : Z) : M (list A) :=
  tc ← talloc_chunk_from_ptr (Some ptr);
  looping ← fld tc_flag_loop tc;
  if looping : bool then mret []
  else
    a ← callback (Some ptr) depth false;
    if (0 <=? max_depth) && (max_depth <=? depth) then mret [a]
    else
      upd tc (set_flag_loop true);;
      match n with
      | O => out_of_fuel
      | S n =>
          c ← fld tc_child tc;
          l ← walk_siblings (λ c,
                nm ← fld tc_name c;
                if decide (nm = TALLOC_MAGIC_REFERENCE) then
                  d ← fld tc_data c;
                  match d with
                  | Handle _ _ h_ptr => r ← callback h_ptr (depth + 1) true; mret [r]
                  | Bytes _ => undefined
                  end
                else report_loop callback max_depth n c (depth + 1)) n c;
          upd tc (set_flag_loop false);;
          mret (a :: l)
      end.

Definition talloc_report_depth_cb {A} (ptr : option loc) (depth max_depth : Z)
    (callback : option loc → Z → bool → M A) : M (list A) :=
  ptr ← context_or_null ptr;
  match ptr with None => mret [] | Some p => n ← bound; report_loop callback max_depth n p depth end.

(** [%ns], [%nlu] and [%*s] of an empty string. *)
Definition pad_left (n : nat) (s : bytes) : bytes := replicate (n - length s) " "%char ++ s.
Definition indent (depth : Z) : bytes := replicate (Z.to_nat (depth * 4)) " "%char.

(** [fmt_p] is [%p]. *)
Definition talloc_report_depth_FILE_helper (fmt_p : option loc → bytes) (max_depth : Z)
    (ptr : option loc) (depth : Z) (is_ref : bool) : M bytes :=
  name ← talloc_get_name ptr;
  if is_ref then mret (indent depth ++ lit "reference to: " ++ name ++ [newline_c])
  else
    total ← talloc_total_size ptr; blocks ← talloc_total_blocks ptr;
    if depth =? 0 then
      mret ((if max_depth <? 0 then lit "full " else []) ++ lit "talloc report on '" ++ name
            ++ lit "' (total " ++ pad_left 6 (fmt_d total) ++ lit " bytes in "
            ++ pad_left 3 (fmt_d blocks) ++ lit " blocks)" ++ [newline_c])
    else
      refs ← talloc_reference_count ptr;
      mret (indent depth ++ pad_right 30 name ++ lit " contains " ++ pad_left 6 (fmt_d total)
            ++ lit " bytes in " ++ pad_left 3 (fmt_d blocks) ++ lit " blocks (ref "
            ++ fmt_d (wraps 32 refs) ++ lit ") " ++ fmt_p ptr ++ [newline_c]).

Definition talloc_report_depth_file (fmt_p : option loc → bytes) (ptr : option loc) (depth max_depth : Z)
    : M bytes :=
  l ← talloc_report_depth_cb ptr depth max_depth (talloc_report_depth_FILE_helper fmt_p max_depth);
  mret (concat l).

Definition talloc_report_full fmt_p ptr := talloc_report_depth_file fmt_p ptr 0 (-1).
Definition talloc_report fmt_p ptr := talloc_report_depth_file fmt_p ptr 0 1.

(** What the process prints of an exit function. *)
Definition run_exit_fn (fuel : nat) (fmt_p : option loc → bytes) (f : exit_fn) : M bytes :=
  h ← get_heap;
  match f with
  | talloc_report_null =>
      n ← talloc_total_size (null_context h);
      if n =? 0 then mret [] else talloc_report fmt_p (null_context h)
  | talloc_report_null_full =>
      n ← talloc_total_size (null_context h);
      if n =? 0 then mret [] else talloc_report_full fmt_p (null_context h)
  | talloc_autofree => _talloc_free fuel (autofree_context h);; mret []
  end.

Definition talloc_show_parents (context : option loc) : M bytes :=
  match context with
  | None => mret (lit "talloc no parents for NULL" ++ [newline_c])
  | Some _ =>
      tc ← talloc_chunk_from_ptr context; nm ← talloc_get_name context; n ← bound;
      let line nm := lit "	'" ++ nm ++ lit "'" ++ [newline_c] in
      (fix loop (n : nat) (tc : option loc) (acc : bytes) : M bytes :=
         match tc with
         | None => mret acc
         | Some p =>
             nm ← talloc_get_name (Some p);
             match n with
             | O => out_of_fuel
             | S n => p ← first_sibling p; up ← fld tc_parent p; loop n up (acc ++ line nm)
             end
         end) n (Some tc) (lit "talloc parents of '" ++ nm ++ lit "'" ++ [newline_c])
  end.
End talloc.
