(* ===== verification/TallocHeap.v ===== *)
(** * Running programs of the talloc heap, and linked lists of chunks

    Equations that execute the primitives of Talloc.v on a heap whose chunks
    are known, and [dll], the doubly linked list of the children of a chunk. *)

From S2P Require Import Prelude CString Talloc.

Local Open Scope Z_scope.

(** ** Execution *)

Lemma M_ret_bind {A B} (a : A) (k : A → M B) h : (x ← mret a; k x) h = k a h.
Proof. done. Qed.

Lemma M_bind_assoc {A B C} (m : M A) (f : A → M B) (g : B → M C) h :
  (y ← (x ← m; f x); g y) h = (x ← m; y ← f x; g y) h.
Proof. unfold mbind, M_bind. by destruct (m h) as [[a h']| |]. Qed.

Lemma M_bind_ok {A B} (m : M A) (k : A → M B) h a h' :
  m h = Ok (a, h') → (x ← m; k x) h = k a h'.
Proof. unfold mbind, M_bind. by intros ->. Qed.

Lemma fld_ok {A} (f : talloc_chunk → A) p h c : mem h !! p = Some c → fld f p h = Ok (f c, h).
Proof. unfold fld, get, mbind, M_bind. by intros ->. Qed.

Lemma fld_bind {A B} (f : talloc_chunk → A) p (k : A → M B) h c :
  mem h !! p = Some c → (x ← fld f p; k x) h = k (f c) h.
Proof. intros. by apply M_bind_ok, fld_ok. Qed.

Lemma upd_ok p f h c : mem h !! p = Some c → upd p f h = Ok (tt, set_mem (<[p:=f c]> (mem h)) h).
Proof. unfold upd. by intros ->. Qed.

Lemma upd_bind {B} p f (k : M B) h c :
  mem h !! p = Some c → (upd p f;; k) h = k (set_mem (<[p:=f c]> (mem h)) h).
Proof. intros. by erewrite M_bind_ok by by apply upd_ok. Qed.

Lemma chunk_from_ptr_ok p h c :
  mem h !! p = Some c → tc_flag_free c = false → talloc_chunk_from_ptr (Some p) h = Ok (p, h).
Proof.
  intros Hp Hf. unfold talloc_chunk_from_ptr. rewrite M_bind_ok with (a := p) (h' := h) by done.
  by erewrite fld_bind, Hf by exact Hp.
Qed.

Lemma chunk_from_ptr_bind {B} p (k : loc → M B) h c :
  mem h !! p = Some c → tc_flag_free c = false → (x ← talloc_chunk_from_ptr (Some p); k x) h = k p h.
Proof. intros. eapply M_bind_ok, chunk_from_ptr_ok; eauto. Qed.

Lemma bound_bind {B} (k : nat → M B) h : (n ← bound; k n) h = k (S (size (mem h))) h.
Proof. done. Qed.

Lemma get_heap_bind {B} (k : heap → M B) h : (x ← get_heap; k x) h = k h h.
Proof. done. Qed.

(** Two memories that differ only in the links. *)
Definition strip (c : talloc_chunk) : talloc_chunk :=
  set_next None (set_prev None (set_parent None (set_child None c))).

Definition same_but_links (m m' : chunks) : Prop := strip <$> m = strip <$> m'.

#[global] Instance same_but_links_equiv : Equivalence same_but_links.
Proof. split; unfold same_but_links; [by intros ?|by intros ??|by intros ??? -> ->]. Qed.

Lemma same_insert m m' p c c' :
  same_but_links m m' → m !! p = Some c → strip c = strip c' → same_but_links m (<[p:=c']> m').
Proof.
  unfold same_but_links. intros H Hp Hs. rewrite fmap_insert, <- Hs, <- H, <- fmap_insert.
  f_equal. symmetry. by apply insert_id.
Qed.

Lemma same_lookup m m' p c :
  same_but_links m m' → m !! p = Some c → ∃ c', m' !! p = Some c' ∧ strip c = strip c'.
Proof.
  intros H Hp. assert ((strip <$> m') !! p = Some (strip c)) as E.
  { rewrite <- H, lookup_fmap, Hp. done. }
  rewrite lookup_fmap in E. destruct (m' !! p) as [c'|]; [|done]. apply (inj Some) in E. by exists c'.
Qed.

Lemma same_is_Some m m' p : same_but_links m m' → is_Some (m !! p) ↔ is_Some (m' !! p).
Proof.
  intros H. split; intros [c Hc].
  - destruct (same_lookup _ _ _ _ H Hc) as (c' & ? & _). eauto.
  - symmetry in H. destruct (same_lookup _ _ _ _ H Hc) as (c' & ? & _). eauto.
Qed.

Lemma strip_loop c c' : strip c = strip c' → tc_flag_loop c = tc_flag_loop c'.
Proof. intros E. change (tc_flag_loop (strip c) = tc_flag_loop (strip c')). by rewrite E. Qed.

Lemma strip_free c c' : strip c = strip c' → tc_flag_free c = tc_flag_free c'.
Proof. intros E. change (tc_flag_free (strip c) = tc_flag_free (strip c')). by rewrite E. Qed.

(** ** Doubly linked lists *)

(** From the chunk after [pv], with parent [par], the chunks of [l] are linked in
    this order; the next of the last one is [nx].  Only the first has a parent. *)
Fixpoint dll (m : chunks) (par pv : option loc) (l : list loc) (nx : option loc) : Prop :=
  match l with
  | [] => True
  | c :: r =>
      (∃ ch, m !! c = Some ch ∧ tc_next ch = match r with [] => nx | d :: _ => Some d end
             ∧ tc_prev ch = pv ∧ tc_parent ch = par)
      ∧ dll m None (Some c) r nx
  end.

(** The links of a chunk between siblings and to the parent. *)
Definition side_links (c : talloc_chunk) : option loc * option loc * option loc :=
  (tc_next c, tc_prev c, tc_parent c).

Lemma dll_frame m m' par pv l nx :
  dll m par pv l nx → (∀ c, c ∈ l → side_links <$> m' !! c = side_links <$> m !! c) → dll m' par pv l nx.
Proof.
  revert par pv. induction l as [|c r IH]; intros par pv; [done|].
  intros [(ch & Hc & Hn & Hp & Hq) Hr] Hf. split.
  - specialize (Hf c ltac:(by left)). rewrite Hc in Hf.
    destruct (m' !! c) as [ch'|]; [|done]. injection Hf as Hn' Hp' Hq'. exists ch'.
    split_and!; congruence.
  - apply IH; [done|]. intros. apply Hf. by right.
Qed.

Lemma dll_insert m par pv l nx p c : p ∉ l → dll m par pv l nx → dll (<[p:=c]> m) par pv l nx.
Proof. intros Hp H. eapply dll_frame; [exact H|]. intros q Hq. by rewrite lookup_insert_ne by congruence. Qed.

(** The chunk at a place of the list. *)
Lemma dll_at m par pv a c b nx :
  dll m par pv (a ++ c :: b) nx →
  ∃ ch, m !! c = Some ch
    ∧ tc_next ch = match b with [] => nx | d :: _ => Some d end
    ∧ tc_prev ch = match last a with None => pv | v => v end
    ∧ tc_parent ch = match a with [] => par | _ => None end.
Proof.
  revert par pv. induction a as [|x a IH]; intros par pv; cbn [app dll].
  - intros [(ch & ? & ? & ? & ?) _]. exists ch. by split_and!.
  - intros [_ H]. destruct (IH _ _ H) as (ch & ? & ? & Hp & Hq). exists ch. split_and!; try done.
    + rewrite Hp. rewrite last_cons. by destruct (last a).
    + rewrite Hq. by destruct a.
Qed.

Lemma dll_app m par pv a b nx :
  dll m par pv (a ++ b) nx ↔
  dll m par pv a (match b with [] => nx | d :: _ => Some d end) ∧
  dll m (match a with [] => par | _ => None end) (match last a with None => pv | v => v end) b nx.
Proof.
  revert par pv. induction a as [|x a IH]; intros par pv; cbn [app dll]; [by intuition|].
  rewrite IH, last_cons. destruct a as [|y a]; cbn [app].
  - cbn. destruct b; tauto.
  - destruct (last (y :: a)) eqn:E; [tauto|]. by apply last_None in E.
Qed.

Lemma dll_live m par pv l nx c : dll m par pv l nx → c ∈ l → is_Some (m !! c).
Proof.
  intros H (a & b & ->)%list_elem_of_split. apply dll_at in H as (ch & ? & _). eauto.
Qed.
