(* ===== verification/TallocTree.v ===== *)
(** * The hierarchy of chunks

    [tree_ok m K]: in the memory [m] the children of each chunk [p] are [K p], in
    the order of the list; a chunk that is in no list has no links, except while it
    is being freed (its flag is set).  Taking a chunk out of its list and putting it in
    front of another one keep the invariant, with the obvious effect on [K]. *)

From S2P Require Import Prelude CString Talloc TallocHeap.
From stdpp Require Import relations fin_sets.

Local Open Scope Z_scope.

Abbreviation children := (loc → list loc).

(** [c] is a child of [p]. *)
Definition child_of (K : children) (c p : loc) : Prop := c ∈ K p.

(** [p] is [c] or above it. *)
Definition ancestor (K : children) (c p : loc) : Prop := rtc (child_of K) c p.

Definition is_root (K : children) (c : loc) : Prop := ∀ p, c ∉ K p.

Record tree_ok (m : chunks) (K : children) : Prop := {
  t_live : ∀ p c, c ∈ K p → is_Some (m !! p);
  t_child : ∀ p ch, m !! p = Some ch → tc_child ch = head (K p);
  t_list : ∀ p, dll m (Some p) None (K p) None;
  t_nodup : ∀ p, NoDup (K p);
  t_uniq : ∀ p q c, c ∈ K p → c ∈ K q → p = q;
  t_root : ∀ c ch, m !! c = Some ch → is_root K c → tc_flag_loop ch = false →
    side_links ch = (None, None, None);
  t_acyc : ∀ p, ¬ tc (child_of K) p p;
}.

(** ** Consequences *)

(** The chunks from [c] up to its root. *)
Inductive up (K : children) : loc → list loc → Prop :=
| up_root c : is_root K c → up K c [c]
| up_step c p l : c ∈ K p → up K p l → up K c (c :: l).

Section facts.
Context (m : chunks) (K : children) (Hok : tree_ok m K).

Lemma child_live p c : c ∈ K p → is_Some (m !! c).
Proof. intros H. eapply dll_live; [apply (t_list _ _ Hok p)|done]. Qed.

Lemma not_own_child p : p ∉ K p.
Proof. intros H. apply (t_acyc _ _ Hok p). by apply tc_once. Qed.

Lemma above_live c p : tc (child_of K) c p → is_Some (m !! p).
Proof. induction 1 as [? ? H|]; [by eapply t_live|done]. Qed.

(** There is a list for the chunk, or it is a root. *)
Lemma root_or_child c : is_Some (m !! c) → is_root K c ∨ ∃ p, c ∈ K p.
Proof.
  intros _. destruct (decide (Exists (λ p, c ∈ K p) (elements (dom m)))) as [H|H].
  - right. apply Exists_exists in H as (p & _ & Hp). eauto.
  - left. intros p Hp. apply H, Exists_exists. exists p. split; [|done].
    apply elem_of_elements, elem_of_dom. by eapply t_live.
Qed.

Lemma up_exists c : is_Some (m !! c) → ∃ l, up K c l.
Proof.
  intros Hc. assert (sn (child_of K) c) as Hsn.
  { apply tc_finite_sn; [intros p; apply (t_acyc _ _ Hok p)|].
    exists (elements (dom m)). intros p Hp. apply elem_of_elements, elem_of_dom. by eapply above_live. }
  induction Hsn as [c _ IH]. destruct (root_or_child c Hc) as [Hr|[p Hp]].
  - exists [c]. by constructor.
  - destruct (IH p Hp) as [l Hl]; [by eapply t_live|]. exists (c :: l). by econstructor.
Qed.

Lemma up_ancestor c l : up K c l → ∀ p, p ∈ l ↔ ancestor K c p.
Proof.
  induction 1 as [c Hr|c q l Hq _ IH]; intros p.
  - rewrite list_elem_of_singleton. split; [intros ->; apply rtc_refl|].
    intros H. apply rtc_inv in H as [->|(y & Hy & _)]; [done|]. by destruct (Hr y).
  - rewrite elem_of_cons, IH. split; [intros [->|H]; [apply rtc_refl|by eapply rtc_l]|].
    intros H. apply rtc_inv in H as [->|(y & Hy & H)]; [by left|]. right.
    by rewrite (t_uniq _ _ Hok q y c).
Qed.

Lemma up_nodup c l : up K c l → NoDup l.
Proof.
  induction 1 as [c Hr|c q l Hq Hl IH]; [apply NoDup_singleton|]. constructor; [|done].
  rewrite (up_ancestor _ _ Hl). intros H. apply (t_acyc _ _ Hok c). by eapply tc_rtc_r; [apply tc_once|].
Qed.

Lemma nodup_live_length l : NoDup l → (∀ p, p ∈ l → is_Some (m !! p)) → (length l ≤ size m)%nat.
Proof.
  intros Hn Hl. rewrite <- size_dom, <- (size_list_to_set (C := gset loc)) by done.
  apply subseteq_size. intros p Hp%elem_of_list_to_set. by apply elem_of_dom, Hl.
Qed.

Lemma up_length c l : is_Some (m !! c) → up K c l → (length l ≤ size m)%nat.
Proof.
  intros Hc Hl. apply nodup_live_length; [by eapply up_nodup|].
  intros p Hp. rewrite (up_ancestor _ _ Hl) in Hp.
  apply rtc_inv in Hp as [<-|(y & Hy & H)]; [done|]. apply (above_live c).
  by eapply tc_rtc_r; [apply tc_once|].
Qed.

Lemma kids_length p : (length (K p) ≤ size m)%nat.
Proof. apply nodup_live_length; [by apply (t_nodup _ _ Hok)|apply child_live]. Qed.

(** A chunk in its list. *)
Lemma child_split p c : c ∈ K p → ∃ a b, K p = a ++ c :: b ∧ (c ∉ a) ∧ (c ∉ b).
Proof.
  intros (a & b & E)%list_elem_of_split. pose proof (t_nodup _ _ Hok p) as Hn. rewrite E in Hn.
  exists a, b. split; [done|]. apply NoDup_app in Hn as (_ & Ha & Hcb). apply NoDup_cons in Hcb as [Hb _].
  split; [|done]. intros H. apply (Ha c H). by left.
Qed.
End facts.

(** ** Adding an edge *)

Lemma tc_add_edge {A} (R R' : relation A) c q :
  (∀ x y, R' x y → R x y ∨ (x = c ∧ y = q)) →
  ∀ x y, tc R' x y → tc R x y ∨ (rtc R x c ∧ rtc R q y).
Proof.
  intros HR x y. induction 1 as [x y H|x y z H _ IH].
  - destruct (HR _ _ H) as [?|[-> ->]]; [left; by apply tc_once|right; by split].
  - destruct (HR _ _ H) as [Hxy|[-> ->]], IH as [IH|[IH1 IH2]].
    + left. by eapply tc_l.
    + right. split; [by eapply rtc_l|done].
    + right. split; [done|]. by apply tc_rtc.
    + by right.
Qed.

Lemma acyclic_add_edge {A} (R R' : relation A) c q :
  (∀ x y, R' x y → R x y ∨ (x = c ∧ y = q)) → (∀ x, ¬ tc R x x) → ¬ rtc R q c → ∀ x, ¬ tc R' x x.
Proof.
  intros HR Hac Hq x H. destruct (tc_add_edge _ _ _ _ HR _ _ H) as [?|[H1 H2]]; [by eapply Hac|].
  apply Hq. by etrans.
Qed.

Lemma acyclic_sub {A} (R R' : relation A) :
  (∀ x y, R' x y → R x y) → (∀ x, ¬ tc R x x) → ∀ x, ¬ tc R' x x.
Proof.
  intros HR Hac x H. apply (Hac x). revert H. generalize x at 2 4. intros y H.
  induction H as [? ? H|? ? ? H _ IH]; [by apply tc_once, HR|]. by eapply tc_l; [apply HR|].
Qed.

(** ** Taking a chunk out *)

Definition remove_child (K : children) (c : loc) : children := λ p, filter (λ x, x ≠ c) (K p).

Lemma elem_of_remove_child K c x p : x ∈ remove_child K c p ↔ x ≠ c ∧ x ∈ K p.
Proof. unfold remove_child. by rewrite list_elem_of_filter. Qed.

Lemma remove_child_id K c p : c ∉ K p → remove_child K c p = K p.
Proof.
  unfold remove_child. induction (K p) as [|x l IH]; [done|]. rewrite not_elem_of_cons. intros [Hx Hl].
  rewrite filter_cons_True by congruence. by rewrite IH.
Qed.

Lemma remove_child_split K c p a b :
  K p = a ++ c :: b → c ∉ a → c ∉ b → remove_child K c p = a ++ b.
Proof.
  intros E Ha Hb. unfold remove_child. rewrite E, filter_app, filter_cons_False by congruence.
  change (filter (λ x, x ≠ c) a) with (remove_child (λ _, a) c p).
  change (filter (λ x, x ≠ c) b) with (remove_child (λ _, b) c p).
  by rewrite !remove_child_id.
Qed.

Definition clear_links (c : talloc_chunk) : talloc_chunk := set_next None (set_prev None (set_parent None c)).

Lemma insert_fmap_ne {A} (f : talloc_chunk → A) (m : chunks) p c q :
  p ≠ q → f <$> <[p:=c]> m !! q = f <$> m !! q.
Proof. intros. by rewrite lookup_insert_ne. Qed.

(** The memory [m'] is [m] with [c] taken out of [K p]. *)
Record taken_out (m m' : chunks) (K : children) (c : loc) : Prop := {
  to_same : same_but_links m m';
  to_child : ∀ q ch, m' !! q = Some ch → tc_child ch = head (remove_child K c q);
  to_list : ∀ q, dll m' (Some q) None (remove_child K c q) None;
  to_root : ∀ q, q ≠ c → is_root K q → side_links <$> m' !! q = side_links <$> m !! q;
}.

Lemma taken_out_ok m m' K c ch :
  tree_ok m K → taken_out m m' K c → m' !! c = Some ch →
  tree_ok (<[c := clear_links ch]> m') (remove_child K c).
Proof.
  intros Hok [Hs Hc Hl Hr] Hch. split.
  - intros p x [_ Hx]%elem_of_remove_child. apply lookup_insert_is_Some'. right.
    apply (same_is_Some _ _ p Hs). by eapply t_live.
  - intros p ch'. rewrite lookup_insert. case_decide as Hp.
    + subst p. intros [= <-]. exact (Hc c ch Hch).
    + apply Hc.
  - intros p. apply dll_insert, Hl. rewrite elem_of_remove_child. tauto.
  - intros p. apply NoDup_filter, (t_nodup _ _ Hok).
  - intros p q x [_ Hp]%elem_of_remove_child [_ Hq]%elem_of_remove_child. by eapply t_uniq.
  - intros q ch'. rewrite lookup_insert. case_decide as Hq.
    + subst q. by intros [= <-].
    + intros Hq' Hroot Hlp. assert (is_root K q) as HrK.
      { intros p Hp. apply (Hroot p), elem_of_remove_child. by split. }
      specialize (Hr q ltac:(done) HrK). rewrite Hq' in Hr.
      symmetry in Hs. destruct (same_lookup _ _ _ _ Hs Hq') as (chm & Em & Es).
      rewrite Em in Hr. apply (inj Some) in Hr.
      rewrite Hr. eapply t_root; [done..|]. rewrite <- Hlp. symmetry. by apply strip_loop.
  - apply (acyclic_sub (child_of K)); [|by apply (t_acyc _ _ Hok)].
    intros x y [_ H]%elem_of_remove_child. exact H.
Qed.

(** Pointwise conditions for [taken_out]. *)
Lemma taken_out_intro m m' K c p a b :
  tree_ok m K → K p = a ++ c :: b → (c ∉ a) → (c ∉ b) →
  same_but_links m m' →
  (∀ q, q ≠ p → tc_child <$> m' !! q = tc_child <$> m !! q) →
  (∀ ch, m' !! p = Some ch → tc_child ch = head (a ++ b)) →
  dll m' (Some p) None (a ++ b) None →
  (∀ q, q ∉ K p → side_links <$> m' !! q = side_links <$> m !! q) →
  taken_out m m' K c.
Proof.
  intros Hok E Ha Hb Hs Hc Hcp Hl Hr.
  assert (∀ q, q ≠ p → remove_child K c q = K q) as Hid.
  { intros q Hq. apply remove_child_id. intros H. apply Hq. eapply (t_uniq _ _ Hok q p c); [done|].
    rewrite E. set_solver. }
  pose proof (remove_child_split K c p a b E Ha Hb) as Hp. split.
  - done.
  - intros q ch Hq. destruct (decide (q = p)) as [->|Hne]; [rewrite Hp; by apply Hcp|].
    rewrite Hid by done. specialize (Hc q Hne). rewrite Hq in Hc.
    destruct (m !! q) as [chq|] eqn:Eq; [|done]. apply (inj Some) in Hc. rewrite Hc. by eapply t_child.
  - intros q. destruct (decide (q = p)) as [->|Hne]; [by rewrite Hp|]. rewrite Hid by done.
    eapply dll_frame; [by apply (t_list _ _ Hok)|]. intros x Hx. apply Hr.
    intros H. apply Hne. by eapply (t_uniq _ _ Hok q p x).
  - intros q _ Hq. by apply Hr.
Qed.

(** Execution by rewriting, on a heap given by its fields. *)
Section execution.
Context {B : Type} (m : chunks) (nc ac : option loc) (ae : list exit_fn).

Lemma x_fld {A} (f : talloc_chunk → A) p (k : A → M B) c :
  m !! p = Some c → (x ← fld f p; k x) (Heap m nc ac ae) = k (f c) (Heap m nc ac ae).
Proof. exact (fld_bind f p k (Heap m nc ac ae) c). Qed.

Lemma x_upd p f (k : M B) c :
  m !! p = Some c → (upd p f;; k) (Heap m nc ac ae) = k (Heap (<[p:=f c]> m) nc ac ae).
Proof. exact (upd_bind p f k (Heap m nc ac ae) c). Qed.

Lemma x_link (f : talloc_chunk → option (option loc)) p (k : option loc → M B) c v :
  m !! p = Some c → f c = Some v →
  (x ← link f p; k x) (Heap m nc ac ae) = k v (Heap m nc ac ae).
Proof.
  intros Hp Hf. unfold link. rewrite M_bind_assoc. unfold get, mbind, M_bind. cbn.
  rewrite Hp. cbn. by rewrite Hf.
Qed.

Lemma x_deref p (k : loc → M B) : (x ← deref (Some p); k x) (Heap m nc ac ae) = k p (Heap m nc ac ae).
Proof. done. Qed.

Lemma x_ptr p (k : loc → M B) c :
  m !! p = Some c → tc_flag_free c = false →
  (x ← talloc_chunk_from_ptr (Some p); k x) (Heap m nc ac ae) = k p (Heap m nc ac ae).
Proof. exact (chunk_from_ptr_bind p k (Heap m nc ac ae) c). Qed.

Lemma x_get_heap (k : heap → M B) :
  (x ← get_heap; k x) (Heap m nc ac ae) = k (Heap m nc ac ae) (Heap m nc ac ae).
Proof. done. Qed.

Lemma x_modify f (k : M B) :
  (modify f;; k) (Heap m nc ac ae) = k (f (Heap m nc ac ae)).
Proof. done. Qed.

(** The last step. *)
Lemma x_upd_end p f c :
  m !! p = Some c → upd p f (Heap m nc ac ae) = Ok (tt, Heap (<[p:=f c]> m) nc ac ae).
Proof. exact (upd_ok p f (Heap m nc ac ae) c). Qed.
End execution.

(** Look a chunk up in a memory given by insertions. *)
Ltac lk :=
  repeat first
    [ rewrite lookup_insert_eq; reflexivity
    | rewrite lookup_insert_ne by first [assumption | apply not_eq_sym; assumption | congruence] ];
  try eassumption; reflexivity.

Ltac msimp :=
  cbn [tc_next tc_prev tc_parent tc_child tc_refs tc_destructor tc_name tc_size tc_flag_free tc_flag_loop
       tc_data set_next set_prev set_parent set_child when_some lk_next lk_prev lk_set_next lk_set_prev
       chunk_links child_head fst snd null_context autofree_context at_exit mem].

Ltac mstep :=
  first
    [ rewrite M_bind_assoc
    | rewrite M_ret_bind
    | rewrite x_get_heap
    | rewrite x_deref
    | erewrite x_fld by lk
    | erewrite x_upd by lk
    | erewrite x_link by first [lk | reflexivity]
    | erewrite x_upd_end by lk ].

Ltac mrun := msimp; repeat (mstep; msimp).

(** Facts on each chunk of a memory given by insertions. *)
Ltac pointwise :=
  intros; repeat (rewrite lookup_insert; case_decide); subst;
  repeat match goal with H : ?m !! ?p = Some _ |- context [?m !! ?p] => rewrite H end;
  try done; try congruence.

(** Insertions keep a chunk. *)
Ltac live := intros; repeat (rewrite lookup_insert; case_decide; [by eauto|]); done.

(** Membership in lists given by their elements. *)
Ltac elem :=
  repeat match goal with
    | H : context [_ ∈ _ ++ _] |- _ => rewrite elem_of_app in H
    | H : context [_ ∈ _ :: _] |- _ => rewrite elem_of_cons in H
    | H : context [_ ∈ []] |- _ => rewrite elem_of_nil in H
    end;
  rewrite ?elem_of_app, ?elem_of_cons, ?elem_of_nil;
  first [tauto | intuition congruence].

(** Only links were written. *)
Ltac same_links :=
  repeat first [reflexivity | eapply same_insert; [|lk|reflexivity]].

(** ** [unlink_chunk] *)

Lemma unlink_head m nc ac ae K p c b :
  tree_ok m K → K p = c :: b →
  ∃ m', unlink_chunk c (Heap m nc ac ae) = Ok (tt, Heap m' nc ac ae) ∧ taken_out m m' K c.
Proof.
  intros Hok E. pose proof (t_list _ _ Hok p) as Hl. rewrite E in Hl.
  destruct Hl as [(ch & Hc & Hn & Hv & Hp) Hl].
  destruct (t_live _ _ Hok p c) as [cp Hcp]; [rewrite E; by left|].
  pose proof (t_child _ _ Hok p cp Hcp) as Hch. rewrite E in Hch. cbn in Hch.
  assert (p ∉ c :: b) as Hpk. { rewrite <- E. apply (not_own_child _ _ Hok). }
  apply not_elem_of_cons in Hpk as [Hpc Hpb].
  pose proof (t_nodup _ _ Hok p) as Hnd. rewrite E in Hnd. apply NoDup_cons in Hnd as [Hcb Hnd].
  unfold unlink_chunk. mrun. rewrite Hp. unfold TLIST_REMOVE. mrun.
  rewrite Hch, decide_True by done. mrun. 
  rewrite Hn. destruct b as [|d b].
  - mrun. rewrite decide_False by done. mrun. rewrite Hp. mrun. eexists. split; [done|].
    apply (taken_out_intro m _ K c p [] []); try done.
    + same_links.
    + pointwise.
    + intros cx. rewrite !lookup_insert_ne, lookup_insert_eq by done. by intros [= <-].
    + rewrite E. intros q Hq. assert (q ≠ c) by elem. pointwise.
  - apply not_elem_of_cons in Hpb as [Hpd Hpb]. apply not_elem_of_cons in Hcb as [Hcd Hcb].
    apply NoDup_cons in Hnd as [Hdb Hnd].
    destruct Hl as [(cd & Hd & Hdn & Hdv & Hdp) Hl].
    mrun. rewrite decide_False by congruence. mrun. rewrite Hp. mrun. eexists. split; [done|].
    apply (taken_out_intro m _ K c p [] (d :: b)); try done.
    + elem.
    + elem.
    + same_links.
    + pointwise.
    + intros cx. rewrite !lookup_insert_ne, lookup_insert_eq by done. by intros [= <-].
    + cbn [app dll]. split.
      * eexists. rewrite lookup_insert_eq. split; [done|]. by split_and!.
      * eapply dll_frame; [exact Hl|]. intros x Hx. assert (x ≠ d) by congruence. assert (x ≠ c) by congruence. pointwise.
    + rewrite E. intros q Hq. assert (q ≠ c) by elem. assert (q ≠ d) by elem. pointwise.
Qed.

Lemma unlink_middle m nc ac ae K p c a v b :
  tree_ok m K → K p = (a ++ [v]) ++ c :: b →
  ∃ m', unlink_chunk c (Heap m nc ac ae) = Ok (tt, Heap m' nc ac ae) ∧ taken_out m m' K c.
Proof.
  intros Hok E. pose proof (t_list _ _ Hok p) as Hl. rewrite E in Hl.
  destruct (dll_at _ _ _ _ _ _ _ Hl) as (ch & Hc & Hn & Hv & Hp).
  assert (tc_parent ch = None) as Hp0 by (destruct a; done). clear Hp. rewrite last_snoc in Hv.
  destruct (t_live _ _ Hok p c) as [cp Hcp]; [rewrite E; elem|].
  assert (p ∉ (a ++ [v]) ++ c :: b) as Hpk. { rewrite <- E. apply (not_own_child _ _ Hok). }
  pose proof (t_nodup _ _ Hok p) as Hnd. rewrite E in Hnd.
  apply NoDup_app in Hnd as (Hna & Hac & Hnd). apply NoDup_cons in Hnd as [Hcb Hnd].
  apply NoDup_app in Hna as (Hna & Hav & _).
  apply dll_app in Hl as [Hla Hlb]. apply dll_app in Hla as [Hla [(cv & Hcv & Hvn & Hvv & Hvp) _]].
  destruct Hlb as [_ Hlb].
  assert (v ≠ c) as Hvc. { intros ->. apply (Hac c); elem. }
  assert (p ≠ v) as Hpv by elem. assert (c ∉ a) as Hca by (intros Hx; apply (Hac c); elem).
  assert (v ∉ a) as Hva by (intros Hx; apply (Hav v Hx); elem).
  unfold unlink_chunk. mrun. rewrite Hp0. mrun. rewrite Hv. mrun. rewrite Hn. destruct b as [|d b].
  - mrun. eexists. split; [done|].
    apply (taken_out_intro m _ K c p (a ++ [v]) []); try done; [elem|same_links|pointwise|..].
    + intros cx. rewrite lookup_insert_ne, Hcp by done. intros [= <-].
      rewrite (t_child _ _ Hok p cp Hcp), E. by destruct a.
    + rewrite app_nil_r. apply dll_app. split.
      * eapply dll_frame; [exact Hla|]. intros x Hx. assert (x ≠ v) by congruence. pointwise.
      * split; [|done]. eexists. rewrite lookup_insert_eq. by split_and!.
    + rewrite E. intros q Hq. assert (q ≠ v) by elem. pointwise.
  - destruct Hlb as [(cd & Hd & Hdn & Hdv & Hdp) Hlb]. apply NoDup_cons in Hnd as [Hdb Hnd].
    assert (c ≠ d) as Hcd by elem. assert (v ≠ d) as Hvd by (intros ->; apply (Hac d); elem).
    assert (d ∉ a) as Hda by (intros Hx; apply (Hac d); elem).
    assert (v ∉ b) as Hvb by (intros Hx; apply (Hac v); elem).
    mrun. rewrite Hv. eexists. split; [done|].
    apply (taken_out_intro m _ K c p (a ++ [v]) (d :: b)); try done; [elem|same_links|pointwise|..].
    + assert (p ≠ d) by elem. intros cx. rewrite !lookup_insert_ne, Hcp by done. intros [= <-].
      rewrite (t_child _ _ Hok p cp Hcp), E. by destruct a.
    + apply dll_app. split; [apply dll_app; split|].
      * eapply dll_frame; [exact Hla|]. intros x Hx. assert (x ≠ v) by congruence.
        assert (x ≠ d) by congruence. pointwise.
      * split; [|done]. eexists. rewrite lookup_insert_ne, lookup_insert_eq by done. by split_and!.
      * rewrite last_snoc. destruct (a ++ [v]) eqn:Ea; [by destruct a|]. split.
        -- eexists. rewrite lookup_insert_eq. by split_and!.
        -- eapply dll_frame; [exact Hlb|]. intros x Hx. assert (x ≠ v) by congruence.
           assert (x ≠ d) by congruence. pointwise.
    + rewrite E. intros q Hq. assert (q ≠ v) by elem. assert (q ≠ d) by elem. pointwise.
Qed.

Lemma unlink_root m nc ac ae K c ch :
  tree_ok m K → m !! c = Some ch → is_root K c → tc_flag_loop ch = false →
  unlink_chunk c (Heap m nc ac ae) = Ok (tt, Heap m nc ac ae) ∧ taken_out m m K c.
Proof.
  intros Hok Hc Hr Hlp. pose proof (t_root _ _ Hok c ch Hc Hr Hlp) as Hl. injection Hl as Hn Hv Hp. split.
  - unfold unlink_chunk. mrun. rewrite Hp. mrun. rewrite Hv, Hn. mrun. rewrite Hn. by mrun.
  - assert (∀ q, remove_child K c q = K q) as Hid by (intros q; by apply remove_child_id). split.
    + done.
    + intros q cq. rewrite Hid. by apply (t_child _ _ Hok).
    + intros q. rewrite Hid. apply (t_list _ _ Hok).
    + done.
Qed.

(** [unlink_chunk] takes a chunk out of the list it is in, if any. *)
Lemma unlink_chunk_spec m nc ac ae K c ch :
  tree_ok m K → m !! c = Some ch → tc_flag_loop ch = false →
  ∃ m', unlink_chunk c (Heap m nc ac ae) = Ok (tt, Heap m' nc ac ae) ∧ taken_out m m' K c.
Proof.
  intros Hok Hc Hlp. destruct (root_or_child m K Hok c) as [Hr|[p Hp]]; [eauto|..].
  - exists m. by eapply unlink_root.
  - destruct (child_split _ _ Hok p c Hp) as (a & b & E & _).
    destruct a as [|v a _] using rev_ind; [by eapply unlink_head|by eapply unlink_middle].
Qed.

(** ** Putting a root in front of a list *)

Definition add_child (K : children) (p c : loc) : children :=
  λ q, if decide (q = p) then c :: K p else K q.

Lemma elem_of_add_child K p c x q : x ∈ add_child K p c q ↔ x ∈ K q ∨ (x = c ∧ q = p).
Proof. unfold add_child. case_decide; subst; rewrite ?elem_of_cons; naive_solver. Qed.

(** [m2] is [m] with the root [c] put in front of the children of [p]. *)
Record put_in (m m2 : chunks) (K : children) (p c : loc) : Prop := {
  pi_same : same_but_links m m2;
  pi_child : ∀ q, q ≠ p → tc_child <$> m2 !! q = tc_child <$> m !! q;
  pi_parent : tc_child <$> m2 !! p = Some (Some c);
  pi_self : side_links <$> m2 !! c = Some (head (K p), None, Some p);
  pi_head : ∀ d, head (K p) = Some d →
    side_links <$> m2 !! d = (λ ch, (tc_next ch, Some c, None)) <$> m !! d;
  pi_other : ∀ q, q ≠ c → head (K p) ≠ Some q → side_links <$> m2 !! q = side_links <$> m !! q;
}.

Lemma put_in_ok m m2 K p c :
  tree_ok m K → is_root K c → is_Some (m !! c) → is_Some (m !! p) → ¬ ancestor K p c →
  put_in m m2 K p c → tree_ok m2 (add_child K p c).
Proof.
  intros Hok Hroot Hc Hp Hpc [Hsame Hchild Hpar Hself Hhead Hother].
  assert (∀ q, is_Some (m !! q) → is_Some (m2 !! q)) as Hlive by (intros q; by apply same_is_Some).
  assert (∀ q ch, m2 !! q = Some ch → q ≠ p → ∃ ch0, m !! q = Some ch0 ∧ tc_child ch = tc_child ch0) as Hback.
  { intros q ch Hq Hne. specialize (Hchild q Hne). rewrite Hq in Hchild.
    destruct (m !! q) as [ch0|]; [|done]. exists ch0. split; [done|]. by apply (inj Some) in Hchild. }
  split.
  - intros q x [Hx|[-> ->]]%elem_of_add_child; [|by apply Hlive]. apply Hlive. by eapply t_live.
  - intros q ch Hq. unfold add_child. case_decide as Hqp.
    + subst q. rewrite Hq in Hpar. by injection Hpar.
    + destruct (Hback q ch Hq Hqp) as (ch0 & H0 & ->). by apply (t_child _ _ Hok).
  - intros q. unfold add_child. case_decide as Hqp.
    + subst q. destruct (m2 !! c) as [chc|] eqn:Ec; [|discriminate Hself]. injection Hself as Hn Hv Hpp.
      pose proof (t_list _ _ Hok p) as Hl. cbn [dll]. split.
      * exists chc. by split_and!.
      * destruct (K p) as [|d b] eqn:E; [done|]. destruct Hl as [(cd & Hd & Hdn & Hdv & Hdp) Hl]. split.
        -- specialize (Hhead d eq_refl). rewrite Hd in Hhead.
           destruct (m2 !! d) as [cd2|]; [|done]. injection Hhead as ? ? ?. exists cd2. split_and!; congruence.
        -- eapply dll_frame; [exact Hl|]. intros x Hx. apply Hother.
           ++ intros ->. apply (Hroot p). rewrite E. by right.
           ++ cbn. intros [= ->]. pose proof (t_nodup _ _ Hok p) as Hnd. rewrite E in Hnd.
              apply NoDup_cons in Hnd as [? _]. done.
    + eapply dll_frame; [apply (t_list _ _ Hok)|]. intros x Hx. apply Hother.
      * intros ->. by apply (Hroot q).
      * intros Hd. apply Hqp. eapply (t_uniq _ _ Hok q p x); [done|].
        destruct (K p); [done|]. injection Hd as ->. by left.
  - intros q. unfold add_child. case_decide; [|apply (t_nodup _ _ Hok)].
    constructor; [apply Hroot|apply (t_nodup _ _ Hok)].
  - intros q q' x [Hq|[-> ->]]%elem_of_add_child [Hq'|[Hx ->]]%elem_of_add_child; [|subst x|..]; try done.
    + by eapply t_uniq.
    + by destruct (Hroot q).
    + by destruct (Hroot q').
  - intros q ch Hq Hr Hlp. assert (q ≠ c) as Hqc.
    { intros ->. apply (Hr p), elem_of_add_child. right. by split. }
    assert (is_root K q) as HrK. { intros x Hx. apply (Hr x), elem_of_add_child. by left. }
    assert (head (K p) ≠ Some q) as Hhd.
    { intros Hd. apply (HrK p). destruct (K p); [done|]. injection Hd as ->. by left. }
    specialize (Hother q Hqc Hhd). rewrite Hq in Hother.
    symmetry in Hsame. destruct (same_lookup _ _ _ _ Hsame Hq) as (ch0 & E0 & Es).
    rewrite E0 in Hother. apply (inj Some) in Hother. rewrite Hother.
    eapply t_root; [done..|]. rewrite <- Hlp. symmetry. by apply strip_loop.
  - apply (acyclic_add_edge (child_of K) _ c p); [|apply (t_acyc _ _ Hok)|done].
    intros x y H%elem_of_add_child. unfold child_of. tauto.
Qed.
