(* ===== verification/TallocProps.v ===== *)
(** * Allocation, stealing and looking up in the hierarchy

    Each operation on a well-formed heap, with its effect on the hierarchy. *)

From S2P Require Import Prelude CString Talloc TallocHeap TallocTree.
From stdpp Require Import relations.

Local Open Scope Z_scope.

(** A heap between two calls: the hierarchy [K], no chunk marked as free or as
    visited, and a live null context. *)
Record heap_ok (h : heap) (K : children) : Prop := {
  h_tree : tree_ok (mem h) K;
  h_alive : ∀ p c, mem h !! p = Some c → tc_flag_free c = false;
  h_idle : ∀ p c, mem h !! p = Some c → tc_flag_loop c = false;
  h_null : ∀ p, null_context h = Some p → is_Some (mem h !! p);
}.

(** A context argument: NULL or a live chunk. *)
Definition context_ok (h : heap) (ctx : option loc) : Prop := ∀ p, ctx = Some p → is_Some (mem h !! p).

(** The chunk a context argument stands for. *)
Definition context_of (h : heap) (ctx : option loc) : option loc :=
  match ctx with Some _ => ctx | None => null_context h end.

Lemma context_or_null_bind {B} ctx (k : option loc → M B) h :
  (x ← context_or_null ctx; k x) h = k (context_of h ctx) h.
Proof. by destruct ctx. Qed.

Lemma context_of_live h K ctx p :
  heap_ok h K → context_ok h ctx → context_of h ctx = Some p → is_Some (mem h !! p).
Proof. intros Hok Hc. destruct ctx; cbn; [by intros [= ->]; apply Hc|apply (h_null _ _ Hok)]. Qed.

Lemma heap_ok_links h K m' K' :
  heap_ok h K → tree_ok m' K' → same_but_links (mem h) m' → heap_ok (set_mem m' h) K'.
Proof.
  intros [_ Ha Hi Hn] Ht Hs. split; cbn; [done|..].
  - intros p c Hp. symmetry in Hs. destruct (same_lookup _ _ _ _ Hs Hp) as (c0 & H0 & E).
    rewrite <- (Ha p c0 H0). by apply strip_free.
  - intros p c Hp. symmetry in Hs. destruct (same_lookup _ _ _ _ Hs Hp) as (c0 & H0 & E).
    rewrite <- (Hi p c0 H0). by apply strip_loop.
  - intros p Hp. apply (same_is_Some _ _ p Hs). by apply Hn.
Qed.

(** A chunk that is not linked is a new root. *)
Lemma tree_ok_fresh m K p c :
  tree_ok m K → m !! p = None → side_links c = (None, None, None) → tc_child c = None →
  tree_ok (<[p:=c]> m) K ∧ is_root K p ∧ K p = [].
Proof.
  intros Hok Hp Hs Hc.
  assert (is_root K p) as Hr. { intros q Hq. destruct (child_live _ _ Hok q p Hq) as [x Hx]. congruence. }
  assert (K p = []) as Hk.
  { destruct (K p) as [|x l] eqn:E; [done|]. destruct (t_live _ _ Hok p x) as [y Hy]; [rewrite E; by left|congruence]. }
  split_and!; [|done..]. split.
  - intros q x Hq. apply lookup_insert_is_Some'. right. by eapply t_live.
  - intros q cq. rewrite lookup_insert. case_decide; subst; [intros [= <-]; by rewrite Hk|].
    by apply (t_child _ _ Hok).
  - intros q. apply dll_insert; [apply Hr|apply (t_list _ _ Hok)].
  - apply (t_nodup _ _ Hok).
  - apply (t_uniq _ _ Hok).
  - intros q cq. rewrite lookup_insert. case_decide; subst; [by intros [= <-]|]. by apply (t_root _ _ Hok).
  - apply (t_acyc _ _ Hok).
Qed.

Section allocation.
Context (wb : Z) (malloc : heap → Z → option loc) (junk : nat → bytes).
Context (malloc_fresh : ∀ h n p, malloc h n = Some p → mem h !! p = None).

Lemma talloc_under m nc ac ae K q p size :
  tree_ok m K → (∀ c x, m !! c = Some x → tc_flag_free x = false) →
  is_Some (m !! q) → m !! p = None → size < MAX_TALLOC_SIZE →
  malloc (Heap m nc ac ae) (TC_HDR_SIZE wb + size) = Some p →
  ∃ m', __talloc wb malloc junk (Some q) size (Heap m nc ac ae) = Ok (Some p, Heap m' nc ac ae) ∧
    tree_ok m' (add_child K q p) ∧ same_but_links (<[p:=new_chunk junk size]> m) m'.
Proof.
  intros Hok Halive [cq Hq] Hp Hsz Hm.
  assert (p ≠ q) as Hpq by congruence.
  destruct (tree_ok_fresh m K p (new_chunk junk size) Hok Hp eq_refl eq_refl) as (Hok1 & Hr & Hk).
  unfold __talloc. rewrite context_or_null_bind. cbn [context_of].
  rewrite (proj2 (Z.leb_gt MAX_TALLOC_SIZE size)) by done. rewrite x_get_heap, Hm. mrun.
  rewrite x_modify. unfold set_mem. cbn [mem null_context autofree_context at_exit]. mrun.
  erewrite x_ptr; [|lk|by eapply Halive]. mrun. rewrite (t_child _ _ Hok q cq Hq).
  assert (∀ m2, put_in (<[p:=new_chunk junk size]> m) m2 K q p → tree_ok m2 (add_child K q p)) as Hput.
  { intros m2 H2. eapply put_in_ok; [exact Hok1|done|rewrite lookup_insert_eq; eauto| | |exact H2].
    - rewrite lookup_insert_ne by done. eauto.
    - intros H. apply rtc_inv in H as [->|(y & Hy & H)]; [done|].
      destruct (above_live _ _ Hok q p) as [x Hx]; [|congruence]. eapply tc_rtc_r; [by apply tc_once|done]. }
  destruct (K q) as [|d b] eqn:E; cbn [head].
  - mrun. eexists. split; [done|]. split; [|same_links].
    apply Hput. split.
    + same_links.
    + pointwise.
    + by rewrite lookup_insert_eq.
    + rewrite lookup_insert_ne, lookup_insert_eq, E by done. done.
    + rewrite E. done.
    + intros x Hx _. pointwise.
  - assert (d ∈ K q) as Hdq by (rewrite E; by left).
    destruct (child_live _ _ Hok q d Hdq) as [cd Hd].
    assert (d ≠ p) as Hdp by congruence. assert (q ≠ d) as Hqd.
    { intros ->. by apply (not_own_child _ _ Hok d). }
    mrun. eexists. split; [done|]. split; [|same_links].
    apply Hput. split.
    + same_links.
    + pointwise.
    + by rewrite lookup_insert_eq.
    + rewrite lookup_insert_ne, lookup_insert_eq, E by done. done.
    + intros d'. rewrite E. intros [= <-]. rewrite !(lookup_insert_ne _ _ d), lookup_insert_eq by done.
      rewrite lookup_insert_ne by done. rewrite Hd. done.
    + rewrite E. intros x Hx Hxd. assert (x ≠ d) by (intros ->; by apply Hxd). pointwise.
Qed.

Definition alloc_children (h : heap) (K : children) (ctx : option loc) (p : loc) : children :=
  match context_of h ctx with Some q => add_child K q p | None => K end.

Lemma talloc_spec h K ctx size p :
  heap_ok h K → context_ok h ctx → size < MAX_TALLOC_SIZE → malloc h (TC_HDR_SIZE wb + size) = Some p →
  ∃ m', __talloc wb malloc junk ctx size h = Ok (Some p, set_mem m' h) ∧
    heap_ok (set_mem m' h) (alloc_children h K ctx p) ∧
    same_but_links (<[p:=new_chunk junk size]> (mem h)) m'.
Proof.
  intros Hok Hctx Hsz Hm. pose proof (malloc_fresh _ _ _ Hm) as Hp.
  assert (∀ m' K', tree_ok m' K' → same_but_links (<[p:=new_chunk junk size]> (mem h)) m' →
    heap_ok (set_mem m' h) K') as Hfin.
  { intros m' K' Ht Hs.
    destruct (tree_ok_fresh (mem h) K p (new_chunk junk size) (h_tree _ _ Hok) Hp eq_refl eq_refl) as (Hok1 & _ & _).
    apply (heap_ok_links (set_mem (<[p:=new_chunk junk size]> (mem h)) h) K); [|done|done].
    split; cbn; [done|..].
    - intros x c. rewrite lookup_insert. case_decide; [by intros [= <-]|by apply (h_alive _ _ Hok)].
    - intros x c. rewrite lookup_insert. case_decide; [by intros [= <-]|by apply (h_idle _ _ Hok)].
    - intros x Hx. apply lookup_insert_is_Some'. right. by apply (h_null _ _ Hok). }
  unfold alloc_children. destruct (context_of h ctx) as [q|] eqn:Eq.
  - pose proof (context_of_live h K ctx q Hok Hctx Eq) as Hq.
    destruct h as [m nc ac ae].
    destruct (talloc_under m nc ac ae K q p size (h_tree _ _ Hok) (h_alive _ _ Hok) Hq Hp Hsz Hm)
      as (m' & E & Ht & Hs).
    exists m'. split; [|by split; [apply Hfin|]].
    unfold __talloc in E |- *. rewrite context_or_null_bind in E |- *. by rewrite Eq.
  - destruct h as [m nc ac ae]. unfold __talloc. rewrite context_or_null_bind, Eq.
    rewrite (proj2 (Z.leb_gt MAX_TALLOC_SIZE size)) by done. rewrite x_get_heap, Hm.
    rewrite x_modify. unfold set_mem. cbn [mem null_context autofree_context at_exit]. mrun.
    eexists. split; [done|].
    match goal with |- heap_ok (Heap ?m' _ _ _) _ ∧ _ =>
      assert (m' = <[p:=new_chunk junk size]> m) as -> by (by rewrite !insert_insert_eq) end.
    split; [|reflexivity]. apply Hfin; [|reflexivity].
    by apply (tree_ok_fresh m K p (new_chunk junk size) (h_tree _ _ Hok) Hp eq_refl eq_refl).
Qed.

Lemma talloc_refused h ctx size :
  MAX_TALLOC_SIZE ≤ size ∨ malloc h (TC_HDR_SIZE wb + size) = None →
  __talloc wb malloc junk ctx size h = Ok (None, h).
Proof.
  intros Hno. unfold __talloc. rewrite context_or_null_bind.
  destruct (Z.leb_spec MAX_TALLOC_SIZE size); [done|]. rewrite get_heap_bind.
  destruct Hno as [?| ->]; [lia|done].
Qed.
End allocation.

(** ** Stealing *)

Lemma tree_ok_ext m K K' : (∀ p, K p = K' p) → tree_ok m K → tree_ok m K'.
Proof.
  intros E Hok. split.
  - intros p c. rewrite <- E. apply (t_live _ _ Hok).
  - intros p ch. rewrite <- E. apply (t_child _ _ Hok).
  - intros p. rewrite <- E. apply (t_list _ _ Hok).
  - intros p. rewrite <- E. apply (t_nodup _ _ Hok).
  - intros p q c. rewrite <- !E. apply (t_uniq _ _ Hok).
  - intros c ch Hc Hr. eapply (t_root _ _ Hok); [done|]. intros p. rewrite E. apply Hr.
  - apply (acyclic_sub (child_of K)); [|apply (t_acyc _ _ Hok)]. intros x y. unfold child_of. by rewrite E.
Qed.

Lemma heap_ok_ext h K K' : (∀ p, K p = K' p) → heap_ok h K → heap_ok h K'.
Proof. intros E [Ht Ha Hi Hn]. split; [by eapply tree_ok_ext|done..]. Qed.

Lemma remove_child_root K c : is_root (remove_child K c) c.
Proof. intros p [H _]%elem_of_remove_child. done. Qed.

Lemma ancestor_remove K c x y : ancestor (remove_child K c) x y → ancestor K x y.
Proof.
  induction 1 as [|x y z H _ IH]; [apply rtc_refl|]. apply elem_of_remove_child in H as [_ H]. by eapply rtc_l.
Qed.

(** The hierarchy with [c] moved to the front of the children of [q]. *)
Definition move_child (K : children) (q c : loc) : children := add_child (remove_child K c) q c.

(** [c] is the first child of [q] exactly when its parent field says so. *)
Lemma parent_field m K c ch q :
  tree_ok m K → m !! c = Some ch → tc_flag_loop ch = false →
  tc_parent ch = Some q ↔ ∃ b, K q = c :: b.
Proof.
  intros Hok Hc Hlp. split.
  - intros Hp. destruct (root_or_child m K Hok c) as [Hr|[p Hpc]]; [eauto|..].
    { pose proof (t_root _ _ Hok c ch Hc Hr Hlp) as Hl. injection Hl as _ _ ?. congruence. }
    destruct (child_split _ _ Hok p c Hpc) as (a & b & E & _).
    pose proof (t_list _ _ Hok p) as Hl. rewrite E in Hl.
    apply dll_at in Hl as (ch' & Hc' & _ & _ & Hp'). rewrite Hc in Hc'. injection Hc' as <-.
    destruct a; [|congruence]. rewrite Hp in Hp'. injection Hp' as ->. eauto.
  - intros [b E]. pose proof (t_list _ _ Hok q) as Hl. rewrite E in Hl.
    destruct Hl as [(ch' & Hc' & _ & _ & Hp') _]. congruence.
Qed.

Lemma move_first K q c b : NoDup (K q) → (∀ p, c ∈ K p → p = q) → K q = c :: b → ∀ p, K p = move_child K q c p.
Proof.
  intros Hn Hu E p. unfold move_child, add_child. case_decide as Hp.
  - subst p. rewrite E in Hn. apply NoDup_cons in Hn as [Hcb _].
    rewrite (remove_child_split K c q [] b); [done|done|apply not_elem_of_nil|done].
  - symmetry. apply remove_child_id. intros H. by apply Hp, Hu.
Qed.

Lemma steal_attach m nc ac ae K c q ch :
  (** [m] after [c] was taken out of its list *)
  tree_ok (<[c:=clear_links ch]> m) K → is_root K c → m !! c = Some ch →
  is_Some (m !! q) → c ≠ q → ¬ ancestor K q c →
  ∃ m', (upd c (set_parent (Some q));; d ← fld tc_child q; when_some d (λ d, upd d (set_parent None));;
         TLIST_ADD chunk_links child_head q c;; mret (Some c)) (Heap m nc ac ae)
        = Ok (Some c, Heap m' nc ac ae)
    ∧ tree_ok m' (add_child K q c) ∧ same_but_links m m'.
Proof.
  intros Hok Hr Hc [cq Hq] Hcq Hanc.
  assert (tc_child cq = head (K q)) as Hch.
  { apply (t_child _ _ Hok). by rewrite lookup_insert_ne. }
  assert (∀ m', put_in (<[c:=clear_links ch]> m) m' K q c → tree_ok m' (add_child K q c)) as Hput.
  { intros m' H. eapply put_in_ok; try done; [rewrite lookup_insert_eq; eauto|].
    rewrite lookup_insert_ne by done. eauto. }
  mrun. rewrite Hch. destruct (K q) as [|d b] eqn:E; cbn [head] in Hch |- *.
  - mrun. unfold TLIST_ADD. mrun. rewrite Hch. mrun. eexists. split; [done|]. split; [|same_links].
    apply Hput. split.
    + etrans; [symmetry; eapply same_insert; [reflexivity|exact Hc|reflexivity]|same_links].
    + pointwise.
    + rewrite !lookup_insert_ne, lookup_insert_eq by done. done.
    + rewrite lookup_insert_eq, E. done.
    + rewrite E. done.
    + intros x Hx _. pointwise.
  - assert (d ∈ K q) as Hdq by (rewrite E; by left).
    destruct (child_live _ _ Hok q d Hdq) as [cd Hd].
    assert (d ≠ c) as Hdc by (intros ->; by apply (Hr q)).
    assert (q ≠ d) as Hqd. { intros ->. by apply (not_own_child _ _ Hok d). }
    rewrite lookup_insert_ne in Hd by done.
    mrun. unfold TLIST_ADD. mrun. rewrite Hch. mrun. eexists. split; [done|]. split; [|same_links].
    apply Hput. split.
    + etrans; [symmetry; eapply same_insert; [reflexivity|exact Hc|reflexivity]|same_links].
    + pointwise.
    + by rewrite lookup_insert_eq.
    + rewrite lookup_insert_ne, lookup_insert_eq, E by done. done.
    + intros d'. rewrite E. intros [= <-]. rewrite !(lookup_insert_ne _ _ d), lookup_insert_eq by done.
      rewrite lookup_insert_ne by done. rewrite Hd. done.
    + rewrite E. intros x Hx Hxd. assert (x ≠ d) by (intros ->; by apply Hxd). pointwise.
Qed.

(** The hierarchy after [talloc_steal]. *)
Definition stolen (h : heap) (K : children) (ctx : option loc) (c : loc) : children :=
  match context_of h ctx with Some q => move_child K q c | None => remove_child K c end.

Lemma steal_spec h K ctx c :
  heap_ok h K → context_ok h ctx → is_Some (mem h !! c) →
  (∀ q, context_of h ctx = Some q → ¬ ancestor K q c) →
  ∃ m', _talloc_steal ctx (Some c) h = Ok (Some c, set_mem m' h) ∧
    heap_ok (set_mem m' h) (stolen h K ctx c) ∧ same_but_links (mem h) m'.
Proof.
  intros Hok Hctx [ch Hc] Hanc. pose proof (h_tree _ _ Hok) as Ht.
  pose proof (h_alive _ _ Hok c ch Hc) as Halive. pose proof (h_idle _ _ Hok c ch Hc) as Hidle.
  assert (∀ m' K', tree_ok m' K' → same_but_links (mem h) m' →
    heap_ok (set_mem m' h) K' ∧ same_but_links (mem h) m') as Hfin.
  { intros. split; [by eapply heap_ok_links|done]. }
  pose proof (context_of_live h K ctx) as Hq.
  unfold stolen. destruct h as [m nc ac ae]. cbn [mem set_mem] in *.
  unfold _talloc_steal. rewrite context_or_null_bind. erewrite x_ptr by done.
  destruct (unlink_chunk_spec m nc ac ae K c ch Ht Hc Hidle) as (m1 & E1 & H1).
  destruct (same_lookup _ _ _ _ (to_same _ _ _ _ H1) Hc) as (ch1 & Hc1 & _).
  pose proof (taken_out_ok _ _ _ _ ch1 Ht H1 Hc1) as Ht1.
  destruct (context_of _ ctx) as [q|] eqn:Eq.
  - specialize (Hq q Hok Hctx eq_refl). specialize (Hanc q eq_refl). destruct Hq as [cq Hq].
    erewrite x_ptr by (done || by eapply (h_alive _ _ Hok)). mrun.
    rewrite decide_False by (intros <-; apply Hanc, rtc_refl).
    case_decide as Hpar.
    + exists m. split; [done|]. apply Hfin; [|done]. apply (parent_field m K c ch q Ht Hc Hidle) in Hpar as [b E].
      eapply tree_ok_ext; [|exact Ht]. eapply move_first; [apply (t_nodup _ _ Ht)| |done].
      intros p Hp. eapply (t_uniq _ _ Ht); [done|]. rewrite E. by left.
    + rewrite (M_bind_ok _ _ _ _ _ E1).
      destruct (same_lookup _ _ _ _ (to_same _ _ _ _ H1) Hq) as (cq1 & Hq1 & _).
      destruct (steal_attach m1 nc ac ae (remove_child K c) c q ch1) as (m2 & E2 & Ht2 & Hs2); try done.
      * apply remove_child_root.
      * intros ->. apply Hanc, rtc_refl.
      * intros H. by apply Hanc, (ancestor_remove K c).
      * exists m2. split; [exact E2|]. apply Hfin; [done|]. etrans; [apply H1|done].
  - rewrite (M_bind_ok _ _ _ _ _ E1). mrun. eexists. split; [done|].
    match goal with |- heap_ok (set_mem ?m' _) _ ∧ _ =>
      assert (m' = <[c:=clear_links ch1]> m1) as -> by (by rewrite !insert_insert_eq) end.
    apply Hfin; [done|]. etrans; [apply H1|]. same_links.
Qed.

(** ** Parents *)

Lemma first_sibling_loop_spec m nc ac ae p a c b n :
  dll m (Some p) None (a ++ c :: b) None → (length a ≤ n)%nat →
  first_sibling_loop n c (Heap m nc ac ae) = Ok (match a with [] => c | d :: _ => d end, Heap m nc ac ae).
Proof.
  revert c b n. induction a as [|v a IH] using rev_ind; intros c b n Hl Hn.
  - destruct (dll_at _ _ _ [] _ _ _ Hl) as (ch & Hc & _ & Hv & _). cbn in Hv.
    destruct n; cbn [first_sibling_loop]; mrun; by rewrite Hv.
  - destruct (dll_at _ _ _ _ _ _ _ Hl) as (ch & Hc & _ & Hv & _). rewrite last_snoc in Hv.
    rewrite length_app in Hn. cbn in Hn. destruct n as [|n]; [lia|]. cbn [first_sibling_loop]. mrun.
    rewrite Hv. rewrite <- app_assoc in Hl. rewrite (IH v (c :: b) n Hl) by lia. by destruct a.
Qed.

(** The chunk that holds the parent field, and the field. *)
Lemma first_sibling_child h K p c :
  heap_ok h K → c ∈ K p → ∃ d chd, first_sibling c h = Ok (d, h) ∧ mem h !! d = Some chd ∧ tc_parent chd = Some p.
Proof.
  intros Hok Hc. pose proof (h_tree _ _ Hok) as Ht. destruct h as [m nc ac ae]. cbn [mem] in *.
  destruct (child_split _ _ Ht p c Hc) as (a & b & E & _).
  pose proof (t_list _ _ Ht p) as Hl. pose proof (kids_length _ _ Ht p) as Hlen.
  rewrite E in Hl, Hlen. rewrite length_app in Hlen. cbn in Hlen.
  unfold first_sibling, bound. rewrite M_bind_assoc, x_get_heap, M_ret_bind. cbn [mem].
  erewrite first_sibling_loop_spec by (done || lia). destruct a as [|d a]; cbn [app] in Hl.
  - destruct Hl as [(ch & Hd & _ & _ & Hp) _]. eauto.
  - destruct Hl as [(ch & Hd & _ & _ & Hp) _]. eauto.
Qed.

Lemma first_sibling_root h K c :
  heap_ok h K → is_Some (mem h !! c) → is_root K c →
  ∃ ch, first_sibling c h = Ok (c, h) ∧ mem h !! c = Some ch ∧ tc_parent ch = None.
Proof.
  intros Hok [ch Hc] Hr. pose proof (t_root _ _ (h_tree _ _ Hok) c ch Hc Hr (h_idle _ _ Hok c ch Hc)) as Hl. injection Hl as Hn Hv Hp.
  exists ch. split_and!; try done. destruct h as [m nc ac ae]. cbn [mem] in *.
  unfold first_sibling, bound. rewrite M_bind_assoc, x_get_heap, M_ret_bind. cbn [mem first_sibling_loop].
  mrun. by rewrite Hv.
Qed.

(** [talloc_parent_chunk] on a live pointer: the chunk whose child it is. *)
Definition parent_of (K : children) (c : loc) (r : option loc) : Prop :=
  match r with Some p => c ∈ K p | None => is_root K c end.

Lemma parent_step h K c :
  heap_ok h K → is_Some (mem h !! c) →
  ∃ r, (d ← first_sibling c; fld tc_parent d) h = Ok (r, h) ∧ parent_of K c r.
Proof.
  intros Hok Hc. destruct (root_or_child _ _ (h_tree _ _ Hok) c Hc) as [Hr|[p Hp]].
  - destruct (first_sibling_root h K c Hok Hc Hr) as (ch & E & Hch & Hpar). exists None. split; [|done].
    rewrite (M_bind_ok _ _ _ _ _ E). erewrite fld_ok by done. by rewrite Hpar.
  - destruct (first_sibling_child h K p c Hok Hp) as (d & chd & E & Hd & Hpar). exists (Some p). split; [|done].
    rewrite (M_bind_ok _ _ _ _ _ E). erewrite fld_ok by done. by rewrite Hpar.
Qed.

Lemma chunk_from_ptr_live {B} h K c (k : loc → M B) :
  heap_ok h K → is_Some (mem h !! c) → (x ← talloc_chunk_from_ptr (Some c); k x) h = k c h.
Proof. intros Hok [ch Hc]. eapply chunk_from_ptr_bind; [done|by eapply (h_alive _ _ Hok)]. Qed.

Lemma parent_chunk_spec h K c :
  heap_ok h K → is_Some (mem h !! c) →
  ∃ r, talloc_parent_chunk (Some c) h = Ok (r, h) ∧ parent_of K c r.
Proof.
  intros Hok Hc. unfold talloc_parent_chunk. erewrite chunk_from_ptr_live by done. by apply parent_step.
Qed.

(** The walk towards the root visits the chunks of [up], in this order, as long
    as the visits do not stop it. *)
Lemma ancestors_loop_spec {A} h K (visit : loc → M (option A)) (f : loc → option A) n c l :
  heap_ok h K → up K c l → is_Some (mem h !! c) → (length l ≤ n)%nat →
  (∀ p, p ∈ l → visit p h = Ok (f p, h)) →
  ancestors_loop n visit (Some c) h = Ok (head (omap f l), h).
Proof.
  intros Hok Hl. revert n. induction Hl as [c Hr|c p l Hp Hl IH]; intros n Hc Hn Hv;
    destruct n as [|n]; cbn [length] in Hn; try lia; cbn [ancestors_loop];
    rewrite (M_bind_ok _ _ _ _ _ (Hv c ltac:(by left))); cbn [omap list_omap];
    (destruct (f c) as [a|]; [done|]).
  - destruct (first_sibling_root h K c Hok Hc Hr) as (ch & E & Hch & Hpar).
    rewrite (M_bind_ok _ _ _ _ _ E). erewrite fld_bind by done. rewrite Hpar. by destruct n.
  - destruct (first_sibling_child h K p c Hok Hp) as (d & chd & E & Hd & Hpar).
    rewrite (M_bind_ok _ _ _ _ _ E). erewrite fld_bind by done. rewrite Hpar. apply IH.
    + by eapply t_live; [apply Hok|].
    + lia.
    + intros q Hq. apply Hv. by right.
Qed.
