(* ===== verification/TallocWalk.v ===== *)
(** * Questions about the hierarchy

    [talloc_parent], [talloc_is_parent], [talloc_find_parent_byname],
    [talloc_total_size] and [talloc_total_blocks] against the hierarchy, with the
    bound of each walk; the subtree of a chunk. *)

From S2P Require Import Prelude CString Talloc TallocHeap TallocTree TallocProps.
From stdpp Require Import relations.

Local Open Scope Z_scope.

(** [talloc_alloc]: an allocation below the limit that [malloc] grants is a new
    chunk of that size, put in front of the children of the context (of the null
    context for NULL; a root when there is none); every other chunk keeps its
    memory.  Otherwise the result is NULL and the heap does not change. *)
Theorem talloc_alloc wb malloc junk h K ctx size :
  (∀ h n p, malloc h n = Some p → mem h !! p = None) → heap_ok h K → context_ok h ctx →
  (MAX_TALLOC_SIZE ≤ size ∨ malloc h (TC_HDR_SIZE wb + size) = None →
   _talloc wb malloc junk ctx size h = Ok (None, h)) ∧
  (∀ p, size < MAX_TALLOC_SIZE → malloc h (TC_HDR_SIZE wb + size) = Some p →
   ∃ m', _talloc wb malloc junk ctx size h = Ok (Some p, set_mem m' h) ∧
     heap_ok (set_mem m' h) (alloc_children h K ctx p) ∧
     same_but_links (<[p:=new_chunk junk size]> (mem h)) m').
Proof.
  intros Hf Hok Hctx. split.
  - apply talloc_refused.
  - intros p Hsz Hm. by apply (talloc_spec wb malloc junk Hf).
Qed.

(** C11 [talloc_steal_moves]: stealing a live chunk for a context that is not below
    it takes the chunk, with everything below it, out of its list and puts it in
    front of the children of the context; only links are written. *)
Theorem talloc_steal_moves h K ctx c :
  heap_ok h K → context_ok h ctx → is_Some (mem h !! c) →
  (∀ q, context_of h ctx = Some q → ¬ ancestor K q c) →
  ∃ m', _talloc_steal ctx (Some c) h = Ok (Some c, set_mem m' h) ∧
    heap_ok (set_mem m' h) (stolen h K ctx c) ∧ same_but_links (mem h) m'.
Proof. exact (steal_spec h K ctx c). Qed.

(** ** Ancestors *)

Lemma ancestors_ok {A} h K (visit : loc → M (option A)) (f : loc → option A) c l :
  heap_ok h K → is_Some (mem h !! c) → up K c l → (∀ p, p ∈ l → visit p h = Ok (f p, h)) →
  (tc ← talloc_chunk_from_ptr (Some c); n ← bound; ancestors_loop n visit (Some tc)) h
  = Ok (head (omap f l), h).
Proof.
  intros Hok Hc Hl Hv. erewrite chunk_from_ptr_live by done. rewrite bound_bind.
  eapply ancestors_loop_spec; try done.
  pose proof (up_length _ _ (h_tree _ _ Hok) c l Hc Hl). lia.
Qed.

Lemma head_omap_Some {A B} (f : A → option B) l b : head (omap f l) = Some b → ∃ a, a ∈ l ∧ f a = Some b.
Proof.
  induction l as [|x l IH]; cbn; [done|]. destruct (f x) as [y|] eqn:E; cbn.
  - intros [= ->]. exists x. split; [by left|done].
  - intros H. destruct (IH H) as (a & Ha & Hf). exists a. split; [by right|done].
Qed.

Lemma head_omap_None {A B} (f : A → option B) l a : head (omap f l) = None → a ∈ l → f a = None.
Proof.
  induction l as [|x l IH]; cbn; [by intros _ ?%elem_of_nil|].
  destruct (f x) as [y|] eqn:E; cbn; [done|]. intros H [->|Ha]%elem_of_cons; [done|by apply IH].
Qed.

Lemma is_parent_lemma h K c q :
  heap_ok h K → is_Some (mem h !! c) →
  ∃ r, talloc_is_parent (Some c) (Some q) h = Ok (r, h) ∧
    ((r = 1 ∧ ancestor K c q) ∨ (r = 0 ∧ ¬ ancestor K c q)).
Proof.
  intros Hok Hc. destruct (up_exists _ _ (h_tree _ _ Hok) c Hc) as [l Hl].
  pose proof (up_ancestor _ _ (h_tree _ _ Hok) c l Hl q) as Hanc.
  set (f p := if decide (Some p = Some q) then Some tt else None).
  pose proof (ancestors_ok h K (λ p, mret (f p)) f c l Hok Hc Hl (λ _ _, eq_refl)) as E.
  erewrite (chunk_from_ptr_live h K c), bound_bind in E by done.
  unfold talloc_is_parent. erewrite (chunk_from_ptr_live h K c), bound_bind by done.
  rewrite (M_bind_ok _ _ _ _ _ E). eexists. split; [done|]. rewrite <- Hanc.
  destruct (head (omap f l)) as [[]|] eqn:Ef.
  - left. split; [done|]. apply head_omap_Some in Ef as (a & Ha & Hfa). unfold f in Hfa.
    case_decide as Hd; [|done]. by injection Hd as <-.
  - right. split; [done|]. intros Hq. eapply head_omap_None in Ef; [|exact Hq]. unfold f in Ef.
    by rewrite decide_True in Ef.
Qed.

(** [talloc_is_parent_spec]: [talloc_is_parent context ptr] is 1 exactly when
    [ptr] is [context] or one of the chunks above it, whatever the shape of the
    hierarchy: the walk ends within its bound. *)
Theorem talloc_is_parent_spec h K c q :
  heap_ok h K → is_Some (mem h !! c) →
  ∃ r, talloc_is_parent (Some c) (Some q) h = Ok (r, h) ∧
    ((r = 1 ∧ ancestor K c q) ∨ (r = 0 ∧ ¬ ancestor K c q)).
Proof. exact (is_parent_lemma h K c q). Qed.

(** [talloc_parent_spec]: [talloc_parent] gives the chunk of whose children a
    live pointer is, wherever it is in the list, and NULL for a root. *)
Theorem talloc_parent_spec h K c :
  heap_ok h K → is_Some (mem h !! c) →
  ∃ r, talloc_parent (Some c) h = Ok (r, h) ∧ parent_of K c r.
Proof. exact (parent_chunk_spec h K c). Qed.

(** The string a name stands for, when it can be read. *)
Definition name_reads (h : heap) (p : loc) (s : option bytes) : Prop :=
  ∃ ch, mem h !! p = Some ch ∧ name_string (tc_name ch) h = Ok (s, h) ∧ (∀ t, s = Some t → nul_free t).

(** [talloc_find_parent_byname_spec]: when the names of [context] and of the
    chunks above it can be read, [talloc_find_parent_byname] gives the nearest
    of them whose name is the one asked for, and NULL when there is none. *)
Theorem talloc_find_parent_byname_spec h K c l (names : loc → option bytes) name :
  heap_ok h K → is_Some (mem h !! c) → up K c l → nul_free name →
  (∀ p, ancestor K c p → name_reads h p (names p)) →
  talloc_find_parent_byname (Some c) name h = Ok (List.find (λ p, bool_decide (names p = Some name)) l, h).
Proof.
  intros Hok Hc Hl Hname Hnames.
  set (f p := if decide (names p = Some name) then Some p else None).
  unfold talloc_find_parent_byname. erewrite (ancestors_ok h K _ f c l); try done.
  - do 2 f_equal. clear. induction l as [|p l IH]; cbn; [done|]. unfold f at 1.
    case_bool_decide as Hd; [by rewrite decide_True|by rewrite decide_False].
  - intros p Hp. rewrite (up_ancestor _ _ (h_tree _ _ Hok) c l Hl) in Hp.
    destruct (Hnames p Hp) as (ch & Hch & Hs & Hnul).
    erewrite fld_bind by done. rewrite (M_bind_ok _ _ _ _ _ Hs). unfold f.
    destruct (names p) as [s|]; [|done].
    unfold lift, mbind, M_bind. rewrite strcmp_str_cmp by auto. cbn.
    pose proof (str_cmp_eq s name (Hnul s eq_refl) Hname) as Heq.
    destruct (Z.eqb_spec (str_cmp s name) 0) as [E|E].
    + apply Heq in E as ->. by rewrite decide_True.
    + rewrite decide_False; [done|]. intros [= ->]. by apply E, Heq.
Qed.

(** ** Subtrees *)

(** The chunks below [p], in the order in which they are visited. *)
Inductive sub (K : children) : loc → list loc → Prop :=
| sub_node p l : subs K (K p) l → sub K p (p :: l)
with subs (K : children) : list loc → list loc → Prop :=
| subs_nil : subs K [] []
| subs_cons c cs l l' : sub K c l → subs K cs l' → subs K (c :: cs) (l ++ l').

Scheme sub_mut := Minimality for sub Sort Prop
  with subs_mut := Minimality for subs Sort Prop.
Combined Scheme sub_subs_ind from sub_mut, subs_mut.

Lemma sub_ancestor K : (∀ p l, sub K p l → ∀ x, x ∈ l ↔ ancestor K x p) ∧
  (∀ cs l, subs K cs l → ∀ x, x ∈ l ↔ ∃ c, c ∈ cs ∧ ancestor K x c).
Proof.
  apply sub_subs_ind.
  - intros p l _ IH x. rewrite elem_of_cons, IH. split.
    + intros [->|(c & Hc & H)]; [apply rtc_refl|]. by eapply rtc_r.
    + intros H. apply rtc_inv_r in H as [->|(c & H & Hc)]; [by left|right; eauto].
  - intros x. split; [by intros ?%elem_of_nil|]. by intros (c & ?%elem_of_nil & _).
  - intros c cs l l' _ IH1 _ IH2 x. rewrite elem_of_app, IH1, IH2. split.
    + intros [H|(d & Hd & H)]; [exists c|exists d]; (split; [|done]); [by left|by right].
    + intros (d & [->|Hd]%elem_of_cons & H); [by left|right; eauto].
Qed.

Section subtree.
Context (m : chunks) (K : children) (Hok : tree_ok m K).

(** The chunks above a chunk are comparable. *)
Lemma ancestor_linear x a b : ancestor K x a → ancestor K x b → ancestor K a b ∨ ancestor K b a.
Proof.
  intros Ha. revert b. induction Ha as [x|x y a Hxy Hya IH]; intros b Hb; [by left|].
  apply rtc_inv in Hb as [->|(z & Hz & Hb)].
  - right. by eapply rtc_l.
  - apply IH. by rewrite (t_uniq _ _ Hok y z x).
Qed.

(** Children of one chunk have nothing in common. *)
Lemma siblings_disjoint p a b x :
  a ∈ K p → b ∈ K p → ancestor K x a → ancestor K x b → a = b.
Proof.
  intros Ha Hb Hxa Hxb.
  assert (∀ a b, a ∈ K p → b ∈ K p → ancestor K a b → a = b) as Hone.
  { clear - Hok. intros a b Ha Hb H. apply rtc_inv in H as [?|(y & Hy & H)]; [done|]. exfalso.
    rewrite (t_uniq _ _ Hok y p a) in H by done. apply (t_acyc _ _ Hok p).
    eapply tc_rtc_l; [done|]. by apply tc_once. }
  destruct (ancestor_linear x a b Hxa Hxb) as [H|H]; [by apply Hone|symmetry; by apply Hone].
Qed.

Lemma sub_nodup :
  (∀ p l, sub K p l → NoDup l) ∧
  (∀ cs l, subs K cs l → ∀ p, NoDup cs → (∀ c, c ∈ cs → c ∈ K p) → NoDup l).
Proof.
  apply sub_subs_ind.
  - intros p l Hl IH. constructor.
    + rewrite (proj2 (sub_ancestor K) _ _ Hl). intros (c & Hc & H). apply (t_acyc _ _ Hok p).
      eapply tc_rtc_l; [done|]. by apply tc_once.
    + apply (IH p); [apply (t_nodup _ _ Hok)|done].
  - intros p _ _. constructor.
  - intros c cs l l' Hl IH1 Hl' IH2 p [Hc Hn]%NoDup_cons Hin. apply NoDup_app. split_and!; [done| |].
    + intros x Hx Hx'. rewrite (proj1 (sub_ancestor K) _ _ Hl) in Hx.
      rewrite (proj2 (sub_ancestor K) _ _ Hl') in Hx'. destruct Hx' as (d & Hd & Hxd). apply Hc.
      rewrite (siblings_disjoint p c d x); try done; apply Hin; [by left|by right].
    + apply (IH2 p); [done|]. intros d Hd. apply Hin. by right.
Qed.

Lemma below_live x p : is_Some (m !! p) → ancestor K x p → is_Some (m !! x).
Proof. intros Hp H. apply rtc_inv in H as [->|(y & Hy & _)]; [done|]. by eapply child_live. Qed.

Lemma sub_exists p : is_Some (m !! p) → ∃ l, sub K p l.
Proof.
  intros Hp. assert (sn (λ a b, child_of K b a) p) as Hsn.
  { apply tc_finite_sn.
    - intros x H. apply (t_acyc _ _ Hok x). revert H. generalize x at 2 3. intros y H.
      induction H as [a b H|a b c H _ IH]; [by apply tc_once|]. eapply tc_r; [done|done].
    - exists (elements (dom m)). intros x Hx. apply elem_of_elements, elem_of_dom.
      clear Hp. induction Hx as [a b H|]; [by eapply child_live|done]. }
  clear Hp. induction Hsn as [p _ IH].
  enough (∀ cs, (∀ c, c ∈ cs → c ∈ K p) → ∃ l, subs K cs l) as He.
  { destruct (He (K p)) as [l Hl]; [done|]. exists (p :: l). by constructor. }
  induction cs as [|c cs IHcs]; intros Hin; [exists []; constructor|].
  destruct (IH c) as [l Hl]; [apply Hin; by left|].
  destruct IHcs as [l' Hl']; [intros d Hd; apply Hin; by right|].
  exists (l ++ l'). by constructor.
Qed.

Lemma sub_length p l : is_Some (m !! p) → sub K p l → (length l ≤ size m)%nat.
Proof.
  intros Hp Hl. apply nodup_live_length; [by apply sub_nodup in Hl|].
  intros x Hx. rewrite (proj1 (sub_ancestor K) _ _ Hl) in Hx. by eapply below_live.
Qed.
End subtree.

(** ** Totals *)

Definition zsum (g : loc → Z) (l : list loc) : Z := foldr (λ x s, g x + s) 0 l.

Lemma zsum_app g l l' : zsum g (l ++ l') = zsum g l + zsum g l'.
Proof. unfold zsum. induction l as [|x l IH]; cbn; [done|]. rewrite IH. lia. Qed.

(** A write that changes neither the links nor takes the flag away. *)
Lemma tree_ok_insert m K p c c' :
  tree_ok m K → m !! p = Some c → side_links c' = side_links c → tc_child c' = tc_child c →
  (tc_flag_loop c' = false → tc_flag_loop c = false) → tree_ok (<[p:=c']> m) K.
Proof.
  intros Hok Hp Hs Hc Hl. split.
  - intros q x Hq. apply lookup_insert_is_Some'. right. by eapply t_live.
  - intros q ch. rewrite lookup_insert. case_decide; [|by apply (t_child _ _ Hok)].
    subst. intros [= <-]. rewrite Hc. by apply (t_child _ _ Hok).
  - intros q. eapply dll_frame; [apply (t_list _ _ Hok)|]. intros x Hx. rewrite lookup_insert.
    case_decide; [|done]. subst. rewrite Hp. cbn. by rewrite Hs.
  - apply (t_nodup _ _ Hok).
  - apply (t_uniq _ _ Hok).
  - intros q ch. rewrite lookup_insert. case_decide; [|by apply (t_root _ _ Hok)].
    subst. intros [= <-] Hr Hf. rewrite Hs. eapply t_root; [done..|by apply Hl].
  - apply (t_acyc _ _ Hok).
Qed.

Lemma wrapu_add wb a b : 0 ≤ wb → wrapu wb (wrapu wb a + b) = wrapu wb (a + b).
Proof. intros. unfold wrapu. by rewrite Zplus_mod_idemp_l. Qed.

Section total.
Context (wb : Z) (Hwb : 0 ≤ wb) (own : talloc_chunk → Z) (g : loc → Z) (K : children).
Context (own_loop : ∀ c b, own (set_flag_loop b c) = own c).

(** The chunks of [l] can be counted. *)
Definition countable (m : chunks) (l : list loc) : Prop :=
  ∀ x, x ∈ l → ∃ ch, m !! x = Some ch ∧ tc_flag_loop ch = false ∧ tc_flag_free ch = false
                     ∧ own ch = g x ∧ 0 ≤ g x < 2 ^ wb.

Lemma total_sub :
  (∀ p l, sub K p l → ∀ n m nc ac ae, tree_ok m K → NoDup l → countable m l → (length l ≤ n)%nat →
    total_loop wb own n p (Heap m nc ac ae) = Ok (wrapu wb (zsum g l), Heap m nc ac ae)) ∧
  (∀ cs l, subs K cs l → ∀ n k m nc ac ae par pv acc, tree_ok m K → NoDup l → countable m l →
    dll m par pv cs None → (length l ≤ n)%nat → (length cs ≤ k)%nat → acc = wrapu wb acc →
    sum_siblings wb (total_loop wb own n) k (head cs) acc (Heap m nc ac ae)
    = Ok (wrapu wb (acc + zsum g l), Heap m nc ac ae)).
Proof.
  apply sub_subs_ind.
  - intros p l Hl IH n m nc ac ae Hok [Hp Hnd]%NoDup_cons Hc Hn.
    destruct (Hc p ltac:(by left)) as (ch & Hch & Hloop & Hfree & Hown & Hrange).
    destruct n as [|n]; [cbn in Hn; lia|]. cbn [length] in Hn.
    cbn [total_loop]. erewrite x_ptr by done. mrun. rewrite Hloop. mrun.
    change (tc_child (set_flag_loop true ch)) with (tc_child ch).
    rewrite (t_child _ _ Hok p ch Hch), own_loop, Hown.
    set (m1 := <[p:=set_flag_loop true ch]> m).
    assert (tree_ok m1 K) as Hok1 by (by eapply tree_ok_insert).
    assert (countable m1 l) as Hc1.
    { intros x Hx. unfold m1. rewrite lookup_insert_ne by congruence. apply Hc. by right. }
    assert (length (K p) ≤ n)%nat as Hk.
    { etrans; [|apply Nat.lt_succ_r, Hn]. clear - Hl. induction Hl as [|c cs l l' Hc Hcs IH]; [done|].
      rewrite length_app. inversion Hc. cbn. lia. }
    rewrite (M_bind_ok _ _ _ (wrapu wb (g p + zsum g l)) (Heap m1 nc ac ae)).
    2:{ eapply IH; try done; [apply (t_list _ _ Hok1)|lia|]. by rewrite wrapu_small. }
    subst m1. mrun. rewrite insert_insert_eq. rewrite insert_id; [done|].
    rewrite Hch. f_equal. destruct ch; cbn in *. by subst.
  - intros n k m nc ac ae par pv acc _ _ _ _ _ _ Hacc.
    destruct k; cbn; by rewrite Z.add_0_r, <- Hacc.
  - intros c cs l l' Hl IH1 _ IH2 n k m nc ac ae par pv acc Hok Hnd Hc Hd Hn Hk Hacc.
    apply NoDup_app in Hnd as (Hnd1 & _ & Hnd2).
    destruct k as [|k]; [cbn in Hk; lia|]. rewrite length_app in Hn.
    destruct Hd as [(ch & Hch & Hnx & _) Hd]. cbn [sum_siblings head].
    rewrite (M_bind_ok _ _ _ (wrapu wb (zsum g l)) (Heap m nc ac ae)).
    2:{ apply IH1; try done; [|lia]. intros x Hx. apply Hc, elem_of_app. by left. }
    mrun. rewrite Hnx. change (match cs with [] => None | d :: _ => Some d end) with (head cs).
    assert (wrapu wb (acc + wrapu wb (zsum g l)) = wrapu wb (acc + zsum g l)) as E.
    { rewrite Z.add_comm, wrapu_add by done. f_equal. lia. }
    rewrite E. erewrite IH2; try done.
    + rewrite wrapu_add by done. rewrite zsum_app. do 3 f_equal. lia.
    + intros x Hx. apply Hc, elem_of_app. by right.
    + lia.
    + cbn in Hk. lia.
    + unfold wrapu. by rewrite Zmod_mod.
Qed.
End total.

(** [talloc_total_size_spec]: [talloc_total_size] is the sum of the sizes of
    the chunk and of everything below it, in the arithmetic of [size_t]; each
    chunk is visited once, and the flags it sets on the way are all cleared. *)
Theorem talloc_total_size_spec wb h K p l :
  0 ≤ wb → heap_ok h K → is_Some (mem h !! p) → sub K p l →
  (∀ x ch, mem h !! x = Some ch → 0 ≤ tc_size ch < 2 ^ wb) →
  talloc_total_size wb (Some p) h =
    Ok (wrapu wb (zsum (λ x, match mem h !! x with Some ch => tc_size ch | None => 0 end) l), h).
Proof.
  intros Hwb Hok Hp Hl Hsz. pose proof (h_tree _ _ Hok) as Ht.
  unfold talloc_total_size. rewrite context_or_null_bind. cbn [context_of]. rewrite bound_bind.
  pose proof (sub_length _ _ Ht p l Hp Hl) as Hlen. destruct h as [m nc ac ae]. cbn [mem] in *.
  apply (proj1 (total_sub wb Hwb tc_size _ K ltac:(done))); [done|done|exact (proj1 (sub_nodup _ _ Ht) _ _ Hl)| |lia].
  intros x Hx. rewrite (proj1 (sub_ancestor K) _ _ Hl) in Hx.
  destruct (below_live _ _ Ht x p Hp Hx) as [ch Hch]. exists ch. cbn [mem] in *. rewrite Hch. split_and!; try done.
  - by apply (h_idle _ _ Hok x).
  - by apply (h_alive _ _ Hok x).
  - by apply (Hsz x).
  - by apply (Hsz x).
Qed.

(** [talloc_total_blocks_spec]: [talloc_total_blocks] is the number of the
    chunks of the subtree. *)
Theorem talloc_total_blocks_spec wb h K p l :
  0 < wb → heap_ok h K → is_Some (mem h !! p) → sub K p l →
  talloc_total_blocks wb (Some p) h = Ok (wrapu wb (Z.of_nat (length l)), h).
Proof.
  intros Hwb Hok Hp Hl. pose proof (h_tree _ _ Hok) as Ht.
  unfold talloc_total_blocks. rewrite M_bind_ok with (a := p) (h' := h) by done. rewrite bound_bind.
  pose proof (sub_length _ _ Ht p l Hp Hl) as Hlen. destruct h as [m nc ac ae]. cbn [mem] in *.
  replace (Z.of_nat (length l)) with (zsum (λ _, 1) l).
  2:{ clear. induction l as [|x l IH]; cbn [zsum foldr length] in *; [done|]. unfold zsum in IH. lia. }
  apply (proj1 (total_sub wb ltac:(lia) (λ _, 1) (λ _, 1) K ltac:(done)));
    [done|done|exact (proj1 (sub_nodup _ _ Ht) _ _ Hl)| |lia].
  intros x Hx. rewrite (proj1 (sub_ancestor K) _ _ Hl) in Hx.
  destruct (below_live _ _ Ht x p Hp Hx) as [ch Hch]. exists ch. split_and!; try done.
  - by apply (h_idle _ _ Hok x).
  - by apply (h_alive _ _ Hok x).
  - apply (Z.pow_gt_1 2); lia.
Qed.
