(* ===== verification/TallocFree.v ===== *)
(** * Freeing

    [_talloc_free] on a subtree without references and destructors frees exactly
    that subtree. *)

From S2P Require Import Prelude CString Talloc TallocHeap TallocTree TallocProps TallocWalk.
From stdpp Require Import relations.

Local Open Scope Z_scope.

(** The hierarchy without the chunks of [l]. *)
Definition prune (K : children) (l : list loc) : children :=
  λ q, if decide (q ∈ l) then [] else filter (λ x, x ∉ l) (K q).

(** Exactly the chunks of [l] are gone; of the others, only links changed. *)
Definition freed (m m' : chunks) (l : list loc) : Prop :=
  (∀ q, q ∈ l → m' !! q = None) ∧ (∀ q, q ∉ l → strip <$> m' !! q = strip <$> m !! q).

(** Nothing that [_talloc_free] has to care for. *)
Definition quiet (m : chunks) (l : list loc) : Prop :=
  ∀ x, x ∈ l → ∃ ch, m !! x = Some ch ∧ tc_refs ch = None ∧ tc_destructor ch = None
                     ∧ tc_flag_loop ch = false ∧ tc_flag_free ch = false.

(** ** Lists and maps *)

Lemma filter_all {A} (P : A → Prop) `{∀ x, Decision (P x)} (l : list A) : (∀ x, x ∈ l → P x) → filter P l = l.
Proof.
  induction l as [|x l IH]; intros H'; [done|].
  rewrite filter_cons_True by (apply H'; by left). rewrite IH; [done|]. intros; apply H'; by right.
Qed.

Lemma filter_none {A} (P : A → Prop) `{∀ x, Decision (P x)} (l : list A) : (∀ x, x ∈ l → ¬ P x) → filter P l = [].
Proof.
  induction l as [|x l IH]; intros H'; [done|].
  rewrite filter_cons_False by (apply H'; by left). apply IH. intros; apply H'; by right.
Qed.

Lemma filter_two {A} (P Q R : A → Prop) `{∀ x, Decision (P x), ∀ x, Decision (Q x), ∀ x, Decision (R x)} (l : list A) :
  (∀ x, R x ↔ P x ∧ Q x) → filter P (filter Q l) = filter R l.
Proof.
  intros HR. induction l as [|x l IH]; [done|].
  destruct (decide (R x)) as [HR'|HR']; pose proof (HR x) as Hx.
  - rewrite (filter_cons_True R), (filter_cons_True Q), (filter_cons_True P) by tauto. by rewrite IH.
  - rewrite (filter_cons_False R) by done. destruct (decide (Q x)) as [HQ|HQ].
    + rewrite (filter_cons_True Q), (filter_cons_False P) by tauto. done.
    + by rewrite (filter_cons_False Q).
Qed.

Lemma elem_of_prune K l x q : x ∈ prune K l q ↔ (q ∉ l) ∧ (x ∉ l) ∧ x ∈ K q.
Proof.
  unfold prune. case_decide as Hq.
  - split; [by intros ?%elem_of_nil|tauto].
  - rewrite list_elem_of_filter. tauto.
Qed.

Lemma prune_app K l l' q : prune (prune K l) l' q = prune K (l ++ l') q.
Proof.
  unfold prune at 1 3. destruct (decide (q ∈ l')) as [H'|H'].
  { rewrite decide_True; [done|]. apply elem_of_app. by right. }
  unfold prune. destruct (decide (q ∈ l)) as [H|H].
  { rewrite decide_True; [done|]. apply elem_of_app. by left. }
  rewrite decide_False by (rewrite elem_of_app; tauto).
  apply filter_two. intros x. rewrite elem_of_app. tauto.
Qed.

Lemma freed_trans m m' m'' l l' :
  freed m m' l → freed m' m'' l' → freed m m'' (l ++ l').
Proof.
  intros [H1 H2] [H3 H4]. split; intros q; rewrite elem_of_app.
  - intros H. destruct (decide (q ∈ l')) as [Hq'|Hq']; [by apply H3|].
    destruct H as [Hq|Hq]; [|done]. specialize (H4 q Hq'). rewrite (H1 q Hq) in H4.
    by destruct (m'' !! q).
  - intros H. rewrite H4 by tauto. apply H2. tauto.
Qed.

Lemma freed_quiet m m' l l' : freed m m' l → (∀ x, x ∈ l' → x ∉ l) → quiet m l' → quiet m' l'.
Proof.
  intros [_ H] Hd Hq x Hx. destruct (Hq x Hx) as (ch & Hch & Hr & Ht & Hl & Hf).
  specialize (H x (Hd x Hx)). rewrite Hch in H. destruct (m' !! x) as [ch'|]; [|done].
  apply (inj Some) in H. exists ch'. split; [done|].
  assert (tc_refs ch' = tc_refs ch ∧ tc_destructor ch' = tc_destructor ch ∧
    tc_flag_loop ch' = tc_flag_loop ch ∧ tc_flag_free ch' = tc_flag_free ch) as (-> & -> & -> & ->); [|done].
  destruct ch, ch'. by injection H as ? ? ? ? ? ? ?.
Qed.

Lemma same_freed m m' : same_but_links m m' → freed m m' [].
Proof.
  intros H. split; [by intros q ?%elem_of_nil|]. intros q _. by rewrite <- !lookup_fmap, H.
Qed.

(** ** The hierarchy while a chunk is being freed *)

Lemma tree_ok_root_insert m K p c c' :
  tree_ok m K → m !! p = Some c → is_root K p → tc_child c' = tc_child c → tc_flag_loop c' = true →
  tree_ok (<[p:=c']> m) K.
Proof.
  intros Hok Hp Hr Hc Hl. split.
  - intros q x Hq. apply lookup_insert_is_Some'. right. by eapply t_live.
  - intros q ch. rewrite lookup_insert. case_decide; [|by apply (t_child _ _ Hok)].
    subst. intros [= <-]. rewrite Hc. by apply (t_child _ _ Hok).
  - intros q. apply dll_insert; [apply Hr|apply (t_list _ _ Hok)].
  - apply (t_nodup _ _ Hok).
  - apply (t_uniq _ _ Hok).
  - intros q ch. rewrite lookup_insert. case_decide; [|by apply (t_root _ _ Hok)].
    subst. intros [= <-] _ Hf. congruence.
  - apply (t_acyc _ _ Hok).
Qed.

Lemma tree_ok_delete m K p : tree_ok m K → is_root K p → K p = [] → tree_ok (delete p m) K.
Proof.
  intros Hok Hr Hk. split.
  - intros q x Hq. assert (p ≠ q) by (intros ->; rewrite Hk in Hq; by apply elem_of_nil in Hq).
    rewrite lookup_delete_ne by done. by eapply t_live.
  - intros q ch [? Hq]%lookup_delete_Some. by apply (t_child _ _ Hok).
  - intros q. eapply dll_frame; [apply (t_list _ _ Hok)|]. intros x Hx.
    rewrite lookup_delete_ne; [done|]. intros ->. by apply (Hr q).
  - apply (t_nodup _ _ Hok).
  - apply (t_uniq _ _ Hok).
  - intros q ch [? Hq]%lookup_delete_Some. by apply (t_root _ _ Hok).
  - apply (t_acyc _ _ Hok).
Qed.

(** ** The hierarchy and a part of it *)

Lemma subs_length K cs l : subs K cs l → (length cs ≤ length l)%nat.
Proof.
  induction 1 as [|c cs l l' Hc Hcs IH]; [done|]. rewrite length_app. inversion Hc. cbn. lia.
Qed.

Lemma remove_agree K K' p l :
  subs K (K p) l → p ∉ l → (∀ x, x ∈ l → K' x = K x) → ∀ x, x ∈ l → remove_child K' p x = K x.
Proof.
  intros Hl Hpl Hagree x Hx. rewrite <- (Hagree x) by done. apply remove_child_id. intros Hpx.
  assert (p ∈ l) as Hpl'; [|done]. rewrite (Hagree x) in Hpx by done.
  apply (proj2 (sub_ancestor K) _ _ Hl). apply (proj2 (sub_ancestor K) _ _ Hl) in Hx as (c & Hc & Hxc).
  exists c. split; [done|]. by eapply rtc_l.
Qed.

Lemma prune_node K K' p l :
  subs K (K p) l → p ∉ l → K' p = K p →
  ∀ q, prune (remove_child K' p) l q = prune K' (p :: l) q.
Proof.
  intros Hl Hpl Hkp q. unfold prune at 2. case_decide as Hq'.
  - apply elem_of_cons in Hq' as [->|Hq']; [|unfold prune; by rewrite decide_True].
    unfold prune. rewrite decide_False by done. apply filter_none.
    intros x [_ Hx]%elem_of_remove_child Hxl. apply Hxl. rewrite Hkp in Hx.
    apply (proj2 (sub_ancestor K) _ _ Hl). exists x. split; [done|apply rtc_refl].
  - rewrite not_elem_of_cons in Hq'. unfold prune. rewrite decide_False by tauto.
    apply filter_two. intros x. rewrite not_elem_of_cons. tauto.
Qed.

Section free.
Context (user_dtor : nat → loc → M Z).

Abbreviation free := (_talloc_free user_dtor).

(** A chunk without references and destructor. *)
Lemma free_quiet_step fuel m nc ac ae p ch :
  m !! p = Some ch → tc_refs ch = None → tc_destructor ch = None →
  tc_flag_loop ch = false → tc_flag_free ch = false →
  free (S fuel) (Some p) (Heap m nc ac ae) =
    (unlink_chunk p;; upd p (set_flag_loop true);; free_children_loop (free fuel) fuel p;;
     upd p (set_flag_free true);; modify (λ h, set_mem (delete p (mem h)) h);; mret 0) (Heap m nc ac ae).
Proof.
  intros Hp Hr Hd Hl Hf. cbn [_talloc_free]. erewrite x_ptr by done. mrun. rewrite Hr. mrun. rewrite Hl.
  unfold run_destructor. mrun. rewrite Hd. by mrun.
Qed.

(** [free] on [p] and the loop over its children, for the chunks [l] of a part
    of [K] that the current hierarchy [K'] still has. *)
Definition frees (K : children) (p : loc) (l : list loc) : Prop :=
  ∀ K' fuel m nc ac ae, tree_ok m K' → (∀ x, x ∈ l → K' x = K x) →
    NoDup l → quiet m l → (length l < fuel)%nat →
    ∃ m', free fuel (Some p) (Heap m nc ac ae) = Ok (0, Heap m' nc ac ae) ∧
      tree_ok m' (prune K' l) ∧ freed m m' l.

Definition frees_children (K : children) (cs l : list loc) : Prop :=
  ∀ K' p fuel n m nc ac ae, tree_ok m K' → (∀ x, x ∈ l → K' x = K x) →
    NoDup l → quiet m l → p ∉ l → is_Some (m !! p) → K' p = cs →
    (length l < fuel)%nat → (length cs ≤ n)%nat →
    ∃ m', free_children_loop (free fuel) n p (Heap m nc ac ae) = Ok (tt, Heap m' nc ac ae) ∧
      tree_ok m' (prune K' l) ∧ freed m m' l.

Lemma frees_node K p l : subs K (K p) l → frees_children K (K p) l → frees K p (p :: l).
Proof.
  intros Hl IH K' fuel m nc ac ae Hok Hagree [Hpl Hnd]%NoDup_cons Hq Hfuel.
  destruct fuel as [|fuel]; [cbn in Hfuel; lia|]. cbn [length] in Hfuel.
  destruct (Hq p ltac:(by left)) as (ch & Hch & Hr & Hd & Hlp & Hf).
  rewrite (free_quiet_step _ _ _ _ _ _ ch) by done.
  destruct (unlink_chunk_spec m nc ac ae K' p ch Hok Hch Hlp) as (m1 & E1 & H1).
  rewrite (M_bind_ok _ _ _ _ _ E1).
  destruct (same_lookup _ _ _ _ (to_same _ _ _ _ H1) Hch) as (ch1 & Hch1 & _).
  pose proof (taken_out_ok _ _ _ _ ch1 Hok H1 Hch1) as Ht1.
  mrun. set (m2 := <[p:=set_flag_loop true ch1]> m1).
  assert (tree_ok m2 (remove_child K' p)) as Ht2.
  { unfold m2. rewrite <- (insert_insert_eq _ p _ (clear_links ch1)).
    eapply tree_ok_root_insert; [exact Ht1|by rewrite lookup_insert_eq|apply remove_child_root|done..]. }
  assert (K' p = K p) as Hkp by (apply Hagree; by left).
  pose proof (remove_agree K K' p l Hl Hpl (λ x Hx, Hagree x ltac:(by right))) as Hagree2.
  assert (same_but_links m m1) as Hs1 by apply H1.
  destruct (IH (remove_child K' p) p fuel fuel m2 nc ac ae) as (m3 & E3 & Ht3 & Hf3); try done.
  + intros x Hx. destruct (Hq x ltac:(by right)) as (cx & Hcx & Hx1 & Hx2 & Hx3 & Hx4).
    unfold m2. rewrite lookup_insert_ne by congruence.
    destruct (freed_quiet m m1 [] [x] (same_freed _ _ Hs1)) with (x := x) as (cy & Hcy); [..|by left|eauto].
    * intros ? _. apply not_elem_of_nil.
    * intros y ->%list_elem_of_singleton. exists cx. by split_and!.
  + unfold m2. rewrite lookup_insert_eq. eauto.
  + rewrite remove_child_id; [done|apply (not_own_child _ _ Hok)].
  + lia.
  + pose proof (subs_length _ _ _ Hl). lia.
  + rewrite (M_bind_ok _ _ _ _ _ E3).
    assert (is_Some (m3 !! p)) as [ch3 Hch3].
    { pose proof (proj2 Hf3 p Hpl) as H. unfold m2 in H. rewrite lookup_insert_eq in H.
      destruct (m3 !! p); [eauto|done]. }
    mrun. rewrite x_modify. unfold set_mem. cbn [mem null_context autofree_context at_exit].
    eexists. split; [done|]. rewrite delete_insert_eq.
    pose proof (prune_node K K' p l Hl Hpl Hkp) as Hpr.
    split.
    * eapply tree_ok_ext; [exact Hpr|]. apply tree_ok_delete; [exact Ht3|..].
      -- intros q Hx. apply elem_of_prune in Hx as (_ & _ & [Hx _]%elem_of_remove_child). done.
      -- rewrite Hpr. unfold prune. rewrite decide_True; [done|by left].
    * destruct Hf3 as [Hf31 Hf32]. split; intros q; rewrite elem_of_cons.
      -- intros [->|Hx]; [by rewrite lookup_delete_eq|].
         rewrite lookup_delete_ne by congruence. by apply Hf31.
      -- intros Hqn. assert (p ≠ q ∧ q ∉ l) as [Hqp Hql] by (split; [intros ->|]; tauto).
         rewrite lookup_delete_ne by done. rewrite Hf32 by done. unfold m2.
         rewrite lookup_insert_ne by done. by rewrite <- !lookup_fmap, Hs1.
Qed.

Lemma frees_nil K : frees_children K [] [].
Proof.
  intros K' p fuel n m nc ac ae Hok _ _ _ _ [ch Hp] Hk _ _. exists m.
  pose proof (t_child _ _ Hok p ch Hp) as Hc. rewrite Hk in Hc. split.
  + destruct n; cbn [free_children_loop]; mrun; by rewrite Hc.
  + split; [|by apply same_freed]. eapply tree_ok_ext; [|exact Hok]. intros q. unfold prune.
    rewrite decide_False by apply not_elem_of_nil. symmetry. apply filter_all.
    intros x _. apply not_elem_of_nil.
Qed.

Lemma frees_cons K c cs l l' :
  sub K c l → frees K c l → subs K cs l' → frees_children K cs l' →
  frees_children K (c :: cs) (l ++ l').
Proof.
  intros Hl IH1 Hl' IH2 K' p fuel n m nc ac ae Hok Hagree Hnd Hq Hpl [chp Hp] Hk Hfuel Hn.
  destruct n as [|n]; [cbn in Hn; lia|]. cbn [length] in Hn. rewrite length_app in Hfuel.
  apply NoDup_app in Hnd as (Hnd1 & Hdis & Hnd2).
  pose proof (t_child _ _ Hok p chp Hp) as Hc. rewrite Hk in Hc. cbn [head] in Hc.
  assert (c ∈ l) as Hcl by (apply (proj1 (sub_ancestor K) _ _ Hl), rtc_refl).
  destruct (Hq c) as (chc & Hchc & Hcr & _); [apply elem_of_app; by left|].
  rewrite not_elem_of_app in Hpl. destruct Hpl as [Hpl Hpl'].
  cbn [free_children_loop]. mrun. rewrite Hc. mrun. rewrite Hcr. unfold reference_owner. mrun.
  destruct (IH1 K' fuel m nc ac ae) as (m1 & E1 & Ht1 & Hf1); try done.
  { intros x Hx. apply Hagree, elem_of_app. by left. }
  { intros x Hx. apply Hq, elem_of_app. by left. }
  { lia. }
  rewrite (M_bind_ok _ _ _ _ _ E1). cbn [Z.eqb]. mrun.
  assert (∀ x, x ∈ cs → x ∈ l') as Hcs.
  { intros x Hx. apply (proj2 (sub_ancestor K) _ _ Hl'). exists x. split; [done|apply rtc_refl]. }
  destruct (IH2 (prune K' l) p fuel n m1 nc ac ae) as (m2 & E2 & Ht2 & Hf2); try done.
  + intros x Hx. unfold prune. rewrite decide_False by (intros Hxl; by apply (Hdis x)).
    rewrite Hagree by (apply elem_of_app; by right). apply filter_all. intros y Hy Hyl.
    apply (Hdis y Hyl). apply (proj2 (sub_ancestor K) _ _ Hl').
    apply (proj2 (sub_ancestor K) _ _ Hl') in Hx as (d & Hd & Hxd). exists d. split; [done|]. by eapply rtc_l.
  + eapply freed_quiet; [exact Hf1|by intros x Hx Hxl; apply (Hdis x)|].
    intros x Hx. apply Hq, elem_of_app. by right.
  + pose proof (proj2 Hf1 p Hpl) as H. rewrite Hp in H. destruct (m1 !! p); [eauto|done].
  + unfold prune. rewrite decide_False, Hk by done. rewrite filter_cons_False by tauto.
    apply filter_all. intros x Hx Hxl. by apply (Hdis x), Hcs.
  + lia.
  + lia.
  + exists m2. split; [exact E2|]. split; [|by eapply freed_trans].
    eapply tree_ok_ext; [|exact Ht2]. apply prune_app.
Qed.

Lemma free_sub (K : children) :
  (∀ p l, sub K p l → frees K p l) ∧ (∀ cs l, subs K cs l → frees_children K cs l).
Proof.
  apply sub_subs_ind; intros; [by apply frees_node|apply frees_nil|by apply frees_cons].
Qed.
End free.

Lemma talloc_free_subtree_lemma user_dtor h K p l fuel :
  heap_ok h K → is_Some (mem h !! p) → sub K p l → quiet (mem h) l →
  (∀ q, null_context h = Some q → q ∉ l) → (length l < fuel)%nat →
  ∃ m', talloc_free user_dtor fuel (Some p) h = Ok (0, set_mem m' h) ∧
    heap_ok (set_mem m' h) (prune K l) ∧ freed (mem h) m' l.
Proof.
  intros Hok Hp Hl Hq Hnull Hfuel. pose proof (h_tree _ _ Hok) as Ht. destruct h as [m nc ac ae].
  destruct (proj1 (free_sub user_dtor K) p l Hl K fuel m nc ac ae Ht) as (m' & E & Ht' & Hf); try done.
  { exact (proj1 (sub_nodup _ _ Ht) _ _ Hl). }
  exists m'. split; [exact E|]. split; [|done]. pose proof Hf as [Hf1 Hf2]. cbn [mem set_mem] in *.
  assert (∀ x c, m' !! x = Some c → ∃ c0, m !! x = Some c0 ∧ strip c0 = strip c) as Hback.
  { intros x c Hx. assert (x ∉ l) as Hxl. { intros H. by rewrite (Hf1 x H) in Hx. }
    specialize (Hf2 x Hxl). rewrite Hx in Hf2. destruct (m !! x) as [c0|]; [|done].
    exists c0. split; [done|]. by apply (inj Some) in Hf2. }
  split; cbn.
  - done.
  - intros x c Hx. destruct (Hback x c Hx) as (c0 & H0 & Es).
    rewrite <- (strip_free _ _ Es). by apply (h_alive _ _ Hok x).
  - intros x c Hx. destruct (Hback x c Hx) as (c0 & H0 & Es).
    rewrite <- (strip_loop _ _ Es). by apply (h_idle _ _ Hok x).
  - intros q Hq'. destruct (h_null _ _ Hok q Hq') as [c Hc]. cbn in Hc.
    specialize (Hf2 q (Hnull q Hq')). rewrite Hc in Hf2. destruct (m' !! q); [eauto|done].
Qed.

(** [talloc_free_subtree]: [talloc_free] of a chunk whose subtree has no
    references and no destructors returns 0 and frees the chunk and everything
    below it, and nothing else; every other chunk keeps its memory and its place
    in the hierarchy.  The fuel of the recursion is one more than the chunks it
    frees. *)
Theorem talloc_free_subtree user_dtor h K p l fuel :
  heap_ok h K → is_Some (mem h !! p) → sub K p l → quiet (mem h) l →
  (∀ q, null_context h = Some q → q ∉ l) → (length l < fuel)%nat →
  ∃ m', talloc_free user_dtor fuel (Some p) h = Ok (0, set_mem m' h) ∧
    heap_ok (set_mem m' h) (prune K l) ∧ freed (mem h) m' l.
Proof. exact (talloc_free_subtree_lemma user_dtor h K p l fuel). Qed.
