(* ===== verification/TallocMem.v ===== *)
(** * Memory, names and the limits of freeing

    Arrays and their overflow check, [talloc_strdup], a destructor that refuses,
    and three runs of the allocator that go wrong. *)

From S2P Require Import Prelude CString Talloc TallocHeap TallocTree TallocProps TallocWalk TallocFree.
From stdpp Require Import relations fin_sets.

Local Open Scope Z_scope.

(** ** Arrays *)

Section arrays.
Context (wb : Z) (malloc : heap → Z → option loc) (junk : nat → bytes).

Lemma array_check el count h :
  0 < el → 0 ≤ count →
  array_too_big el count h = Ok (MAX_TALLOC_SIZE / el <=? count, h) ∧
  (count < MAX_TALLOC_SIZE / el → el * count < MAX_TALLOC_SIZE).
Proof.
  intros Hel Hc. unfold array_too_big. rewrite (proj2 (Z.eqb_neq el 0)) by lia. split; [done|].
  intros Hlt. pose proof (Z.mul_div_le MAX_TALLOC_SIZE el Hel). nia.
Qed.
End arrays.

(** [talloc_array_bounds]: the array functions never allocate a wrapped size:
    a count that does not pass the check gives NULL and changes nothing; one
    that passes asks for exactly [el_size * count] bytes, below the limit of
    the library, on any [size_t] of at least 28 bits. *)
Theorem talloc_array_bounds wb malloc realloc junk user_dtor fuel ctx ptr el count name h :
  28 ≤ wb → 0 < el → 0 ≤ count →
  (MAX_TALLOC_SIZE / el ≤ count →
   _talloc_array wb malloc junk ctx el count name h = Ok (None, h) ∧
   _talloc_zero_array wb malloc junk ctx el count name h = Ok (None, h) ∧
   _talloc_realloc_array wb malloc realloc junk user_dtor fuel ctx ptr el count name h = Ok (None, h)) ∧
  (count < MAX_TALLOC_SIZE / el →
   el * count < MAX_TALLOC_SIZE ∧
   _talloc_array wb malloc junk ctx el count name h
     = _talloc_named_const wb malloc junk ctx (el * count) name h ∧
   _talloc_zero_array wb malloc junk ctx el count name h
     = _talloc_zero wb malloc junk ctx (el * count) name h ∧
   _talloc_realloc_array wb malloc realloc junk user_dtor fuel ctx ptr el count name h
     = _talloc_realloc wb malloc realloc junk user_dtor fuel ctx ptr (el * count) name h).
Proof.
  intros Hwb Hel Hc. destruct (array_check el count h Hel Hc) as [E Hlt].
  unfold _talloc_array, _talloc_zero_array, _talloc_realloc_array.
  rewrite !(M_bind_ok _ _ _ _ _ E). split; intros Hb.
  - by rewrite (proj2 (Z.leb_le _ _)) by done.
  - rewrite (proj2 (Z.leb_gt _ _)) by done. specialize (Hlt Hb).
    assert (2 ^ 28 ≤ 2 ^ wb) by (apply Z.pow_le_mono_r; lia).
    rewrite !wrapu_small; [done|]. change MAX_TALLOC_SIZE with (2 ^ 28) in *. nia.
Qed.

(** ** Writing the memory of a chunk *)

(** Writes of the memory and the name keep the heap well-formed. *)
Lemma heap_ok_insert h K p c c' :
  heap_ok h K → mem h !! p = Some c →
  side_links c' = side_links c → tc_child c' = tc_child c →
  tc_flag_loop c' = tc_flag_loop c → tc_flag_free c' = tc_flag_free c →
  heap_ok (set_mem (<[p:=c']> (mem h)) h) K.
Proof.
  intros Hok Hp Hs Hc Hl Hf. split; cbn.
  - eapply tree_ok_insert; [apply Hok|done..|congruence].
  - intros q d. rewrite lookup_insert. case_decide; [|by apply (h_alive _ _ Hok)].
    intros [= <-]. rewrite Hf. by apply (h_alive _ _ Hok p).
  - intros q d. rewrite lookup_insert. case_decide; [|by apply (h_idle _ _ Hok)].
    intros [= <-]. rewrite Hl. by apply (h_idle _ _ Hok p).
  - intros q Hq. apply lookup_insert_is_Some'. right. by apply (h_null _ _ Hok).
Qed.

Lemma write_at_ok p off s c b h :
  mem h !! p = Some c → tc_data c = Bytes b → (off + length s ≤ length b)%nat →
  write_at p off s h =
    Ok (tt, set_mem (<[p:=set_data (Bytes (take off b ++ s ++ drop (off + length s) b)) c]> (mem h)) h).
Proof.
  intros Hp Hd Hl. unfold write_at. erewrite fld_bind by done. rewrite Hd, decide_True by done.
  by apply upd_ok.
Qed.

(** The same write on both sides. *)
Lemma same_rewrite m m' m1 p d d1 :
  same_but_links m m' → strip d = strip d1 → m1 = <[p:=d]> m → same_but_links m1 (<[p:=d1]> m').
Proof. unfold same_but_links. intros H Hd ->. by rewrite !fmap_insert, H, Hd. Qed.

Section strdup.
Context (wb : Z) (malloc : heap → Z → option loc) (junk : nat → bytes).
Context (malloc_fresh : ∀ h n p, malloc h n = Some p → mem h !! p = None).
Context (junk_length : ∀ n, length (junk n) = n).

(** The chunk of a copied string. *)
Definition string_chunk (q : loc) (s : bytes) : talloc_chunk :=
  set_name (name_in q) (set_data (Bytes (s ++ [NUL])) (new_chunk junk (Z.of_nat (length s) + 1))).

(** The chunk of a named allocation. *)
Lemma named_const_spec h K ctx size name p :
  heap_ok h K → context_ok h ctx → size < MAX_TALLOC_SIZE → malloc h (TC_HDR_SIZE wb + size) = Some p →
  ∃ m', _talloc_named_const wb malloc junk ctx size name h = Ok (Some p, set_mem m' h) ∧
    heap_ok (set_mem m' h) (alloc_children h K ctx p) ∧
    same_but_links (<[p:=set_name name (new_chunk junk size)]> (mem h)) m'.
Proof.
  intros Hok Hctx Hsz Hm.
  destruct (talloc_spec wb malloc junk malloc_fresh h K ctx size p Hok Hctx Hsz Hm) as (m1 & E & Hok1 & Hs).
  destruct (same_lookup _ _ p (new_chunk junk size) Hs) as (c1 & Hc1 & Es); [by rewrite lookup_insert_eq|].
  unfold _talloc_named_const. rewrite (M_bind_ok _ _ _ _ _ E). unfold _talloc_set_name_const.
  rewrite M_bind_assoc. erewrite chunk_from_ptr_bind; [|exact Hc1|by rewrite <- (strip_free _ _ Es)].
  erewrite upd_bind by exact Hc1. cbn [mem set_mem]. eexists. split; [done|]. split.
  - eapply (heap_ok_insert (set_mem m1 h)); done.
  - eapply same_rewrite; [exact Hs| |by rewrite insert_insert_eq].
    unfold strip in *. destruct c1. by injection Es as <- <- <- <- <- <- <-.
Qed.

Lemma strlendup_spec h K t s r q :
  heap_ok h K → context_ok h t →
  Z.of_nat (length s) + 1 < MAX_TALLOC_SIZE →
  malloc h (TC_HDR_SIZE wb + (Z.of_nat (length s) + 1)) = Some q →
  ∃ m', __talloc_strlendup wb malloc junk t (s ++ r) (length s) h = Ok (Some q, set_mem m' h) ∧
    heap_ok (set_mem m' h) (alloc_children h K t q) ∧
    same_but_links (<[q:=string_chunk q s]> (mem h)) m'.
Proof.
  intros Hok Ht Hsz Hm. unfold __talloc_strlendup.
  destruct (talloc_spec wb malloc junk malloc_fresh h K t _ q Hok Ht Hsz Hm) as (m1 & E & Hok1 & Hs).
  rewrite (M_bind_ok _ _ _ _ _ E). rewrite decide_True by len. rewrite take_app_length.
  set (c0 := new_chunk junk (Z.of_nat (length s) + 1)) in *.
  destruct (same_lookup _ _ q c0 Hs) as (c1 & Hc1 & Es); [by rewrite lookup_insert_eq|].
  assert (tc_data c1 = tc_data c0 ∧ tc_size c1 = tc_size c0 ∧ tc_flag_free c1 = false) as (Hd & Hsize & Hfree).
  { destruct c1. unfold c0, new_chunk in *. by injection Es as <- <- <- <- <- <- <-. }
  pose proof (junk_length (Z.to_nat (Z.of_nat (length s) + 1))) as Hjl.
  rewrite (M_bind_ok _ _ _ _ _ (write_at_ok q 0 s c1 _ (set_mem m1 h) Hc1 Hd ltac:(lia))).
  cbn [take app]. rewrite Nat.add_0_l. set (c2 := set_data _ c1).
  set (m2 := <[q:=c2]> m1).
  assert (mem (set_mem m2 h) !! q = Some c2) as Hc2 by (cbn; apply lookup_insert_eq).
  set (b := s ++ drop (length s) (junk (Z.to_nat (Z.of_nat (length s) + 1)))).
  assert (length b = S (length s)) as Hl2.
  { unfold b. rewrite length_app, length_drop, Hjl. lia. }
  assert (tc_data c2 = Bytes b) as Hd2 by done.
  assert (length s + length [NUL] ≤ length b)%nat as Hl3 by (rewrite Hl2; cbn; lia).
  rewrite (M_bind_ok _ _ _ _ _ (write_at_ok q (length s) [NUL] c2 b (set_mem m2 h) Hc2 Hd2 Hl3)).
  assert (take (length s) b ++ [NUL] ++ drop (length s + length [NUL]) b = s ++ [NUL]) as ->.
  { unfold b at 1. rewrite take_app_length, drop_ge by (rewrite Hl2; cbn; lia). by rewrite app_nil_r. }
  unfold _talloc_set_name_const. rewrite M_bind_assoc. erewrite chunk_from_ptr_bind; [|by apply lookup_insert_eq|done].
  erewrite upd_bind by apply lookup_insert_eq. cbn [mem set_mem].
  eexists. split; [done|]. unfold m2. cbn [mem set_mem]. rewrite !insert_insert_eq. split.
  - eapply (heap_ok_insert (set_mem m1 h)); done.
  - eapply same_rewrite; [exact Hs| |by rewrite insert_insert_eq].
    unfold c2, c0, string_chunk, strip in *. destruct c1. by injection Es as <- <- <- <- <- <- <-.
Qed.
End strdup.

(** [talloc_strdup_spec]: [talloc_strdup] of a string [s] gives a new chunk in
    front of the children of the context that holds [s] and a NUL, is named
    after itself, and reads back as [s]; no other chunk changes but for the
    links. *)
Theorem talloc_strdup_spec wb malloc junk h K t s r q :
  (∀ h n p, malloc h n = Some p → mem h !! p = None) → (∀ n, length (junk n) = n) →
  heap_ok h K → context_ok h t → nul_free s → Z.of_nat (length s) + 1 < MAX_TALLOC_SIZE →
  malloc h (TC_HDR_SIZE wb + (Z.of_nat (length s) + 1)) = Some q →
  ∃ h', talloc_strdup wb malloc junk t (Some (s ++ NUL :: r)) h = Ok (Some q, h') ∧
    heap_ok h' (alloc_children h K t q) ∧
    talloc_get_name (Some q) h' = Ok (s, h') ∧ talloc_get_size (Some q) h' = Ok (Z.of_nat (length s) + 1, h') ∧
    (∀ p, p ≠ q → strip <$> mem h' !! p = strip <$> mem h !! p).
Proof.
  intros Hf Hj Hok Ht Hnul Hsz Hm.
  destruct (strlendup_spec wb malloc junk Hf Hj h K t s (NUL :: r) q Hok Ht Hsz Hm)
    as (m' & E & Hok' & Hsame).
  destruct (same_lookup _ _ q (string_chunk junk q s) Hsame) as (c & Hc & Es); [by rewrite lookup_insert_eq|].
  assert (tc_data c = Bytes (s ++ [NUL]) ∧ tc_name c = name_in q ∧ tc_size c = Z.of_nat (length s) + 1)
    as (Hd & Hn & Hs).
  { unfold string_chunk, strip in Es. destruct c. by injection Es as <- <- <- <- <- <- <-. }
  assert (∀ p, p ≠ q → strip <$> m' !! p = strip <$> mem h !! p) as Hoth.
  { intros p Hp. rewrite <- !lookup_fmap, <- Hsame. by rewrite !lookup_fmap, lookup_insert_ne. }
  exists (set_mem m' h). unfold talloc_strdup.
  unfold lift, mbind, M_bind. rewrite strlen_app by done. split; [exact E|]. split; [done|].
  pose proof (h_alive _ _ Hok' q c Hc) as Hfree. split_and!; [..|done].
  - unfold talloc_get_name. erewrite chunk_from_ptr_bind by done. erewrite fld_bind by done. rewrite Hn.
    unfold name_string, string_at. rewrite !M_bind_assoc. erewrite fld_bind by done. rewrite Hd.
    unfold lift, mbind, M_bind. rewrite cstr_app by done. done.
  - unfold talloc_get_size. erewrite chunk_from_ptr_bind by done. erewrite fld_ok by done. by rewrite Hs.
Qed.

(** ** A destructor that refuses *)

(** [talloc_free_refused]: when the destructor of an unreferenced chunk returns
    -1 and changes nothing, [talloc_free] returns -1 and the heap, the
    destructor included, is as before. *)
Theorem talloc_free_refused user_dtor h p ch d fuel :
  mem h !! p = Some ch → tc_flag_free ch = false → tc_flag_loop ch = false → tc_refs ch = None →
  tc_destructor ch = Some (dtor_user d) → (∀ h, user_dtor d p h = Ok (-1, h)) →
  talloc_free user_dtor (S fuel) (Some p) h = Ok (-1, h).
Proof.
  intros Hp Hf Hl Hr Hd Hdt. destruct h as [m nc ac ae]. cbn [mem] in *.
  unfold talloc_free. cbn [_talloc_free]. erewrite x_ptr by done. mrun. rewrite Hr. mrun. rewrite Hl.
  unfold run_destructor. mrun. rewrite Hd. mrun. cbn [call_destructor].
  rewrite (M_bind_ok _ _ _ _ _ (Hdt _)), Z.eqb_refl. mrun.
  rewrite insert_insert_eq, insert_id; [done|]. rewrite Hp. f_equal. destruct ch; cbn in *. by subst.
Qed.

(** ** Three runs that go wrong

    On a heap that is empty at the start, with an allocator that gives the
    least unused address and clears the memory. *)

Definition next_malloc (h : heap) (n : Z) : option loc := Some (fresh (dom (mem h))).
Definition zero_junk (n : nat) : bytes := replicate n NUL.
Definition no_dtor (d : nat) (p : loc) : M Z := mret 0.
Definition empty_heap : heap := Heap ∅ None None [].

Lemma next_malloc_fresh h n p : next_malloc h n = Some p → mem h !! p = None.
Proof. unfold next_malloc. intros [= <-]. apply not_elem_of_dom, is_fresh. Qed.

Lemma zero_junk_length n : length (zero_junk n) = n.
Proof. apply length_replicate. Qed.

Definition demo_alloc (ctx : option loc) : M (option loc) := __talloc 64 next_malloc zero_junk ctx 8.
Definition demo_reference (ctx p : option loc) : M (option loc) :=
  _talloc_reference 64 next_malloc zero_junk ctx p.

(** A parent [P] with a child [C] with a child [G]; [x] outside holds the first
    reference to [C] and [G] the second. *)
Definition demo_tree : M (option loc * option loc * option loc * option loc) :=
  P ← demo_alloc None; x ← demo_alloc None; C ← demo_alloc P; G ← demo_alloc C;
  demo_reference x C;; demo_reference G C;;
  mret (P, x, C, G).

Definition demo_cycle : M (Z * bool * bool) :=
  '(P, x, C, G) ← demo_tree;
  rc ← talloc_free no_dtor 20 P;
  pc ← talloc_parent C; pg ← talloc_parent G;
  mret (rc, bool_decide (pc = G), bool_decide (pg = C)).

(** [talloc_free_makes_cycle]: freeing the parent of [C] succeeds and leaves
    [C] a child of its own child [G], so that neither can be reached, and the
    reference of [x] is gone too: the new owner is chosen from the first
    reference, before [_talloc_free] drops it. *)
Theorem talloc_free_makes_cycle :
  ∃ h, demo_cycle empty_heap = Ok (0, true, true, h) ∧ size (mem h) = 3%nat.
Proof.
  destruct (demo_cycle empty_heap) as [[v h]| |] eqn:E; [|vm_compute in E; discriminate..].
  exists h. vm_compute in E. injection E as [= <- <-]. split; vm_compute; reflexivity.
Qed.

(** In that heap the walk towards the root does not end: after as many steps as
    there are chunks it is still going. *)
Definition demo_walk : M Z :=
  '(P, x, C, G) ← demo_tree; talloc_free no_dtor 20 P;; talloc_is_parent C x.

(** [talloc_is_parent_diverges]: after the same calls [talloc_is_parent] on [C]
    and a chunk that is not above it passes the bound of the walk. *)
Theorem talloc_is_parent_diverges : demo_walk empty_heap = OutOfFuel.
Proof. vm_compute. reflexivity. Qed.

Definition demo_name : M bytes :=
  P ← demo_alloc None;
  talloc_set_name 64 next_malloc zero_junk P (Some (lit "context"));;
  talloc_free_children no_dtor 20 P;;
  talloc_get_name P.

(** [talloc_free_children_dangles]: [talloc_set_name] keeps the name in a
    child; [talloc_free_children] frees it with the others and leaves the name
    pointing at it: reading the name is undefined. *)
Theorem talloc_free_children_dangles : demo_name empty_heap = UB.
Proof. vm_compute. reflexivity. Qed.
