(* ===== verification/TallocRefs.v ===== *)
(** * References

    [refs_ok m K R]: in the memory [m] the references to each chunk [p] are the
    handles [R p], the newest first, linked through their own fields; a handle
    has no children and no references.  [_talloc_reference] adds a handle,
    [talloc_unreference] frees one, and freeing a subtree drops the references
    that are held in it. *)

From S2P Require Import Prelude CString Talloc TallocHeap TallocTree TallocProps TallocWalk TallocFree TallocMem.
From stdpp Require Import relations.

Local Open Scope Z_scope.

Abbreviation references := (loc → list loc).

(** ** What the references and the hierarchy depend on *)

Definition data_bare (d : payload) : payload :=
  match d with Handle _ _ t => Handle None None t | Bytes b => Bytes b end.

(** A chunk without its head of references and the links of its handle. *)
Definition frame (c : talloc_chunk) : talloc_chunk := set_refs None (set_data (data_bare (tc_data c)) c).

Definition same_frame (m m' : chunks) : Prop := frame <$> m = frame <$> m'.

#[global] Instance same_frame_equiv : Equivalence same_frame.
Proof. split; unfold same_frame; [by intros ?|by intros ??|by intros ??? -> ->]. Qed.

Lemma same_frame_insert m m' p c c' :
  same_frame m m' → m !! p = Some c → frame c = frame c' → same_frame m (<[p:=c']> m').
Proof.
  unfold same_frame. intros H Hp Hs. rewrite fmap_insert, <- Hs, <- H, <- fmap_insert.
  f_equal. symmetry. by apply insert_id.
Qed.

(** The same function on two memories that it does not tell apart. *)
Lemma fmap_view {A} (f : talloc_chunk → A) (m m' : chunks) p c' :
  f <$> m = f <$> m' → m' !! p = Some c' → ∃ c, m !! p = Some c ∧ f c = f c'.
Proof.
  intros H Hp. assert ((f <$> m) !! p = Some (f c')) as E by (by rewrite H, lookup_fmap, Hp).
  rewrite lookup_fmap in E. destruct (m !! p) as [c|]; [|done]. apply (inj Some) in E. by exists c.
Qed.

Definition skel (c : talloc_chunk) := (side_links c, tc_child c, tc_flag_loop c).

Lemma tree_ok_skel m m' K : skel <$> m = skel <$> m' → tree_ok m K → tree_ok m' K.
Proof.
  intros H Hok. pose proof (fmap_view skel m m' ) as Hv. pose proof (fmap_view skel m' m) as Hv'.
  assert (∀ p c', m' !! p = Some c' → ∃ c, m !! p = Some c ∧ skel c = skel c') as Hb by (intros; by apply Hv).
  assert (∀ p c, m !! p = Some c → ∃ c', m' !! p = Some c' ∧ skel c' = skel c) as Hf by (intros; by apply Hv').
  split.
  - intros p c Hp. destruct (t_live _ _ Hok p c Hp) as [x Hx]. destruct (Hf _ _ Hx) as (? & ? & _). eauto.
  - intros p ch Hp. destruct (Hb _ _ Hp) as (c & Hc & E). injection E as _ _ _ <- _. by apply (t_child _ _ Hok).
  - intros p. eapply dll_frame; [apply (t_list _ _ Hok)|]. intros c _.
    destruct (m !! c) as [x|] eqn:Ec.
    + destruct (Hf _ _ Ec) as (y & -> & E). injection E as E1 E2 E3 _ _. unfold side_links. cbn. congruence.
    + destruct (m' !! c) as [y|] eqn:Ec'; [|done]. destruct (Hb _ _ Ec') as (? & ? & _). congruence.
  - apply (t_nodup _ _ Hok).
  - apply (t_uniq _ _ Hok).
  - intros c ch Hc Hr Hl. destruct (Hb _ _ Hc) as (x & Hx & E). injection E as E1 E2 E3 _ E5.
    transitivity (side_links x); [unfold side_links; congruence|].
    eapply t_root; [done..|]. congruence.
  - apply (t_acyc _ _ Hok).
Qed.

Lemma same_frame_skel m m' : same_frame m m' → skel <$> m = skel <$> m'.
Proof.
  intros H. transitivity (skel <$> (frame <$> m)); [|rewrite H]; rewrite <- map_fmap_compose; by apply map_fmap_ext.
Qed.

(** ** The lists of references *)

(** From the handle after [pv] on, handles of [p] linked in the order of the
    list; the next of the last one is [nx]. *)
Fixpoint rll (m : chunks) (p : loc) (pv : option loc) (l : list loc) (nx : option loc) : Prop :=
  match l with
  | [] => True
  | r :: b =>
      (∃ ch, m !! r = Some ch ∧
         tc_data ch = Handle (match b with [] => nx | d :: _ => Some d end) pv (Some p))
      ∧ rll m p (Some r) b nx
  end.

Lemma rll_frame m m' p pv l nx :
  rll m p pv l nx → (∀ r, r ∈ l → tc_data <$> m' !! r = tc_data <$> m !! r) → rll m' p pv l nx.
Proof.
  revert pv. induction l as [|r b IH]; intros pv; [done|]. intros [(ch & Hr & Hd) Hb] Hf. split.
  - specialize (Hf r ltac:(by left)). rewrite Hr in Hf. destruct (m' !! r) as [ch'|]; [|done].
    apply (inj Some) in Hf. exists ch'. split; congruence.
  - apply IH; [done|]. intros. apply Hf. by right.
Qed.

Lemma rll_app m p pv a b nx :
  rll m p pv (a ++ b) nx ↔
  rll m p pv a (match b with [] => nx | d :: _ => Some d end) ∧
  rll m p (match last a with None => pv | v => v end) b nx.
Proof.
  revert pv. induction a as [|x a IH]; intros pv; cbn [app rll]; [by intuition|].
  rewrite IH, last_cons. destruct a as [|y a]; cbn [app].
  - cbn. destruct b; tauto.
  - destruct (last (y :: a)) eqn:E; [tauto|]. by apply last_None in E.
Qed.

(** The list of references of each chunk, and what of the heap it does not
    depend on. *)
Record refs_list (m : chunks) (R : references) : Prop := {
  r_head : ∀ p ch, m !! p = Some ch → tc_refs ch = head (R p);
  r_live : ∀ p r, r ∈ R p → is_Some (m !! p);
  r_list : ∀ p, rll m p None (R p) None;
  r_nodup : ∀ p, NoDup (R p);
  r_leaf : ∀ p r, r ∈ R p → R r = [];
}.

(** Each of them is a handle: its destructor and its name; and it has no children. *)
Record refs_ok (m : chunks) (K : children) (R : references) : Prop := {
  r_refs : refs_list m R;
  r_handle : ∀ p r, r ∈ R p → ∃ ch, m !! r = Some ch ∧ tc_destructor ch = Some dtor_reference
                                   ∧ tc_name ch = TALLOC_MAGIC_REFERENCE;
  r_kids : ∀ p r, r ∈ R p → K r = [];
}.

Definition ref_view (c : talloc_chunk) := (tc_refs c, tc_data c).
Definition handle_view (c : talloc_chunk) := (tc_refs c, tc_data c, tc_destructor c, tc_name c).

Lemma refs_list_view m m' R : ref_view <$> m = ref_view <$> m' → refs_list m R → refs_list m' R.
Proof.
  intros H Hok. pose proof (fmap_view ref_view m m') as Hv. pose proof (fmap_view ref_view m' m) as Hv'.
  split.
  - intros p ch Hp. destruct (Hv _ _ H Hp) as (c & Hc & E). injection E as <- _. by apply (r_head _ _ Hok).
  - intros p r Hp. destruct (r_live _ _ Hok p r Hp) as [x Hx]. destruct (Hv' _ _ (eq_sym H) Hx) as (? & ? & _). eauto.
  - intros p. eapply rll_frame; [apply (r_list _ _ Hok)|]. intros r _.
    destruct (m !! r) as [x|] eqn:E.
    + destruct (Hv' _ _ (eq_sym H) E) as (y & -> & Ey). injection Ey as _ Ey. cbn. congruence.
    + destruct (m' !! r) as [y|] eqn:E'; [|done]. destruct (Hv _ _ H E') as (? & ? & _). congruence.
  - apply (r_nodup _ _ Hok).
  - apply (r_leaf _ _ Hok).
Qed.

Lemma refs_ok_view m m' K R : handle_view <$> m = handle_view <$> m' → refs_ok m K R → refs_ok m' K R.
Proof.
  intros H [Hl Hh Hk]. split; [|..|done].
  - eapply refs_list_view; [|exact Hl].
    assert (∀ m, ref_view <$> m = fst ∘ fst <$> (handle_view <$> m) :> gmap loc _) as E.
    { intros m0. rewrite <- map_fmap_compose. by apply map_fmap_ext. }
    by rewrite !E, H.
  - intros p r Hr. destruct (Hh p r Hr) as (ch & Hc & Hd & Hn).
    destruct (fmap_view handle_view m' m r ch (eq_sym H) Hc) as (c & -> & E).
    injection E as _ _ Ed En. exists c. split_and!; congruence.
Qed.

Lemma same_links_view m m' : same_but_links m m' → handle_view <$> m = handle_view <$> m'.
Proof.
  intros H. transitivity (handle_view <$> (strip <$> m)); [|rewrite H];
    rewrite <- map_fmap_compose; by apply map_fmap_ext.
Qed.

Lemma r_uniq m R p q r : refs_list m R → r ∈ R p → r ∈ R q → p = q.
Proof.
  intros Hok Hp Hq.
  assert (∀ p, r ∈ R p → ∃ ch n v, m !! r = Some ch ∧ tc_data ch = Handle n v (Some p)) as H.
  { clear p q Hp Hq. intros p (a & b & E)%list_elem_of_split. pose proof (r_list _ _ Hok p) as Hl.
    rewrite E in Hl. apply rll_app in Hl as [_ [(ch & Hc & Hd) _]]. eauto. }
  destruct (H p Hp) as (c & n & v & Hc & Hd), (H q Hq) as (c' & n' & v' & Hc' & Hd'). congruence.
Qed.

Lemma refs_not_self m R p : refs_list m R → p ∉ R p.
Proof. intros Hok H. pose proof (r_leaf _ _ Hok p p H) as E. rewrite E in H. by apply elem_of_nil in H. Qed.

(** ** Taking a handle out of its list *)

Lemma refs_taken_out m m' R p r a b :
  refs_list m R → R p = a ++ r :: b → (r ∉ a) → (r ∉ b) → same_frame m m' →
  (∀ q, q ≠ p → tc_refs <$> m' !! q = tc_refs <$> m !! q) →
  (∀ ch, m' !! p = Some ch → tc_refs ch = head (a ++ b)) →
  rll m' p None (a ++ b) None →
  (∀ q, q ∉ R p → tc_data <$> m' !! q = tc_data <$> m !! q) →
  refs_list m' (remove_child R r).
Proof.
  intros Hok E Ha Hb Hs Hh Hp Hl Hd.
  assert (∀ q, q ≠ p → remove_child R r q = R q) as Hid.
  { intros q Hq. apply remove_child_id. intros H. apply Hq. eapply (r_uniq m R q p r); [done..|].
    rewrite E. apply elem_of_app. right. by left. }
  pose proof (remove_child_split R r p a b E Ha Hb) as Hrp.
  split.
  - intros q ch Hq. destruct (decide (q = p)) as [->|Hne]; [rewrite Hrp; by apply Hp|].
    rewrite Hid by done. specialize (Hh q Hne). rewrite Hq in Hh.
    destruct (m !! q) as [c|] eqn:Eq; [|done]. apply (inj Some) in Hh. rewrite Hh. by eapply r_head.
  - intros q x [_ Hx]%elem_of_remove_child. destruct (r_live _ _ Hok q x Hx) as [c Hc].
    destruct (fmap_view frame m' m q c (eq_sym Hs) Hc) as (y & ? & _). eauto.
  - intros q. destruct (decide (q = p)) as [->|Hne]; [by rewrite Hrp|]. rewrite Hid by done.
    eapply rll_frame; [apply (r_list _ _ Hok)|]. intros x Hx. apply Hd. intros H.
    apply Hne. by eapply (r_uniq m R q p x).
  - intros q. apply NoDup_filter, (r_nodup _ _ Hok).
  - intros q x [_ Hx]%elem_of_remove_child. unfold remove_child. by rewrite (r_leaf _ _ Hok q x Hx).
Qed.

(** A handle, field by field. *)
Ltac open_handle ch H := destruct ch as [? ? ? ? ? ? ? ? ? ? ?]; cbn [tc_data] in H; subst.

(** Execution where the fields of handles are known. *)
Ltac hsimp :=
  cbn [tc_next tc_prev tc_parent tc_child tc_refs tc_destructor tc_name tc_size tc_flag_free tc_flag_loop
       tc_data set_next set_prev set_parent set_child set_refs set_data set_destructor when_some lk_next lk_prev
       lk_set_next lk_set_prev chunk_links child_head handle_links refs_head fst snd null_context
       autofree_context at_exit mem].

Ltac hrun := hsimp; repeat (mstep; hsimp).

(** Only heads of references and links of handles were written. *)
Ltac same_frames :=
  repeat first [reflexivity | eapply same_frame_insert; [|lk|reflexivity]].

Lemma ref_remove_head m nc ac ae R p r b :
  refs_list m R → R p = r :: b →
  ∃ m', TLIST_REMOVE handle_links refs_head p r (Heap m nc ac ae) = Ok (tt, Heap m' nc ac ae) ∧
    refs_list m' (remove_child R r) ∧ same_frame m m'.
Proof.
  intros Hok E. pose proof (r_list _ _ Hok p) as Hl. rewrite E in Hl.
  destruct Hl as [(ch & Hc & Hd) Hl]. destruct (r_live _ _ Hok p r) as [cp Hcp]; [rewrite E; by left|].
  pose proof (r_head _ _ Hok p cp Hcp) as Hh. rewrite E in Hh. cbn in Hh.
  pose proof (refs_not_self _ _ p Hok) as Hpk. rewrite E in Hpk. apply not_elem_of_cons in Hpk as [Hpr Hpb].
  pose proof (r_nodup _ _ Hok p) as Hnd. rewrite E in Hnd. apply NoDup_cons in Hnd as [Hrb Hnd].
  open_handle ch Hd. unfold TLIST_REMOVE. hrun. rewrite Hh, decide_True by done. hrun.
  destruct b as [|d b].
  - hrun. rewrite decide_False by done. hrun. eexists. split; [done|]. split; [|same_frames].
    apply (refs_taken_out m _ R p r [] []); try done; [same_frames|pointwise|..].
    + intros cx. rewrite !lookup_insert_ne, lookup_insert_eq by done. by intros [= <-].
    + rewrite E. intros q Hq. assert (q ≠ r) by elem. pointwise.
  - apply not_elem_of_cons in Hpb as [Hpd Hpb]. apply not_elem_of_cons in Hrb as [Hrd Hrb].
    apply NoDup_cons in Hnd as [Hdb Hnd]. destruct Hl as [(cd & Hcd & Hdd) Hl]. open_handle cd Hdd.
    hrun. rewrite decide_False by congruence. hrun. eexists. split; [done|]. split; [|same_frames].
    apply (refs_taken_out m _ R p r [] (d :: b)); try done; [elem|elem|same_frames|pointwise|..].
    + intros cx. rewrite !lookup_insert_ne, lookup_insert_eq by done. by intros [= <-].
    + cbn [app rll]. split.
      * eexists. rewrite !(lookup_insert_ne _ r), lookup_insert_eq by done. split; [done|]. done.
      * eapply rll_frame; [exact Hl|]. intros x Hx. assert (x ≠ d) by congruence. assert (x ≠ r) by congruence. pointwise.
    + rewrite E. intros q Hq. assert (q ≠ r) by elem. assert (q ≠ d) by elem. pointwise.
Qed.

Lemma ref_remove_middle m nc ac ae R p r a v b :
  refs_list m R → R p = (a ++ [v]) ++ r :: b →
  ∃ m', TLIST_REMOVE handle_links refs_head p r (Heap m nc ac ae) = Ok (tt, Heap m' nc ac ae) ∧
    refs_list m' (remove_child R r) ∧ same_frame m m'.
Proof.
  intros Hok E. pose proof (r_list _ _ Hok p) as Hl. rewrite E in Hl.
  destruct (r_live _ _ Hok p r) as [cp Hcp]; [rewrite E; elem|].
  pose proof (r_head _ _ Hok p cp Hcp) as Hh. rewrite E in Hh.
  pose proof (refs_not_self _ _ p Hok) as Hpk. rewrite E in Hpk.
  pose proof (r_nodup _ _ Hok p) as Hnd. rewrite E in Hnd.
  apply NoDup_app in Hnd as (Hna & Har & Hnd). apply NoDup_cons in Hnd as [Hrb Hnd].
  apply NoDup_app in Hna as (Hna & Hav & _).
  apply rll_app in Hl as [Hla Hlb]. apply rll_app in Hla as [Hla [(cv & Hcv & Hvd) _]].
  rewrite last_snoc in Hlb. destruct Hlb as [(ch & Hc & Hd) Hlb].
  assert (v ≠ r) as Hvr. { intros ->. apply (Har r); elem. }
  assert (p ≠ v) as Hpv by elem. assert (p ≠ r) as Hpr by elem.
  assert (r ∉ a ++ [v]) as Hrav by (intros Hx; apply (Har r Hx); by left).
  assert (r ∉ a) as Hra by (intros Hx; apply (Har r); elem).
  assert (v ∉ a) as Hva by (intros Hx; apply (Hav v Hx); elem).
  assert (head ((a ++ [v]) ++ r :: b) ≠ Some r) as Hhd.
  { destruct a as [|y a]; cbn; [congruence|]. intros [= ->]. apply Hra. by left. }
  rewrite <- Hh in Hhd. open_handle ch Hd. open_handle cv Hvd.
  unfold TLIST_REMOVE. hrun. rewrite decide_False by done. hrun. destruct b as [|d b].
  - hrun. rewrite decide_False by done. hrun. eexists. split; [done|]. split; [|same_frames].
    apply (refs_taken_out m _ R p r (a ++ [v]) []); try done; [same_frames|pointwise|..].
    + intros cx. rewrite !lookup_insert_ne, Hcp by done. intros [= <-]. rewrite Hh. by destruct a.
    + rewrite app_nil_r. apply rll_app. split.
      * eapply rll_frame; [exact Hla|]. intros x Hx. assert (x ≠ v) by congruence. assert (x ≠ r) by congruence. pointwise.
      * split; [|done]. eexists. rewrite !(lookup_insert_ne _ r), lookup_insert_eq by done. split; [done|]. done.
    + rewrite E. intros q Hq. assert (q ≠ v) by elem. assert (q ≠ r) by elem. pointwise.
  - destruct Hlb as [(cd & Hcd & Hdd) Hlb]. apply NoDup_cons in Hnd as [Hdb Hnd].
    assert (r ≠ d) as Hrd by elem. assert (v ≠ d) as Hvd by (intros ->; apply (Har d); elem).
    assert (d ∉ a) as Hda by (intros Hx; apply (Har d); elem).
    assert (v ∉ b) as Hvb by (intros Hx; apply (Har v); elem).
    assert (p ≠ d) by (intros ->; apply Hpk, elem_of_app; right; right; by left). open_handle cd Hdd.
    hrun. rewrite decide_False by done. hrun. eexists. split; [done|]. split; [|same_frames].
    apply (refs_taken_out m _ R p r (a ++ [v]) (d :: b)); try done; [same_frames|pointwise|..].
    + intros cx. rewrite !lookup_insert_ne, Hcp by done. intros [= <-]. rewrite Hh. by destruct a.
    + apply rll_app. split; [apply rll_app; split|].
      * eapply rll_frame; [exact Hla|]. intros x Hx. assert (x ≠ v) by congruence.
        assert (x ≠ d) by congruence. assert (x ≠ r) by congruence. pointwise.
      * split; [|done]. eexists. rewrite !(lookup_insert_ne _ r), (lookup_insert_ne _ d), lookup_insert_eq by done.
        split; [done|]. done.
      * rewrite last_snoc. split.
        -- eexists. rewrite !(lookup_insert_ne _ r), lookup_insert_eq by done. split; [done|]. done.
        -- eapply rll_frame; [exact Hlb|]. intros x Hx. assert (x ≠ v) by congruence.
           assert (x ≠ d) by congruence. assert (x ≠ r) by (intros ->; apply Hrb; by right). pointwise.
    + rewrite E. intros q Hq. rewrite !not_elem_of_app, !not_elem_of_cons in Hq.
      destruct Hq as [[_ [? _]] (? & ? & _)]. pointwise.
Qed.

Lemma ref_remove m nc ac ae R p r :
  refs_list m R → r ∈ R p →
  ∃ m', TLIST_REMOVE handle_links refs_head p r (Heap m nc ac ae) = Ok (tt, Heap m' nc ac ae) ∧
    refs_list m' (remove_child R r) ∧ same_frame m m'.
Proof.
  intros Hok Hr. pose proof (r_nodup _ _ Hok p) as Hnd.
  apply list_elem_of_split in Hr as (a & b & E).
  destruct a as [|v a _] using rev_ind; [by eapply ref_remove_head|by eapply ref_remove_middle].
Qed.

(** ** Putting a handle in front of a list *)

Lemma refs_put_in m m' R p r :
  refs_list m R → (∀ q, r ∉ R q) → R r = [] → (∀ q, p ∉ R q) → p ≠ r → is_Some (m !! p) → same_frame m m' →
  (∀ q, q ≠ p → tc_refs <$> m' !! q = tc_refs <$> m !! q) →
  tc_refs <$> m' !! p = Some (Some r) →
  rll m' p None (r :: R p) None →
  (∀ q, q ∉ r :: R p → tc_data <$> m' !! q = tc_data <$> m !! q) →
  refs_list m' (add_child R p r).
Proof.
  intros Hok Hr Hrr Hp Hpr Hpl Hs Hh Hhp Hl Hd. split.
  - intros q ch Hq. unfold add_child. case_decide as Hqp.
    + subst q. rewrite Hq in Hhp. by injection Hhp.
    + specialize (Hh q Hqp). rewrite Hq in Hh. destruct (m !! q) as [c|] eqn:Eq; [|done].
      apply (inj Some) in Hh. rewrite Hh. by eapply r_head.
  - intros q x Hx. assert (is_Some (m !! q)) as [c Hc].
    { apply elem_of_add_child in Hx as [Hx|[-> ->]]; [by eapply r_live|done]. }
    destruct (fmap_view frame m' m q c (eq_sym Hs) Hc) as (y & ? & _). eauto.
  - intros q. unfold add_child. case_decide as Hqp; [by subst|].
    eapply rll_frame; [apply (r_list _ _ Hok)|]. intros x Hx. apply Hd.
    rewrite not_elem_of_cons. split; [intros ->; by apply (Hr q)|].
    intros H. apply Hqp. by eapply (r_uniq m R q p x).
  - intros q. unfold add_child. case_decide; [constructor; [apply Hr|]|]; apply (r_nodup _ _ Hok).
  - intros q x Hx. unfold add_child. apply elem_of_add_child in Hx as [Hx|[-> ->]].
    + rewrite decide_False by (intros ->; by apply (Hp q)). by apply (r_leaf _ _ Hok q).
    + by rewrite decide_False.
Qed.

Lemma ref_add m nc ac ae R p r ch n v :
  refs_list m R → (∀ q, r ∉ R q) → R r = [] → (∀ q, p ∉ R q) → p ≠ r → is_Some (m !! p) →
  m !! r = Some ch → tc_data ch = Handle n v (Some p) →
  ∃ m', TLIST_ADD handle_links refs_head p r (Heap m nc ac ae) = Ok (tt, Heap m' nc ac ae) ∧
    refs_list m' (add_child R p r) ∧ same_frame m m'.
Proof.
  intros Hok Hr Hrr Hp Hpr [cp Hcp] Hc Hd. pose proof (r_head _ _ Hok p cp Hcp) as Hh.
  pose proof (r_list _ _ Hok p) as Hl.
  open_handle ch Hd. unfold TLIST_ADD. hrun. rewrite Hh. destruct (R p) as [|d b] eqn:E; cbn [head].
  - hrun. eexists. split; [done|]. split; [|same_frames].
    apply (refs_put_in m); try done; [same_frames|pointwise| | |].
    + rewrite !(lookup_insert_ne _ r), lookup_insert_eq by done. done.
    + rewrite E. split; [|done]. eexists. rewrite lookup_insert_eq. split; [done|]. done.
    + rewrite E. intros q Hq. rewrite not_elem_of_cons in Hq. destruct Hq. pointwise.
  - destruct Hl as [(cd & Hcd & Hdd) Hl]. open_handle cd Hdd.
    assert (d ∈ R p) as Hdp by (rewrite E; by left).
    assert (r ≠ d) as Hrd by (intros ->; by apply (Hr p)).
    assert (p ≠ d) as Hpd by (intros ->; by apply (Hp d)).
    pose proof (r_nodup _ _ Hok p) as Hnd. rewrite E in Hnd. apply NoDup_cons in Hnd as [Hdb _].
    assert (r ∉ b) as Hrb by (intros Hx; apply (Hr p); rewrite E; by right).
    hrun. eexists. split; [done|]. split; [|same_frames].
    apply (refs_put_in m); try done; [same_frames|pointwise| | |].
    + by rewrite lookup_insert_eq.
    + rewrite E. cbn [rll]. split_and!.
      * eexists. rewrite lookup_insert_ne, lookup_insert_eq by done. split; [done|]. done.
      * eexists. rewrite !lookup_insert_ne, lookup_insert_eq by done. split; [done|]. done.
      * assert (p ∉ b) by (intros Hx; apply (Hp p); rewrite E; by right).
        eapply rll_frame; [exact Hl|]. intros x Hx. assert (x ≠ d) by congruence.
        assert (x ≠ r) by congruence. assert (x ≠ p) by congruence. pointwise.
    + rewrite E. intros q Hq. rewrite !not_elem_of_cons in Hq. destruct Hq as (? & ? & _). pointwise.
Qed.
