(* ===== verification/TallocDrop.v ===== *)
(** * Freeing a subtree that holds references

    When nothing in a subtree is referenced and it has no destructors but those
    of its handles, [_talloc_free] frees exactly the subtree, and the references
    held in it are dropped from the lists of the chunks they point to. *)

From S2P Require Import Prelude CString Talloc TallocHeap TallocTree TallocProps TallocWalk TallocFree TallocMem TallocRefs.
From stdpp Require Import relations.

Local Open Scope Z_scope.

(** ** Invariants while chunks are freed *)

Definition alive (m : chunks) : Prop := ∀ x c, m !! x = Some c → tc_flag_free c = false.

(** A chunk without the links of its lists. *)
Definition bare (c : talloc_chunk) : talloc_chunk := strip (frame c).

(** The references without the handles of [l]. *)
Definition without (R : references) (l : list loc) : references := λ q, filter (λ x, x ∉ l) (R q).

(** Exactly the chunks of [l] are gone; of the others, only links of lists changed. *)
Definition dropped (m m' : chunks) (l : list loc) : Prop :=
  (∀ q, q ∈ l → m' !! q = None) ∧ (∀ q, q ∉ l → bare <$> m' !! q = bare <$> m !! q).

(** No chunk of [l] is referenced or has a destructor of a client. *)
Definition plain (m : chunks) (R : references) (l : list loc) : Prop :=
  ∀ x, x ∈ l → R x = [] ∧ ∃ ch, m !! x = Some ch ∧ tc_flag_loop ch = false ∧
                                (tc_destructor ch = None ∨ ∃ q, x ∈ R q).

Lemma elem_of_without R l x q : x ∈ without R l q ↔ (x ∉ l) ∧ x ∈ R q.
Proof. unfold without. by rewrite list_elem_of_filter. Qed.

Lemma without_nil R l q : R q = [] → without R l q = [].
Proof. unfold without. by intros ->. Qed.

Lemma without_app R l l' q : without (without R l) l' q = without R (l ++ l') q.
Proof. unfold without. apply filter_two. intros x. rewrite elem_of_app. tauto. Qed.

Lemma without_node R p l q : without (remove_child R p) l q = without R (p :: l) q.
Proof. unfold without, remove_child. apply filter_two. intros x. rewrite elem_of_cons. tauto. Qed.

Lemma dropped_trans m m' m'' l l' : dropped m m' l → dropped m' m'' l' → dropped m m'' (l ++ l').
Proof.
  intros [H1 H2] [H3 H4]. split; intros q; rewrite elem_of_app.
  - intros H. destruct (decide (q ∈ l')) as [Hq'|Hq']; [by apply H3|].
    destruct H as [Hq|Hq]; [|done]. specialize (H4 q Hq'). rewrite (H1 q Hq) in H4. by destruct (m'' !! q).
  - intros H. rewrite H4 by tauto. apply H2. tauto.
Qed.

Lemma same_links_bare m m' q : same_but_links m m' → bare <$> m' !! q = bare <$> m !! q.
Proof.
  intros H. assert (∀ m0 : chunks, bare <$> m0 !! q = (λ c, bare c) <$> ((strip <$> m0) !! q)) as E.
  { intros m0. rewrite lookup_fmap. by destruct (m0 !! q). }
  rewrite (E m), (E m'). by rewrite H.
Qed.

Lemma bare_fields c c' : bare c = bare c' →
  tc_flag_loop c = tc_flag_loop c' ∧ tc_flag_free c = tc_flag_free c' ∧ tc_destructor c = tc_destructor c'
  ∧ tc_name c = tc_name c' ∧ tc_size c = tc_size c' ∧ data_bare (tc_data c) = data_bare (tc_data c').
Proof. destruct c, c'. cbn. intros [= -> -> -> -> -> ->]. done. Qed.

Lemma dropped_plain m m' R l l' :
  dropped m m' l → (∀ x, x ∈ l' → x ∉ l) → plain m R l' → plain m' (without R l) l'.
Proof.
  intros [_ H] Hd Hp x Hx. destruct (Hp x Hx) as (Hr & ch & Hch & Hl & Hdt).
  split; [by apply without_nil|]. specialize (H x (Hd x Hx)). rewrite Hch in H.
  destruct (m' !! x) as [ch'|]; [|done]. apply (inj Some), bare_fields in H as (Hl' & _ & Hdt' & _).
  exists ch'. split_and!; [done|congruence|]. destruct Hdt as [?|[q Hq]]; [left; congruence|right].
  exists q. apply elem_of_without. split; [by apply Hd|done].
Qed.

(** ** The references and the hierarchy *)

Lemma refs_list_ext m R R' : (∀ p, R p = R' p) → refs_list m R → refs_list m R'.
Proof.
  intros E Hok. split.
  - intros p ch. rewrite <- E. apply (r_head _ _ Hok).
  - intros p r. rewrite <- E. apply (r_live _ _ Hok).
  - intros p. rewrite <- E. apply (r_list _ _ Hok).
  - intros p. rewrite <- E. apply (r_nodup _ _ Hok).
  - intros p r. rewrite <- !E. apply (r_leaf _ _ Hok).
Qed.

Lemma refs_ok_ext m K K' R R' :
  (∀ p, R p = R' p) → (∀ p r, r ∈ R p → K r = [] → K' r = []) → refs_ok m K R → refs_ok m K' R'.
Proof.
  intros E Ek [Hl Hh Hk]. split; [by eapply refs_list_ext|..].
  - intros p r. rewrite <- E. apply Hh.
  - intros p r. rewrite <- E. intros Hr. by eapply Ek, Hk.
Qed.

Lemma refs_ok_links m m' K R : same_but_links m m' → refs_ok m K R → refs_ok m' K R.
Proof. intros H. by apply refs_ok_view, same_links_view. Qed.

Lemma refs_ok_insert m K R p c c' :
  m !! p = Some c → handle_view c' = handle_view c → refs_ok m K R → refs_ok (<[p:=c']> m) K R.
Proof.
  intros Hp Hv. apply refs_ok_view. rewrite fmap_insert, Hv, <- fmap_insert, insert_id; done.
Qed.

Lemma refs_ok_delete m K R p :
  refs_ok m K R → R p = [] → (∀ q, p ∉ R q) → refs_ok (delete p m) K R.
Proof.
  intros [Hl Hh Hk] Hr Hp. assert (∀ q r, r ∈ R q → p ≠ r) as Hne by (intros q r Hqr ->; by apply (Hp q)).
  split; [split|..|done].
  - intros q ch [_ Hq]%lookup_delete_Some. by apply (r_head _ _ Hl).
  - intros q r Hqr. rewrite lookup_delete_ne by (intros ->; rewrite Hr in Hqr; by apply elem_of_nil in Hqr).
    by eapply r_live.
  - intros q. eapply rll_frame; [apply (r_list _ _ Hl)|]. intros r Hqr.
    by rewrite lookup_delete_ne by by eapply Hne.
  - apply (r_nodup _ _ Hl).
  - apply (r_leaf _ _ Hl).
  - intros q r Hqr. rewrite lookup_delete_ne by by eapply Hne. by eapply Hh.
Qed.

Lemma alive_links m m' : same_but_links m m' → alive m → alive m'.
Proof.
  intros H Ha x c Hx. symmetry in H. destruct (same_lookup _ _ _ _ H Hx) as (c0 & H0 & E).
  rewrite (strip_free _ _ E). by eapply Ha.
Qed.

(** ** The destructor of a handle *)

Lemma dtor_none_no_handle m K R p ch :
  refs_ok m K R → m !! p = Some ch → tc_destructor ch = None → ∀ q, p ∉ R q.
Proof.
  intros Hok Hp Hd q Hq. destruct (r_handle _ _ _ Hok q p Hq) as (c & Hc & E & _). congruence.
Qed.

(** After [set_destructor], on the handle [p] that is taken out. *)
Lemma refs_ok_taken m m' K R p d :
  refs_ok m K R → refs_list m' (remove_child R p) →
  (∀ q, q ≠ p → frame <$> m' !! q = frame <$> m !! q) → 
  refs_ok (alter (set_destructor d) p m') K (remove_child R p).
Proof.
  intros Hok Hl Hf. split.
  - eapply refs_list_view; [|exact Hl]. apply map_eq. intros i. rewrite !lookup_fmap.
    destruct (decide (p = i)) as [->|Hi]; [|by rewrite lookup_alter_ne].
    rewrite lookup_alter_eq. by destruct (m' !! i).
  - intros q r [Hr Hq]%elem_of_remove_child. rewrite lookup_alter_ne by done. specialize (Hf r Hr).
    destruct (r_handle _ _ _ Hok q r Hq) as (c & Hc & Hd & Hn). rewrite Hc in Hf.
    destruct (m' !! r) as [c'|]; [|done]. apply (inj Some) in Hf. exists c'. split; [done|].
    destruct c, c'. cbn in *. injection Hf. intros. split; congruence.
  - intros q r [_ Hq]%elem_of_remove_child. by eapply r_kids.
Qed.

Lemma insert_alter (f : talloc_chunk → talloc_chunk) (m : chunks) p c :
  m !! p = Some c → <[p := f c]> m = alter f p m.
Proof.
  intros Hp. apply map_eq. intros i. destruct (decide (p = i)) as [->|Hi].
  - by rewrite lookup_insert_eq, lookup_alter_eq, Hp.
  - by rewrite lookup_insert_ne, lookup_alter_ne.
Qed.

Section drop.
Context (user_dtor : nat → loc → M Z).

(** [run_destructor] on a chunk that is not referenced. *)
Lemma run_destructor_plain m nc ac ae K R p ch :
  tree_ok m K → refs_ok m K R → alive m → m !! p = Some ch → R p = [] →
  (tc_destructor ch = None ∨ ∃ q, p ∈ R q) →
  ∃ m1 ch1, run_destructor user_dtor p (Heap m nc ac ae) = Ok (false, Heap m1 nc ac ae) ∧
    tree_ok m1 K ∧ refs_ok m1 K (remove_child R p) ∧ alive m1 ∧
    m1 !! p = Some ch1 ∧ tc_flag_loop ch1 = tc_flag_loop ch ∧
    (∀ q, q ≠ p → frame <$> m1 !! q = frame <$> m !! q).
Proof.
  intros Ht Hok Ha Hp Hr [Hd|[q Hq]].
  { exists m, ch. unfold run_destructor. mrun. rewrite Hd. split_and!; try done.
    eapply refs_ok_ext; [|done|exact Hok]. intros x. symmetry. apply remove_child_id.
    by eapply dtor_none_no_handle. }
  destruct (r_handle _ _ _ Hok q p Hq) as (c & Hc & Hdt & _). rewrite Hp in Hc. injection Hc as <-.
  pose proof (r_refs _ _ _ Hok) as Hl. destruct (r_live _ _ Hl q p Hq) as [cq Hcq].
  assert (q ≠ p) as Hqp by (intros ->; rewrite Hr in Hq; by apply elem_of_nil in Hq).
  assert (∃ n v, tc_data ch = Handle n v (Some q)) as (n & v & Hdata).
  { apply list_elem_of_split in Hq as (a & b & E). pose proof (r_list _ _ Hl q) as Hx.
    rewrite E in Hx. apply rll_app in Hx as [_ [(c & Hc & Hd) _]]. rewrite Hp in Hc. injection Hc as <-. eauto. }
  set (mb := <[p:=set_destructor (Some dtor_busy) ch]> m).
  assert (refs_list mb R) as Hlb.
  { eapply refs_list_view; [|exact Hl]. unfold mb. rewrite fmap_insert.
    change (ref_view (set_destructor (Some dtor_busy) ch)) with (ref_view ch). by rewrite <- fmap_insert, insert_id. }
  destruct (ref_remove mb nc ac ae R q p Hlb Hq) as (m' & E & Hl' & Hs).
  assert (∀ x, frame <$> m' !! x = frame <$> mb !! x) as Hfr by (intros x; rewrite <- !lookup_fmap; by rewrite Hs).
  pose proof (Hfr p) as Hp'. unfold mb in Hp' at 1. rewrite lookup_insert_eq in Hp'.
  destruct (m' !! p) as [ch'|] eqn:Ep; [|done]. apply (inj Some) in Hp'.
  assert (∀ x, x ≠ p → frame <$> alter (set_destructor None) p m' !! x = frame <$> m !! x) as Hoth.
  { intros x Hx. rewrite lookup_alter_ne by done. rewrite Hfr. unfold mb. by rewrite lookup_insert_ne. }
  exists (alter (set_destructor None) p m'), (set_destructor None ch'). split_and!; [..|done].
  - unfold run_destructor. mrun. rewrite Hdt. mrun. cbn [call_destructor]. unfold talloc_reference_destructor.
    fold mb. rewrite !M_bind_assoc. erewrite x_fld by by apply lookup_insert_eq.
    cbn [tc_data set_destructor]. rewrite Hdata. rewrite !M_bind_assoc.
    erewrite x_ptr; [|unfold mb; by rewrite lookup_insert_ne|by eapply Ha].
    rewrite M_bind_assoc, (M_bind_ok _ _ _ _ _ E), M_ret_bind. cbn [Z.eqb].
    erewrite x_upd by done. by rewrite (insert_alter (set_destructor None)).
  - eapply tree_ok_skel; [|exact Ht]. apply map_eq. intros i. rewrite !lookup_fmap.
    assert (skel <$> m' !! i = skel <$> m !! i) as E1.
    { rewrite <- !lookup_fmap, <- (same_frame_skel _ _ Hs). unfold mb.
      rewrite fmap_insert. change (skel (set_destructor (Some dtor_busy) ch)) with (skel ch).
      by rewrite <- fmap_insert, insert_id. }
    rewrite <- E1. destruct (decide (p = i)) as [->|Hi]; [|by rewrite lookup_alter_ne].
    rewrite lookup_alter_eq, Ep. done.
  - eapply refs_ok_taken; [exact Hok|done|]. intros x Hx. rewrite Hfr. unfold mb. by rewrite lookup_insert_ne.
  - intros x c Hx. destruct (decide (x = p)) as [->|Hxp].
    + rewrite lookup_alter_eq, Ep in Hx. injection Hx as <-.
      assert (tc_flag_free ch' = tc_flag_free ch) as E1 by (destruct ch, ch'; by injection Hp').
      cbn. rewrite E1. by eapply Ha.
    + specialize (Hoth x Hxp). rewrite Hx in Hoth. destruct (m !! x) as [c0|] eqn:E0; [|done].
      apply (inj Some) in Hoth. assert (tc_flag_free c = tc_flag_free c0) as -> by (destruct c, c0; by injection Hoth).
      by eapply Ha.
  - by rewrite lookup_alter_eq, Ep.
  - cbn. destruct ch, ch'. by injection Hp'.
Qed.

(** ** [_talloc_free] *)

Abbreviation free := (_talloc_free user_dtor).

Lemma free_unreferenced fuel m nc ac ae p ch :
  m !! p = Some ch → tc_refs ch = None → tc_flag_loop ch = false → tc_flag_free ch = false →
  free (S fuel) (Some p) (Heap m nc ac ae) =
    (refused ← run_destructor user_dtor p;
     if refused : bool then mret (-1)
     else unlink_chunk p;; upd p (set_flag_loop true);; free_children_loop (free fuel) fuel p;;
          upd p (set_flag_free true);; modify (λ h, set_mem (delete p (mem h)) h);; mret 0) (Heap m nc ac ae).
Proof.
  intros Hp Hr Hl Hf. cbn [_talloc_free]. erewrite x_ptr by done. mrun. rewrite Hr. mrun. by rewrite Hl.
Qed.

(** [free] on [p] and the loop over its children, for the chunks [l] of a part
    of [K] that the current hierarchy [K'] still has. *)
Definition drops (K : children) (p : loc) (l : list loc) : Prop :=
  ∀ K' R fuel m nc ac ae, tree_ok m K' → refs_ok m K' R → alive m → (∀ x, x ∈ l → K' x = K x) →
    NoDup l → plain m R l → (length l < fuel)%nat →
    ∃ m', free fuel (Some p) (Heap m nc ac ae) = Ok (0, Heap m' nc ac ae) ∧
      tree_ok m' (prune K' l) ∧ refs_ok m' (prune K' l) (without R l) ∧ alive m' ∧ dropped m m' l.

Definition drops_children (K : children) (cs l : list loc) : Prop :=
  ∀ K' R p fuel n m nc ac ae, tree_ok m K' → refs_ok m K' R → alive m → (∀ x, x ∈ l → K' x = K x) →
    NoDup l → plain m R l → p ∉ l → is_Some (m !! p) → K' p = cs →
    (length l < fuel)%nat → (length cs ≤ n)%nat →
    ∃ m', free_children_loop (free fuel) n p (Heap m nc ac ae) = Ok (tt, Heap m' nc ac ae) ∧
      tree_ok m' (prune K' l) ∧ refs_ok m' (prune K' l) (without R l) ∧ alive m' ∧ dropped m m' l.

(** The chunk is out of its list and marked as visited. *)
Lemma unlink_visited m nc ac ae K R p ch :
  tree_ok m K → refs_ok m K R → alive m → m !! p = Some ch → tc_flag_loop ch = false →
  ∃ m2, (unlink_chunk p;; upd p (set_flag_loop true)) (Heap m nc ac ae) = Ok (tt, Heap m2 nc ac ae) ∧
    tree_ok m2 (remove_child K p) ∧ refs_ok m2 (remove_child K p) R ∧ alive m2 ∧ is_Some (m2 !! p) ∧
    (∀ q, q ≠ p → bare <$> m2 !! q = bare <$> m !! q).
Proof.
  intros Ht Hok Ha Hp Hl. destruct (unlink_chunk_spec m nc ac ae K p ch Ht Hp Hl) as (m1 & E1 & H1).
  pose proof (to_same _ _ _ _ H1) as Hs. destruct (same_lookup _ _ _ _ Hs Hp) as (ch1 & Hp1 & _).
  pose proof (taken_out_ok _ _ _ _ ch1 Ht H1 Hp1) as Ht1.
  exists (<[p:=set_flag_loop true ch1]> m1). split_and!.
  - rewrite (M_bind_ok _ _ _ _ _ E1). by erewrite x_upd_end.
  - rewrite <- (insert_insert_eq m1 p _ (clear_links ch1)).
    eapply tree_ok_root_insert; [exact Ht1|by rewrite lookup_insert_eq|apply remove_child_root|done..].
  - apply (refs_ok_insert _ _ _ p ch1); [done..|].
    eapply refs_ok_ext; [done| |by eapply refs_ok_links]. intros q r _ Hk. unfold remove_child. by rewrite Hk.
  - intros x c. pose proof (alive_links _ _ Hs Ha) as Ha1. rewrite lookup_insert. case_decide; [|by apply Ha1].
    intros [= <-]. by apply (Ha1 p ch1).
  - rewrite lookup_insert_eq. eauto.
  - intros q Hq. rewrite lookup_insert_ne by done. by apply same_links_bare.
Qed.

Lemma dropped_node (m m1 m2 m3 : chunks) p l :
  p ∉ l → (∀ q, q ≠ p → frame <$> m1 !! q = frame <$> m !! q) →
  (∀ q, q ≠ p → bare <$> m2 !! q = bare <$> m1 !! q) → dropped m2 m3 l → dropped m (delete p m3) (p :: l).
Proof.
  intros Hpl H1 H2 [H3 H4]. split; intros q; rewrite elem_of_cons.
  - intros [->|Hq]; [by rewrite lookup_delete_eq|]. rewrite lookup_delete_ne by congruence. by apply H3.
  - intros Hq. assert (q ≠ p ∧ q ∉ l) as [Hqp Hql] by tauto. rewrite lookup_delete_ne by done.
    rewrite H4, H2 by done. specialize (H1 q Hqp). unfold bare.
    destruct (m1 !! q) as [c1|], (m !! q) as [c|]; cbn in *; try done. apply (inj Some) in H1. by rewrite H1.
Qed.

Lemma drops_node K p l : subs K (K p) l → drops_children K (K p) l → drops K p (p :: l).
Proof.
  intros Hl IH K' R fuel m nc ac ae Ht Hok Ha Hagree [Hpl Hnd]%NoDup_cons Hq Hfuel.
  destruct fuel as [|fuel]; [cbn in Hfuel; lia|]. cbn [length] in Hfuel.
  destruct (Hq p ltac:(by left)) as (Hr & ch & Hch & Hlp & Hd).
  pose proof (r_head _ _ (r_refs _ _ _ Hok) p ch Hch) as Hrefs. rewrite Hr in Hrefs.
  rewrite (free_unreferenced _ _ _ _ _ _ ch) by (done || by eapply Ha).
  destruct (run_destructor_plain m nc ac ae K' R p ch Ht Hok Ha Hch Hr Hd)
    as (m1 & ch1 & E1 & Ht1 & Hok1 & Ha1 & Hch1 & Hlp1 & Hf1).
  rewrite (M_bind_ok _ _ _ _ _ E1). rewrite Hlp in Hlp1.
  destruct (unlink_visited m1 nc ac ae K' _ p ch1 Ht1 Hok1 Ha1 Hch1 Hlp1)
    as (m2 & E2 & Ht2 & Hok2 & Ha2 & Hp2 & Hf2).
  rewrite <- (M_bind_assoc (unlink_chunk p) (λ _, upd p (set_flag_loop true))), (M_bind_ok _ _ _ _ _ E2).
  assert (K' p = K p) as Hkp by (apply Hagree; by left).
  destruct (IH (remove_child K' p) (remove_child R p) p fuel fuel m2 nc ac ae)
    as (m3 & E3 & Ht3 & Hok3 & Ha3 & Hf3); try done.
  - by apply (remove_agree K K' p l Hl Hpl (λ x Hx, Hagree x ltac:(by right))).
  - intros x Hx. assert (x ≠ p) as Hxp by congruence.
    destruct (Hq x ltac:(by right)) as (Hrx & cx & Hcx & Hlx & Hdx).
    split; [unfold remove_child; by rewrite Hrx|].
    assert (bare <$> m2 !! x = bare <$> Some cx) as E.
    { rewrite Hf2 by done. specialize (Hf1 x Hxp). rewrite Hcx in Hf1.
      destruct (m1 !! x) as [c1|]; [|done]. apply (inj Some) in Hf1. unfold bare. cbn. by rewrite Hf1. }
    destruct (m2 !! x) as [cx2|]; [|done]. apply (inj Some), bare_fields in E as (El & _ & Ed & _).
    exists cx2. split_and!; [done|congruence|]. destruct Hdx as [?|[q Hqx]]; [left; congruence|right].
    exists q. by apply elem_of_remove_child.
  - rewrite remove_child_id; [done|apply (not_own_child _ _ Ht)].
  - lia.
  - pose proof (subs_length _ _ _ Hl). lia.
  - rewrite (M_bind_ok _ _ _ _ _ E3).
    assert (is_Some (m3 !! p)) as [ch3 Hch3].
    { pose proof (proj2 Hf3 p Hpl) as H. destruct Hp2 as [c2 Hp2]. rewrite Hp2 in H. destruct (m3 !! p); [eauto|done]. }
    mrun. rewrite x_modify. unfold set_mem. cbn [mem null_context autofree_context at_exit].
    eexists. split; [done|]. rewrite delete_insert_eq.
    pose proof (prune_node K K' p l Hl Hpl Hkp) as Hpr.
    assert (prune K' (p :: l) p = []) as Hpp by (unfold prune; rewrite decide_True; [done|by left]).
    split_and!.
    + eapply tree_ok_ext; [exact Hpr|]. apply tree_ok_delete; [exact Ht3| |by rewrite Hpr].
      intros q Hx. by apply elem_of_prune in Hx as (_ & _ & [Hx _]%elem_of_remove_child).
    + eapply refs_ok_ext; [apply without_node| |].
      { intros q r _ Hk. rewrite <- Hpr. exact Hk. }
      apply refs_ok_delete; [exact Hok3|by rewrite without_node; apply without_nil|].
      intros q Hx. by apply elem_of_without in Hx as [_ [Hx _]%elem_of_remove_child].
    + intros x c [_ Hx]%lookup_delete_Some. by eapply Ha3.
    + by eapply dropped_node.
Qed.

Lemma drops_nil K : drops_children K [] [].
Proof.
  intros K' R p fuel n m nc ac ae Ht Hok Ha _ _ _ _ [ch Hp] Hk _ _. exists m.
  pose proof (t_child _ _ Ht p ch Hp) as Hc. rewrite Hk in Hc.
  assert (∀ q, prune K' [] q = K' q) as Hpr.
  { intros q. unfold prune. rewrite decide_False by apply not_elem_of_nil. apply filter_all.
    intros x _. apply not_elem_of_nil. }
  split_and!.
  - destruct n; cbn [free_children_loop]; mrun; by rewrite Hc.
  - eapply tree_ok_ext; [|exact Ht]. intros q. by rewrite Hpr.
  - eapply refs_ok_ext; [| |exact Hok]; [|intros q r _ Hx; by rewrite Hpr].
    intros q. symmetry. apply filter_all. intros x _. apply not_elem_of_nil.
  - done.
  - split; [by intros q ?%elem_of_nil|done].
Qed.

Lemma drops_cons K c cs l l' :
  sub K c l → drops K c l → subs K cs l' → drops_children K cs l' → drops_children K (c :: cs) (l ++ l').
Proof.
  intros Hl IH1 Hl' IH2 K' R p fuel n m nc ac ae Ht Hok Ha Hagree Hnd Hq Hpl [chp Hp] Hk Hfuel Hn.
  destruct n as [|n]; [cbn in Hn; lia|]. cbn [length] in Hn. rewrite length_app in Hfuel.
  apply NoDup_app in Hnd as (Hnd1 & Hdis & Hnd2).
  pose proof (t_child _ _ Ht p chp Hp) as Hc. rewrite Hk in Hc. cbn [head] in Hc.
  assert (c ∈ l) as Hcl by (apply (proj1 (sub_ancestor K) _ _ Hl), rtc_refl).
  destruct (Hq c) as (Hcr & chc & Hchc & _); [apply elem_of_app; by left|].
  pose proof (r_head _ _ (r_refs _ _ _ Hok) c chc Hchc) as Hrefs. rewrite Hcr in Hrefs. cbn [head] in Hrefs.
  rewrite not_elem_of_app in Hpl. destruct Hpl as [Hpl Hpl'].
  cbn [free_children_loop]. mrun. rewrite Hc. mrun. rewrite Hrefs. unfold reference_owner. mrun.
  destruct (IH1 K' R fuel m nc ac ae) as (m1 & E1 & Ht1 & Hok1 & Ha1 & Hf1); try done.
  { intros x Hx. apply Hagree, elem_of_app. by left. }
  { intros x Hx. apply Hq, elem_of_app. by left. }
  { lia. }
  rewrite (M_bind_ok _ _ _ _ _ E1). cbn [Z.eqb]. mrun.
  assert (∀ x, x ∈ cs → x ∈ l') as Hcs.
  { intros x Hx. apply (proj2 (sub_ancestor K) _ _ Hl'). exists x. split; [done|apply rtc_refl]. }
  destruct (IH2 (prune K' l) (without R l) p fuel n m1 nc ac ae) as (m2 & E2 & Ht2 & Hok2 & Ha2 & Hf2); try done.
  - intros x Hx. unfold prune. rewrite decide_False by (intros Hxl; by apply (Hdis x)).
    rewrite Hagree by (apply elem_of_app; by right). apply filter_all. intros y Hy Hyl.
    apply (Hdis y Hyl). apply (proj2 (sub_ancestor K) _ _ Hl').
    apply (proj2 (sub_ancestor K) _ _ Hl') in Hx as (d & Hd & Hxd). exists d. split; [done|]. by eapply rtc_l.
  - eapply dropped_plain; [exact Hf1|by intros x Hx Hxl; apply (Hdis x)|].
    intros x Hx. apply Hq, elem_of_app. by right.
  - pose proof (proj2 Hf1 p Hpl) as H. rewrite Hp in H. destruct (m1 !! p); [eauto|done].
  - unfold prune. rewrite decide_False, Hk by done. rewrite filter_cons_False by tauto.
    apply filter_all. intros x Hx Hxl. by apply (Hdis x), Hcs.
  - lia.
  - lia.
  - exists m2. split_and!; [exact E2|..|done|by eapply dropped_trans].
    + eapply tree_ok_ext; [|exact Ht2]. apply prune_app.
    + eapply refs_ok_ext; [apply without_app| |exact Hok2]. intros q r _ Hx. by rewrite <- prune_app.
Qed.

Lemma drop_sub (K : children) :
  (∀ p l, sub K p l → drops K p l) ∧ (∀ cs l, subs K cs l → drops_children K cs l).
Proof. apply sub_subs_ind; intros; [by apply drops_node|apply drops_nil|by apply drops_cons]. Qed.
End drop.

Lemma dropped_heap_ok h K l m' :
  heap_ok h K → (∀ q, null_context h = Some q → q ∉ l) →
  tree_ok m' (prune K l) → alive m' → dropped (mem h) m' l → heap_ok (set_mem m' h) (prune K l).
Proof.
  intros Hok Hnull Ht Ha [H1 H2]. split; cbn; [done|done|..].
  - intros x c Hx. assert (x ∉ l) as Hxl by (intros H; by rewrite (H1 x H) in Hx).
    specialize (H2 x Hxl). rewrite Hx in H2. destruct (mem h !! x) as [c0|] eqn:E; [|done].
    apply (inj Some), bare_fields in H2 as (-> & _). by apply (h_idle _ _ Hok x).
  - intros q Hq. destruct (h_null _ _ Hok q Hq) as [c Hc].
    specialize (H2 q (Hnull q Hq)). rewrite Hc in H2. destruct (m' !! q); [eauto|done].
Qed.

Lemma talloc_free_drops_lemma user_dtor h K R p l fuel :
  heap_ok h K → refs_ok (mem h) K R → is_Some (mem h !! p) → sub K p l → plain (mem h) R l →
  (∀ q, null_context h = Some q → q ∉ l) → (length l < fuel)%nat →
  ∃ m', talloc_free user_dtor fuel (Some p) h = Ok (0, set_mem m' h) ∧
    heap_ok (set_mem m' h) (prune K l) ∧ refs_ok m' (prune K l) (without R l) ∧ dropped (mem h) m' l.
Proof.
  intros Hok Hrf Hp Hl Hq Hnull Hfuel. pose proof (h_tree _ _ Hok) as Ht. destruct h as [m nc ac ae].
  destruct (proj1 (drop_sub user_dtor K) p l Hl K R fuel m nc ac ae Ht Hrf) as (m' & E & Ht' & Hrf' & Ha' & Hf); try done.
  { exact (h_alive _ _ Hok). }
  { exact (proj1 (sub_nodup _ _ Ht) _ _ Hl). }
  exists m'. split; [exact E|]. split; [|done]. by apply dropped_heap_ok.
Qed.
