(* ===== verification/TallocRefOps.v ===== *)
(** * The operations on references

    [_talloc_reference], [talloc_unreference], [talloc_reference_count] and
    [talloc_free] of a chunk that is referenced; a heap is determined by its
    hierarchy, its references and the memory of its chunks, so that taking back
    an operation gives the same heap. *)

From S2P Require Import Prelude CString Talloc TallocHeap TallocTree TallocProps TallocWalk TallocFree TallocMem TallocRefs TallocDrop.
From stdpp Require Import relations.

Local Open Scope Z_scope.

(** [p] is not a handle. *)
Definition no_handle (R : references) (p : loc) : Prop := ∀ q, p ∉ R q.

Lemma heap_ok_skel h K m' :
  heap_ok h K → skel <$> mem h = skel <$> m' → alive m' → heap_ok (set_mem m' h) K.
Proof.
  intros Hok Hs Ha. split; cbn; [by eapply tree_ok_skel, h_tree|done|..].
  - intros p c Hp. destruct (fmap_view skel _ _ _ _ Hs Hp) as (c0 & H0 & E). injection E as _ _ _ _ <-.
    by apply (h_idle _ _ Hok p).
  - intros p Hp. destruct (h_null _ _ Hok p Hp) as [c Hc].
    destruct (fmap_view skel _ _ _ _ (eq_sym Hs) Hc) as (y & ? & _). eauto.
Qed.

Lemma fmap_insert_view {A} (f : talloc_chunk → A) (m : chunks) p c c' :
  m !! p = Some c → f c' = f c → f <$> m = f <$> <[p:=c']> m.
Proof. intros Hp Hf. by rewrite fmap_insert, Hf, <- fmap_insert, insert_id. Qed.

Lemma same_frame_at m m' q : same_frame m m' → frame <$> m' !! q = frame <$> m !! q.
Proof. intros H. rewrite <- !lookup_fmap. by rewrite H. Qed.

Lemma frame_bare (m m' : chunks) q : frame <$> m' !! q = frame <$> m !! q → bare <$> m' !! q = bare <$> m !! q.
Proof.
  destruct (m' !! q), (m !! q); cbn; try done. intros H%(inj Some). unfold bare. by rewrite H.
Qed.

Lemma frame_fields c c' : frame c = frame c' →
  tc_flag_free c = tc_flag_free c' ∧ tc_destructor c = tc_destructor c' ∧ tc_name c = tc_name c'.
Proof. destruct c, c'. cbn. by intros [= -> -> -> -> -> -> -> -> -> _]. Qed.

(** A chunk that is in no list of references. *)
Lemma refs_list_insert m R r c :
  refs_list m R → no_handle R r → tc_refs c = head (R r) → refs_list (<[r:=c]> m) R.
Proof.
  intros Hok Hr Hc. split.
  - intros q ch. rewrite lookup_insert. case_decide; [intros [= <-]; congruence|by apply (r_head _ _ Hok)].
  - intros q x Hq. apply lookup_insert_is_Some'. right. by eapply r_live.
  - intros q. eapply rll_frame; [apply (r_list _ _ Hok)|]. intros x Hx.
    rewrite lookup_insert_ne by (intros ->; by apply (Hr q)). done.
  - apply (r_nodup _ _ Hok).
  - apply (r_leaf _ _ Hok).
Qed.

Lemma refs_ok_insert_free m K R r c :
  refs_ok m K R → no_handle R r → tc_refs c = head (R r) → refs_ok (<[r:=c]> m) K R.
Proof.
  intros [Hl Hh Hk] Hr Hc. split; [by apply refs_list_insert|..|done].
  intros q x Hx. rewrite lookup_insert_ne by (intros ->; by apply (Hr q)). by eapply Hh.
Qed.

(** An address that is not in use. *)
Lemma fresh_no_refs m K R r : refs_ok m K R → m !! r = None → no_handle R r ∧ R r = [].
Proof.
  intros [Hl Hh _] Hr. split.
  - intros q Hq. destruct (Hh q r Hq) as (c & Hc & _). congruence.
  - destruct (R r) as [|x l] eqn:E; [done|]. destruct (r_live _ _ Hl r x); [rewrite E; by left|congruence].
Qed.

Lemma fresh_no_links m K r : tree_ok m K → m !! r = None → is_root K r ∧ K r = [].
Proof.
  intros Hok Hr. split.
  - intros q Hq. destruct (child_live _ _ Hok q r Hq). congruence.
  - destruct (K r) as [|x l] eqn:E; [done|]. destruct (t_live _ _ Hok r x); [rewrite E; by left|congruence].
Qed.

Lemma alloc_children_other h K ctx r x :
  (∀ q, context_of h ctx = Some q → q ≠ x) → alloc_children h K ctx r x = K x.
Proof.
  intros H. unfold alloc_children. destruct (context_of h ctx) as [q|]; [|done].
  unfold add_child. by rewrite decide_False by (intros ->; by apply (H q)).
Qed.

Section reference.
Context (wb : Z) (malloc : heap → Z → option loc) (junk : nat → bytes).
Context (malloc_fresh : ∀ h n p, malloc h n = Some p → mem h !! p = None).
Context (handle_size : sizeof_handle wb < MAX_TALLOC_SIZE).

(** The arguments of [_talloc_reference]: a context, and a chunk that is not a handle. *)
Record ref_args (h : heap) (R : references) (ctx : option loc) (p : loc) : Prop := {
  ra_ctx : context_ok h ctx;
  ra_client : ∀ q, context_of h ctx = Some q → no_handle R q;
  ra_live : is_Some (mem h !! p);
  ra_ptr : no_handle R p;
}.

(** The new handle, before it is put in the list. *)
Lemma reference_handle h K R ctx p r :
  heap_ok h K → refs_ok (mem h) K R → ref_args h R ctx p →
  malloc h (TC_HDR_SIZE wb + sizeof_handle wb) = Some r →
  let K1 := alloc_children h K ctx r in
  ∃ m1 c1, _talloc_named_const wb malloc junk ctx (sizeof_handle wb) TALLOC_MAGIC_REFERENCE h
             = Ok (Some r, set_mem m1 h) ∧
    heap_ok (set_mem m1 h) K1 ∧ refs_ok m1 K1 R ∧
    m1 !! r = Some c1 ∧ tc_name c1 = TALLOC_MAGIC_REFERENCE ∧ tc_flag_free c1 = false ∧ tc_refs c1 = None ∧
    (∀ q, q ≠ r → bare <$> m1 !! q = bare <$> mem h !! q).
Proof.
  intros Hok Hrf [Hctx Hcl _ _] Hm K1. pose proof (malloc_fresh _ _ _ Hm) as Hr.
  destruct (fresh_no_refs _ _ _ r Hrf Hr) as [Hnr Hrr].
  destruct (named_const_spec wb malloc junk malloc_fresh h K ctx _ TALLOC_MAGIC_REFERENCE r Hok Hctx handle_size Hm)
    as (m1 & E & Hok1 & Hs).
  set (c0 := set_name TALLOC_MAGIC_REFERENCE (new_chunk junk (sizeof_handle wb))) in *.
  destruct (same_lookup _ _ r c0 Hs) as (c1 & Hc1 & Es); [by rewrite lookup_insert_eq|].
  exists m1, c1. split_and!; [done|done| |done|..].
  - eapply (refs_ok_ext _ K _ R); [done| |].
    + intros q x Hx Hk. unfold K1. rewrite alloc_children_other; [done|]. intros y Hy ->. by apply (Hcl x Hy q).
    + eapply refs_ok_links; [exact Hs|]. apply refs_ok_insert_free; [done|done|by rewrite Hrr].
  - unfold c0, new_chunk, strip in Es. destruct c1. by injection Es.
  - unfold c0, new_chunk, strip in Es. destruct c1. by injection Es.
  - unfold c0, new_chunk, strip in Es. destruct c1. by injection Es.
  - intros q Hq. rewrite (same_links_bare _ _ q Hs). by rewrite lookup_insert_ne.
Qed.

Lemma reference_spec h K R ctx p r :
  heap_ok h K → refs_ok (mem h) K R → ref_args h R ctx p →
  malloc h (TC_HDR_SIZE wb + sizeof_handle wb) = Some r →
  let K1 := alloc_children h K ctx r in
  ∃ m', _talloc_reference wb malloc junk ctx (Some p) h = Ok (Some p, set_mem m' h) ∧
    heap_ok (set_mem m' h) K1 ∧ refs_ok m' K1 (add_child R p r) ∧
    (∀ q, q ≠ r → bare <$> m' !! q = bare <$> mem h !! q).
Proof.
  intros Hok Hrf Ha Hm K1. pose proof (malloc_fresh _ _ _ Hm) as Hr.
  destruct (fresh_no_refs _ _ _ r Hrf Hr) as [Hnr Hrr].
  destruct (fresh_no_links _ _ r (h_tree _ _ Hok) Hr) as [_ Hkr].
  destruct (reference_handle h K R ctx p r Hok Hrf Ha Hm)
    as (m1 & c1 & E & Hok1 & Hrf1 & Hc1 & Hn & Hf & Hrefs & Hb).
  destruct Ha as [Hctx Hcl [cp Hcp] Hpr]. assert (p ≠ r) as Hne by congruence.
  pose proof (h_alive _ _ Hok p cp Hcp) as Hfp.
  set (c2 := set_data (Handle None None (Some p)) (set_destructor (Some dtor_reference) c1)).
  set (m2 := <[r:=c2]> m1).
  assert (refs_list m2 R) as Hl2 by (apply refs_list_insert; [apply Hrf1|done|by rewrite Hrr]).
  assert (is_Some (m2 !! p)) as Hp2.
  { unfold m2. rewrite lookup_insert_ne by done. specialize (Hb p Hne). rewrite Hcp in Hb. by destruct (m1 !! p). }
  destruct h as [m nc ac ae]. cbn [mem set_mem] in *.
  destruct (ref_add m2 nc ac ae R p r c2 None None Hl2 Hnr Hrr Hpr Hne Hp2 (lookup_insert_eq _ _ _) eq_refl)
    as (m3 & E3 & Hl3 & Hs3).
  assert (skel <$> m1 = skel <$> m3) as Hsk.
  { transitivity (skel <$> m2); [by apply (fmap_insert_view skel m1 r c1)|by apply same_frame_skel]. }
  assert (∀ q, q ≠ r → frame <$> m3 !! q = frame <$> m1 !! q) as Hf3.
  { intros q Hq. rewrite (same_frame_at _ _ q Hs3). unfold m2. by rewrite lookup_insert_ne. }
  assert (∃ c3, m3 !! r = Some c3 ∧ frame c2 = frame c3) as (c3 & Hc3 & Ef3).
  { pose proof (same_frame_at _ _ r Hs3) as H. unfold m2 in H. rewrite lookup_insert_eq in H.
    destruct (m3 !! r) as [c3|]; [|done]. apply (inj Some) in H. by exists c3. }
  apply frame_fields in Ef3 as (Efree & Edt & Enm).
  exists m3. split_and!.
  - unfold _talloc_reference. erewrite x_ptr by done. rewrite (M_bind_ok _ _ _ _ _ E).
    unfold _talloc_set_destructor, set_mem. mrun. erewrite x_ptr by done. mrun. rewrite insert_insert_eq.
    fold c2. fold m2. by rewrite (M_bind_ok _ _ _ _ _ E3).
  - apply (heap_ok_skel (Heap m1 nc ac ae)); [done|done|]. intros x c Hx. destruct (decide (x = r)) as [->|Hxr].
    + rewrite Hc3 in Hx. injection Hx as <-. rewrite <- Efree. exact Hf.
    + specialize (Hf3 x Hxr). rewrite Hx in Hf3. destruct (m1 !! x) as [c0|] eqn:E0; [|done].
      apply (inj Some), frame_fields in Hf3 as (-> & _). by apply (h_alive _ _ Hok1 x).
  - split; [done|..].
    + intros q x [Hx|[-> ->]]%elem_of_add_child.
      * assert (x ≠ r) as Hxr by (intros ->; by apply (Hnr q)).
        destruct (r_handle _ _ _ Hrf1 q x Hx) as (c & Hc & Hd & Hnm). specialize (Hf3 x Hxr). rewrite Hc in Hf3.
        destruct (m3 !! x) as [c'|]; [|done]. apply (inj Some), frame_fields in Hf3 as (_ & ? & ?).
        exists c'. split_and!; congruence.
      * exists c3. rewrite Hc3, <- Edt, <- Enm. by split_and!.
    + intros q x [Hx|[-> ->]]%elem_of_add_child; [by eapply r_kids|].
      rewrite <- Hkr. apply alloc_children_other. intros y Hy ->.
      destruct (context_of_live (Heap m nc ac ae) K ctx r Hok Hctx Hy) as [z Hz]. cbn in Hz. congruence.
  - intros q Hq. rewrite <- Hb by done. by apply frame_bare, Hf3.
Qed.

Lemma reference_refused h K ctx p :
  heap_ok h K → is_Some (mem h !! p) → malloc h (TC_HDR_SIZE wb + sizeof_handle wb) = None →
  _talloc_reference wb malloc junk ctx (Some p) h = Ok (None, h).
Proof.
  intros Hok Hp Hm. unfold _talloc_reference. erewrite chunk_from_ptr_live by done.
  unfold _talloc_named_const. rewrite M_bind_assoc.
  by rewrite (M_bind_ok _ _ _ _ _ (talloc_refused wb malloc junk h ctx _ (or_intror Hm))).
Qed.
End reference.

(** ** Walking a list of references *)

Lemma refs_at m R p a r b :
  refs_list m R → R p = a ++ r :: b →
  ∃ ch v, m !! r = Some ch ∧ tc_data ch = Handle (head b) v (Some p).
Proof.
  intros Hok E. pose proof (r_list _ _ Hok p) as Hl. rewrite E in Hl.
  apply rll_app in Hl as [_ [(ch & Hc & Hd) _]]. exists ch, (match last a with None => None | v => v end).
  split; [done|]. rewrite Hd. by destruct b.
Qed.

Lemma handle_live m K R p r : refs_ok m K R → r ∈ R p → is_Some (m !! r).
Proof. intros Hok Hr. destruct (r_handle _ _ _ Hok p r Hr) as (c & ? & _). eauto. Qed.

Lemma refs_length m K R p : refs_ok m K R → (length (R p) ≤ size m)%nat.
Proof.
  intros Hok. apply nodup_live_length; [apply (r_nodup _ _ (r_refs _ _ _ Hok))|].
  intros r Hr. by eapply handle_live.
Qed.

Lemma x_hnext {B} m nc ac ae r c n v t (k : option loc → M B) :
  m !! r = Some c → tc_data c = Handle n v t →
  (x ← link (lk_next handle_links) r; k x) (Heap m nc ac ae) = k n (Heap m nc ac ae).
Proof. intros Hr Hd. eapply x_link; [done|]. cbn. by rewrite Hd. Qed.

Lemma count_references_spec h K R p a l n :
  refs_ok (mem h) K R → R p = a ++ l → (length l ≤ n)%nat →
  count_references n (head l) h = Ok (Z.of_nat (length l), h).
Proof.
  destruct h as [m nc ac ae]. intros Hok. revert a n. induction l as [|r b IH]; intros a n E Hn; [by destruct n|].
  destruct n as [|n]; [cbn in Hn; lia|]. cbn [length] in Hn.
  destruct (refs_at _ _ _ _ _ _ (r_refs _ _ _ Hok) E) as (ch & v & Hc & Hd). cbn [head count_references].
  erewrite x_hnext by done. rewrite (M_bind_ok _ _ _ (Z.of_nat (length b)) (Heap m nc ac ae)).
  - unfold mret, M_ret. do 2 f_equal. cbn. lia.
  - apply (IH (a ++ [r])); [by rewrite <- app_assoc|lia].
Qed.

Lemma parent_of_det m K c r r' : tree_ok m K → parent_of K c r → parent_of K c r' → r = r'.
Proof.
  intros Hok. destruct r as [p|], r' as [q|]; cbn; [..|done].
  - intros. f_equal. by eapply t_uniq.
  - intros Hp Hr. by destruct (Hr p).
  - intros Hr Hp. by destruct (Hr q).
Qed.

(** The first reference held by [ctx]. *)
Lemma find_reference_spec h K R p ctx a l n :
  heap_ok h K → refs_ok (mem h) K R → R p = a ++ l → (length l ≤ n)%nat →
  (∀ b r c, l = b ++ r :: c → Forall (λ x, ¬ parent_of K x ctx) b → parent_of K r ctx →
     find_reference n ctx (head l) h = Ok (Some r, h)) ∧
  (Forall (λ x, ¬ parent_of K x ctx) l → find_reference n ctx (head l) h = Ok (None, h)).
Proof.
  intros Hok Hrf. revert a n. induction l as [|x l IH]; intros a n E Hn.
  { split; [by intros [|] ? ?|]. by destruct n. }
  destruct n as [|n]; [cbn in Hn; lia|]. cbn [length] in Hn.
  destruct (refs_at _ _ _ _ _ _ (r_refs _ _ _ Hrf) E) as (ch & v & Hc & Hd).
  destruct (parent_chunk_spec h K x Hok) as (q & Eq & Hq); [eauto|].
  assert (R p = (a ++ [x]) ++ l) as E' by (by rewrite <- app_assoc).
  destruct (IH (a ++ [x]) n E') as [IH1 IH2]; [lia|]. clear IH.
  destruct h as [m nc ac ae]. cbn [mem] in *. cbn [head find_reference].
  rewrite (M_bind_ok _ _ _ _ _ Eq). destruct (decide (q = ctx)) as [->|Hne].
  - split.
    + intros [|y b] r c Hl Hb Hr; injection Hl as -> ->; [done|]. by apply Forall_cons in Hb as [? _].
    + by intros [? _]%Forall_cons.
  - assert (¬ parent_of K x ctx) as Hx.
    { intros H. apply Hne. eapply parent_of_det; [exact (h_tree _ _ Hok)|done..]. }
    erewrite x_hnext by done. split.
    + intros [|y b] r c Hl Hb Hr; injection Hl as -> ->; [done|]. apply Forall_cons in Hb as [_ Hb]. by eapply IH1.
    + intros [_ Hb]%Forall_cons. by apply IH2.
Qed.

(** ** Freeing one handle *)

Lemma prune_leaf K r q : K r = [] → prune K [r] q = remove_child K r q.
Proof.
  intros Hk. unfold prune, remove_child. case_decide as Hq.
  - apply list_elem_of_singleton in Hq as ->. by rewrite Hk.
  - apply list_filter_iff. intros x. by rewrite list_elem_of_singleton.
Qed.

Lemma without_one R r q : without R [r] q = remove_child R r q.
Proof. unfold without, remove_child. apply list_filter_iff. intros x. by rewrite list_elem_of_singleton. Qed.

Section unreference.
Context (user_dtor : nat → loc → M Z).

(** What is left when the handle [r] is gone. *)
Definition without_handle (h : heap) (K : children) (R : references) (r : loc) (m' : chunks) : Prop :=
  heap_ok (set_mem m' h) (remove_child K r) ∧ refs_ok m' (remove_child K r) (remove_child R r) ∧
  dropped (mem h) m' [r].

Lemma free_handle h K R p r fuel :
  heap_ok h K → refs_ok (mem h) K R → r ∈ R p → null_context h ≠ Some r → (1 < fuel)%nat →
  ∃ m', talloc_free user_dtor fuel (Some r) h = Ok (0, set_mem m' h) ∧ without_handle h K R r m'.
Proof.
  intros Hok Hrf Hr Hnull Hfuel. pose proof (r_kids _ _ _ Hrf p r Hr) as Hk.
  destruct (r_handle _ _ _ Hrf p r Hr) as (ch & Hc & Hd & _).
  destruct (talloc_free_drops_lemma user_dtor h K R r [r] fuel Hok Hrf) as (m' & E & Hok' & Hrf' & Hf); eauto.
  - rewrite <- (app_nil_r [r]). constructor. rewrite Hk. constructor.
  - intros x ->%list_elem_of_singleton. split; [by apply (r_leaf _ _ (r_refs _ _ _ Hrf) p r)|].
    exists ch. split_and!; [done|by apply (h_idle _ _ Hok r)|right; eauto].
  - intros q Hq ->%list_elem_of_singleton. done.
  - exists m'. split; [done|]. split_and!; [..|done].
    + eapply heap_ok_ext; [|exact Hok']. intros q. by apply prune_leaf.
    + eapply refs_ok_ext; [apply without_one| |exact Hrf']. intros q x _ Hx. by rewrite <- prune_leaf.
Qed.

(** [talloc_unreference] frees the newest reference that [context] holds. *)
Lemma unreference_spec h K R ctx p fuel :
  heap_ok h K → refs_ok (mem h) K R → is_Some (mem h !! p) →
  (∀ q, null_context h = Some q → no_handle R q) → (1 < fuel)%nat →
  (∀ a r b, R p = a ++ r :: b → Forall (λ x, ¬ parent_of K x (context_of h ctx)) a →
     parent_of K r (context_of h ctx) →
     ∃ m', talloc_unreference user_dtor fuel ctx (Some p) h = Ok (0, set_mem m' h) ∧ without_handle h K R r m') ∧
  (Forall (λ x, ¬ parent_of K x (context_of h ctx)) (R p) →
     talloc_unreference user_dtor fuel ctx (Some p) h = Ok (-1, h)).
Proof.
  intros Hok Hrf [cp Hp] Hnull Hfuel.
  pose proof (r_head _ _ (r_refs _ _ _ Hrf) p cp Hp) as Hh. pose proof (refs_length _ _ _ p Hrf) as Hlen.
  assert (∀ res, find_reference (S (size (mem h))) (context_of h ctx) (head (R p)) h = Ok (res, h) →
    talloc_unreference user_dtor fuel ctx (Some p) h =
      match res with None => Ok (-1, h) | Some _ => talloc_free user_dtor fuel res h end) as Hrun.
  { intros res Hres. unfold talloc_unreference. erewrite chunk_from_ptr_live by eauto.
    rewrite context_or_null_bind. erewrite fld_bind by done. rewrite bound_bind, Hh.
    rewrite (M_bind_ok _ _ _ _ _ Hres). by destruct res. }
  destruct (find_reference_spec h K R p (context_of h ctx) [] (R p) (S (size (mem h))) Hok Hrf eq_refl) as [H1 H2];
    [lia|]. split.
  - intros a r b E Ha Hr. rewrite (Hrun _ (H1 a r b E Ha Hr)). apply (free_handle h K R p r); try done.
    + rewrite E. apply elem_of_app. right. by left.
    + intros Hn. apply (Hnull r Hn p). rewrite E. apply elem_of_app. right. by left.
  - intros Ha. by rewrite (Hrun _ (H2 Ha)).
Qed.

(** [talloc_free] of a chunk that is referenced. *)
Lemma free_referenced h K R p r b fuel :
  heap_ok h K → refs_ok (mem h) K R → is_Some (mem h !! p) → R p = r :: b →
  null_context h ≠ Some r → (1 < fuel)%nat →
  ∃ m', without_handle h K R r m' ∧
    (¬ ancestor K r p → talloc_free user_dtor (S fuel) (Some p) h = Ok (-1, set_mem m' h)) ∧
    (ancestor K r p →
     talloc_free user_dtor (S fuel) (Some p) h = talloc_free user_dtor fuel (Some p) (set_mem m' h)).
Proof.
  intros Hok Hrf [cp Hp] E Hnull Hfuel. assert (r ∈ R p) as Hr by (rewrite E; by left).
  pose proof (r_head _ _ (r_refs _ _ _ Hrf) p cp Hp) as Hh. rewrite E in Hh. cbn in Hh.
  destruct (free_handle h K R p r fuel Hok Hrf Hr Hnull Hfuel) as (m' & Ef & Hw).
  destruct (is_parent_lemma h K r p Hok) as (z & Ez & Hz); [by eapply handle_live|].
  exists m'. split; [done|].
  assert (talloc_free user_dtor (S fuel) (Some p) h =
    if z =? 0 then Ok (-1, set_mem m' h) else talloc_free user_dtor fuel (Some p) (set_mem m' h)) as Hrun.
  { unfold talloc_free in *. cbn [_talloc_free]. erewrite chunk_from_ptr_live by eauto.
    erewrite fld_bind by done. rewrite Hh. rewrite (M_bind_ok _ _ _ _ _ Ez).
    rewrite (M_bind_ok _ _ _ _ _ Ef). by destruct (z =? 0). }
  split; intros Hanc; rewrite Hrun; destruct Hz as [[-> ?]|[-> ?]]; done.
Qed.
End unreference.

(** ** The heap is determined by its hierarchy and its references *)

(** Every handle in the memory is in a list. *)
Definition handles_known (m : chunks) (R : references) : Prop :=
  ∀ r ch n v t, m !! r = Some ch → tc_data ch = Handle n v t → ∃ p, r ∈ R p.

Lemma side_links_det m m' K i c c' :
  tree_ok m K → tree_ok m' K → m !! i = Some c → m' !! i = Some c' →
  tc_flag_loop c = false → tc_flag_loop c' = false → side_links c = side_links c'.
Proof.
  intros Hok Hok' Hc Hc' Hl Hl'. destruct (root_or_child m K Hok i) as [Hr|[p Hp]]; [eauto|..].
  - by rewrite (t_root _ _ Hok i c Hc Hr Hl), (t_root _ _ Hok' i c' Hc' Hr Hl').
  - apply list_elem_of_split in Hp as (a & b & E).
    pose proof (t_list _ _ Hok p) as H. pose proof (t_list _ _ Hok' p) as H'. rewrite E in H, H'.
    apply dll_at in H as (x & Hx & Hn & Hv & Hp). apply dll_at in H' as (x' & Hx' & Hn' & Hv' & Hp').
    unfold side_links. congruence.
Qed.

Lemma handle_det m m' R p r c c' :
  refs_list m R → refs_list m' R → r ∈ R p → m !! r = Some c → m' !! r = Some c' → tc_data c = tc_data c'.
Proof.
  intros Hok Hok' (a & b & E)%list_elem_of_split Hc Hc'.
  pose proof (r_list _ _ Hok p) as H. pose proof (r_list _ _ Hok' p) as H'. rewrite E in H, H'.
  apply rll_app in H as [_ [(x & Hx & Hd) _]]. apply rll_app in H' as [_ [(x' & Hx' & Hd') _]]. congruence.
Qed.

Lemma heap_determined h h' K R :
  heap_ok h K → heap_ok h' K → refs_ok (mem h) K R → refs_ok (mem h') K R → handles_known (mem h) R →
  (∀ q, bare <$> mem h' !! q = bare <$> mem h !! q) → mem h' = mem h.
Proof.
  intros Hok Hok' Hrf Hrf' Hk Hb. apply map_eq. intros i. specialize (Hb i).
  destruct (mem h !! i) as [c|] eqn:Hc, (mem h' !! i) as [c'|] eqn:Hc'; try done. f_equal.
  pose proof (h_tree _ _ Hok) as Ht. pose proof (h_tree _ _ Hok') as Ht'.
  pose proof (side_links_det _ _ _ i c c' Ht Ht' Hc Hc' (h_idle _ _ Hok i c Hc) (h_idle _ _ Hok' i c' Hc')) as Hl.
  pose proof (t_child _ _ Ht i c Hc) as Hch. rewrite <- (t_child _ _ Ht' i c' Hc') in Hch.
  pose proof (r_head _ _ (r_refs _ _ _ Hrf) i c Hc) as Hr.
  rewrite <- (r_head _ _ (r_refs _ _ _ Hrf') i c' Hc') in Hr.
  assert (tc_data c = tc_data c') as Hd.
  { apply (inj Some), bare_fields in Hb as (_ & _ & _ & _ & _ & Hd).
    destruct (tc_data c) as [|n v t] eqn:Ec.
    - destruct (tc_data c'); [by injection Hd as ->|done].
    - rewrite <- Ec. destruct (Hk i c n v t Hc Ec) as [p Hp].
      eapply (handle_det (mem h) (mem h') R p i); [apply Hrf|apply Hrf'|done..]. }
  destruct c, c'. cbn in *. injection Hl as -> -> ->. injection Hb as -> -> -> -> ->. by subst.
Qed.

Lemma set_mem_eq h m : m = mem h → set_mem m h = h.
Proof. intros ->. by destruct h. Qed.

(** Taking the newest child away again. *)
Lemma remove_alloc_children h K ctx r q :
  is_root K r → remove_child (alloc_children h K ctx r) r q = K q.
Proof.
  intros Hr. unfold alloc_children. destruct (context_of h ctx) as [p|]; [|by apply remove_child_id].
  unfold remove_child, add_child. case_decide as Hq; [subst q|by apply remove_child_id].
  rewrite filter_cons_False by tauto. by apply (remove_child_id K r p).
Qed.

Lemma remove_add_child (R : references) p r q : no_handle R r → remove_child (add_child R p r) r q = R q.
Proof.
  intros Hr. unfold remove_child, add_child. case_decide as Hq; [subst q|by apply remove_child_id].
  rewrite filter_cons_False by tauto. by apply (remove_child_id R r p).
Qed.

(** After [h1], where [r] is new, freeing [r] gives [h] back. *)
Lemma undo_handle h m1 K R ctx p r m2 :
  heap_ok h K → refs_ok (mem h) K R → handles_known (mem h) R → mem h !! r = None →
  (∀ q, q ≠ r → bare <$> m1 !! q = bare <$> mem h !! q) →
  without_handle (set_mem m1 h) (alloc_children h K ctx r) (add_child R p r) r m2 → set_mem m2 h = h.
Proof.
  intros Hok Hrf Hk Hr Hb (Hok2 & Hrf2 & Hd1 & Hd2). apply set_mem_eq.
  destruct (fresh_no_links _ _ r (h_tree _ _ Hok) Hr) as [Hroot _].
  destruct (fresh_no_refs _ _ _ r Hrf Hr) as [Hnr _].
  apply (heap_determined h (set_mem m2 h) K R); [done| |done| |done|].
  - eapply heap_ok_ext; [|exact Hok2]. intros q. by apply remove_alloc_children.
  - eapply refs_ok_ext; [| |exact Hrf2].
    + intros q. by apply remove_add_child.
    + intros q x _ Hx. by rewrite <- (remove_alloc_children h K ctx r).
  - intros q. cbn in *. destruct (decide (q = r)) as [->|Hq].
    + rewrite Hd1 by by left. by rewrite Hr.
    + rewrite Hd2 by by rewrite list_elem_of_singleton. by apply Hb.
Qed.

(** C24 [talloc_reference_adds]: a reference to a live chunk is a new handle in
    front of the children of the context and in front of the references of the
    chunk; no other chunk changes but for links, and the number of references
    grows by one.  When there is no memory the result is NULL and the heap is as
    before. *)
Theorem talloc_reference_adds wb malloc junk h K R ctx p :
  (∀ h n p, malloc h n = Some p → mem h !! p = None) → sizeof_handle wb < MAX_TALLOC_SIZE →
  heap_ok h K → refs_ok (mem h) K R → ref_args h R ctx p →
  match malloc h (TC_HDR_SIZE wb + sizeof_handle wb) with
  | None => _talloc_reference wb malloc junk ctx (Some p) h = Ok (None, h)
  | Some r =>
      let K1 := alloc_children h K ctx r in
      ∃ m', _talloc_reference wb malloc junk ctx (Some p) h = Ok (Some p, set_mem m' h) ∧
        heap_ok (set_mem m' h) K1 ∧ refs_ok m' K1 (add_child R p r) ∧
        (∀ q, q ≠ r → bare <$> m' !! q = bare <$> mem h !! q) ∧
        talloc_reference_count (Some p) (set_mem m' h) = Ok (Z.of_nat (length (R p)) + 1, set_mem m' h)
  end.
Proof.
  intros Hf Hsz Hok Hrf Ha. destruct (malloc h (TC_HDR_SIZE wb + sizeof_handle wb)) as [r|] eqn:Hm.
  - destruct (reference_spec wb malloc junk Hf Hsz h K R ctx p r Hok Hrf Ha Hm) as (m' & E & Hok' & Hrf' & Hb).
    exists m'. split_and!; [done..|].
    assert (is_Some (m' !! p)) as [c Hc].
    { destruct (ra_live _ _ _ _ Ha) as [c Hc]. specialize (Hb p). rewrite Hc in Hb.
      destruct (m' !! p); [eauto|]. destruct (decide (p = r)) as [->|Hne]; [|by specialize (Hb Hne)].
      pose proof (Hf _ _ _ Hm). congruence. }
    unfold talloc_reference_count. erewrite chunk_from_ptr_live by (done || by eexists).
    erewrite fld_bind by done. rewrite bound_bind. rewrite (r_head _ _ (r_refs _ _ _ Hrf') p c Hc).
    rewrite (count_references_spec (set_mem m' h) _ _ p [] _ _ Hrf' eq_refl).
    + unfold add_child. rewrite decide_True by done. do 2 f_equal. cbn [length]. lia.
    + pose proof (refs_length _ _ _ p Hrf'). cbn. lia.
  - eapply reference_refused; [done|exact (ra_live _ _ _ _ Ha)|done].
Qed.

(** C25 [talloc_unreference_undoes]: [talloc_unreference] takes a reference that was
    just made back: the result is 0 and the heap is, chunk for chunk, link for
    link, the one before the reference. *)
Theorem talloc_unreference_undoes wb malloc junk user_dtor h K R ctx p r fuel :
  (∀ h n p, malloc h n = Some p → mem h !! p = None) → sizeof_handle wb < MAX_TALLOC_SIZE →
  heap_ok h K → refs_ok (mem h) K R → handles_known (mem h) R → ref_args h R ctx p →
  (∀ q, null_context h = Some q → no_handle R q) →
  malloc h (TC_HDR_SIZE wb + sizeof_handle wb) = Some r → (1 < fuel)%nat →
  (_talloc_reference wb malloc junk ctx (Some p);; talloc_unreference user_dtor fuel ctx (Some p)) h = Ok (0, h).
Proof.
  intros Hf Hsz Hok Hrf Hk Ha Hnull Hm Hfuel. pose proof (Hf _ _ _ Hm) as Hr.
  destruct (reference_spec wb malloc junk Hf Hsz h K R ctx p r Hok Hrf Ha Hm) as (m1 & E & Hok1 & Hrf1 & Hb).
  rewrite (M_bind_ok _ _ _ _ _ E). destruct (fresh_no_links _ _ r (h_tree _ _ Hok) Hr) as [Hroot _].
  assert (p ≠ r) as Hpr by (intros ->; destruct (ra_live _ _ _ _ Ha); congruence).
  assert (∀ q, null_context h = Some q → no_handle (add_child R p r) q) as Hnull1.
  { intros q Hq x [Hx|[-> ->]]%elem_of_add_child; [by apply (Hnull q Hq x)|].
    destruct (h_null _ _ Hok r Hq). congruence. }
  destruct (unreference_spec user_dtor (set_mem m1 h) _ _ ctx p fuel Hok1 Hrf1) as [H _]; try done.
  { destruct (ra_live _ _ _ _ Ha) as [c Hc]. specialize (Hb p Hpr). rewrite Hc in Hb. cbn. by destruct (m1 !! p). }
  destruct (H [] r (R p)) as (m2 & E2 & Hw).
  - unfold add_child. by rewrite decide_True.
  - constructor.
  - replace (context_of (set_mem m1 h) ctx) with (context_of h ctx) by by destruct ctx.
    unfold alloc_children, parent_of. destruct (context_of h ctx) as [q|]; [|done].
    apply elem_of_add_child. by right.
  - rewrite E2. f_equal. f_equal.
    change (set_mem m2 (set_mem m1 h)) with (set_mem m2 h). by eapply undo_handle.
Qed.

(** [talloc_free_of_referenced]: [talloc_free] of a referenced chunk drops its
    newest reference.  When that is held outside the chunk, the result is -1
    and nothing else changes: the chunk lives on; when it is held below it,
    [talloc_free] goes on with the chunk. *)
Theorem talloc_free_of_referenced user_dtor h K R p r b fuel :
  heap_ok h K → refs_ok (mem h) K R → is_Some (mem h !! p) → R p = r :: b →
  null_context h ≠ Some r → (1 < fuel)%nat →
  ∃ m', without_handle h K R r m' ∧ is_Some (m' !! p) ∧
    (¬ ancestor K r p → talloc_free user_dtor (S fuel) (Some p) h = Ok (-1, set_mem m' h)) ∧
    (ancestor K r p →
     talloc_free user_dtor (S fuel) (Some p) h = talloc_free user_dtor fuel (Some p) (set_mem m' h)).
Proof.
  intros Hok Hrf Hp E Hnull Hfuel.
  destruct (free_referenced user_dtor h K R p r b fuel Hok Hrf Hp E Hnull Hfuel) as (m' & Hw & H1 & H2).
  exists m'. split_and!; [done| |done..]. destruct Hw as (_ & _ & _ & Hd), Hp as [c Hc].
  specialize (Hd p). rewrite Hc in Hd. destruct (m' !! p); [eauto|]. exfalso.
  assert (r ≠ p) as Hne. { intros ->. apply (refs_not_self _ _ p (r_refs _ _ _ Hrf)). rewrite E. by left. }
  by specialize (Hd ltac:(by intros ->%list_elem_of_singleton)).
Qed.

(** C7 [talloc_free_drops]: [talloc_free] of a subtree in which nothing is
    referenced and no client has set a destructor returns 0 and frees exactly
    the subtree; the references that are held in it are taken out of the lists
    of the chunks they point to, and every other chunk keeps its memory, its
    place in the hierarchy and its other references.  The fuel of the recursion
    is one more than the chunks it frees. *)
Theorem talloc_free_drops user_dtor h K R p l fuel :
  heap_ok h K → refs_ok (mem h) K R → is_Some (mem h !! p) → sub K p l → plain (mem h) R l →
  (∀ q, null_context h = Some q → q ∉ l) → (length l < fuel)%nat →
  ∃ m', talloc_free user_dtor fuel (Some p) h = Ok (0, set_mem m' h) ∧
    heap_ok (set_mem m' h) (prune K l) ∧ refs_ok m' (prune K l) (without R l) ∧ dropped (mem h) m' l.
Proof. exact (talloc_free_drops_lemma user_dtor h K R p l fuel). Qed.
