(* ===== verification/TallocUnlink.v ===== *)
(** * [talloc_unlink]

    What a context gives up: a reference it holds, or, when it is the parent, the
    chunk itself, which then goes to the holder of its newest reference or is freed. *)

From S2P Require Import Prelude CString Talloc TallocHeap TallocTree TallocProps TallocWalk TallocFree TallocMem TallocRefs TallocDrop TallocRefOps.
From stdpp Require Import relations.

Local Open Scope Z_scope.

Lemma context_of_idem h ctx : context_of h (context_of h ctx) = context_of h ctx.
Proof. unfold context_of. destruct ctx; [done|]. by destruct (null_context h). Qed.

Section unlink.
Context (user_dtor : nat → loc → M Z) (h : heap) (K : children) (R : references) (p : loc) (fuel : nat).
Context (h_ok : heap_ok h K) (R_ok : refs_ok (mem h) K R) (p_live : is_Some (mem h !! p)).
Context (null_client : ∀ q, null_context h = Some q → no_handle R q) (fuel_ok : (1 < fuel)%nat).

#[local] Abbreviation unlink := (talloc_unlink user_dtor fuel).
#[local] Abbreviation unreference := (talloc_unreference user_dtor fuel).

(** No reference of [p] is held by [c]. *)
Definition not_held (c : option loc) : Prop := Forall (λ x, ¬ parent_of K x c) (R p).

(** The first check is for a reference. *)
Lemma unlink_held ctx m' : unreference (context_of h ctx) (Some p) h = Ok (0, m') → unlink ctx (Some p) h = Ok (0, m').
Proof. intros E. unfold talloc_unlink. rewrite context_or_null_bind, (M_bind_ok _ _ _ _ _ E). reflexivity. Qed.

(** The second for the parent. *)
Lemma unlink_parent ctx :
  context_ok h ctx → not_held (context_of h ctx) →
  (¬ parent_of K p (context_of h ctx) → unlink ctx (Some p) h = Ok (-1, h)) ∧
  (parent_of K p (context_of h ctx) →
   unlink ctx (Some p) h =
     match R p with
     | [] => talloc_free user_dtor fuel (Some p) h
     | r :: _ =>
         (new_parent ← talloc_parent_chunk (Some r); rc ← unreference new_parent (Some p);
          if negb (rc =? 0) then mret (-1) else _talloc_steal new_parent (Some p);; mret 0) h
     end).
Proof.
  intros Hctx Hno. destruct p_live as [cp Hp].
  destruct (unreference_spec user_dtor h K R (context_of h ctx) p fuel h_ok R_ok p_live null_client fuel_ok) as [_ Hun].
  rewrite context_of_idem in Hun. specialize (Hun Hno).
  destruct (parent_chunk_spec h K p h_ok p_live) as (q & Eq & Hq).
  pose proof (r_head _ _ (r_refs _ _ _ R_ok) p cp Hp) as Hh.
  assert (∀ k : M Z, (match context_of h ctx with None => mret tt | Some _ => talloc_chunk_from_ptr (context_of h ctx);; mret tt end;; k) h = k h) as Hc.
  { intros k. destruct (context_of h ctx) as [c|] eqn:Ec; [|done].
    pose proof (context_of_live h K ctx c h_ok Hctx Ec) as Hlive.
    etrans; [|exact (chunk_from_ptr_live h K c (λ _, k) h_ok Hlive)]. unfold mbind, M_bind.
    by destruct (talloc_chunk_from_ptr (Some c) h) as [[]| |]. }
  unfold talloc_unlink. rewrite context_or_null_bind, (M_bind_ok _ _ _ _ _ Hun). cbn [Z.eqb]. rewrite Hc, (M_bind_ok _ _ _ _ _ Eq).
  split; intros Hpar.
  - rewrite bool_decide_eq_false_2; [done|]. intros ->. done.
  - rewrite (parent_of_det _ _ _ _ _ (h_tree _ _ h_ok) Hq Hpar), bool_decide_eq_true_2 by done. cbn [negb].
    erewrite chunk_from_ptr_live by done. erewrite fld_bind by done. rewrite Hh. by destruct (R p).
Qed.

(** The holder [q] of the newest reference becomes the parent. *)
Lemma unlink_passes r b q :
  R p = r :: b → r ∈ K q → ¬ ancestor K q p →
  ∃ m', (new_parent ← talloc_parent_chunk (Some r); rc ← unreference new_parent (Some p);
          if negb (rc =? 0) then mret (-1) else _talloc_steal new_parent (Some p);; mret 0) h = Ok (0, set_mem m' h) ∧
    let K' := move_child (remove_child K r) q p in
    heap_ok (set_mem m' h) K' ∧ refs_ok m' K' (remove_child R r) ∧ dropped (mem h) m' [r].
Proof.
  intros E Hq Hanc. assert (r ∈ R p) as Hr by (rewrite E; by left). pose proof (h_tree _ _ h_ok) as Ht.
  destruct (parent_chunk_spec h K r h_ok (handle_live _ _ _ _ _ R_ok Hr)) as (q' & Eq & Hq').
  assert (q' = Some q) as -> by exact (parent_of_det _ _ _ q' (Some q) Ht Hq' Hq).
  rewrite (M_bind_ok _ _ _ _ _ Eq).
  destruct (unreference_spec user_dtor h K R (Some q) p fuel h_ok R_ok p_live null_client fuel_ok) as [Hun _].
  destruct (Hun [] r b E (Forall_nil_2 _) Hq) as (m1 & E1 & Hok1 & Hrf1 & Hd).
  rewrite (M_bind_ok _ _ _ _ _ E1). cbn [negb Z.eqb].
  assert (∀ x, x ≠ r → is_Some (mem h !! x) → is_Some (m1 !! x)) as Hlive.
  { intros x Hx [c Hc]. destruct Hd as [_ Hd]. specialize (Hd x ltac:(by rewrite list_elem_of_singleton)). rewrite Hc in Hd.
    destruct (m1 !! x); [eauto|done]. }
  assert (p ≠ r) as Hpr by (intros ->; by apply (refs_not_self _ _ r (r_refs _ _ _ R_ok))).
  assert (no_handle R q) as Hnq by (intros x Hx; rewrite (r_kids _ _ _ R_ok x q Hx) in Hq; by apply not_elem_of_nil in Hq).
  assert (q ≠ r) as Hqr by (intros ->; by apply (Hnq p)).
  destruct (steal_spec (set_mem m1 h) (remove_child K r) (Some q) p Hok1) as (m2 & E2 & Hok2 & Hs).
  { intros x [= <-]. apply Hlive; [done|]. by eapply t_live. }
  { by apply Hlive. }
  { intros x [= <-] Ha. by apply Hanc, (ancestor_remove K r). }
  rewrite (M_bind_ok _ _ _ _ _ E2). cbn [context_of stolen] in Hok2. exists m2. split; [done|]. cbn zeta.
  split; [exact Hok2|]. split.
  - apply (refs_ok_ext _ (remove_child K r) _ (remove_child R r)); [done| |exact (refs_ok_links _ _ _ _ Hs Hrf1)]. intros x y Hy Hky. unfold move_child, add_child.
    apply elem_of_remove_child in Hy as [_ Hy]. rewrite decide_False by (intros ->; by apply (Hnq x)).
    unfold remove_child at 1. by rewrite Hky.
  - split.
    + intros x Hx. pose proof (same_links_bare _ _ x Hs) as Hb. cbn in Hb. rewrite (proj1 Hd x Hx) in Hb. by destruct (m2 !! x).
    + intros x Hx. rewrite <- (proj2 Hd x Hx). exact (same_links_bare _ _ x Hs).
Qed.
End unlink.

(** C23 [talloc_unlink_spec]: [talloc_unlink] drops the newest reference that the context
    holds, whether it is the parent or not.  When it holds none: it fails if it is
    not the parent, and nothing has changed; if it is the parent, the chunk is freed
    when nothing refers to it, and otherwise the holder of its newest reference
    becomes the parent, provided that it is not below the chunk, in the place of its
    reference; no other chunk changes but for links. *)
Theorem talloc_unlink_spec user_dtor h K R ctx p fuel :
  heap_ok h K → refs_ok (mem h) K R → context_ok h ctx → is_Some (mem h !! p) →
  (∀ q, null_context h = Some q → no_handle R q) → (1 < fuel)%nat →
  (∀ a r b, R p = a ++ r :: b → Forall (λ x, ¬ parent_of K x (context_of h ctx)) a → parent_of K r (context_of h ctx) →
     ∃ m', talloc_unlink user_dtor fuel ctx (Some p) h = Ok (0, set_mem m' h) ∧ without_handle h K R r m') ∧
  (not_held K R p (context_of h ctx) →
     (¬ parent_of K p (context_of h ctx) → talloc_unlink user_dtor fuel ctx (Some p) h = Ok (-1, h)) ∧
     (parent_of K p (context_of h ctx) → R p = [] →
        talloc_unlink user_dtor fuel ctx (Some p) h = talloc_free user_dtor fuel (Some p) h) ∧
     (∀ r b q, parent_of K p (context_of h ctx) → R p = r :: b → r ∈ K q → ¬ ancestor K q p →
        ∃ m', talloc_unlink user_dtor fuel ctx (Some p) h = Ok (0, set_mem m' h) ∧
          let K' := move_child (remove_child K r) q p in
          heap_ok (set_mem m' h) K' ∧ refs_ok m' K' (remove_child R r) ∧ dropped (mem h) m' [r])).
Proof.
  intros Hok Hrf Hctx Hp Hnull Hfuel. split.
  - intros a r b E Ha Hr. destruct (unreference_spec user_dtor h K R (context_of h ctx) p fuel Hok Hrf Hp Hnull Hfuel) as [Hun _].
    rewrite context_of_idem in Hun. destruct (Hun a r b E Ha Hr) as (m' & Em & Hw). exists m'. split; [by apply unlink_held|done].
  - intros Hno. destruct (unlink_parent user_dtor h K R p fuel Hok Hrf Hp Hnull Hfuel ctx Hctx Hno) as [H1 H2].
    split; [exact H1|]. split; [by intros Hpar E; rewrite (H2 Hpar), E|]. intros r b q Hpar E Hq Hanc. rewrite (H2 Hpar), E. by eapply unlink_passes.
Qed.
