(* ===== verification/TallocReport.v ===== *)
(** * Reports

    [outline] lists what a report visits: the chunks of a subtree in preorder
    with their depth, a reference at the place of its handle.
    [talloc_report_depth_cb] calls its callback on exactly these, and a report
    is the text of their lines; the flags that mark the chunks on the way up are
    cleared again. *)

From S2P Require Import Prelude CString Talloc TallocHeap TallocTree TallocProps TallocWalk TallocFree TallocMem TallocRefs TallocDrop TallocRefOps.
From stdpp Require Import relations.

Local Open Scope Z_scope.

(** A call of the callback: the pointer, the depth, and whether it is a reference. *)
Definition visit : Type := option loc * Z * bool.

Definition too_deep (max_depth depth : Z) : bool := (0 <=? max_depth) && (max_depth <=? depth).

(** What a handle refers to; [None] for any other chunk. *)
Definition target (m : chunks) (c : loc) : option (option loc) :=
  match m !! c with
  | Some ch =>
      if decide (tc_name ch = TALLOC_MAGIC_REFERENCE) then
        match tc_data ch with Handle _ _ t => Some t | Bytes _ => None end
      else None
  | None => None
  end.

(** The visits of a report on [p], [n] levels at most. *)
Fixpoint outline (m : chunks) (K : children) (max_depth : Z) (n : nat) (p : loc) (depth : Z) : list visit :=
  (Some p, depth, false) ::
  (if too_deep max_depth depth then []
   else match n with
        | O => []
        | S n => flat_map (λ c, match target m c with
                                | Some t => [(t, depth + 1, true)]
                                | None => outline m K max_depth n c (depth + 1)
                                end) (K p)
        end).

(** ** Marked chunks *)

(** The memory with the chunks of [A] marked. *)
Definition flagged (A : list loc) (m : chunks) : chunks :=
  map_imap (λ x c, Some (if decide (x ∈ A) then set_flag_loop true c else c)) m.

Lemma lookup_flagged A m x :
  flagged A m !! x = (λ c, if decide (x ∈ A) then set_flag_loop true c else c) <$> m !! x.
Proof. unfold flagged. rewrite map_lookup_imap. by destruct (m !! x). Qed.

Lemma lookup_flagged_ne A m x : x ∉ A → flagged A m !! x = m !! x.
Proof.
  intros. rewrite lookup_flagged. destruct (m !! x) as [c|]; [|done].
  cbn [fmap option_fmap option_map]. by rewrite decide_False.
Qed.

Lemma flagged_mark A m p c :
  m !! p = Some c → p ∉ A → <[p:=set_flag_loop true c]> (flagged A m) = flagged (p :: A) m.
Proof.
  intros Hp HA. apply map_eq. intros x. rewrite lookup_flagged, lookup_insert. case_decide as Hx.
  - subst x. rewrite Hp. cbn [fmap option_fmap option_map]. by rewrite decide_True by by left.
  - rewrite lookup_flagged. destruct (m !! x) as [cx|]; [|done]. cbn [fmap option_fmap option_map].
    rewrite (decide_ext (x ∈ p :: A) (x ∈ A)); [done|]. rewrite elem_of_cons. intuition congruence.
Qed.

Lemma flagged_unmark A m p c :
  m !! p = Some c → p ∉ A → tc_flag_loop c = false →
  <[p:=set_flag_loop false (set_flag_loop true c)]> (flagged (p :: A) m) = flagged A m.
Proof.
  intros Hp HA Hl. rewrite <- (flagged_mark A m p c Hp HA), insert_insert_eq.
  apply insert_id. rewrite lookup_flagged_ne, Hp by done. f_equal. destruct c; cbn in *. by subst.
Qed.

Lemma flagged_nil m : flagged [] m = m.
Proof. apply map_eq. intros x. by rewrite lookup_flagged_ne by apply not_elem_of_nil. Qed.

(** A view of the chunks that the mark does not change. *)
Lemma flagged_view {A} (f : talloc_chunk → A) l m :
  (∀ c, f (set_flag_loop true c) = f c) → f <$> flagged l m = f <$> m.
Proof.
  intros Hf. apply map_eq. intros x. rewrite !lookup_fmap, lookup_flagged.
  destruct (m !! x) as [c|]; [|done]. cbn. by case_decide; rewrite ?Hf.
Qed.

Lemma flagged_at l m x c : m !! x = Some c → ∃ c', flagged l m !! x = Some c' ∧ (c' = c ∨ c' = set_flag_loop true c).
Proof. intros Hx. rewrite lookup_flagged, Hx. cbn [fmap option_fmap option_map]. eexists. split; [done|]. case_decide; auto. Qed.

Lemma flagged_tree l m K : tree_ok m K → tree_ok (flagged l m) K.
Proof.
  intros Hok. assert (∀ x c, flagged l m !! x = Some c → ∃ c0, m !! x = Some c0 ∧
    side_links c = side_links c0 ∧ tc_child c = tc_child c0 ∧ (tc_flag_loop c = false → tc_flag_loop c0 = false)) as Hb.
  { intros x c. rewrite lookup_flagged. destruct (m !! x) as [c0|]; [|done]. cbn [fmap option_fmap option_map]. intros [= <-].
    exists c0. case_decide; by split_and!. }
  split.
  - intros p c Hc. destruct (t_live _ _ Hok p c Hc) as [x Hx]. destruct (flagged_at l m p x Hx) as (? & ? & _). eauto.
  - intros p ch Hp. destruct (Hb p ch Hp) as (c0 & H0 & _ & -> & _). by apply (t_child _ _ Hok).
  - intros p. eapply dll_frame; [apply (t_list _ _ Hok)|]. intros x _.
    by rewrite <- !lookup_fmap, flagged_view.
  - apply (t_nodup _ _ Hok).
  - apply (t_uniq _ _ Hok).
  - intros c ch Hc Hr Hl. destruct (Hb c ch Hc) as (c0 & H0 & -> & _ & Hl0). eapply t_root; eauto.
  - apply (t_acyc _ _ Hok).
Qed.

(** ** The walk *)

Section walk.
Context {B : Type} (callback : option loc → Z → bool → M B) (f : visit → B) (max_depth : Z).
Context (m : chunks) (nc ac : option loc) (ae : list exit_fn) (K : children).
Context (Hok : tree_ok m K) (Halive : alive m) (Hidle : ∀ x c, m !! x = Some c → tc_flag_loop c = false).

Abbreviation at_heap A := (Heap (flagged A m) nc ac ae).

(** The callback on a chunk while the chunks of [A], none of them below it, are
    marked, and on a reference. *)
Definition answers (x : loc) : Prop :=
  ∀ A d, (∀ y, y ∈ A → ¬ ancestor K y x) → callback (Some x) d false (at_heap A) = Ok (f (Some x, d, false), at_heap A).

Definition answers_ref (x : loc) : Prop :=
  ∀ A d t, target m x = Some t → callback t d true (at_heap A) = Ok (f (t, d, true), at_heap A).

(** The chunks of [l]: live, and handles are handles. *)
Definition reportable (l : list loc) : Prop :=
  ∀ x, x ∈ l → ∃ c, m !! x = Some c ∧ (tc_name c = TALLOC_MAGIC_REFERENCE → is_Some (target m x)) ∧
                    answers x ∧ answers_ref x.

Definition reports (p : loc) (l : list loc) : Prop :=
  ∀ n d A, NoDup l → reportable l → (∀ y, y ∈ A → ¬ ancestor K y p) → (length l ≤ n)%nat →
    report_loop callback max_depth n p d (at_heap A) = Ok (map f (outline m K max_depth n p d), at_heap A).

(** The walk over siblings at depth [d]. *)
Definition walk_one (n : nat) (d : Z) (c : loc) : M (list B) :=
  nm ← fld tc_name c;
  if decide (nm = TALLOC_MAGIC_REFERENCE) then
    d0 ← fld tc_data c;
    match d0 with
    | Handle _ _ h_ptr => r ← callback h_ptr d true; mret [r]
    | Bytes _ => undefined
    end
  else report_loop callback max_depth n c d.

Definition lines_of (n : nat) (d : Z) (c : loc) : list visit :=
  match target m c with Some t => [(t, d, true)] | None => outline m K max_depth n c d end.

Definition reports_siblings (cs l : list loc) : Prop :=
  ∀ k n d A par pv, NoDup l → reportable l → dll m par pv cs None →
    (∀ y c, y ∈ A → c ∈ cs → ¬ ancestor K y c) → (length l ≤ n)%nat → (length cs ≤ k)%nat →
    walk_siblings (walk_one n d) k (head cs) (at_heap A) = Ok (map f (flat_map (lines_of n d) cs), at_heap A).

Lemma reports_nil : reports_siblings [] [].
Proof. intros k n d A par pv _ _ _ _ _ _. by destruct k. Qed.

Lemma walk_one_ok n d A c l :
  sub K c l → reports c l → NoDup l → reportable l → (∀ y, y ∈ A → ¬ ancestor K y c) → (length l ≤ n)%nat →
  walk_one n d c (at_heap A) = Ok (map f (lines_of n d c), at_heap A).
Proof.
  intros Hl IH Hnd Hr HA Hn. assert (c ∈ l) as Hcl by (apply (proj1 (sub_ancestor K) _ _ Hl), rtc_refl).
  destruct (Hr c Hcl) as (ch & Hch & Hmagic & _ & Href). unfold walk_one, lines_of.
  destruct (flagged_at A m c ch Hch) as (ch' & Hch' & Ech').
  assert (tc_name ch' = tc_name ch ∧ tc_data ch' = tc_data ch) as [En Ed] by by destruct Ech' as [->| ->].
  erewrite x_fld by done. rewrite En. case_decide as Hm.
  - destruct (Hmagic Hm) as [t Ht]. rewrite Ht. erewrite x_fld by done. rewrite Ed.
    pose proof Ht as Ht'. unfold target in Ht'. rewrite Hch, decide_True in Ht' by done.
    destruct (tc_data ch) as [|n1 v1 t1]; [done|]. injection Ht' as ->.
    by rewrite (M_bind_ok _ _ _ _ _ (Href A d t Ht)).
  - assert (target m c = None) as -> by (unfold target; by rewrite Hch, decide_False). by apply IH.
Qed.

Lemma reports_cons c cs l l' :
  sub K c l → reports c l → subs K cs l' → reports_siblings cs l' → reports_siblings (c :: cs) (l ++ l').
Proof.
  intros Hl IH1 _ IH2 k n d A par pv Hnd Hr Hd HA Hn Hk.
  apply NoDup_app in Hnd as (Hnd1 & _ & Hnd2). rewrite length_app in Hn.
  destruct k as [|k]; [cbn in Hk; lia|]. destruct Hd as [(ch & Hch & Hnx & _) Hd]. cbn [walk_siblings head].
  rewrite (M_bind_ok _ _ _ (map f (lines_of n d c)) (at_heap A)).
  2:{ eapply walk_one_ok; try done; [|by intros y Hy; apply HA; [|left]|lia].
      intros x Hx. apply Hr, elem_of_app. by left. }
  destruct (flagged_at A m c ch Hch) as (ch' & Hch' & Ech').
  assert (tc_next ch' = head cs) as En. { destruct Ech' as [->| ->]; cbn; rewrite Hnx; by destruct cs. }
  erewrite x_fld by done. rewrite En.
  rewrite (M_bind_ok _ _ _ (map f (flat_map (lines_of n d) cs)) (at_heap A)).
  - cbn [flat_map]. by rewrite map_app.
  - eapply IH2; try done; [|by intros y x Hy Hx; apply HA; [|right]|lia|cbn in Hk; lia].
    intros x Hx. apply Hr, elem_of_app. by right.
Qed.

Lemma reports_node p l : subs K (K p) l → reports_siblings (K p) l → reports p (p :: l).
Proof.
  intros Hl IH n d A [Hp Hnd]%NoDup_cons Hr HA Hn. destruct n as [|n]; [cbn in Hn; lia|]. cbn [length] in Hn.
  destruct (Hr p ltac:(by left)) as (ch & Hch & _ & Hans & _).
  assert (p ∉ A) as HpA by (intros H; by apply (HA p H), rtc_refl).
  assert (flagged A m !! p = Some ch) as Hch' by by rewrite lookup_flagged_ne.
  pose proof (Halive p ch Hch) as Hfree. pose proof (Hidle p ch Hch) as Hloop.
  cbn [report_loop outline]. erewrite x_ptr by done. erewrite x_fld by done. rewrite Hloop.
  rewrite (M_bind_ok _ _ _ _ _ (Hans A d HA)). fold (too_deep max_depth d).
  destruct (too_deep max_depth d); [done|].
  erewrite x_upd by done. rewrite (flagged_mark A m p ch Hch HpA).
  assert (flagged (p :: A) m !! p = Some (set_flag_loop true ch)) as Hm.
  { rewrite lookup_flagged, Hch. cbn [fmap option_fmap option_map]. by rewrite decide_True by by left. }
  erewrite x_fld by done. cbn [tc_child set_flag_loop]. rewrite (t_child _ _ Hok p ch Hch).
  rewrite (M_bind_ok _ _ _ (map f (flat_map (lines_of n (d + 1)) (K p))) (at_heap (p :: A))).
  - erewrite x_upd by done. by rewrite (flagged_unmark A m p ch Hch HpA Hloop).
  - eapply (IH n n (d + 1) (p :: A) (Some p) None); try done.
    + intros x Hx. apply Hr. by right.
    + apply (t_list _ _ Hok).
    + intros y c [->|Hy]%elem_of_cons Hc Hanc.
      * apply (t_acyc _ _ Hok c). eapply tc_rtc_r; [by apply tc_once|done].
      * apply (HA y Hy). by eapply rtc_r.
    + lia.
    + pose proof (subs_length _ _ _ Hl). lia.
Qed.

Lemma reports_all :
  (∀ p l, sub K p l → reports p l) ∧ (∀ cs l, subs K cs l → reports_siblings cs l).
Proof. apply sub_subs_ind; intros; [by apply reports_node|apply reports_nil|by apply reports_cons]. Qed.
End walk.

Lemma report_visits {B} (callback : option loc → Z → bool → M B) (f : visit → B) max_depth h K p l d :
  heap_ok h K → is_Some (mem h !! p) → sub K p l →
  reportable callback f (mem h) (null_context h) (autofree_context h) (at_exit h) K l →
  talloc_report_depth_cb (Some p) d max_depth callback h
  = Ok (map f (outline (mem h) K max_depth (S (size (mem h))) p d), h).
Proof.
  intros Hok Hp Hl Hr. pose proof (h_tree _ _ Hok) as Ht.
  unfold talloc_report_depth_cb. rewrite context_or_null_bind. cbn [context_of]. rewrite bound_bind.
  pose proof (sub_length _ _ Ht p l Hp Hl) as Hlen. pose proof (h_alive _ _ Hok) as Ha. pose proof (h_idle _ _ Hok) as Hi.
  destruct h as [m nc ac ae]. cbn [mem null_context autofree_context at_exit] in *.
  pose proof (proj1 (reports_all callback f max_depth m nc ac ae K Ht Ha Hi) p l Hl (S (size m)) d []) as H.
  rewrite flagged_nil in H. apply H; [exact (proj1 (sub_nodup _ _ Ht) _ _ Hl)|done|by intros y ?%elem_of_nil|lia].
Qed.

(** C28 [talloc_report_outline]: [talloc_report_depth_cb] calls its callback, in this
    order, on the chunks of the subtree in preorder with their depth, down to
    the depth asked for, and on what a handle refers to at its place; it
    returns what the callback gave and leaves the heap as it was, all marks
    cleared. *)
Theorem talloc_report_outline {B} (callback : option loc → Z → bool → M B) (f : visit → B) max_depth h K p l d :
  heap_ok h K → is_Some (mem h !! p) → sub K p l →
  reportable callback f (mem h) (null_context h) (autofree_context h) (at_exit h) K l →
  talloc_report_depth_cb (Some p) d max_depth callback h
  = Ok (map f (outline (mem h) K max_depth (S (size (mem h))) p d), h).
Proof. exact (report_visits callback f max_depth h K p l d). Qed.

(** ** The text of a report *)

Definition size_in (m : chunks) (x : loc) : Z := match m !! x with Some c => tc_size c | None => 0 end.

(** The line of a visit, for the names, the subtrees and the references of the
    chunks. *)
Definition report_line (wb : Z) (fmt_p : option loc → bytes) (max_depth : Z) (m : chunks)
    (names : option loc → bytes) (below : loc → list loc) (R : references) (v : visit) : bytes :=
  let '(ptr, depth, is_ref) := v in
  let name := names ptr in
  if is_ref : bool then indent depth ++ lit "reference to: " ++ name ++ [newline_c]
  else
    let chunks_below := match ptr with Some x => below x | None => [] end in
    let total := pad_left 6 (fmt_d (wrapu wb (zsum (size_in m) chunks_below))) in
    let blocks := pad_left 3 (fmt_d (wrapu wb (Z.of_nat (length chunks_below)))) in
    if depth =? 0 then
      (if max_depth <? 0 then lit "full " else []) ++ lit "talloc report on '" ++ name
        ++ lit "' (total " ++ total ++ lit " bytes in " ++ blocks ++ lit " blocks)" ++ [newline_c]
    else
      let refs := match ptr with Some x => length (R x) | None => O end in
      indent depth ++ pad_right 30 name ++ lit " contains " ++ total ++ lit " bytes in " ++ blocks
        ++ lit " blocks (ref " ++ fmt_d (wraps 32 (Z.of_nat refs)) ++ lit ") " ++ fmt_p ptr ++ [newline_c].

Lemma name_flagged A m nc ac ae x s :
  talloc_get_name (Some x) (Heap m nc ac ae) = Ok (s, Heap m nc ac ae) →
  talloc_get_name (Some x) (Heap (flagged A m) nc ac ae) = Ok (s, Heap (flagged A m) nc ac ae).
Proof.
  unfold talloc_get_name. destruct (m !! x) as [c|] eqn:Hx.
  2:{ unfold talloc_chunk_from_ptr, deref, lift, fld, get, mbind, M_bind, of_option. cbn. by rewrite Hx. }
  destruct (flagged_at A m x c Hx) as (c' & Hx' & E).
  assert (tc_flag_free c' = tc_flag_free c ∧ tc_name c' = tc_name c) as [Ef En] by by destruct E as [->| ->].
  destruct (tc_flag_free c) eqn:Hf.
  { unfold talloc_chunk_from_ptr, deref, lift, fld, get, mbind, M_bind, of_option. cbn. rewrite Hx. cbn. by rewrite Hf. }
  erewrite (x_ptr m), (x_ptr (flagged A m)) by done. erewrite (x_fld m), (x_fld (flagged A m)) by done. rewrite En.
  destruct (tc_name c) as [| |t|q]; try (by intros [= <-]). unfold name_string, string_at. rewrite !M_bind_assoc.
  destruct (m !! q) as [cq|] eqn:Hq.
  2:{ unfold fld, get, mbind, M_bind, of_option. cbn. by rewrite Hq. }
  destruct (flagged_at A m q cq Hq) as (cq' & Hq' & Eq).
  assert (tc_data cq' = tc_data cq) as Ed by by destruct Eq as [->| ->].
  erewrite (x_fld m), (x_fld (flagged A m)) by done. rewrite Ed.
  destruct (tc_data cq) as [b|]; [|done]. unfold lift, mbind, M_bind. destruct (cstr b) as [t| |]; cbn; [|done..].
  by intros [= ->].
Qed.

Section text.
Context (wb : Z) (fmt_p : option loc → bytes) (max_depth : Z) (Hwb : 0 < wb).
Context (m : chunks) (nc ac : option loc) (ae : list exit_fn) (K : children) (R : references).
Context (names : option loc → bytes) (below : loc → list loc).
Context (Hok : heap_ok (Heap m nc ac ae) K) (Hrf : refs_ok m K R).
Context (Hsz : ∀ x c, m !! x = Some c → 0 ≤ tc_size c < 2 ^ wb).

Abbreviation at_heap A := (Heap (flagged A m) nc ac ae).
Abbreviation line := (report_line wb fmt_p max_depth m names below R).
Abbreviation helper := (talloc_report_depth_FILE_helper wb fmt_p max_depth).

(** The name of a chunk can be read. *)
Definition named (x : loc) : Prop := talloc_get_name (Some x) (Heap m nc ac ae) = Ok (names (Some x), Heap m nc ac ae).

(** A total over a subtree that is not marked. *)
Lemma total_flagged (own : talloc_chunk → Z) (g : loc → Z) A x l :
  (∀ c b, own (set_flag_loop b c) = own c) →
  (∀ y c, m !! y = Some c → own c = g y ∧ 0 ≤ g y < 2 ^ wb) →
  is_Some (m !! x) → sub K x l → (∀ y, y ∈ A → ¬ ancestor K y x) →
  (n ← bound; total_loop wb own n x) (at_heap A) = Ok (wrapu wb (zsum g l), at_heap A).
Proof.
  intros Hown Hg Hx Hl HA. pose proof (h_tree _ _ Hok) as Ht. cbn [mem] in Ht. rewrite bound_bind. cbn [mem].
  assert (size (flagged A m) = size m) as ->.
  { rewrite <- !size_dom. f_equal. apply set_eq. intros y. rewrite !elem_of_dom, lookup_flagged. by destruct (m !! y). }
  apply (proj1 (total_sub wb ltac:(lia) own g K Hown)); [done|by apply flagged_tree| | |].
  - exact (proj1 (sub_nodup _ _ Ht) _ _ Hl).
  - intros y Hy. rewrite (proj1 (sub_ancestor K) _ _ Hl) in Hy.
    rewrite lookup_flagged_ne by (intros H; by apply (HA y H)).
    destruct (below_live _ _ Ht y x Hx Hy) as [c Hc]. exists c. destruct (Hg y c Hc) as (? & ? & ?).
    pose proof (h_idle _ _ Hok y c Hc). pose proof (h_alive _ _ Hok y c Hc). by split_and!.
  - pose proof (sub_length _ _ Ht x l Hx Hl). lia.
Qed.

Lemma zsum_const l : zsum (λ _, 1) l = Z.of_nat (length l).
Proof. unfold zsum. induction l as [|x l IH]; cbn [foldr length]; [done|]. rewrite IH. lia. Qed.

Lemma helper_chunk x :
  is_Some (m !! x) → named x → sub K x (below x) → answers helper line m nc ac ae K x.
Proof.
  intros Hx Hn Hb A d HA. unfold talloc_report_depth_FILE_helper.
  rewrite (M_bind_ok _ _ _ _ _ (name_flagged A _ _ _ _ _ _ Hn)). unfold talloc_total_size, talloc_total_blocks.
  rewrite M_bind_assoc, context_or_null_bind. cbn [context_of].
  rewrite (M_bind_ok _ _ _ _ _ (total_flagged tc_size (size_in m) A x (below x) ltac:(done)
    ltac:(intros y c Hy; unfold size_in; rewrite Hy; split; [done|by apply (Hsz y)]) Hx Hb HA)).
  rewrite M_bind_assoc, x_deref.
  rewrite (M_bind_ok _ _ _ _ _ (total_flagged (λ _, 1) (λ _, 1) A x (below x) ltac:(done)
    ltac:(intros y c Hy; split; [done|split; [done|apply (Z.pow_gt_1 2); lia]]) Hx Hb HA)).
  rewrite zsum_const. unfold report_line. destruct (d =? 0); [done|].
  destruct Hx as [c Hc]. destruct (flagged_at A m x c Hc) as (c' & Hc' & E).
  assert (refs_ok (flagged A m) K R) as Hrf' by (eapply refs_ok_view; [symmetry; by apply flagged_view|done]).
  unfold talloc_reference_count. rewrite !M_bind_assoc.
  erewrite x_ptr by (done || (destruct E as [->| ->]; by apply (h_alive _ _ Hok x c))).
  rewrite M_bind_assoc. erewrite x_fld by done. rewrite (r_head _ _ (r_refs _ _ _ Hrf') x c' Hc').
  rewrite M_bind_assoc, bound_bind.
  rewrite (M_bind_ok _ _ _ _ _ (count_references_spec (at_heap A) K R x [] (R x) (S (size (flagged A m))) Hrf' eq_refl
    ltac:(pose proof (refs_length _ _ _ x Hrf'); lia))). done.
Qed.

Lemma helper_ref x : (∀ t, target m x = Some t → ∃ q, t = Some q ∧ named q) → answers_ref helper line m nc ac ae x.
Proof.
  intros Ht A d t Hx. destruct (Ht t Hx) as (q & -> & Hn). unfold talloc_report_depth_FILE_helper.
  by rewrite (M_bind_ok _ _ _ _ _ (name_flagged A _ _ _ _ _ _ Hn)).
Qed.

(** The chunks of a subtree can be reported. *)
Definition printable_chunk (x : loc) : Prop :=
  named x ∧ sub K x (below x) ∧
  ∀ c, m !! x = Some c → tc_name c = TALLOC_MAGIC_REFERENCE → ∃ q, x ∈ R q ∧ named q.

Lemma target_handle q x : x ∈ R q → target m x = Some (Some q).
Proof.
  intros Hx. destruct (r_handle _ _ _ Hrf q x Hx) as (c & Hc & _ & Hn). unfold target. rewrite Hc, decide_True by done.
  apply list_elem_of_split in Hx as (a & b & E).
  destruct (refs_at _ _ _ _ _ _ (r_refs _ _ _ Hrf) E) as (c' & v & Hc' & Hd). rewrite Hc in Hc'. injection Hc' as <-.
  by rewrite Hd.
Qed.

Lemma printable_reportable p l :
  is_Some (m !! p) → sub K p l → (∀ x, x ∈ l → printable_chunk x) → reportable helper line m nc ac ae K l.
Proof.
  intros Hp Hl Hpr x Hx. destruct (Hpr x Hx) as (Hn & Hb & Hh). rewrite (proj1 (sub_ancestor K) _ _ Hl) in Hx.
  destruct (below_live _ _ (h_tree _ _ Hok) x p Hp Hx) as [c Hc]. cbn [mem] in Hc. exists c. split; [done|].
  split_and!.
  - intros Hm. destruct (Hh c Hc Hm) as (q & Hq & _). by rewrite (target_handle q x Hq).
  - by apply helper_chunk.
  - apply helper_ref. intros t Ht. destruct (decide (tc_name c = TALLOC_MAGIC_REFERENCE)) as [Hm|Hm].
    + destruct (Hh c Hc Hm) as (q & Hq & Hnq). rewrite (target_handle q x Hq) in Ht. injection Ht as <-. eauto.
    + unfold target in Ht. by rewrite Hc, decide_False in Ht.
Qed.
End text.

(** [talloc_report_text]: the text that [talloc_report_depth_file] prints for a
    subtree (of [talloc_report] and [talloc_report_full] with their depths) is
    the lines of the outline: for each chunk its name, the bytes and the blocks
    of its subtree and its references, for each handle the name of what it
    refers to. *)
Theorem talloc_report_text wb fmt_p max_depth h K R names below p l :
  0 < wb → heap_ok h K → refs_ok (mem h) K R →
  (∀ x c, mem h !! x = Some c → 0 ≤ tc_size c < 2 ^ wb) → is_Some (mem h !! p) → sub K p l →
  (∀ x, x ∈ l → printable_chunk (mem h) (null_context h) (autofree_context h) (at_exit h) K R names below x) →
  talloc_report_depth_file wb fmt_p (Some p) 0 max_depth h
  = Ok (concat (map (report_line wb fmt_p max_depth (mem h) names below R)
          (outline (mem h) K max_depth (S (size (mem h))) p 0)), h).
Proof.
  intros Hwb Hok Hrf Hsz Hp Hl Hpr. unfold talloc_report_depth_file.
  rewrite (M_bind_ok _ _ _ _ _ (report_visits (talloc_report_depth_FILE_helper wb fmt_p max_depth)
    (report_line wb fmt_p max_depth (mem h) names below R) max_depth h K p l 0 Hok Hp Hl
    ltac:(destruct h; by eapply printable_reportable))). done.
Qed.
