(* ===== verification/TallocRealloc.v ===== *)
(** * Changing the size of a chunk

    [_talloc_realloc] may move a chunk: the four neighbours that point to it are
    redirected, and the hierarchy is the old one with the address renamed. *)

From S2P Require Import Prelude CString Talloc TallocHeap TallocTree TallocProps TallocWalk TallocFree TallocMem TallocRefs TallocDrop TallocRefOps.
From stdpp Require Import relations.

Local Open Scope Z_scope.

(** ** Renaming an address *)

(** The addresses [p] and [q] exchanged. *)
Definition swap (p q x : loc) : loc := if decide (x = p) then q else if decide (x = q) then p else x.

Lemma swap_swap p q x : swap p q (swap p q x) = x.
Proof. unfold swap. repeat case_decide; congruence. Qed.

#[global] Instance swap_inj p q : Inj (=) (=) (swap p q).
Proof. intros x y E. by rewrite <- (swap_swap p q x), E, swap_swap. Qed.

Lemma swap_l p q : swap p q p = q.
Proof. unfold swap. by rewrite decide_True. Qed.

Lemma swap_r p q : swap p q q = p.
Proof. unfold swap. case_decide; [done|]. by rewrite decide_True. Qed.

Lemma swap_other p q x : x ≠ p → x ≠ q → swap p q x = x.
Proof. intros. unfold swap. by rewrite !decide_False. Qed.

(** The hierarchy after the move of [p] to [q]. *)
Definition renamed (K : children) (p q : loc) : children := λ x, map (swap p q) (K (swap p q x)).

Lemma elem_of_renamed K p q c x : c ∈ renamed K p q x ↔ swap p q c ∈ K (swap p q x).
Proof.
  unfold renamed. rewrite list_elem_of_fmap. split.
  - intros (y & -> & Hy). by rewrite swap_swap.
  - intros H. exists (swap p q c). by rewrite swap_swap.
Qed.

(** The links of [c] with the address renamed. *)
Definition rename_links (p q : loc) (c : talloc_chunk) :=
  (swap p q <$> tc_next c, swap p q <$> tc_prev c, swap p q <$> tc_parent c, swap p q <$> tc_child c, tc_flag_loop c).

Section rename.
Context (m m' : chunks) (K : children) (p q : loc).
Context (Hm : ∀ x, skel <$> m' !! x = rename_links p q <$> m !! swap p q x).

Lemma rename_back x c' : m' !! x = Some c' → ∃ c, m !! swap p q x = Some c ∧ skel c' = rename_links p q c.
Proof.
  intros Hx. specialize (Hm x). rewrite Hx in Hm. destruct (m !! swap p q x) as [c|]; [|done].
  apply (inj Some) in Hm. eauto.
Qed.

Lemma rename_live x : is_Some (m !! swap p q x) → is_Some (m' !! x).
Proof. intros [c Hc]. specialize (Hm x). rewrite Hc in Hm. by destruct (m' !! x). Qed.

Lemma dll_renamed par pv l nx :
  dll m par pv l nx →
  dll m' (swap p q <$> par) (swap p q <$> pv) (map (swap p q) l) (swap p q <$> nx).
Proof.
  revert par pv. induction l as [|c l IH]; intros par pv; [done|].
  intros [(ch & Hc & Hn & Hv & Hp) Hl]. cbn [map dll]. split; [|exact (IH _ _ Hl)].
  specialize (Hm (swap p q c)). rewrite swap_swap, Hc in Hm.
  destruct (m' !! swap p q c) as [c'|]; [|done]. injection Hm as E1 E2 E3 _ _. exists c'.
  split_and!; [done| |congruence..]. rewrite E1, Hn. by destruct l.
Qed.

Lemma tc_renamed x y : tc (child_of (renamed K p q)) x y → tc (child_of K) (swap p q x) (swap p q y).
Proof.
  induction 1 as [x y H|x y z H _ IH]; unfold child_of in H; rewrite elem_of_renamed in H; [by apply tc_once|by eapply tc_l].
Qed.

Lemma tree_ok_renamed : tree_ok m K → tree_ok m' (renamed K p q).
Proof.
  intros Hok. split.
  - intros x c H%elem_of_renamed. apply rename_live. by eapply t_live.
  - intros x c' Hx. destruct (rename_back x c' Hx) as (c & Hc & E). injection E as _ _ _ E _.
    rewrite E, (t_child _ _ Hok _ c Hc). unfold renamed. by destruct (K (swap p q x)).
  - intros x. pose proof (dll_renamed _ _ _ _ (t_list _ _ Hok (swap p q x))) as H. cbn in H. by rewrite swap_swap in H.
  - intros x. apply NoDup_fmap_2; [apply _|apply (t_nodup _ _ Hok)].
  - intros x y c Hx%elem_of_renamed Hy%elem_of_renamed.
    apply (inj (swap p q)). by eapply t_uniq.
  - intros c c' Hc Hr Hl. destruct (rename_back c c' Hc) as (c0 & H0 & E). injection E as E1 E2 E3 _ E5.
    assert (side_links c0 = (None, None, None)) as Es.
    { eapply t_root; [exact Hok|exact H0| |congruence]. intros x Hx. apply (Hr (swap p q x)), elem_of_renamed.
      by rewrite swap_swap. }
    injection Es as Es1 Es2 Es3. unfold side_links. rewrite E1, E2, E3, Es1, Es2, Es3. done.
  - intros x H%tc_renamed. by apply (t_acyc _ _ Hok (swap p q x)).
Qed.
End rename.

(** ** The neighbours of a chunk *)

Section neighbours.
Context (m : chunks) (K : children) (Hok : tree_ok m K).
Context (Hidle : ∀ x c, m !! x = Some c → tc_flag_loop c = false).

(** The chunk in its list. *)
Lemma in_list x c : m !! x = Some c → side_links c ≠ (None, None, None) → ∃ r a b, K r = a ++ x :: b.
Proof.
  intros Hx Hn. destruct (root_or_child m K Hok x) as [Hr|[r Hr]]; [eauto| |].
  - destruct Hn. eapply t_root; [done..|]. by eapply Hidle.
  - apply list_elem_of_split in Hr as (a & b & E). eauto.
Qed.

Lemma next_prev x y c d :
  m !! x = Some c → m !! y = Some d → tc_next c = Some y ↔ tc_prev d = Some x.
Proof.
  intros Hx Hy. split; intros H.
  - destruct (in_list x c Hx) as (r & a & b & E); [unfold side_links; congruence|].
    pose proof (t_list _ _ Hok r) as Hl. rewrite E in Hl. pose proof Hl as Hl2.
    apply dll_at in Hl as (c' & Hc' & Hn & _). rewrite Hx in Hc'. injection Hc' as <-. rewrite H in Hn.
    destruct b as [|z b]; [done|]. injection Hn as <-.
    replace (a ++ x :: y :: b) with ((a ++ [x]) ++ y :: b) in Hl2 by by rewrite <- app_assoc.
    apply dll_at in Hl2 as (d' & Hd' & _ & Hv & _). rewrite last_snoc in Hv. congruence.
  - destruct (in_list y d Hy) as (r & a & b & E); [unfold side_links; congruence|].
    pose proof (t_list _ _ Hok r) as Hl. rewrite E in Hl. pose proof Hl as Hl2.
    apply dll_at in Hl as (d' & Hd' & _ & Hv & _). rewrite Hy in Hd'. injection Hd' as <-. rewrite H in Hv.
    destruct a as [|z a _] using rev_ind; [done|]. rewrite last_snoc in Hv. injection Hv as <-.
    rewrite <- app_assoc in Hl2. apply dll_at in Hl2 as (c' & Hc' & Hn & _). cbn in Hn. congruence.
Qed.

Lemma child_parent x y c d :
  m !! x = Some c → m !! y = Some d → tc_child c = Some y ↔ tc_parent d = Some x.
Proof.
  intros Hx Hy. rewrite (t_child _ _ Hok x c Hx).
  rewrite (parent_field m K y d x Hok Hy) by by eapply Hidle.
  destruct (K x) as [|z b]; cbn; split; [done|by intros [? ?]|intros [= ->]; eauto|by intros [? [= -> _]]].
Qed.

(** The chunks that a chunk points to. *)
Lemma neighbour_live x c y :
  m !! x = Some c → (tc_next c = Some y ∨ tc_prev c = Some y ∨ tc_parent c = Some y ∨ tc_child c = Some y) →
  is_Some (m !! y) ∧ y ≠ x.
Proof.
  intros Hx Hy.
  assert (∃ r, (x ∈ K r ∧ y ∈ K r ∧ y ≠ x) ∨ (x ∈ K r ∧ y = r) ∨ (y ∈ K x ∧ r = x)) as [r Hr].
  { destruct Hy as [Hy|[Hy|[Hy|Hy]]].
    - destruct (in_list x c Hx) as (r & a & b & E); [unfold side_links; congruence|]. exists r. left.
      pose proof (t_list _ _ Hok r) as Hl. pose proof (t_nodup _ _ Hok r) as Hn. rewrite E in Hl, Hn |- *.
      apply dll_at in Hl as (c' & Hc' & Hnx & _). rewrite Hx in Hc'. injection Hc' as <-. rewrite Hy in Hnx.
      destruct b as [|z b]; [done|]. injection Hnx as <-. split_and!; [set_solver|set_solver|].
      intros ->. apply NoDup_app in Hn as (_ & _ & [Hn _]%NoDup_cons). apply Hn. by left.
    - destruct (in_list x c Hx) as (r & a & b & E); [unfold side_links; congruence|]. exists r. left.
      pose proof (t_list _ _ Hok r) as Hl. pose proof (t_nodup _ _ Hok r) as Hn. rewrite E in Hl, Hn |- *.
      apply dll_at in Hl as (c' & Hc' & _ & Hv & _). rewrite Hx in Hc'. injection Hc' as <-. rewrite Hy in Hv.
      destruct a as [|z a _] using rev_ind; [done|]. rewrite last_snoc in Hv. injection Hv as <-.
      split_and!; [set_solver|set_solver|]. intros ->. apply NoDup_app in Hn as (_ & Hn & _). apply (Hn x); [set_solver|by left].
    - exists y. right; left. split; [|done]. apply (parent_field m K x c y Hok Hx) in Hy as [b ->]; [by left|by eapply Hidle].
    - exists x. right; right. split; [|done]. rewrite (t_child _ _ Hok x c Hx) in Hy. destruct (K x); [done|].
      injection Hy as ->. by left. }
  destruct Hr as [(H1 & H2 & H3)|[(H1 & ->)|(H1 & ->)]].
  - split; [by eapply child_live|done].
  - split; [by eapply t_live|]. intros ->. by apply (not_own_child _ _ Hok x).
  - split; [by eapply child_live|]. intros ->. by apply (not_own_child _ _ Hok x).
Qed.
End neighbours.

(** ** Redirecting the neighbours *)

(** [if (o) o->field = v;] *)
Definition redirect (o : option loc) (f : talloc_chunk → talloc_chunk) (m : chunks) : chunks :=
  match o with Some x => alter f x m | None => m end.

Lemma lookup_redirect o f m x : redirect o f m !! x = if decide (o = Some x) then f <$> m !! x else m !! x.
Proof.
  destruct o as [y|]; cbn; [|by rewrite decide_False].
  destruct (decide (y = x)) as [->|Hne]; [by rewrite lookup_alter_eq, decide_True|].
  rewrite lookup_alter_ne by done. rewrite decide_False; [done|congruence].
Qed.

Lemma redirect_other o f m x : o ≠ Some x → redirect o f m !! x = m !! x.
Proof. intros. rewrite lookup_redirect. by rewrite decide_False. Qed.

Lemma redirect_live o f m x : is_Some (m !! x) → is_Some (redirect o f m !! x).
Proof. rewrite lookup_redirect. case_decide; [|done]. intros [c ->]. by eexists. Qed.

Lemma x_when_upd {B} o f m nc ac ae (k : M B) :
  (∀ x, o = Some x → is_Some (m !! x)) →
  (when_some o (λ x, upd x f);; k) (Heap m nc ac ae) = k (Heap (redirect o f m) nc ac ae).
Proof.
  destruct o as [x|]; intros H; [|done]. destruct (H x eq_refl) as [c Hc]. cbn [when_some redirect].
  erewrite x_upd by done. by rewrite insert_alter.
Qed.

(** The memory after the move: [c'] at [q], and the neighbours of [c] redirected. *)
Definition moved (m : chunks) (p q : loc) (c c' : talloc_chunk) : chunks :=
  <[q:=c']>
    (redirect (tc_next c) (set_prev (Some q))
      (redirect (tc_prev c) (set_next (Some q))
        (redirect (tc_child c) (set_parent (Some q))
          (redirect (tc_parent c) (set_child (Some q)) (<[q:=c']> (delete p m)))))).

Lemma swap_field p q (o : option loc) :
  (o = Some q → q = p) → swap p q <$> o = if decide (o = Some p) then Some q else o.
Proof.
  intros Hq. destruct o as [x|]; [|by rewrite decide_False]. cbn. case_decide as H.
  - injection H as ->. by rewrite swap_l.
  - unfold swap. rewrite decide_False by congruence. case_decide; [|done]. subst.
    by rewrite (Hq eq_refl) in H.
Qed.

Section moving.
Context (m : chunks) (K : children) (Hok : tree_ok m K).
Context (Hidle : ∀ x c, m !! x = Some c → tc_flag_loop c = false).
Context (p q : loc) (c c' : talloc_chunk) (Hp : m !! p = Some c) (Hq : q = p ∨ m !! q = None).
Context (Hskel : skel c' = skel c).

Lemma field_ne x cx y :
  m !! x = Some cx → (tc_next cx = Some y ∨ tc_prev cx = Some y ∨ tc_parent cx = Some y ∨ tc_child cx = Some y) →
  (y = q → q = p) ∧ y ≠ x.
Proof.
  intros Hx Hy. destruct (neighbour_live m K Hok Hidle x cx y Hx Hy) as [[cy Hcy] Hne]. split; [|done].
  intros ->. destruct Hq as [?|E]; [done|congruence].
Qed.

Lemma moved_other x : x ≠ q →
  moved m p q c c' !! x =
    (λ cx, (if decide (tc_next c = Some x) then set_prev (Some q) else id)
      ((if decide (tc_prev c = Some x) then set_next (Some q) else id)
        ((if decide (tc_child c = Some x) then set_parent (Some q) else id)
          ((if decide (tc_parent c = Some x) then set_child (Some q) else id) cx)))) <$> delete p m !! x.
Proof.
  intros Hx. unfold moved. rewrite lookup_insert_ne by done. rewrite !lookup_redirect.
  rewrite lookup_insert_ne by done. by repeat case_decide; destruct (delete p m !! x).
Qed.

(** A chunk that stays has exactly the links to [p] that were redirected. *)
Lemma moved_links x cx : x ≠ p → x ≠ q → m !! x = Some cx →
  ∃ cx', moved m p q c c' !! x = Some cx' ∧ skel cx' = rename_links p q cx ∧ strip cx' = strip cx.
Proof.
  intros Hxp Hxq Hx. rewrite moved_other, lookup_delete_ne, Hx by done. cbn [fmap option_fmap option_map].
  eexists. split; [done|].
  pose proof (next_prev m K Hok Hidle x p cx c Hx Hp) as H1.
  pose proof (next_prev m K Hok Hidle p x c cx Hp Hx) as H2.
  pose proof (child_parent m K Hok Hidle x p cx c Hx Hp) as H3.
  pose proof (child_parent m K Hok Hidle p x c cx Hp Hx) as H4.
  assert (∀ y, (tc_next cx = Some y ∨ tc_prev cx = Some y ∨ tc_parent cx = Some y ∨ tc_child cx = Some y) →
    y = q → q = p) as Hn by (intros y Hy; by apply (field_ne x cx)).
  unfold rename_links. rewrite !swap_field by (intros Hy; eapply Hn; [rewrite Hy|]; eauto).
  destruct cx as [n v pa ch rf dt nm sz ff fl da]. cbn [tc_next tc_prev tc_parent tc_child] in *.
  rewrite (decide_ext _ _ _ _ H1), (decide_ext _ _ _ _ H3), (decide_ext _ _ _ _ (iff_sym H2)),
    (decide_ext _ _ _ _ (iff_sym H4)).
  split; repeat case_decide; done.
Qed.

Lemma moved_skel x : skel <$> moved m p q c c' !! x = rename_links p q <$> m !! swap p q x.
Proof.
  destruct (decide (x = q)) as [->|Hxq].
  - rewrite swap_r, Hp. unfold moved. rewrite lookup_insert_eq. cbn [fmap option_fmap option_map]. f_equal.
    rewrite Hskel. unfold rename_links, skel, side_links.
    assert (∀ o, (∀ y, o = Some y → (y = q → q = p) ∧ y ≠ p) → swap p q <$> o = o) as Hf.
    { intros o Ho. rewrite swap_field by (intros E; by apply (Ho q)). case_decide as E; [|done].
      by destruct (Ho p E). }
    rewrite !Hf; [done|..]; intros y Hy; apply (field_ne p c y Hp); tauto.
  - destruct (decide (x = p)) as [->|Hxp].
    + rewrite swap_l, moved_other, lookup_delete_eq by done.
      destruct Hq as [->| ->]; [by destruct Hxq|done].
    + rewrite swap_other by done. destruct (m !! x) as [cx|] eqn:Hx.
      * destruct (moved_links x cx Hxp Hxq Hx) as (cx' & -> & E & _). cbn. by rewrite E.
      * by rewrite moved_other, lookup_delete_ne, Hx.
Qed.

Lemma moved_ok : tree_ok (moved m p q c c') (renamed K p q).
Proof. eapply tree_ok_renamed; [exact moved_skel|exact Hok]. Qed.

Lemma moved_strip x : x ≠ p → x ≠ q → strip <$> moved m p q c c' !! x = strip <$> m !! x.
Proof.
  intros Hxp Hxq. destruct (m !! x) as [cx|] eqn:Hx.
  - destruct (moved_links x cx Hxp Hxq Hx) as (cx' & -> & _ & E). cbn. by rewrite E.
  - by rewrite moved_other, lookup_delete_ne, Hx.
Qed.
End moving.

Lemma strip_fields (m m' : chunks) x c :
  strip <$> m' !! x = strip <$> m !! x → m !! x = Some c →
  ∃ c', m' !! x = Some c' ∧ tc_refs c' = tc_refs c ∧ tc_data c' = tc_data c ∧
        tc_destructor c' = tc_destructor c ∧ tc_name c' = tc_name c.
Proof.
  intros H Hc. rewrite Hc in H. destruct (m' !! x) as [c'|]; [|done]. apply (inj Some) in H. exists c'.
  destruct c, c'. injection H. intros. by split_and!.
Qed.

(** The references do not know the chunk that moved. *)
Lemma refs_ok_moved m m' K R p q c' :
  refs_ok m K R → no_handle R p → no_handle R q → R p = [] → R q = [] →
  m' !! q = Some c' → tc_refs c' = None → (q ≠ p → m' !! p = None) →
  (∀ x, x ≠ p → x ≠ q → strip <$> m' !! x = strip <$> m !! x) → refs_ok m' (renamed K p q) R.
Proof.
  intros [Hl Hh Hk] Hnp Hnq Hrp Hrq Hq Hc' Hp Hs.
  assert (∀ x r, r ∈ R x → (r ≠ p ∧ r ≠ q) ∧ x ≠ p ∧ x ≠ q) as Hne.
  { intros x r Hr. split; split; intros ->; [by apply (Hnp x)|by apply (Hnq x)|..];
      [rewrite Hrp in Hr|rewrite Hrq in Hr]; by apply elem_of_nil in Hr. }
  split; [split|..].
  - intros x ch Hx. destruct (decide (x = q)) as [->|Hxq]; [rewrite Hrq; cbn; congruence|].
    destruct (decide (x = p)) as [->|Hxp]; [rewrite Hp in Hx by done; done|].
    destruct (strip_fields m' m x ch (eq_sym (Hs x Hxp Hxq)) Hx) as (c0 & H0 & <- & _). by apply (r_head _ _ Hl).
  - intros x r Hr. destruct (Hne x r Hr) as (_ & Hxp & Hxq). destruct (r_live _ _ Hl x r Hr) as [c0 H0].
    destruct (strip_fields m m' x c0 (Hs x Hxp Hxq) H0) as (c & ? & _). eauto.
  - intros x. eapply rll_frame; [apply (r_list _ _ Hl)|]. intros r Hr.
    destruct (Hne x r Hr) as ([Hxp Hxq] & _). specialize (Hs r Hxp Hxq).
    destruct (m !! r) as [c0|] eqn:H0, (m' !! r) as [c1|] eqn:H1; try done.
    rewrite <- H0, <- H1 in Hs. destruct (strip_fields m m' r c0 Hs H0) as (c & Hc & _ & Hd & _).
    cbn. congruence.
  - apply (r_nodup _ _ Hl).
  - apply (r_leaf _ _ Hl).
  - intros x r Hr. destruct (Hne x r Hr) as ([Hxp Hxq] & _). destruct (Hh x r Hr) as (c0 & H0 & Hd & Hn).
    destruct (strip_fields m m' r c0 (Hs r Hxp Hxq) H0) as (c & Hc & _ & _ & Hd' & Hn').
    exists c. split_and!; congruence.
  - intros x r Hr. destruct (Hne x r Hr) as ([Hxp Hxq] & _). unfold renamed.
    rewrite swap_other by done. by rewrite (Hk x r Hr).
Qed.

(** ** [_talloc_realloc] *)

Lemma x_redirect {B} (g : talloc_chunk → option loc) f m nc ac ae q c (k : M B) :
  m !! q = Some c → (∀ x, g c = Some x → is_Some (m !! x)) →
  (o ← fld g q; when_some o (λ x, upd x f);; k) (Heap m nc ac ae) = k (Heap (redirect (g c) f m) nc ac ae).
Proof. intros Hq Hx. erewrite x_fld by done. by rewrite x_when_upd. Qed.

(** [q] holds [c], and the chunks of [m0] are live. *)
Definition holds_chunk (m0 m : chunks) (q : loc) (c : talloc_chunk) : Prop :=
  m !! q = Some c ∧ ∀ x, x ≠ q → is_Some (m0 !! x) → is_Some (m !! x).

Lemma holds_redirect m0 m q c o f :
  holds_chunk m0 m q c → o ≠ Some q → holds_chunk m0 (redirect o f m) q c.
Proof.
  intros [H1 H2] Ho. split; [by rewrite redirect_other|].
  intros x Hx Hl. by apply redirect_live, H2.
Qed.

Lemma redirect_insert o f m q x : o ≠ Some q → redirect o f (<[q:=x]> m) = <[q:=x]> (redirect o f m).
Proof. intros Ho. destruct o as [y|]; cbn; [|done]. rewrite alter_insert_ne; [done|congruence]. Qed.

Section realloc.
Context (wb : Z) (malloc : heap → Z → option loc) (realloc : heap → loc → Z → option loc)
        (junk : nat → bytes) (user_dtor : nat → loc → M Z).

(** The chunk after the call. *)
Definition resized (c : talloc_chunk) (size : Z) (name : cname) : talloc_chunk :=
  set_name name (set_size size (set_data (Talloc.resize junk (tc_data c) size) c)).

(** The heap that the allocator sees: the chunk is marked as free. *)
Definition marked (h : heap) (p : loc) (c : talloc_chunk) : heap :=
  set_mem (<[p:=set_flag_free true c]> (mem h)) h.

(** The neighbours of the chunk [c1] that is now at [q], and its size and name. *)
Lemma relink_run m0 nc ac ae q c1 size name :
  (∀ y, (tc_next c1 = Some y ∨ tc_prev c1 = Some y ∨ tc_parent c1 = Some y ∨ tc_child c1 = Some y) →
    y ≠ q ∧ is_Some (m0 !! y)) → tc_flag_free c1 = false →
  (par ← fld tc_parent q; when_some par (λ p, upd p (set_child (Some q)));;
   ch ← fld tc_child q; when_some ch (λ c, upd c (set_parent (Some q)));;
   v ← fld tc_prev q; when_some v (λ v, upd v (set_next (Some q)));;
   n ← fld tc_next q; when_some n (λ n, upd n (set_prev (Some q)));;
   upd q (set_size size);; _talloc_set_name_const (Some q) name;; mret (Some q)) (Heap (<[q:=c1]> m0) nc ac ae)
  = Ok (Some q, Heap (<[q:=set_name name (set_size size c1)]>
      (redirect (tc_next c1) (set_prev (Some q)) (redirect (tc_prev c1) (set_next (Some q))
        (redirect (tc_child c1) (set_parent (Some q)) (redirect (tc_parent c1) (set_child (Some q))
          (<[q:=c1]> m0)))))) nc ac ae).
Proof.
  intros Hy Hf. assert (holds_chunk m0 (<[q:=c1]> m0) q c1) as H0.
  { split; [by rewrite lookup_insert_eq|]. intros x Hx. by rewrite lookup_insert_ne. }
  assert (∀ m o, holds_chunk m0 m q c1 →
    (o = tc_next c1 ∨ o = tc_prev c1 ∨ o = tc_parent c1 ∨ o = tc_child c1) →
    (∀ x, o = Some x → is_Some (m !! x)) ∧ o ≠ Some q) as Hlive.
  { intros m o [_ Hm] Ho. split; [intros x ->|intros ->]; edestruct Hy as [H1 H2];
      [|by apply Hm| |done]; intuition congruence. }
  do 4 (lazymatch goal with
    | Hm : holds_chunk m0 ?m q c1 |- (o ← fld ?g q; when_some o (λ x, upd x ?f);; _) (Heap ?m _ _ _) = _ =>
        destruct (Hlive m (g c1) Hm ltac:(tauto)) as [Hl Hn]; rewrite (x_redirect g f m nc ac ae q c1 _ (proj1 Hm) Hl);
        apply (holds_redirect m0 m q c1 _ f Hm) in Hn; clear Hm Hl; rename Hn into Hm
    end).
  destruct H0 as [H0 _]. erewrite x_upd by done.
  unfold _talloc_set_name_const. rewrite M_bind_assoc. erewrite x_ptr; [|by apply lookup_insert_eq|done].
  erewrite x_upd by apply lookup_insert_eq. by rewrite insert_insert_eq.
Qed.

Lemma realloc_run m nc ac ae K R fuel ctx p q c size name :
  heap_ok (Heap m nc ac ae) K → refs_ok m K R → m !! p = Some c → R p = [] →
  (q = p ∨ m !! q = None) → 0 < size < MAX_TALLOC_SIZE →
  realloc (marked (Heap m nc ac ae) p c) p (size + TC_HDR_SIZE wb) = Some q →
  _talloc_realloc wb malloc realloc junk user_dtor fuel ctx (Some p) size name (Heap m nc ac ae)
    = Ok (Some q, Heap (moved m p q c (resized c size name)) nc ac ae).
Proof.
  intros Hok Hrf Hp Hr Hq Hsz Hre. pose proof (h_tree _ _ Hok) as Ht. pose proof (h_idle _ _ Hok) as Hidle.
  pose proof (h_alive _ _ Hok p c Hp) as Hf. pose proof (r_head _ _ (r_refs _ _ _ Hrf) p c Hp) as Hrefs.
  rewrite Hr in Hrefs. cbn [head] in Hrefs. cbn [mem] in *.
  assert (∀ y, (tc_next c = Some y ∨ tc_prev c = Some y ∨ tc_parent c = Some y ∨ tc_child c = Some y) →
    y ≠ q ∧ is_Some (delete p m !! y)) as Hy.
  { intros y Hy. destruct (neighbour_live m K Ht Hidle p c y Hp Hy) as [Hl Hne].
    rewrite lookup_delete_ne by done. split; [|done]. intros ->.
    destruct Hq as [->|E]; [done|rewrite E in Hl; by destruct Hl]. }
  unfold _talloc_realloc. rewrite (proj2 (Z.eqb_neq size 0)), (proj2 (Z.leb_gt _ _)) by lia.
  erewrite x_ptr by done. erewrite x_fld by done. rewrite Hrefs. erewrite x_upd by done. rewrite x_get_heap.
  unfold marked, set_mem in Hre. cbn in Hre. rewrite Hre.
  rewrite (M_bind_ok (get p) _ _ (set_flag_free true c) (Heap (<[p:=set_flag_free true c]> m) nc ac ae));
    [|by unfold get; cbn; rewrite lookup_insert_eq].
  rewrite x_modify. unfold set_mem. cbn [mem null_context autofree_context at_exit]. rewrite delete_insert_eq.
  erewrite x_upd by apply lookup_insert_eq. rewrite insert_insert_eq.
  set (c1 := set_flag_free false _).
  assert (c1 = set_data (Talloc.resize junk (tc_data c) size) c) as Ec1 by (unfold c1; destruct c; cbn in *; by subst).
  rewrite (relink_run (delete p m) nc ac ae q c1 size name); [|by rewrite Ec1|done]. rewrite Ec1.
  do 3 f_equal. unfold moved, resized. cbn [tc_next tc_prev tc_parent tc_child set_data].
  rewrite !redirect_insert by (intros E; edestruct Hy as [Hne _]; [rewrite E; tauto|done]).
  by rewrite !insert_insert_eq.
Qed.

Lemma resized_skel c size name : skel (resized c size name) = skel c.
Proof. done. Qed.

Lemma realloc_moves_lemma h K R fuel ctx p q c size name :
  heap_ok h K → refs_ok (mem h) K R → mem h !! p = Some c → R p = [] → no_handle R p →
  null_context h ≠ Some p → (q = p ∨ mem h !! q = None) → 0 < size < MAX_TALLOC_SIZE →
  realloc (marked h p c) p (size + TC_HDR_SIZE wb) = Some q →
  ∃ m', _talloc_realloc wb malloc realloc junk user_dtor fuel ctx (Some p) size name h = Ok (Some q, set_mem m' h) ∧
    heap_ok (set_mem m' h) (renamed K p q) ∧ refs_ok m' (renamed K p q) R ∧
    strip <$> m' !! q = Some (strip (resized c size name)) ∧
    (q ≠ p → m' !! p = None) ∧ (∀ x, x ≠ p → x ≠ q → strip <$> m' !! x = strip <$> mem h !! x).
Proof.
  intros Hok Hrf Hp Hr Hnp Hnull Hq Hsz Hre. destruct h as [m nc ac ae]. cbn [mem null_context] in *.
  pose proof (h_tree _ _ Hok) as Ht. pose proof (h_idle _ _ Hok) as Hidle. cbn [mem] in Ht, Hidle.
  set (c' := resized c size name). set (m' := moved m p q c c').
  assert (∀ x, x ≠ p → x ≠ q → strip <$> m' !! x = strip <$> m !! x) as Hs.
  { intros x. by apply (moved_strip m K Ht Hidle). }
  assert (m' !! q = Some c') as Hcq by apply lookup_insert_eq.
  assert (q ≠ p → m' !! p = None) as Hgone.
  { intros Hne. unfold m'. rewrite moved_other, lookup_delete_eq by congruence. done. }
  assert (∀ x cx', x ≠ q → m' !! x = Some cx' → ∃ cx, m !! x = Some cx ∧ strip cx' = strip cx) as Hback.
  { intros x cx' Hxq Hx. destruct (decide (x = p)) as [->|Hxp]; [by rewrite Hgone in Hx|].
    specialize (Hs x Hxp Hxq). rewrite Hx in Hs. destruct (m !! x) as [cx|]; [|done].
    apply (inj Some) in Hs. eauto. }
  exists m'. split; [by apply (realloc_run m nc ac ae K R)|].
  split_and!; [split; cbn|..|by rewrite Hcq|done|done].
  - by apply (moved_ok m K Ht Hidle p q c c').
  - intros x cx Hx. destruct (decide (x = q)) as [->|Hxq].
    + rewrite Hcq in Hx. injection Hx as <-. by apply (h_alive _ _ Hok p c).
    + destruct (Hback x cx Hxq Hx) as (c0 & H0 & E). rewrite (strip_free _ _ E). by apply (h_alive _ _ Hok x).
  - intros x cx Hx. destruct (decide (x = q)) as [->|Hxq].
    + rewrite Hcq in Hx. injection Hx as <-. by apply (h_idle _ _ Hok p c).
    + destruct (Hback x cx Hxq Hx) as (c0 & H0 & E). rewrite (strip_loop _ _ E). by apply (h_idle _ _ Hok x).
  - intros x Hx. destruct (decide (x = q)) as [->|Hxq]; [by rewrite Hcq|].
    destruct (h_null _ _ Hok x Hx) as [cx Hcx]. cbn in Hcx. specialize (Hs x ltac:(congruence) Hxq).
    rewrite Hcx in Hs. by destruct (m' !! x).
  - assert (no_handle R q ∧ R q = []) as [Hnq Hrq].
    { destruct Hq as [->|Hq]; [done|]. by apply (fresh_no_refs m K). }
    apply (refs_ok_moved m m' K R p q c'); try done.
    change (tc_refs c') with (tc_refs c). by rewrite (r_head _ _ (r_refs _ _ _ Hrf) p c Hp), Hr.
Qed.

(** C9 [talloc_realloc_moves]: [_talloc_realloc] of a chunk without references
    that the allocator grants keeps the first bytes that fit, sets the size and
    the name and keeps the rest of the chunk, which may have moved: the
    hierarchy is the old one with the address renamed, the references are the
    same, and no other chunk changes but for links. *)
Theorem talloc_realloc_moves h K R fuel ctx p q c size name :
  heap_ok h K → refs_ok (mem h) K R → mem h !! p = Some c → R p = [] → no_handle R p →
  null_context h ≠ Some p → (q = p ∨ mem h !! q = None) → 0 < size < MAX_TALLOC_SIZE →
  realloc (marked h p c) p (size + TC_HDR_SIZE wb) = Some q →
  ∃ m', _talloc_realloc wb malloc realloc junk user_dtor fuel ctx (Some p) size name h = Ok (Some q, set_mem m' h) ∧
    heap_ok (set_mem m' h) (renamed K p q) ∧ refs_ok m' (renamed K p q) R ∧
    strip <$> m' !! q = Some (strip (resized c size name)) ∧
    (q ≠ p → m' !! p = None) ∧ (∀ x, x ≠ p → x ≠ q → strip <$> m' !! x = strip <$> mem h !! x).
Proof. exact (realloc_moves_lemma h K R fuel ctx p q c size name). Qed.

Lemma realloc_errors_lemma h fuel ctx p c size name :
  mem h !! p = Some c → tc_flag_free c = false →
  (MAX_TALLOC_SIZE ≤ size ∨
   (size ≠ 0 ∧ tc_refs c ≠ None) ∨
   (size ≠ 0 ∧ realloc (marked h p c) p (size + TC_HDR_SIZE wb) = None) →
   _talloc_realloc wb malloc realloc junk user_dtor fuel ctx (Some p) size name h = Ok (None, h)) ∧
  (∀ rc h', talloc_free user_dtor fuel (Some p) h = Ok (rc, h') →
   _talloc_realloc wb malloc realloc junk user_dtor fuel ctx (Some p) 0 name h = Ok (None, h')).
Proof.
  intros Hp Hf. split.
  - intros Hcase. unfold _talloc_realloc. unfold MAX_TALLOC_SIZE in *. destruct (Z.eqb_spec size 0) as [->|Hs].
    { destruct Hcase as [?|[[? _]|[? _]]]; [lia|done..]. }
    destruct (Z.leb_spec 0x10000000 size) as [Hm|Hm]; [done|].
    destruct h as [m nc ac ae]. cbn [mem] in Hp. erewrite x_ptr by done. erewrite x_fld by done.
    destruct (tc_refs c) as [r|] eqn:Er; [done|]. destruct Hcase as [?|[[_ ?]|[_ Hre]]]; [lia|done|].
    erewrite x_upd by done. rewrite x_get_heap. unfold marked, set_mem in Hre. cbn in Hre. rewrite Hre.
    erewrite x_upd by apply lookup_insert_eq. unfold mret, M_ret. rewrite insert_insert_eq. do 3 f_equal.
    apply insert_id. rewrite Hp. f_equal. destruct c; cbn in *. by subst.
  - intros rc h' E. unfold _talloc_realloc. cbn [Z.eqb]. by rewrite (M_bind_ok _ _ _ _ _ E).
Qed.

(** C30 [talloc_realloc_errors]: [_talloc_realloc] refuses a size over the limit,
    a chunk with references and a size that the allocator does not grant: the
    result is NULL and the heap, the mark included, is as before; a size of 0
    frees the chunk. *)
Theorem talloc_realloc_errors h fuel ctx p c size name :
  mem h !! p = Some c → tc_flag_free c = false →
  (MAX_TALLOC_SIZE ≤ size ∨
   (size ≠ 0 ∧ tc_refs c ≠ None) ∨
   (size ≠ 0 ∧ realloc (marked h p c) p (size + TC_HDR_SIZE wb) = None) →
   _talloc_realloc wb malloc realloc junk user_dtor fuel ctx (Some p) size name h = Ok (None, h)) ∧
  (∀ rc h', talloc_free user_dtor fuel (Some p) h = Ok (rc, h') →
   _talloc_realloc wb malloc realloc junk user_dtor fuel ctx (Some p) 0 name h = Ok (None, h')).
Proof. exact (realloc_errors_lemma h fuel ctx p c size name). Qed.
End realloc.
