(* ===== verification/TallocAppend.v ===== *)
(** * Appending to a string

    [talloc_strdup_append] and its variants: the block of the string is resized
    and the text is written behind the string, or behind the buffer. *)

From S2P Require Import Prelude CString Talloc TallocHeap TallocTree TallocProps TallocWalk TallocFree TallocMem TallocRefs TallocDrop TallocRefOps TallocRealloc.
From stdpp Require Import relations.

Local Open Scope Z_scope.

Section append.
Context (wb : Z) (malloc : heap → Z → option loc) (realloc : heap → loc → Z → option loc)
        (junk : nat → bytes) (user_dtor : nat → loc → M Z) (fuel : nat).
Context (junk_length : ∀ n, length (junk n) = n) (wb_ok : 32 ≤ wb).

(** The chunk with the text. *)
Definition appended (c : talloc_chunk) (q : loc) (text : bytes) : talloc_chunk :=
  set_name (name_in q) (set_size (Z.of_nat (length text) + 1) (set_data (Bytes (text ++ [NUL])) c)).

(** The chunk [p] with the bytes [b] may be resized to [n], and is then at [q]. *)
Record resizable (h : heap) (K : children) (R : references) (p q : loc) (c : talloc_chunk) (b : bytes) (n : Z) : Prop := {
  rs_heap : heap_ok h K;
  rs_refs : refs_ok (mem h) K R;
  rs_chunk : mem h !! p = Some c;
  rs_data : tc_data c = Bytes b;
  rs_free : R p = [];
  rs_block : no_handle R p;
  rs_null : null_context h ≠ Some p;
  rs_place : q = p ∨ mem h !! q = None;
  rs_size : n < MAX_TALLOC_SIZE;
  rs_grant : realloc (marked h p c) p (n + TC_HDR_SIZE wb) = Some q;
}.

(** What the append leaves. *)
Record grown (h h' : heap) (K : children) (R : references) (p q : loc) (c : talloc_chunk) (text : bytes) : Prop := {
  gr_heap : heap_ok h' (renamed K p q);
  gr_refs : refs_ok (mem h') (renamed K p q) R;
  gr_chunk : strip <$> mem h' !! q = Some (strip (appended c q text));
  gr_moved : q ≠ p → mem h' !! p = None;
  gr_other x : x ≠ p → x ≠ q → strip <$> mem h' !! x = strip <$> mem h !! x;
}.

Lemma realloc_char_eq s n h : 0 ≤ n < MAX_TALLOC_SIZE →
  realloc_char wb malloc realloc junk user_dtor fuel s n h =
  _talloc_realloc wb malloc realloc junk user_dtor fuel None s n (name_const (lit "char")) h.
Proof.
  intros Hn. unfold MAX_TALLOC_SIZE in Hn. unfold realloc_char, _talloc_realloc_array, array_too_big. cbn [Z.eqb].
  rewrite (wrapu_small 32 n) by lia. change (MAX_TALLOC_SIZE / 1) with MAX_TALLOC_SIZE. unfold MAX_TALLOC_SIZE.
  rewrite (proj2 (Z.leb_gt _ _)) by lia. rewrite Z.mul_1_l, wrapu_small; [done|].
  split; [lia|]. pose proof (Z.pow_le_mono_r 2 32 wb ltac:(lia) wb_ok). lia.
Qed.

Lemma strlendup_append_spec h K R p q c b e a r :
  resizable h K R p q c b (Z.of_nat e + Z.of_nat (length a) + 1) → (e < length b)%nat →
  ∃ h', __talloc_strlendup_append wb malloc realloc junk user_dtor fuel (Some p) e (a ++ r) (length a) h = Ok (Some q, h') ∧
    grown h h' K R p q c (take e b ++ a).
Proof.
  intros [Hok Hrf Hc Hd Hr Hnh Hnull Hq Hsz Hre] He.
  set (n := Z.of_nat e + Z.of_nat (length a) + 1) in *.
  destruct (realloc_moves_lemma wb malloc realloc junk user_dtor h K R fuel None p q c n (name_const (lit "char"))
    Hok Hrf Hc Hr Hnh Hnull Hq ltac:(lia) Hre) as (m1 & E1 & Hok1 & Hrf1 & Hcq & Hgone & Hoth).
  destruct (m1 !! q) as [c1|] eqn:Hc1; [|done]. apply (inj Some) in Hcq.
  unfold __talloc_strlendup_append. fold n.
  rewrite <- (realloc_char_eq (Some p)) in E1 by lia. rewrite (M_bind_ok _ _ _ _ _ E1).
  rewrite decide_True by len. rewrite take_app_length.
  set (b1 := take (Z.to_nat n) b ++ junk (Z.to_nat n - length b)).
  assert (tc_data c1 = Bytes b1) as Hd1 by (transitivity (tc_data (strip c1)); [done|]; rewrite Hcq; cbn; by rewrite Hd).
  assert (length b1 = e + length a + 1)%nat as Hl1 by (unfold b1; rewrite length_app, length_take, junk_length; lia).
  assert (take e b1 = take e b) as Ht1.
  { unfold b1. rewrite take_app_le by (rewrite length_take; lia). rewrite take_take. f_equal. lia. }
  rewrite (M_bind_ok _ _ _ _ _ (write_at_ok q e a c1 b1 (set_mem m1 h) Hc1 Hd1 ltac:(lia))). cbn [mem set_mem].
  rewrite Ht1. set (b2 := take e b ++ a ++ drop (e + length a) b1). set (c2 := set_data (Bytes b2) c1).
  assert (length (take e b ++ a) = e + length a)%nat as Hl2 by (rewrite length_app, length_take; lia).
  assert (length b2 = e + length a + 1)%nat as Hl3 by (unfold b2; rewrite app_assoc, length_app, Hl2, length_drop; lia).
  rewrite (M_bind_ok _ _ _ _ _ (write_at_ok q (e + length a) [NUL] c2 b2 (set_mem (<[q:=c2]> m1) h)
    (lookup_insert_eq _ _ _) eq_refl ltac:(rewrite Hl3; cbn; lia))). cbn [mem set_mem].
  assert (take (e + length a) b2 ++ [NUL] ++ drop (e + length a + length [NUL]) b2 = (take e b ++ a) ++ [NUL]) as ->.
  { rewrite (drop_ge b2) by (rewrite Hl3; cbn; lia). rewrite app_nil_r. f_equal.
    unfold b2. rewrite app_assoc, take_app_le by lia. apply take_ge. lia. }
  rewrite insert_insert_eq. unfold _talloc_set_name_const. rewrite M_bind_assoc.
  assert (tc_flag_free c1 = false) as Hf1 by (by apply (h_alive _ _ Hok1 q c1)).
  erewrite chunk_from_ptr_bind; [|by apply lookup_insert_eq|done].
  erewrite upd_bind by apply lookup_insert_eq. cbn [mem set_mem]. rewrite insert_insert_eq.
  eexists. split; [done|]. split; cbn [mem set_mem].
  - eapply (heap_ok_insert (set_mem m1 h)); done.
  - apply refs_ok_insert_free; [exact Hrf1| |].
    + destruct Hq as [->|Hq]; [done|]. by apply (fresh_no_refs (mem h) K).
    + exact (r_head _ _ (r_refs _ _ _ Hrf1) q c1 Hc1).
  - rewrite lookup_insert_eq. cbn [fmap option_fmap option_map]. f_equal.
    transitivity (set_name (name_in q) (set_data (Bytes ((take e b ++ a) ++ [NUL])) (strip c1))); [done|].
    rewrite Hcq. unfold appended. replace (Z.of_nat (length (take e b ++ a)) + 1) with n by (rewrite Hl2; lia). done.
  - intros Hne. rewrite lookup_insert_ne by congruence. by apply Hgone.
  - intros x Hp Hxq. rewrite lookup_insert_ne by congruence. by apply Hoth.
Qed.

(** The block holds the text, and is named after it. *)
Lemma grown_text h h' K R p q c text :
  grown h h' K R p q c text → nul_free text → tc_flag_free c = false →
  talloc_get_name (Some q) h' = Ok (text, h') ∧ talloc_get_size (Some q) h' = Ok (Z.of_nat (length text) + 1, h').
Proof.
  intros [_ _ Hq _ _] Hn Hf. destruct (mem h' !! q) as [c'|] eqn:Hc'; [|done]. apply (inj Some) in Hq.
  assert (tc_data c' = Bytes (text ++ [NUL]) ∧ tc_name c' = name_in q ∧ tc_size c' = Z.of_nat (length text) + 1 ∧ tc_flag_free c' = false)
    as (Hd & Hna & Hs & Hfr).
  { unfold appended, strip in Hq. destruct c', c. by injection Hq as _ _ -> -> -> _ ->. }
  split.
  - unfold talloc_get_name. erewrite chunk_from_ptr_bind by done. erewrite fld_bind by done. rewrite Hna.
    unfold name_string, string_at. rewrite !M_bind_assoc. erewrite fld_bind by done. rewrite Hd.
    unfold lift, mbind, M_bind. rewrite cstr_app by done. done.
  - unfold talloc_get_size. erewrite chunk_from_ptr_bind by done. erewrite fld_ok by done. by rewrite Hs.
Qed.

(** [strdup_append_spec]: on a block that may be resized and starts with the string
    [s], [talloc_strdup_append] of [a] gives a block with [s ++ a] and a NUL, of that
    size, in the place of the old one in the hierarchy and named after itself; what
    was behind the string is lost.  [talloc_strdup_append_buffer] writes [a] over the
    last byte of the block, whatever the block holds.  No other chunk changes but for
    links. *)
Theorem strdup_append_spec h K R p q c b a r :
  nul_free a → tc_size c = Z.of_nat (length b) →
  (∀ s t, b = s ++ NUL :: t → nul_free s → resizable h K R p q c b (Z.of_nat (length (s ++ a)) + 1) →
     ∃ h', talloc_strdup_append wb malloc realloc junk user_dtor fuel (Some p) (Some (a ++ NUL :: r)) h = Ok (Some q, h') ∧
       grown h h' K R p q c (s ++ a) ∧
       talloc_get_name (Some q) h' = Ok (s ++ a, h') ∧ talloc_get_size (Some q) h' = Ok (Z.of_nat (length (s ++ a)) + 1, h')) ∧
  (∀ s x, b = s ++ [x] → resizable h K R p q c b (Z.of_nat (length (s ++ a)) + 1) →
     ∃ h', talloc_strdup_append_buffer wb malloc realloc junk user_dtor fuel (Some p) (Some (a ++ NUL :: r)) h = Ok (Some q, h') ∧
       grown h h' K R p q c (s ++ a)).
Proof.
  intros Ha Hsize.
  assert (∀ s y t, b = s ++ y :: t → resizable h K R p q c b (Z.of_nat (length (s ++ a)) + 1) →
    ∃ h', __talloc_strlendup_append wb malloc realloc junk user_dtor fuel (Some p) (length s) (a ++ NUL :: r) (length a) h = Ok (Some q, h') ∧
      grown h h' K R p q c (s ++ a)) as Happ.
  { intros s y t -> Hrs. destruct (strlendup_append_spec h K R p q c (s ++ y :: t) (length s) a (NUL :: r)) as (h' & E & Hg).
    - by replace (Z.of_nat (length s) + Z.of_nat (length a)) with (Z.of_nat (length (s ++ a))) by len.
    - len.
    - exists h'. rewrite take_app_length in Hg. done. }
  split.
  - intros s t Hb Hs Hrs. destruct (Happ s NUL t Hb Hrs) as (h' & E & Hg). exists h'.
    split; [|split; [exact Hg|]].
    + unfold talloc_strdup_append, strdup_append_gen, string_end, string_at. rewrite !M_bind_assoc.
      erewrite fld_bind by apply Hrs. rewrite (rs_data _ _ _ _ _ _ _ _ Hrs), Hb.
      rewrite (M_bind_ok _ _ _ s h) by (unfold lift; by rewrite cstr_app). rewrite M_ret_bind.
      rewrite (M_bind_ok _ _ _ (length a) h) by (unfold lift; by rewrite strlen_app). exact E.
    + eapply grown_text; [exact Hg|by apply nul_free_app|]. apply (h_alive _ _ (rs_heap _ _ _ _ _ _ _ _ Hrs) p c), Hrs.
  - intros s x Hb Hrs. destruct (Happ s x [] Hb Hrs) as (h' & E & Hg). exists h'. split; [|exact Hg].
    unfold talloc_strdup_append_buffer, strdup_append_gen, buffer_end, talloc_get_size. rewrite !M_bind_assoc.
    erewrite chunk_from_ptr_bind; [|apply Hrs|apply (h_alive _ _ (rs_heap _ _ _ _ _ _ _ _ Hrs) p c), Hrs].
    rewrite ?M_bind_assoc. erewrite fld_bind by apply Hrs. rewrite Hsize, ?M_ret_bind.
    rewrite (proj2 (Z.ltb_lt _ _)) by (rewrite Hb; len).
    rewrite (M_bind_ok _ _ _ (length a) h) by (unfold lift; by rewrite strlen_app).
    replace (Z.to_nat (Z.of_nat (length b) - 1)) with (length s) by (rewrite Hb; len). exact E.
Qed.
End append.
