(* ===== verification/TallocSim.v ===== *)
(** * What talloc promises to its clients

    The abstract state is a forest of objects with their contents, and who holds
    references to them; a client is a tree of calls.  As long as the client
    keeps to the rules ([allowed]), every call of the allocator answers as the
    forest says and leaves a heap that represents the next forest. *)

From S2P Require Import Prelude CString Talloc TallocHeap TallocTree TallocProps TallocWalk TallocFree TallocMem TallocRefs TallocDrop TallocRefOps TallocRealloc.
From stdpp Require Import relations.

Local Open Scope Z_scope.

(** ** The abstract state *)

(** The children and the references of each object, and the objects: their size
    and their memory. *)
Record forest := Forest {
  f_kids : children; f_refs : references; f_obj : loc → option (Z * bytes);
}.

Inductive op :=
| Alloc (ctx : option loc) (size : Z)
| Free (p : loc)
| Steal (ctx : option loc) (p : loc)
| Reference (ctx : option loc) (p : loc)
| Unreference (ctx : option loc) (p : loc)
| Realloc (p : loc) (size : Z) (name : cname).

Definition asks_memory (o : op) : Prop :=
  match o with Alloc _ _ | Reference _ _ | Realloc _ _ _ => True | _ => False end.

(** What a call returns: a pointer or an [int]. *)
Inductive answer := Ptr (p : option loc) | Int (n : Z).

(** A client: its next call, and how it goes on with the answer. *)
Inductive client := Done | Call (o : op) (k : answer → client).

(** [context_of] with the null context [nc]. *)
Definition ctx_of (nc ctx : option loc) : option loc := match ctx with Some _ => ctx | None => nc end.

Definition with_obj (F : forest) (x : loc) (v : option (Z * bytes)) : loc → option (Z * bytes) :=
  λ y, if decide (y = x) then v else f_obj F y.

(** [r] put in front of the children of the context. *)
Definition under (nc : option loc) (K : children) (ctx : option loc) (r : loc) : children :=
  match ctx_of nc ctx with Some q => add_child K q r | None => K end.

(** [c] moved to the front of the children of the context. *)
Definition reparented (nc : option loc) (K : children) (ctx : option loc) (c : loc) : children :=
  match ctx_of nc ctx with Some q => move_child K q c | None => remove_child K c end.

(** The forest without the reference [r]. *)
Definition unheld (F : forest) (r : loc) : forest :=
  Forest (remove_child (f_kids F) r) (remove_child (f_refs F) r) (f_obj F).

(** A pointer a client may pass: an object. *)
Definition object (F : forest) (p : loc) : Prop := is_Some (f_obj F p).

Definition unused (F : forest) (p : loc) : Prop := f_obj F p = None ∧ no_handle (f_refs F) p.

Definition context_allowed (nc : option loc) (F : forest) (ctx : option loc) : Prop :=
  ∀ q, ctx = Some q → object F q.

(** The memory of a resized object. *)
Definition resized_bytes (junk : nat → bytes) (b : bytes) (size : Z) : bytes :=
  take (Z.to_nat size) b ++ junk (Z.to_nat size - length b)%nat.

(** The newest reference to [p] that the context holds. *)
Definition held_first (nc : option loc) (F : forest) (ctx : option loc) (p r : loc) : Prop :=
  ∃ a b, f_refs F p = a ++ r :: b ∧
    Forall (λ x, ¬ parent_of (f_kids F) x (ctx_of nc ctx)) a ∧ parent_of (f_kids F) r (ctx_of nc ctx).

Section spec.
Context (junk : nat → bytes) (nc : option loc).

(** The rules for the client. *)
Inductive allowed (F : forest) : op → Prop :=
| allowed_alloc ctx size : context_allowed nc F ctx → allowed F (Alloc ctx size)
| allowed_free p l :
    object F p → sub (f_kids F) p l → (∀ x, x ∈ l → f_refs F x = []) → (∀ q, nc = Some q → q ∉ l) →
    allowed F (Free p)
| allowed_free_held p r b :
    object F p → f_refs F p = r :: b → ¬ ancestor (f_kids F) r p → allowed F (Free p)
| allowed_steal ctx p :
    context_allowed nc F ctx → object F p →
    (∀ q, ctx_of nc ctx = Some q → ¬ ancestor (f_kids F) q p) → allowed F (Steal ctx p)
| allowed_reference ctx p : context_allowed nc F ctx → object F p → allowed F (Reference ctx p)
| allowed_unreference ctx p r : object F p → held_first nc F ctx p r → allowed F (Unreference ctx p)
| allowed_unreference_none ctx p :
    object F p → Forall (λ x, ¬ parent_of (f_kids F) x (ctx_of nc ctx)) (f_refs F p) → allowed F (Unreference ctx p)
| allowed_realloc p size name :
    object F p → f_refs F p = [] → nc ≠ Some p → 0 < size → allowed F (Realloc p size name).

(** The answers and the next states; a call for memory may also fail. *)
Inductive step (F : forest) : op → answer → forest → Prop :=
| step_alloc ctx size p :
    unused F p → size < MAX_TALLOC_SIZE →
    step F (Alloc ctx size) (Ptr (Some p))
      (Forest (under nc (f_kids F) ctx p) (f_refs F) (with_obj F p (Some (size, junk (Z.to_nat size)))))
| step_no_memory o : asks_memory o → step F o (Ptr None) F
| step_free p l :
    sub (f_kids F) p l → f_refs F p = [] →
    step F (Free p) (Int 0)
      (Forest (prune (f_kids F) l) (without (f_refs F) l) (λ x, if decide (x ∈ l) then None else f_obj F x))
| step_free_held p r b : f_refs F p = r :: b → step F (Free p) (Int (-1)) (unheld F r)
| step_steal ctx p :
    step F (Steal ctx p) (Ptr (Some p)) (Forest (reparented nc (f_kids F) ctx p) (f_refs F) (f_obj F))
| step_reference ctx p r :
    unused F r →
    step F (Reference ctx p) (Ptr (Some p)) (Forest (under nc (f_kids F) ctx r) (add_child (f_refs F) p r) (f_obj F))
| step_unreference ctx p r : held_first nc F ctx p r → step F (Unreference ctx p) (Int 0) (unheld F r)
| step_unreference_none ctx p :
    Forall (λ x, ¬ parent_of (f_kids F) x (ctx_of nc ctx)) (f_refs F p) → step F (Unreference ctx p) (Int (-1)) F
| step_realloc p size name q n b :
    f_obj F p = Some (n, b) → (q = p ∨ unused F q) → size < MAX_TALLOC_SIZE →
    step F (Realloc p size name) (Ptr (Some q))
      (Forest (renamed (f_kids F) p q) (f_refs F)
         (λ x, if decide (x = q) then Some (size, resized_bytes junk b size)
               else if decide (x = p) then None else f_obj F x)).

(** The client keeps to the rules, whatever the answers are. *)
Fixpoint well_behaved (F : forest) (c : client) : Prop :=
  match c with
  | Done => True
  | Call o k => allowed F o ∧ ∀ a F', step F o a F' → well_behaved F' (k a)
  end.

(** A run of the client on forests: the answers and the last state. *)
Inductive steps : forest → client → list answer → forest → Prop :=
| steps_done F : steps F Done [] F
| steps_call F o k a F' l F'' : step F o a F' → steps F' (k a) l F'' → steps F (Call o k) (a :: l) F''.
End spec.

(** ** The allocator *)

Section simulation.
Context (wb : Z) (malloc : heap → Z → option loc) (realloc : heap → loc → Z → option loc)
        (junk : nat → bytes) (user_dtor : nat → loc → M Z).
Context (malloc_fresh : ∀ h n p, malloc h n = Some p → mem h !! p = None).
Context (realloc_fresh : ∀ h p n q, realloc h p n = Some q → q = p ∨ mem h !! q = None).
Context (handle_size : sizeof_handle wb < MAX_TALLOC_SIZE).
Context (nc : option loc).

(** The calls; the fuel of a walk is the number of chunks. *)
Definition exec (o : op) : M answer :=
  n ← bound;
  match o with
  | Alloc ctx size => p ← _talloc wb malloc junk ctx size; mret (Ptr p)
  | Free p => rc ← talloc_free user_dtor (S (S n)) (Some p); mret (Int rc)
  | Steal ctx p => p ← _talloc_steal ctx (Some p); mret (Ptr p)
  | Reference ctx p => p ← _talloc_reference wb malloc junk ctx (Some p); mret (Ptr p)
  | Unreference ctx p => rc ← talloc_unreference user_dtor (S (S n)) ctx (Some p); mret (Int rc)
  | Realloc p size name =>
      p ← _talloc_realloc wb malloc realloc junk user_dtor (S n) None (Some p) size name; mret (Ptr p)
  end.

Fixpoint exec_client (c : client) : M (list answer) :=
  match c with
  | Done => mret []
  | Call o k => a ← exec o; l ← exec_client (k a); mret (a :: l)
  end.

(** An object in memory: its size, its bytes, no destructor. *)
Definition chunk_rep (c : option talloc_chunk) (v : option (Z * bytes)) : Prop :=
  match c, v with
  | None, None => True
  | Some c, Some (n, b) => tc_size c = n ∧ tc_data c = Bytes b ∧ tc_destructor c = None
  | _, _ => False
  end.

Record represents (h : heap) (F : forest) : Prop := {
  rp_heap : heap_ok h (f_kids F);
  rp_refs : refs_ok (mem h) (f_kids F) (f_refs F);
  rp_null : null_context h = nc;
  rp_nc : ∀ q, nc = Some q → object F q;
  rp_obj : ∀ x, no_handle (f_refs F) x → chunk_rep (mem h !! x) (f_obj F x);
  rp_handle : ∀ x p, x ∈ f_refs F p → f_obj F x = None;
}.

Lemma chunk_rep_bare (o o' : option talloc_chunk) v :
  bare <$> o' = bare <$> o → chunk_rep o v → chunk_rep o' v.
Proof.
  destruct o as [c|], o' as [c'|]; cbn; try done. intros H%(inj Some).
  apply bare_fields in H as (_ & _ & Hd & _ & Hs & Hb). destruct v as [[n b]|]; [|done].
  intros (<- & E & Hn). rewrite E in Hb. split_and!; [done| |congruence].
  destruct (tc_data c'); [by injection Hb as ->|done].
Qed.

Lemma strip_bare (o o' : option talloc_chunk) : strip <$> o' = strip <$> o → bare <$> o' = bare <$> o.
Proof.
  destruct o as [c|], o' as [c'|]; cbn; try done. intros H%(inj Some).
  assert (∀ x, bare x = frame (strip x)) as E by by intros []. by rewrite !E, H.
Qed.

Lemma handle_or_not m K R x : refs_ok m K R → no_handle R x ∨ ∃ q, x ∈ R q.
Proof.
  intros Hok. destruct (decide (Exists (λ p, x ∈ R p) (elements (dom m)))) as [H|H].
  - right. apply Exists_exists in H as (p & _ & Hp). eauto.
  - left. intros p Hp. apply H, Exists_exists. exists p. split; [|done].
    apply elem_of_elements, elem_of_dom. by eapply r_live; [apply Hok|].
Qed.

Section rep_facts.
Context (h : heap) (F : forest) (Hrep : represents h F).

Lemma object_no_handle p : object F p → no_handle (f_refs F) p.
Proof. intros [v Hv] q Hq. pose proof (rp_handle _ _ Hrep p q Hq). congruence. Qed.

Lemma object_chunk p : object F p → ∃ c b,
  mem h !! p = Some c ∧ f_obj F p = Some (tc_size c, b) ∧ tc_data c = Bytes b ∧ tc_destructor c = None.
Proof.
  intros Hp. pose proof (rp_obj _ _ Hrep p (object_no_handle p Hp)) as H. destruct Hp as [[n b] Hv].
  rewrite Hv in H. destruct (mem h !! p) as [c|]; [|done]. destruct H as (<- & ? & ?). exists c, b. by split_and!.
Qed.

Lemma object_live p : object F p → is_Some (mem h !! p).
Proof. intros (c & b & Hc & _)%object_chunk. eauto. Qed.

Lemma context_live ctx : context_allowed nc F ctx → context_ok h ctx.
Proof. intros Hc q Hq. by apply object_live, Hc. Qed.

Lemma context_eq ctx : context_of h ctx = ctx_of nc ctx.
Proof. destruct ctx; [done|]. apply (rp_null _ _ Hrep). Qed.

Lemma context_object ctx q : context_allowed nc F ctx → ctx_of nc ctx = Some q → object F q.
Proof. intros Hc. destruct ctx; cbn; [intros [= ->]; by apply Hc|apply (rp_nc _ _ Hrep)]. Qed.

Lemma fresh_unused r : mem h !! r = None → unused F r.
Proof.
  intros Hr. destruct (fresh_no_refs _ _ _ r (rp_refs _ _ Hrep) Hr) as [Hn _]. split; [|done].
  pose proof (rp_obj _ _ Hrep r Hn) as H. rewrite Hr in H. by destruct (f_obj F r).
Qed.

Lemma alloc_children_eq K ctx r : alloc_children h K ctx r = under nc K ctx r.
Proof. unfold alloc_children, under. by rewrite context_eq. Qed.
End rep_facts.

(** The state after an operation that gives one address [r] a new object. *)
Lemma represents_with h F h' K' r v :
  represents h F → heap_ok h' K' → refs_ok (mem h') K' (f_refs F) → null_context h' = nc →
  unused F r → chunk_rep (mem h' !! r) v → is_Some v →
  (∀ x, x ≠ r → bare <$> mem h' !! x = bare <$> mem h !! x) →
  represents h' (Forest K' (f_refs F) (with_obj F r v)).
Proof.
  intros [Hh Hr Hn Hc Ho Hd] Hh' Hr' Hn' [Hu Hu'] Hv Hs Hb. split; cbn; [done..| | |].
  - intros q Hq. unfold object, with_obj. cbn. case_decide; [done|by apply Hc].
  - intros x Hx. unfold with_obj. case_decide as E; [by subst|].
    eapply chunk_rep_bare; [by apply Hb|by apply Ho].
  - intros x p Hx. unfold with_obj. rewrite decide_False; [by eapply Hd|]. intros ->. by apply (Hu' p).
Qed.

Lemma exec_alloc h F ctx size :
  represents h F → context_allowed nc F ctx →
  ∃ a h' F', exec (Alloc ctx size) h = Ok (a, h') ∧ step junk nc F (Alloc ctx size) a F' ∧ represents h' F'.
Proof.
  intros Hrep Hctx. pose proof (context_live h F Hrep ctx Hctx) as Hctx'.
  unfold exec. rewrite bound_bind. unfold _talloc.
  destruct (decide (MAX_TALLOC_SIZE ≤ size ∨ malloc h (TC_HDR_SIZE wb + size) = None)) as [Hno|Hyes].
  { rewrite (M_bind_ok _ _ _ _ _ (talloc_refused wb malloc junk h ctx size Hno)).
    eexists _, h, F. split; [done|]. split; [by constructor|done]. }
  destruct (malloc h (TC_HDR_SIZE wb + size)) as [p|] eqn:Hm; [|tauto].
  assert (size < MAX_TALLOC_SIZE) as Hsz by lia. pose proof (malloc_fresh _ _ _ Hm) as Hp.
  destruct (talloc_spec wb malloc junk malloc_fresh h _ ctx size p (rp_heap _ _ Hrep) Hctx' Hsz Hm)
    as (m' & E & Hok & Hs).
  rewrite (M_bind_ok _ _ _ _ _ E). rewrite (alloc_children_eq h F Hrep) in Hok.
  pose proof (fresh_unused h F Hrep p Hp) as Hu.
  destruct (fresh_no_refs _ _ _ p (rp_refs _ _ Hrep) Hp) as [Hnp Hrp].
  eexists _, _, _. split; [done|]. split; [by constructor|].
  apply (represents_with h); [done|done| |apply (rp_null _ _ Hrep)|done| |done|].
  - eapply refs_ok_ext; [done| |].
    2:{ eapply refs_ok_links; [exact Hs|]. apply refs_ok_insert_free; [apply (rp_refs _ _ Hrep)|done|by rewrite Hrp]. }
    intros q r Hr Hk. rewrite <- (alloc_children_eq h F Hrep), alloc_children_other; [done|].
    intros y Hy ->. rewrite (context_eq h F Hrep) in Hy.
    by apply (object_no_handle h F Hrep r (context_object h F Hrep ctx r Hctx Hy) q).
  - destruct (same_lookup _ _ p (new_chunk junk size) Hs) as (c & Hc & Es); [by rewrite lookup_insert_eq|].
    cbn. rewrite Hc. unfold new_chunk, strip in Es. destruct c. injection Es. cbn. intros. by subst.
  - intros x Hx. cbn. rewrite (same_links_bare _ _ x Hs). by rewrite lookup_insert_ne.
Qed.

(** The heap without the handle [r]. *)
Lemma represents_unheld h F p r m' :
  represents h F → r ∈ f_refs F p → without_handle h (f_kids F) (f_refs F) r m' →
  represents (set_mem m' h) (unheld F r).
Proof.
  intros [Hh Hr Hn Hc Ho Hd] Hrp (Hh' & Hr' & Hd1 & Hd2). split; cbn; [done..| |].
  - intros x Hx. destruct (decide (x = r)) as [->|Hne].
    + rewrite Hd1 by by left. by rewrite (Hd r p).
    + eapply chunk_rep_bare; [apply Hd2; by rewrite list_elem_of_singleton|]. apply Ho.
      intros q Hq. by apply (Hx q), elem_of_remove_child.
  - intros x q [_ Hx]%elem_of_remove_child. by eapply Hd.
Qed.

Lemma nc_no_handle h F r p : represents h F → r ∈ f_refs F p → null_context h ≠ Some r.
Proof.
  intros Hrep Hr Hn. rewrite (rp_null _ _ Hrep) in Hn.
  by apply (object_no_handle h F Hrep r (rp_nc _ _ Hrep r Hn) p).
Qed.

Lemma exec_free_held h F p r b :
  represents h F → object F p → f_refs F p = r :: b → ¬ ancestor (f_kids F) r p →
  ∃ a h' F', exec (Free p) h = Ok (a, h') ∧ step junk nc F (Free p) a F' ∧ represents h' F'.
Proof.
  intros Hrep Hp E Hanc. assert (r ∈ f_refs F p) as Hr by (rewrite E; by left).
  destruct (free_referenced user_dtor h _ _ p r b (S (S (size (mem h)))) (rp_heap _ _ Hrep) (rp_refs _ _ Hrep)
    (object_live h F Hrep p Hp) E (nc_no_handle h F r p Hrep Hr) ltac:(lia)) as (m' & Hw & Hf & _).
  unfold exec. rewrite bound_bind, (M_bind_ok _ _ _ _ _ (Hf Hanc)).
  eexists _, _, _. split; [done|]. split; [by econstructor|by eapply represents_unheld].
Qed.

Lemma exec_free h F p l :
  represents h F → object F p → sub (f_kids F) p l → (∀ x, x ∈ l → f_refs F x = []) →
  (∀ q, nc = Some q → q ∉ l) →
  ∃ a h' F', exec (Free p) h = Ok (a, h') ∧ step junk nc F (Free p) a F' ∧ represents h' F'.
Proof.
  intros Hrep Hp Hl Hrefs Hnc. pose proof (object_live h F Hrep p Hp) as Hlive.
  pose proof (h_tree _ _ (rp_heap _ _ Hrep)) as Ht.
  assert (plain (mem h) (f_refs F) l) as Hplain.
  { intros x Hx. split; [by apply Hrefs|].
    destruct (below_live _ _ Ht x p Hlive) as [c Hc]; [by apply (proj1 (sub_ancestor _) _ _ Hl)|].
    exists c. split_and!; [done|by apply (h_idle _ _ (rp_heap _ _ Hrep) x)|].
    destruct (handle_or_not _ _ _ x (rp_refs _ _ Hrep)) as [Hn|Hx']; [left|by right].
    pose proof (rp_obj _ _ Hrep x Hn) as H. rewrite Hc in H. by destruct (f_obj F x) as [[? ?]|]; [destruct H as (_ & _ & ?)|]. }
  destruct (talloc_free_drops_lemma user_dtor h _ _ p l (S (S (S (size (mem h))))) (rp_heap _ _ Hrep) (rp_refs _ _ Hrep)
    Hlive Hl Hplain) as (m' & E & Hok & Hrf & Hd1 & Hd2).
  { rewrite (rp_null _ _ Hrep). done. }
  { pose proof (sub_length _ _ Ht p l Hlive Hl). lia. }
  unfold exec. rewrite bound_bind, (M_bind_ok _ _ _ _ _ E). eexists _, _, _. split; [done|].
  assert (f_refs F p = []) as Hrp by (apply Hrefs, (proj1 (sub_ancestor _) _ _ Hl), rtc_refl).
  split; [by constructor|]. split; cbn; [done|done|apply (rp_null _ _ Hrep)|..].
  - intros q Hq. unfold object. cbn. rewrite decide_False by by apply Hnc. by apply (rp_nc _ _ Hrep).
  - intros x Hx. case_decide as Hxl; [by rewrite Hd1|].
    eapply chunk_rep_bare; [by apply Hd2|]. apply (rp_obj _ _ Hrep). intros q Hq. by apply (Hx q), elem_of_without.
  - intros x q [_ Hx]%elem_of_without. case_decide; [done|]. by apply (rp_handle _ _ Hrep x q).
Qed.

(** Handles have no children after an operation on objects. *)
Lemma refs_ok_kids m K K' R :
  refs_ok m K R → (∀ q r, r ∈ R q → K' r = K r) → refs_ok m K' R.
Proof. intros Hok Hk. eapply refs_ok_ext; [done| |exact Hok]. intros q r Hr <-. by eapply Hk. Qed.

Lemma add_child_other K q c x : x ≠ q → add_child K q c x = K x.
Proof. intros. unfold add_child. by rewrite decide_False. Qed.

Lemma reparented_handle h F ctx p q r :
  represents h F → context_allowed nc F ctx → r ∈ f_refs F q → reparented nc (f_kids F) ctx p r = f_kids F r.
Proof.
  intros Hrep Hctx Hr. pose proof (r_kids _ _ _ (rp_refs _ _ Hrep) q r Hr) as Hk.
  assert (remove_child (f_kids F) p r = f_kids F r) as E by (unfold remove_child; by rewrite Hk).
  unfold reparented, move_child. destruct (ctx_of nc ctx) as [y|] eqn:Hy; [|done].
  rewrite add_child_other; [done|]. intros ->.
  by apply (object_no_handle h F Hrep y (context_object h F Hrep ctx y Hctx Hy) q).
Qed.

Lemma exec_steal h F ctx p :
  represents h F → context_allowed nc F ctx → object F p →
  (∀ q, ctx_of nc ctx = Some q → ¬ ancestor (f_kids F) q p) →
  ∃ a h' F', exec (Steal ctx p) h = Ok (a, h') ∧ step junk nc F (Steal ctx p) a F' ∧ represents h' F'.
Proof.
  intros Hrep Hctx Hp Hanc. rewrite <- (context_eq h F Hrep) in Hanc.
  destruct (steal_spec h _ ctx p (rp_heap _ _ Hrep) (context_live h F Hrep ctx Hctx)
    (object_live h F Hrep p Hp) Hanc) as (m' & E & Hok & Hs).
  assert (stolen h (f_kids F) ctx p = reparented nc (f_kids F) ctx p) as Est.
  { unfold stolen, reparented. by rewrite (context_eq h F Hrep). }
  rewrite Est in Hok. unfold exec. rewrite bound_bind, (M_bind_ok _ _ _ _ _ E).
  eexists _, _, _. split; [done|]. split; [by constructor|].
  split; cbn; [done| |apply (rp_null _ _ Hrep)|apply (rp_nc _ _ Hrep)| |apply (rp_handle _ _ Hrep)].
  - eapply refs_ok_kids; [eapply refs_ok_links; [exact Hs|apply (rp_refs _ _ Hrep)]|].
    intros q r Hqr. by eapply (reparented_handle h).
  - intros x Hx. eapply chunk_rep_bare; [by apply same_links_bare|by apply (rp_obj _ _ Hrep)].
Qed.

Lemma exec_reference h F ctx p :
  represents h F → context_allowed nc F ctx → object F p →
  ∃ a h' F', exec (Reference ctx p) h = Ok (a, h') ∧ step junk nc F (Reference ctx p) a F' ∧ represents h' F'.
Proof.
  intros Hrep Hctx Hp. pose proof (object_live h F Hrep p Hp) as Hlive. unfold exec. rewrite bound_bind.
  destruct (malloc h (TC_HDR_SIZE wb + sizeof_handle wb)) as [r|] eqn:Hm.
  2:{ rewrite (M_bind_ok _ _ _ _ _ (reference_refused wb malloc junk h _ ctx p (rp_heap _ _ Hrep) Hlive Hm)).
      eexists _, h, F. split; [done|]. split; [by constructor|done]. }
  assert (ref_args h (f_refs F) ctx p) as Hargs.
  { split; [by eapply context_live| |done|by eapply object_no_handle].
    intros q Hq. rewrite (context_eq h F Hrep) in Hq. eapply object_no_handle, context_object; done. }
  destruct (reference_spec wb malloc junk malloc_fresh handle_size h _ _ ctx p r (rp_heap _ _ Hrep) (rp_refs _ _ Hrep)
    Hargs Hm) as (m' & E & Hok & Hrf & Hb).
  rewrite (M_bind_ok _ _ _ _ _ E), (alloc_children_eq h F Hrep) in *.
  pose proof (fresh_unused h F Hrep r (malloc_fresh _ _ _ Hm)) as [Hu Hu'].
  eexists _, _, _. split; [done|]. split; [by constructor|].
  split; cbn; [done|done|apply (rp_null _ _ Hrep)|apply (rp_nc _ _ Hrep)|..].
  - intros x Hx. eapply chunk_rep_bare.
    + apply Hb. intros ->. apply (Hx p), elem_of_add_child. by right.
    + apply (rp_obj _ _ Hrep). intros q Hq. apply (Hx q), elem_of_add_child. by left.
  - intros x q [Hx|[-> ->]]%elem_of_add_child; [by apply (rp_handle _ _ Hrep x q)|done].
Qed.

Lemma exec_unreference h F ctx p :
  represents h F → object F p →
  ((∃ r, held_first nc F ctx p r) ∨ Forall (λ x, ¬ parent_of (f_kids F) x (ctx_of nc ctx)) (f_refs F p)) →
  ∃ a h' F', exec (Unreference ctx p) h = Ok (a, h') ∧ step junk nc F (Unreference ctx p) a F' ∧ represents h' F'.
Proof.
  intros Hrep Hp Hcase. destruct (unreference_spec user_dtor h _ _ ctx p (S (S (S (size (mem h))))) (rp_heap _ _ Hrep)
    (rp_refs _ _ Hrep) (object_live h F Hrep p Hp)) as [H1 H2].
  { intros q Hq. rewrite (rp_null _ _ Hrep) in Hq. by apply (object_no_handle h F Hrep), (rp_nc _ _ Hrep). }
  { lia. }
  rewrite (context_eq h F Hrep) in H1, H2. unfold exec. rewrite bound_bind.
  destruct Hcase as [(r & a & b & E & Ha & Hr)|Hno].
  - destruct (H1 a r b E Ha Hr) as (m' & Er & Hw). rewrite (M_bind_ok _ _ _ _ _ Er).
    eexists _, _, _. split; [done|]. split; [apply step_unreference; by exists a, b|].
    eapply represents_unheld; [done| |done]. rewrite E. apply elem_of_app. right. by left.
  - rewrite (M_bind_ok _ _ _ _ _ (H2 Hno)). eexists _, h, F. split; [done|]. split; [by constructor|done].
Qed.

Lemma exec_realloc h F p sz name :
  represents h F → object F p → f_refs F p = [] → nc ≠ Some p → 0 < sz →
  ∃ a h' F', exec (Realloc p sz name) h = Ok (a, h') ∧ step junk nc F (Realloc p sz name) a F' ∧ represents h' F'.
Proof.
  intros Hrep Hp Hrp Hncp Hsz. destruct (object_chunk h F Hrep p Hp) as (c & b & Hc & Hobj & Hdata & Hdt).
  unfold exec. rewrite bound_bind.
  destruct (decide (MAX_TALLOC_SIZE ≤ sz ∨ (sz ≠ 0 ∧ tc_refs c ≠ None) ∨
    (sz ≠ 0 ∧ realloc (marked h p c) p (sz + TC_HDR_SIZE wb) = None))) as [Hno|Hyes].
  { rewrite (M_bind_ok _ _ _ _ _ (proj1 (realloc_errors_lemma wb malloc realloc junk user_dtor h _ None p c sz name
      Hc (h_alive _ _ (rp_heap _ _ Hrep) p c Hc)) Hno)).
    eexists _, h, F. split; [done|]. split; [by constructor|done]. }
  destruct (realloc (marked h p c) p (sz + TC_HDR_SIZE wb)) as [q|] eqn:Hre; [|destruct Hyes; right; right; split; [lia|done]].
  assert (sz < MAX_TALLOC_SIZE) as Hmax by lia.
  assert (q = p ∨ mem h !! q = None) as Hq.
  { destruct (realloc_fresh _ _ _ _ Hre) as [?|Hf]; [by left|right].
    cbn in Hf. by apply lookup_insert_None in Hf as [? _]. }
  pose proof (object_no_handle h F Hrep p Hp) as Hnp.
  assert (null_context h ≠ Some p) as Hnull by by rewrite (rp_null _ _ Hrep).
  destruct (realloc_moves_lemma wb malloc realloc junk user_dtor h _ _ (S (S (size (mem h)))) None p q c sz name
    (rp_heap _ _ Hrep) (rp_refs _ _ Hrep) Hc Hrp Hnp Hnull Hq (conj Hsz Hmax) Hre)
    as (m' & E & Hok & Hrf & Hcq & Hgone & Hs).
  rewrite (M_bind_ok _ _ _ _ _ E). eexists _, _, _. split; [done|].
  split; [eapply step_realloc; [done| |done]; destruct Hq as [->|Hq]; [by left|right; by eapply fresh_unused]|].
  split; cbn; [done|done|apply (rp_null _ _ Hrep)|..].
  - intros x Hx. unfold object. cbn. case_decide; [done|].
    rewrite decide_False by congruence. by apply (rp_nc _ _ Hrep).
  - intros x Hx. case_decide as Hxq; [|case_decide as Hxp].
    + subst x. apply (chunk_rep_bare (Some (resized junk c sz name))).
      { by apply strip_bare. }
      cbn. rewrite Hdata. by split_and!.
    + subst x. by rewrite Hgone by congruence.
    + eapply chunk_rep_bare; [by apply strip_bare, Hs|by apply (rp_obj _ _ Hrep)].
  - intros x y Hx. rewrite !decide_False; [by apply (rp_handle _ _ Hrep x y)|..]; intros ->; [by apply (Hnp y)|].
    destruct Hq as [->|Hq]; [by apply (Hnp y)|]. by apply (proj1 (fresh_no_refs _ _ _ q (rp_refs _ _ Hrep) Hq) y).
Qed.

Lemma exec_step h F o :
  represents h F → allowed nc F o →
  ∃ a h' F', exec o h = Ok (a, h') ∧ step junk nc F o a F' ∧ represents h' F'.
Proof.
  intros Hrep. destruct 1.
  - by apply exec_alloc.
  - by eapply exec_free.
  - by eapply exec_free_held.
  - by apply exec_steal.
  - by apply exec_reference.
  - apply exec_unreference; [done..|]. left. eauto.
  - apply exec_unreference; [done..|by right].
  - by apply exec_realloc.
Qed.

Lemma exec_client_simulates h F c :
  represents h F → well_behaved junk nc F c →
  ∃ l h' F', exec_client c h = Ok (l, h') ∧ steps junk nc F c l F' ∧ represents h' F'.
Proof.
  revert h F. induction c as [|o k IH]; intros h F Hrep Hw.
  - exists [], h, F. split; [done|]. split; [constructor|done].
  - destruct Hw as [Ha Hk]. destruct (exec_step h F o Hrep Ha) as (a & h1 & F1 & E & Hs & Hrep1).
    destruct (IH a h1 F1 Hrep1 (Hk a F1 Hs)) as (l & h2 & F2 & E2 & Hs2 & Hrep2).
    exists (a :: l), h2, F2. split; [|split; [by econstructor|done]].
    cbn [exec_client]. rewrite (M_bind_ok _ _ _ _ _ E). by rewrite (M_bind_ok _ _ _ _ _ E2).
Qed.
End simulation.

(** C3 [talloc_implements_forest]: the allocator refines the forest: from a heap
    that represents a forest, a client that keeps to the rules, however it
    chooses its calls by the answers, runs without undefined behaviour and
    without exhausting the bounds of the walks, gets answers that the forest
    allows, and leaves a heap that represents the forest that the calls lead to. *)
Theorem talloc_implements_forest wb malloc realloc junk user_dtor nc h F c :
  (∀ h n p, malloc h n = Some p → mem h !! p = None) →
  (∀ h p n q, realloc h p n = Some q → q = p ∨ mem h !! q = None) →
  sizeof_handle wb < MAX_TALLOC_SIZE →
  represents nc h F → well_behaved junk nc F c →
  ∃ l h' F', exec_client wb malloc realloc junk user_dtor c h = Ok (l, h') ∧
    steps junk nc F c l F' ∧ represents nc h' F'.
Proof.
  intros Hm Hr Hs. exact (exec_client_simulates wb malloc realloc junk user_dtor Hm Hr Hs nc h F c).
Qed.
