(* ===== verification/TallocMacros.v ===== *)
(** * The macros of talloc.h, and the buffers of the runner

    The typed interface of talloc: each macro passes the size and the name of a
    type, or the place in the source, to a function of Talloc.v.  The blocks that
    the runner resizes with [talloc_realloc(ctx, buf, char, n)] behave as
    [realloc_chars] of RunTest.v says. *)

From S2P Require Import Prelude CString TestModel RunTest Talloc TallocHeap TallocTree TallocProps TallocWalk TallocFree TallocMem TallocRefs TallocDrop TallocRefOps TallocRealloc.
From stdpp Require Import relations.

Local Open Scope Z_scope.

(** ** The macros *)

Section macros.
Context (wb : Z) (malloc : heap → Z → option loc) (realloc : heap → loc → Z → option loc)
        (junk : nat → bytes) (user_dtor : nat → loc → M Z) (fuel : nat).

(** [size] is [sizeof(type)], [ty] is [#type], [here] is [__location__]; an [int]
    given as a count becomes [unsigned]. *)
Definition talloc_set_destructor (ptr : option loc) (function : option dtor) : M unit :=
  _talloc_set_destructor ptr function.
Definition talloc_steal (ctx ptr : option loc) : M (option loc) := _talloc_steal ctx ptr.
Definition talloc_reference (ctx ptr : option loc) : M (option loc) := _talloc_reference wb malloc junk ctx ptr.
Definition talloc_move (ctx ptr : option loc) : M (option loc * option loc) := _talloc_move ctx ptr.

Definition talloc (ctx : option loc) (size : Z) (ty : bytes) : M (option loc) :=
  talloc_named_const wb malloc junk ctx size (name_const ty).
Definition talloc_size (ctx : option loc) (size : Z) (here : bytes) : M (option loc) :=
  talloc_named_const wb malloc junk ctx size (name_const here).
Definition talloc_ptrtype (ctx : option loc) (size : Z) (here : bytes) : M (option loc) :=
  talloc_size ctx size here.

Definition talloc_new (ctx : option loc) (here : bytes) : M (option loc) :=
  talloc_named_const wb malloc junk ctx 0 (name_const (lit "talloc_new: " ++ here)).

Definition talloc_zero (ctx : option loc) (size : Z) (ty : bytes) : M (option loc) :=
  _talloc_zero wb malloc junk ctx size (name_const ty).
Definition talloc_zero_size (ctx : option loc) (size : Z) (here : bytes) : M (option loc) :=
  _talloc_zero wb malloc junk ctx size (name_const here).

Definition talloc_zero_array (ctx : option loc) (size : Z) (ty : bytes) (count : Z) : M (option loc) :=
  _talloc_zero_array wb malloc junk ctx size (wrapu 32 count) (name_const ty).
Definition talloc_array (ctx : option loc) (size : Z) (ty : bytes) (count : Z) : M (option loc) :=
  _talloc_array wb malloc junk ctx size (wrapu 32 count) (name_const ty).
Definition talloc_array_size (ctx : option loc) (size count : Z) (here : bytes) : M (option loc) :=
  _talloc_array wb malloc junk ctx size (wrapu 32 count) (name_const here).
Definition talloc_array_ptrtype (ctx : option loc) (size count : Z) (here : bytes) : M (option loc) :=
  talloc_array_size ctx size count here.

Definition talloc_realloc (ctx p : option loc) (size : Z) (ty : bytes) (count : Z) : M (option loc) :=
  _talloc_realloc_array wb malloc realloc junk user_dtor fuel ctx p size (wrapu 32 count) (name_const ty).
Definition talloc_realloc_size (ctx ptr : option loc) (size : Z) (here : bytes) : M (option loc) :=
  _talloc_realloc wb malloc realloc junk user_dtor fuel ctx ptr size (name_const here).

Definition talloc_memdup (t : option loc) (p : bytes) (size : Z) (here : bytes) : M (option loc) :=
  _talloc_memdup wb malloc junk t p size (name_const here).

Definition talloc_set_type (ptr : option loc) (ty : bytes) : M unit := talloc_set_name_const ptr (name_const ty).
Definition talloc_get_type (ptr : option loc) (ty : bytes) : M (option loc) := talloc_check_name ptr ty.
Definition talloc_find_parent_bytype (ptr : option loc) (ty : bytes) : M (option loc) :=
  talloc_find_parent_byname ptr ty.

(** With TALLOC_DEPRECATED. *)
Definition talloc_zero_p := talloc_zero.
Definition talloc_p := talloc.
Definition talloc_array_p := talloc_array.
Definition talloc_realloc_p := talloc_realloc.
Definition talloc_destroy (ctx : option loc) : M Z := talloc_free user_dtor fuel ctx.
Definition talloc_append_string (c s : option loc) (a : option bytes) : M (option loc) :=
  match s with
  | Some _ => talloc_strdup_append wb malloc realloc junk user_dtor fuel s a
  | None => talloc_strdup wb malloc junk c a
  end.

(** ** Types *)

Lemma check_name_const h p c s t :
  mem h !! p = Some c → tc_flag_free c = false → tc_name c = name_const s → nul_free s → nul_free t →
  talloc_check_name (Some p) t h = Ok (if decide (s = t) then Some p else None, h).
Proof.
  intros Hp Hf Hn Hs Ht. unfold talloc_check_name, talloc_get_name. rewrite M_bind_assoc.
  erewrite chunk_from_ptr_bind by done. rewrite M_bind_assoc. erewrite fld_bind by done. rewrite Hn.
  unfold name_string, lift, mbind, M_bind, mret, M_ret. cbn. rewrite strcmp_str_cmp by done. cbn.
  pose proof (str_cmp_eq s t Hs Ht) as E. destruct (Z.eqb_spec (str_cmp s t) 0) as [H0|H0].
  - by rewrite decide_True by by apply E.
  - by rewrite decide_False by (intros H; by apply H0, E).
Qed.

(** [talloc_types_checked]: a live pointer that was given a type with
    [talloc_set_type] is what [talloc_get_type] returns for that type, and NULL
    is for any other; nothing but the name of the chunk changes. *)
Theorem talloc_types_checked h K p ty ty' :
  heap_ok h K → is_Some (mem h !! p) → nul_free ty → nul_free ty' →
  ∃ h', (talloc_set_type (Some p) ty) h = Ok (tt, h') ∧ heap_ok h' K ∧
    talloc_get_type (Some p) ty' h' = Ok (if decide (ty = ty') then Some p else None, h') ∧
    mem h' = alter (set_name (name_const ty)) p (mem h).
Proof.
  intros Hok [c Hc] Hn Hn'. pose proof (h_alive _ _ Hok p c Hc) as Hf.
  exists (set_mem (<[p:=set_name (name_const ty) c]> (mem h)) h). split_and!.
  - unfold talloc_set_type, talloc_set_name_const, _talloc_set_name_const.
    erewrite chunk_from_ptr_bind by done. by erewrite upd_ok.
  - by eapply heap_ok_insert.
  - by eapply check_name_const; [apply lookup_insert_eq|..].
  - cbn. by apply insert_alter.
Qed.
End macros.

(** ** The buffers of the runner *)

Section buffers.
Context (wb : Z) (malloc : heap → Z → option loc) (realloc : heap → loc → Z → option loc)
        (junk : nat → bytes) (user_dtor : nat → loc → M Z) (fuel : nat).
Context (Hwb : 28 ≤ wb) (junk_length : ∀ n, length (junk n) = n).

Definition char_name : bytes := lit "char".

(** [talloc_realloc(ctx, p, char, n)]. *)
Definition realloc_char_block (ctx p : option loc) (n : Z) : M (option loc) :=
  talloc_realloc wb malloc realloc junk user_dtor fuel ctx p 1 char_name n.

Lemma char_count ctx p n h :
  is_int n = true →
  realloc_char_block ctx p n h =
    (if (n <? 0) || (Talloc.MAX_TALLOC_SIZE <=? n) then Ok (None, h)
     else _talloc_realloc wb malloc realloc junk user_dtor fuel ctx p n (name_const char_name) h).
Proof.
  intros Hn. unfold is_int, int_min, int_max in Hn. apply andb_true_iff in Hn as [H1%Z.leb_le H2%Z.leb_le].
  unfold realloc_char_block, talloc_realloc, _talloc_realloc_array.
  assert (0 ≤ wrapu 32 n ∧ (0 ≤ n → wrapu 32 n = n) ∧ (n < 0 → 2 ^ 31 ≤ wrapu 32 n)) as (H3 & H4 & H5).
  { split_and!; [apply wrapu_range; lia|intros; apply wrapu_small; lia|]. intros Hneg. unfold wrapu.
    change (2 ^ 31) with 2147483648 in *. change (2 ^ 32) with 4294967296.
    rewrite <- (Z.mod_unique n 4294967296 (-1) (n + 4294967296)); lia. }
  destruct (array_check 1 (wrapu 32 n) h ltac:(lia) H3) as [E _].
  rewrite (M_bind_ok _ _ _ _ _ E). change (Talloc.MAX_TALLOC_SIZE / 1) with Talloc.MAX_TALLOC_SIZE.
  unfold Talloc.MAX_TALLOC_SIZE in *. destruct (Z.ltb_spec n 0) as [Hneg|Hpos]; cbn [orb].
  - rewrite (proj2 (Z.leb_le _ _)); [done|]. specialize (H5 Hneg). lia.
  - rewrite H4 by done. destruct (Z.leb_spec 0x10000000 n); [done|].
    assert (2 ^ 28 ≤ 2 ^ wb) by (apply Z.pow_le_mono_r; lia).
    rewrite wrapu_small by lia. by rewrite Z.mul_1_l.
Qed.

Lemma realloc_chars_resize b n :
  0 < n < RunTest.MAX_TALLOC_SIZE →
  realloc_chars (Some b) n (junk (Z.to_nat n - length b)%nat)
  = Some (take (Z.to_nat n) b ++ junk (Z.to_nat n - length b)%nat).
Proof.
  intros Hn. unfold realloc_chars. rewrite (proj2 (Z.leb_gt _ _)), (proj2 (Z.leb_gt _ _)) by lia.
  cbn [orb default]. f_equal. destruct (decide (Z.to_nat n ≤ length b)%nat) as [Hl|Hl].
  - replace (Z.to_nat n - length b)%nat with 0%nat by lia.
    assert (junk 0 = []) as -> by (apply nil_length_inv, junk_length). rewrite !app_nil_r.
    by rewrite resize_le.
  - rewrite take_ge by lia. rewrite resize_all_alt; [done|]. rewrite length_app, junk_length. unfold id. lia.
Qed.

(** C31 [buffers_are_talloc_blocks]: [talloc_realloc(ctx, p, char, n)] on a block of
    bytes [b] without references is [realloc_chars]: for a size that it refuses
    the result is NULL and the heap is as before (for 0 the block is freed);
    for any other size that the allocator grants the new block holds exactly
    what [realloc_chars] says, whatever fresh memory holds. *)
Theorem buffers_are_talloc_blocks h K R ctx p c b n :
  heap_ok h K → refs_ok (mem h) K R → mem h !! p = Some c → tc_data c = Bytes b →
  R p = [] → no_handle R p → null_context h ≠ Some p → is_int n = true →
  match realloc_chars (Some b) n (junk (Z.to_nat n - length b)%nat) with
  | None =>
      (n ≠ 0 → realloc_char_block ctx (Some p) n h = Ok (None, h)) ∧
      (n = 0 → ∀ rc h', talloc_free user_dtor fuel (Some p) h = Ok (rc, h') →
                        realloc_char_block ctx (Some p) n h = Ok (None, h'))
  | Some b' =>
      ∀ q, realloc (marked h p c) p (n + TC_HDR_SIZE wb) = Some q → (q = p ∨ mem h !! q = None) →
      ∃ m' c', realloc_char_block ctx (Some p) n h = Ok (Some q, set_mem m' h) ∧
        heap_ok (set_mem m' h) (renamed K p q) ∧ refs_ok m' (renamed K p q) R ∧
        m' !! q = Some c' ∧ tc_data c' = Bytes b' ∧ tc_size c' = n
  end.
Proof.
  intros Hok Hrf Hc Hd Hr Hnp Hnull Hn.
  destruct (decide (0 < n < RunTest.MAX_TALLOC_SIZE)) as [Hgood|Hbad].
  - rewrite realloc_chars_resize by done. intros q Hre Hq. rewrite char_count by done.
    change RunTest.MAX_TALLOC_SIZE with Talloc.MAX_TALLOC_SIZE in Hgood.
    rewrite (proj2 (Z.ltb_ge _ _)), (proj2 (Z.leb_gt _ _)) by lia. cbn [orb].
    destruct (realloc_moves_lemma wb malloc realloc junk user_dtor h K R fuel ctx p q c n (name_const char_name)
      Hok Hrf Hc Hr Hnp Hnull Hq Hgood Hre) as (m' & E & Hok' & Hrf' & Hcq & _).
    destruct (m' !! q) as [c'|] eqn:Hq'; [|done]. apply (inj Some) in Hcq.
    exists m', c'. split_and!; try done.
    + transitivity (tc_data (strip c')); [done|]. rewrite Hcq. cbn. by rewrite Hd.
    + transitivity (tc_size (strip c')); [done|]. by rewrite Hcq.
  - assert (realloc_chars (Some b) n (junk (Z.to_nat n - length b)%nat) = None) as ->.
    { unfold realloc_chars. destruct (Z.leb_spec n 0); [done|]. destruct (Z.leb_spec RunTest.MAX_TALLOC_SIZE n); [done|lia]. }
    rewrite char_count by done. change RunTest.MAX_TALLOC_SIZE with Talloc.MAX_TALLOC_SIZE in Hbad. split.
    + intros H0. destruct (Z.ltb_spec n 0); [done|]. cbn [orb]. rewrite (proj2 (Z.leb_le _ _)) by lia. done.
    + intros -> rc h' E. cbn [Z.ltb orb]. change (Talloc.MAX_TALLOC_SIZE <=? 0) with false.
      by apply (realloc_errors_lemma wb malloc realloc junk user_dtor h fuel ctx p c 0 (name_const char_name) Hc
        (h_alive _ _ Hok p c Hc)) in E.
Qed.
End buffers.
