(* ===== verification/Slowfs.v ===== *)
(** * The slow file system (lib/slowfs/slowfs.c)

    The handlers of a FUSE file system with one file, and the functions that
    mount and unmount it, over the talloc heap.  What libfuse and pthreads
    answer is given; the calls made are recorded.  The thread runs between the
    mount and the unmount. *)

From S2P Require Import Prelude CString Talloc TallocHeap TallocTree TallocProps TallocWalk TallocFree TallocMem.
From stdpp Require Import relations.

Local Open Scope Z_scope.

(** ** The handlers *)

Definition FILE_SIZE : Z := 4096.
Definition file_name : bytes := lit "/slowfs".

Definition ENOENT : Z := 2.
Definition EACCES : Z := 13.
Definition S_IFDIR : Z := 0x4000.
Definition S_IFREG : Z := 0x8000.

Record stat := Stat { st_mode : Z; st_nlink : Z; st_size : Z }.

(** The path is the memory from the pointer on. *)
Definition slowfs_getattr (path : bytes) : res (Z * stat) :=
  d ← strcmp path (lit "/" ++ [NUL]);
  if d =? 0 then Ok (0, Stat (Z.lor S_IFDIR 0x1ED) 2 0)
  else
    d ← strcmp path (file_name ++ [NUL]);
    if d =? 0 then Ok (0, Stat (Z.lor S_IFREG 0x124) 1 FILE_SIZE)
    else Ok (- ENOENT, Stat 0 0 0).

(** The result and the names given to [filler]. *)
Definition slowfs_readdir (path : bytes) : res (Z * list bytes) :=
  d ← strcmp path (lit "/" ++ [NUL]);
  if negb (d =? 0) then Ok (- ENOENT, [])
  else Ok (0, [lit "."; lit ".."; drop 1 file_name]).

Definition slowfs_open (path : bytes) (flags : Z) : res Z :=
  d ← strcmp path (file_name ++ [NUL]);
  if negb (d =? 0) then Ok (- ENOENT)
  else if negb (Z.land flags 3 =? 0) then Ok (- EACCES)
  else Ok 0.

(** The seconds slept, the result and what is in the buffer. *)
Definition slowfs_read (len offset : Z) : Z * Z * bytes :=
  (2, wraps 32 len, replicate (Z.to_nat len) NUL).

(** [slowfs_handlers_agree]: the handlers describe one directory: a path of
    the root that [readdir] lists has attributes, every other path but the root
    is missing for both [getattr] and [open], the file opens for reading only,
    and a read of up to its size gives that many zero bytes. *)
Theorem slowfs_handlers_agree path r :
  nul_free path →
  slowfs_readdir (lit "/" ++ NUL :: r) = Ok (0, [lit "."; lit ".."; lit "slowfs"]) ∧
  (path = lit "/slowfs" →
   slowfs_getattr (path ++ NUL :: r) = Ok (0, Stat (Z.lor S_IFREG 0x124) 1 4096) ∧
   ∀ flags, slowfs_open (path ++ NUL :: r) flags = Ok (if Z.land flags 3 =? 0 then 0 else - EACCES)) ∧
  (path ≠ lit "/slowfs" → path ≠ lit "/" →
   slowfs_getattr (path ++ NUL :: r) = Ok (- ENOENT, Stat 0 0 0) ∧
   ∀ flags, slowfs_open (path ++ NUL :: r) flags = Ok (- ENOENT)) ∧
  (∀ len offset, 0 ≤ len ≤ FILE_SIZE → slowfs_read len offset = (2, len, replicate (Z.to_nat len) NUL)).
Proof.
  intros Hp.
  assert (nul_free (lit "/") ∧ nul_free file_name) as [H1 H2] by (split; nul_free_lit).
  pose proof (str_cmp_eq path (lit "/") Hp H1) as E1. pose proof (str_cmp_eq path file_name Hp H2) as E2.
  split_and!.
  - unfold slowfs_readdir. rewrite strcmp_str_cmp by done. done.
  - intros ->. split; [|intros flags]; unfold slowfs_getattr, slowfs_open; rewrite !strcmp_str_cmp by done; cbn.
    + done.
    + by destruct (Z.land flags 3 =? 0).
  - intros Hn1 Hn2. unfold slowfs_getattr, slowfs_open. rewrite !strcmp_str_cmp by done. cbn -[str_cmp lit].
    rewrite (proj2 (Z.eqb_neq (str_cmp path (lit "/")) 0)) by (rewrite E1; done).
    cbn -[str_cmp lit].
    rewrite (proj2 (Z.eqb_neq (str_cmp path file_name) 0)) by (rewrite E2; done). done.
  - intros len offset Hl. unfold slowfs_read, FILE_SIZE in *. rewrite wraps_small; [done|lia|].
    change (32 - 1) with 31. lia.
Qed.

(** The table of handlers that libfuse calls. *)
Record fuse_operations := FuseOperations {
  op_getattr : bytes → res (Z * stat);
  op_readdir : bytes → res (Z * list bytes);
  op_open : bytes → Z → res Z;
  op_read : Z → Z → Z * Z * bytes;
}.

Definition ops : fuse_operations := FuseOperations slowfs_getattr slowfs_readdir slowfs_open slowfs_read.

(** ** Mounting *)

Inductive fuse_call :=
| fuse_mount (mountpoint : bytes) | fuse_new (op : fuse_operations) | fuse_daemonize | pthread_create
| fuse_exit | fuse_unmount (mountpoint : bytes) | pthread_join | perror (s : bytes).

(** What the libraries answer: [None] is NULL. *)
Record fuse_env := FuseEnv {
  r_mount : option Z; r_new : option Z; r_daemonize : Z; r_pthread : Z;
}.

(** [struct slowfs]: the chunk it is in, and its fields; [fuse_rc] has no value
    before the thread ends, [pthread] is the thread. *)
Record slowfs := SlowfsS {
  sl_chunk : loc; sl_fuse : Z; sl_chan : Z; sl_mountpoint : loc; sl_fuse_rc : option Z;
}.

(** The thread; [fuse_loop] serves requests until [fuse_exit]. *)
Definition slowfs_fn (fuse_loop : Z → Z) (s : slowfs) : slowfs :=
  SlowfsS (sl_chunk s) (sl_fuse s) (sl_chan s) (sl_mountpoint s) (Some (fuse_loop (sl_fuse s))).

Section slowfs.
Context (wb : Z) (malloc : heap → Z → option loc) (junk : nat → bytes) (user_dtor : nat → loc → M Z).
Context (sizeof_slowfs : Z) (fuel : nat).

(** [goto out_free]. *)
Definition out_free (p : option loc) (calls : list fuse_call) : M (option slowfs * list fuse_call) :=
  talloc_free user_dtor fuel p;; mret (None, calls).

(** [mountpoint] is the argument without its NUL. *)
Definition slowfs_mount (e : fuse_env) (mountpoint : bytes) : M (option slowfs * list fuse_call) :=
  p ← talloc_named_const wb malloc junk None sizeof_slowfs (name_const (lit "struct slowfs"));
  match p with
  | None => out_free p [perror (lit "talloc")]
  | Some s =>
      mp ← talloc_strdup wb malloc junk p (Some (mountpoint ++ [NUL]));
      match mp with
      | None => out_free p [perror (lit "talloc")]
      | Some mp =>
          let c := [fuse_mount mountpoint] in
          match r_mount e with
          | None => out_free p (c ++ [perror (lit "fuse_mount")])
          | Some chan =>
              let c := c ++ [fuse_new ops] in
              match r_new e with
              | None => out_free p (c ++ [perror (lit "fuse_new")])
              | Some fuse =>
                  let c := c ++ [fuse_daemonize] in
                  if negb (r_daemonize e =? 0) then out_free p (c ++ [perror (lit "fuse_daemonize")])
                  else
                    let c := c ++ [pthread_create] in
                    if negb (r_pthread e =? 0) then out_free p (c ++ [perror (lit "pthread_create")])
                    else mret (Some (SlowfsS s fuse chan mp None), c)
              end
          end
      end
  end.

(** The mount point is read before the chunks are freed; the calls of fuse touch no
    chunk, so that their order with the free is that of the text alone. *)
Definition slowfs_unmount (s : slowfs) : M (list fuse_call) :=
  mp ← string_at (sl_mountpoint s);
  talloc_free user_dtor fuel (Some (sl_chunk s));;
  mret [fuse_exit; fuse_unmount mp; pthread_join].

Context (malloc_fresh : ∀ h n p, malloc h n = Some p → mem h !! p = None).
Context (junk_length : ∀ n, length (junk n) = n).

(** The heap with the two chunks of a mounted file system. *)
Record mounted (h h' : heap) (K : children) (s mp : loc) (mountpoint : bytes) : Prop := {
  mo_ok : heap_ok h' (alloc_children (set_mem (mem h') h) (alloc_children h K None s) (Some s) mp);
  mo_env : set_mem (mem h') h = h';
  mo_same : same_but_links
    (<[mp:=string_chunk junk mp mountpoint]>
      (<[s:=set_name (name_const (lit "struct slowfs")) (new_chunk junk sizeof_slowfs)]> (mem h))) (mem h');
  mo_s : mem h !! s = None;
  mo_mp : mem h !! mp = None ∧ mp ≠ s;
}.

Lemma mount_alloc h K mountpoint s :
  heap_ok h K → sizeof_slowfs < MAX_TALLOC_SIZE → Z.of_nat (length mountpoint) + 1 < MAX_TALLOC_SIZE →
  nul_free mountpoint → (∀ h n, is_Some (malloc h n)) →
  malloc h (TC_HDR_SIZE wb + sizeof_slowfs) = Some s →
  ∃ h1 mp h', talloc_named_const wb malloc junk None sizeof_slowfs (name_const (lit "struct slowfs")) h = Ok (Some s, h1) ∧
    talloc_strdup wb malloc junk (Some s) (Some (mountpoint ++ [NUL])) h1 = Ok (Some mp, h') ∧
    mounted h h' K s mp mountpoint.
Proof.
  intros Hok Hsz Hsm Hnul Hmem Hs.
  destruct (named_const_spec wb malloc junk malloc_fresh h K None sizeof_slowfs
    (name_const (lit "struct slowfs")) s Hok ltac:(done) Hsz Hs) as (m1 & E1 & Hok1 & Hs1).
  destruct (Hmem (set_mem m1 h) (TC_HDR_SIZE wb + (Z.of_nat (length mountpoint) + 1))) as [mp Hmp].
  assert (context_ok (set_mem m1 h) (Some s)) as Hctx.
  { intros q [= <-]. apply (same_is_Some _ _ s Hs1). rewrite lookup_insert_eq. eauto. }
  destruct (strlendup_spec wb malloc junk malloc_fresh junk_length (set_mem m1 h) _ (Some s) mountpoint [NUL] mp
    Hok1 Hctx Hsm Hmp) as (m2 & E2 & Hok2 & Hs2).
  exists (set_mem m1 h), mp, (set_mem m2 h). split; [exact E1|]. split.
  { unfold talloc_strdup, lift, mbind, M_bind. rewrite strlen_app by done. exact E2. }
  pose proof (malloc_fresh _ _ _ Hmp) as Hf. cbn [mem set_mem] in Hf.
  assert (mem h !! mp = None ∧ mp ≠ s) as [Hmpn Hne].
  { destruct (same_is_Some _ _ mp Hs1) as [Hi _]. rewrite lookup_insert in Hi. case_decide as Hd.
    - destruct Hi as [x Hx]; [eauto|]. congruence.
    - split; [|congruence]. destruct (mem h !! mp) as [c|]; [|done]. destruct Hi as [x Hx]; [eauto|]. congruence. }
  split; [exact Hok2|done| |by apply malloc_fresh in Hs|done].
  unfold same_but_links in *. cbn [mem set_mem] in *. rewrite <- Hs2, !fmap_insert, <- Hs1, fmap_insert. done.
Qed.

Lemma mounted_quiet h h' s mp mountpoint :
  same_but_links
    (<[mp:=string_chunk junk mp mountpoint]>
      (<[s:=set_name (name_const (lit "struct slowfs")) (new_chunk junk sizeof_slowfs)]> (mem h))) (mem h') →
  mp ≠ s → is_Some (mem h' !! s) ∧ quiet (mem h') [s; mp].
Proof.
  intros Hsame Hne.
  assert (∀ x c, <[mp:=string_chunk junk mp mountpoint]>
      (<[s:=set_name (name_const (lit "struct slowfs")) (new_chunk junk sizeof_slowfs)]> (mem h)) !! x = Some c →
    tc_refs c = None → tc_destructor c = None → tc_flag_loop c = false → tc_flag_free c = false →
    ∃ ch, mem h' !! x = Some ch ∧ tc_refs ch = None ∧ tc_destructor ch = None
          ∧ tc_flag_loop ch = false ∧ tc_flag_free ch = false) as Hx.
  { intros x c Hc H1 H2 H3 H4. destruct (same_lookup _ _ x c Hsame Hc) as (ch & Hch & Es). exists ch.
    split; [done|]. unfold strip in Es. destruct c, ch. cbn in *. by injection Es as <- <- <- <- <- <- <-. }
  assert (quiet (mem h') [s; mp]) as Hq.
  { intros x [->|Hmp%list_elem_of_singleton]%elem_of_cons; [|subst x].
    - eapply Hx; [by rewrite lookup_insert_ne, lookup_insert_eq|done..].
    - eapply Hx; [by rewrite lookup_insert_eq|done..]. }
  split; [|done]. destruct (Hq s) as (ch & Hch & _); [by left|eauto].
Qed.

(** Freeing the file system's chunk gives back the heap before the mount. *)
Lemma mounted_free h h' K s mp mountpoint :
  heap_ok h K → mounted h h' K s mp mountpoint → (2 < fuel)%nat →
  ∃ m', talloc_free user_dtor fuel (Some s) h' = Ok (0, set_mem m' h) ∧
    heap_ok (set_mem m' h) K ∧ same_but_links (mem h) m'.
Proof.
  intros Hok [Hok' Henv Hsame Hs [Hmp Hne]] Hfuel. pose proof (h_tree _ _ Hok) as Ht.
  set (K1 := alloc_children h K None s) in *.
  assert (K s = []) as Hks.
  { destruct (K s) as [|x l] eqn:E; [done|]. destruct (t_live _ _ Ht s x); [rewrite E; by left|congruence]. }
  assert (K mp = []) as Hkm.
  { destruct (K mp) as [|x l] eqn:E; [done|]. destruct (t_live _ _ Ht mp x); [rewrite E; by left|congruence]. }
  assert (is_root K s) as Hrs. { intros q Hq. destruct (child_live _ _ Ht q s Hq). congruence. }
  assert (is_root K mp) as Hrm. { intros q Hq. destruct (child_live _ _ Ht q mp Hq). congruence. }
  assert (∀ q, null_context h = Some q → q ∉ [s; mp]) as Hnull.
  { intros q Hq. destruct (h_null _ _ Hok q Hq) as [c Hc]. rewrite !not_elem_of_cons.
    split_and!; [congruence|congruence|apply not_elem_of_nil]. }
  assert (∀ q, K1 q = if decide (null_context h = Some q) then s :: K q else K q) as HK1.
  { intros q. unfold K1, alloc_children. cbn [context_of]. destruct (null_context h) as [c|].
    - unfold add_child. case_decide; case_decide; simplify_eq; done.
    - by rewrite decide_False. }
  set (K2 := alloc_children _ K1 (Some s) mp) in *.
  assert (null_context h ≠ Some s ∧ null_context h ≠ Some mp) as [Hns Hnm].
  { split; intros Hq; apply (Hnull _ Hq); [by left|right; by left]. }
  assert (∀ q, K2 q = if decide (q = s) then [mp] else K1 q) as HK2.
  { intros q. unfold K2, alloc_children. cbn [context_of]. unfold add_child. case_decide; [|done].
    by rewrite (HK1 s), decide_False, Hks by done. }
  assert (K2 mp = []) as HK2m by (by rewrite HK2, decide_False, HK1, decide_False, Hkm by done).
  assert (sub K2 s [s; mp]) as Hsub.
  { constructor. rewrite HK2, decide_True by done. change [mp] with ([mp] ++ []).
    constructor; [|constructor]. constructor. rewrite HK2m. constructor. }
  assert (∀ q, prune K2 [s; mp] q = K q) as Hprune.
  { intros q. unfold prune. case_decide as Hq.
    { apply elem_of_cons in Hq as [->|Hq%list_elem_of_singleton]; congruence. }
    rewrite !not_elem_of_cons in Hq. destruct Hq as (Hqs & Hqm & _).
    rewrite HK2, decide_False, HK1 by done.
    assert (filter (λ x, x ∉ [s; mp]) (K q) = K q) as Hid.
    { apply filter_all. intros x Hx. rewrite !not_elem_of_cons. split_and!; [..|apply not_elem_of_nil].
      - intros ->. by apply (Hrs q).
      - intros ->. by apply (Hrm q). }
    case_decide; [|done]. rewrite filter_cons_False; [done|]. intros H'. apply H'. by left. }
  destruct (mounted_quiet h h' s mp mountpoint Hsame Hne) as [Hlive Hquiet].
  destruct (talloc_free_subtree_lemma user_dtor h' K2 s [s; mp] fuel Hok' Hlive Hsub Hquiet) as (m' & E & Hok2 & Hf);
    [by rewrite <- Henv|cbn; lia|].
  assert (set_mem m' h' = set_mem m' h) as Heq by (rewrite <- Henv; by destruct h).
  rewrite Heq in E, Hok2. exists m'. split; [done|]. split; [by eapply heap_ok_ext|].
  apply map_eq. intros q. rewrite !lookup_fmap. destruct (decide (q ∈ [s; mp])) as [Hq|Hq].
  - rewrite (proj1 Hf q Hq). apply elem_of_cons in Hq as [->|Hq%list_elem_of_singleton]; [by rewrite Hs|by rewrite Hq, Hmp].
  - rewrite (proj2 Hf q Hq). rewrite !not_elem_of_cons in Hq. destruct Hq as (Hqs & Hqm & _).
    rewrite <- (lookup_fmap _ (mem h')), <- Hsame. rewrite lookup_fmap, !lookup_insert_ne by done. done.
Qed.

(** What [slowfs_mount] leaves on the heap: the file system, or nothing. *)
Definition mount_outcome (h : heap) (K : children) (mountpoint : bytes)
    (r : option slowfs * list fuse_call * heap) : Prop :=
  match r with
  | (None, _, h') => heap_ok h' K ∧ same_but_links (mem h) (mem h') ∧ h' = set_mem (mem h') h
  | (Some fs, _, h') => mounted h h' K (sl_chunk fs) (sl_mountpoint fs) mountpoint
  end.

Lemma out_free_outcome h h' K s mp mountpoint c :
  heap_ok h K → mounted h h' K s mp mountpoint → (2 < fuel)%nat →
  ∃ r, out_free (Some s) c h' = Ok r ∧ mount_outcome h K mountpoint r ∧ r.1 = (None, c).
Proof.
  intros Hok Hm Hf. destruct (mounted_free _ _ _ _ _ _ Hok Hm Hf) as (m' & E & Hok' & Hs).
  unfold out_free. rewrite (M_bind_ok _ _ _ _ _ E). by eexists.
Qed.

(** Everything the library calls answer well. *)
Definition all_succeed (e : fuse_env) : bool :=
  bool_decide (r_mount e ≠ None) && bool_decide (r_new e ≠ None)
  && (r_daemonize e =? 0) && (r_pthread e =? 0).

(** The calls of a mount, up to the one that fails. *)
Definition mount_calls (e : fuse_env) (mountpoint : bytes) : list fuse_call :=
  match r_mount e, r_new e with
  | None, _ => [fuse_mount mountpoint; perror (lit "fuse_mount")]
  | Some _, None => [fuse_mount mountpoint; fuse_new ops; perror (lit "fuse_new")]
  | Some _, Some _ =>
      if negb (r_daemonize e =? 0) then [fuse_mount mountpoint; fuse_new ops; fuse_daemonize; perror (lit "fuse_daemonize")]
      else if negb (r_pthread e =? 0)
      then [fuse_mount mountpoint; fuse_new ops; fuse_daemonize; pthread_create; perror (lit "pthread_create")]
      else [fuse_mount mountpoint; fuse_new ops; fuse_daemonize; pthread_create]
  end.

Lemma slowfs_mount_spec h K e mountpoint :
  heap_ok h K → sizeof_slowfs < MAX_TALLOC_SIZE → Z.of_nat (length mountpoint) + 1 < MAX_TALLOC_SIZE →
  nul_free mountpoint → (∀ h n, is_Some (malloc h n)) → (2 < fuel)%nat →
  ∃ r, slowfs_mount e mountpoint h = Ok r ∧ mount_outcome h K mountpoint r ∧
    r.1.2 = mount_calls e mountpoint ∧ (bool_decide (r.1.1 ≠ None) = all_succeed e).
Proof.
  intros Hok Hsz Hsm Hnul Hmem Hf. destruct (Hmem h (TC_HDR_SIZE wb + sizeof_slowfs)) as [s Hs].
  destruct (mount_alloc h K mountpoint s Hok Hsz Hsm Hnul Hmem Hs) as (h1 & mp & h' & E1 & E2 & Hm).
  unfold slowfs_mount, mount_calls, all_succeed. rewrite (M_bind_ok _ _ _ _ _ E1), (M_bind_ok _ _ _ _ _ E2).
  assert (∀ c, ∃ r, out_free (Some s) c h' = Ok r ∧ mount_outcome h K mountpoint r ∧ r.1.2 = c ∧
    bool_decide (r.1.1 ≠ None) = false) as Hout.
  { intros c. destruct (out_free_outcome h h' K s mp mountpoint c Hok Hm Hf) as (r & E & Ho & Hr).
    exists r. rewrite Hr. by split_and!. }
  destruct (r_mount e) as [chan|]; [|apply Hout].
  destruct (r_new e) as [fuse|]; [|apply Hout].
  destruct (r_daemonize e =? 0); cbn [negb]; [|apply Hout].
  destruct (r_pthread e =? 0); cbn [negb]; [|apply Hout].
  eexists. split; [done|]. by split_and!.
Qed.

Lemma slowfs_unmount_spec h h' K fs mountpoint :
  heap_ok h K → mounted h h' K (sl_chunk fs) (sl_mountpoint fs) mountpoint →
  nul_free mountpoint → (2 < fuel)%nat →
  ∃ m', slowfs_unmount fs h' = Ok ([fuse_exit; fuse_unmount mountpoint; pthread_join], set_mem m' h) ∧
    heap_ok (set_mem m' h) K ∧ same_but_links (mem h) m'.
Proof.
  intros Hok Hm Hnul Hf. destruct (mounted_free _ _ _ _ _ _ Hok Hm Hf) as (m' & E & ? & ?).
  exists m'. split; [|done]. unfold slowfs_unmount.
  destruct (same_lookup _ _ (sl_mountpoint fs) (string_chunk junk (sl_mountpoint fs) mountpoint) (mo_same _ _ _ _ _ _ Hm)) as (c & Hc & Es);
    [by rewrite lookup_insert_eq|].
  assert (tc_data c = Bytes (mountpoint ++ [NUL])) as Hd.
  { unfold strip, string_chunk in Es. destruct c. by injection Es as <- <- <- <- <- <- <-. }
  assert (string_at (sl_mountpoint fs) h' = Ok (mountpoint, h')) as E0.
  { unfold string_at. erewrite fld_bind by done. rewrite Hd. unfold lift. by rewrite cstr_app. }
  by rewrite (M_bind_ok _ _ _ _ _ E0), (M_bind_ok _ _ _ _ _ E).
Qed.
End slowfs.

(** C39 [slowfs_mount_unmount]: with an allocator that does not fail,
    [slowfs_mount] makes the calls in order up to the first that fails.  When one
    fails it returns NULL and the heap is as before; when none does, what it
    returns can, once the thread has run, be given to [slowfs_unmount], which unmounts the same mount point
    and leaves the heap as it was before the mount. *)
Theorem slowfs_mount_unmount wb malloc junk user_dtor sizeof_slowfs fuel h K e mountpoint :
  (∀ h n p, malloc h n = Some p → mem h !! p = None) → (∀ n, length (junk n) = n) →
  (∀ h n, is_Some (malloc h n)) →
  heap_ok h K → sizeof_slowfs < MAX_TALLOC_SIZE → Z.of_nat (length mountpoint) + 1 < MAX_TALLOC_SIZE →
  nul_free mountpoint → (2 < fuel)%nat →
  ∃ r h', slowfs_mount wb malloc junk user_dtor sizeof_slowfs fuel e mountpoint h
          = Ok (r, mount_calls e mountpoint, h') ∧
    match r with
    | None => all_succeed e = false ∧ heap_ok h' K ∧ same_but_links (mem h) (mem h')
    | Some fs => all_succeed e = true ∧ ∀ fuse_loop,
        ∃ h'', slowfs_unmount user_dtor fuel (slowfs_fn fuse_loop fs) h'
               = Ok ([fuse_exit; fuse_unmount mountpoint; pthread_join], h'') ∧
          heap_ok h'' K ∧ same_but_links (mem h) (mem h'')
    end.
Proof.
  intros Hf Hj Hmem Hok Hsz Hsm Hnul Hfuel.
  destruct (slowfs_mount_spec wb malloc junk user_dtor sizeof_slowfs fuel Hf Hj h K e mountpoint
    Hok Hsz Hsm Hnul Hmem Hfuel) as ([[r c] h'] & E & Ho & Hc & Ha). cbn in Hc, Ha. subst c.
  exists r, h'. split; [exact E|]. destruct r as [fs|]; cbn in Ho; (split; [by rewrite <- Ha|]); [|tauto].
  intros fuse_loop.
  destruct (slowfs_unmount_spec junk user_dtor sizeof_slowfs fuel h h' K (slowfs_fn fuse_loop fs) mountpoint
    Hok Ho Hnul Hfuel) as (m' & E' & ? & ?). by exists (set_mem m' h).
Qed.

(** [slowfs_mount_leaks]: when [fuse_mount] succeeds and a later call fails,
    [slowfs_mount] returns NULL without a call of [fuse_unmount]: the mount point
    stays mounted, and the caller has nothing to unmount it with. *)
Theorem slowfs_mount_leaks wb malloc junk user_dtor sizeof_slowfs fuel h K e mountpoint chan :
  (∀ h n p, malloc h n = Some p → mem h !! p = None) → (∀ n, length (junk n) = n) →
  (∀ h n, is_Some (malloc h n)) →
  heap_ok h K → sizeof_slowfs < MAX_TALLOC_SIZE → Z.of_nat (length mountpoint) + 1 < MAX_TALLOC_SIZE →
  nul_free mountpoint → (2 < fuel)%nat →
  r_mount e = Some chan → all_succeed e = false →
  ∃ calls h', slowfs_mount wb malloc junk user_dtor sizeof_slowfs fuel e mountpoint h = Ok (None, calls, h') ∧
    fuse_mount mountpoint ∈ calls ∧ ∀ m, fuse_unmount m ∉ calls.
Proof.
  intros Hf Hj Hmem Hok Hsz Hsm Hnul Hfuel Hm Hbad.
  destruct (slowfs_mount_spec wb malloc junk user_dtor sizeof_slowfs fuel Hf Hj h K e mountpoint
    Hok Hsz Hsm Hnul Hmem Hfuel) as ([[r c] h'] & E & _ & Hc & Ha). cbn in Hc, Ha. rewrite Hbad in Ha.
  apply bool_decide_eq_false in Ha. destruct r as [fs|]; [by destruct Ha|]. exists c, h'. split; [exact E|].
  subst c. unfold mount_calls. rewrite Hm.
  repeat case_match; split; try (by left); intros m Hin;
    repeat (apply elem_of_cons in Hin as [Hin|Hin]; [discriminate Hin|]); by apply elem_of_nil in Hin.
Qed.
