(* ===== verification/SysProg.v ===== *)
(** * The test programs' view of the system (lib/include/test)

    A test program runs against a kernel it cannot see: [kernel] answers each
    call from the calls made so far.  Programs are written in a monad over the
    process: the log of calls and answers, [errno], the counter of utils.h and
    what was printed; they stop by returning from [main] or in [assert]. *)

From S2P Require Import Prelude CString.

Local Open Scope Z_scope.

(** ** Calls and answers *)

(** The calls of the programs ([asprintf] stands for the allocation in it), and
    their stores to memory that is shared with an SPE. *)
Inductive call :=
| SYS_spu_create (name : option bytes) (flags mode : Z) (neighbour : option Z)
| SYS_spu_run (fd : Z) (npc : option Z) (status : bool)
| c_open (path : bytes) (flags : Z)
| c_open_mode (path : bytes) (flags mode : Z)
| c_unlink (path : bytes)
| c_openat (fd : Z) (path : bytes) (flags : Z)
| c_close (fd : Z)
| c_read (fd count : Z)
| c_lseek (fd off whence : Z)
| c_stat (path : bytes)
| c_fstat (fd : Z)
| c_fstatat (fd : Z) (path : bytes)
| c_umask (mode : Z)
| c_kill (pid sig : Z)
| c_write (fd : Z) (data : bytes)
| c_mmap (len prot flags fd off : Z)
| c_sigaction (sig : Z)
| c_socketpair | c_pipe
| c_sysconf | c_calloc (n size : Z) | c_malloc (size : Z)
| c_getdents (fd count : Z)
| c_fork | c_waitpid (pid : Z) | c_ptrace (request pid : Z) | c_raise (sig : Z)
| c_mkdir (path : bytes) (mode : Z) | c_rmdir (path : bytes)
| c_munmap (addr len : Z)
| c_pthread_create | c_pthread_join
| c_spe_context_create (flags : Z) | c_spe_context_destroy (ctx : Z)
| c_getpid | c_getuid | c_gettimeofday
| c_asprintf (text : bytes)
| m_store (addr : Z) (data : bytes).

Record statbuf := Statbuf { st_mode : Z; st_size : Z; st_uid : Z; st_gid : Z; st_nlink : Z }.

(** What a call returns, the [errno] it leaves, what it writes to the memory of
    the caller, and the signals it raises, with their [si_addr]. *)
Record ans := Ans {
  a_rc : Z; a_errno : Z;
  a_npc : Z; a_stat : statbuf; a_data : bytes; a_time : Z * Z;
  a_status : Z; a_signals : list (Z * Z);
}.

Abbreviation event := (call * ans)%type.

(** ** The process *)

Inductive stream := stdout | stderr.

(** The log is in reverse order. *)
Record world := World {
  log : list event; errno : Z; name_i : Z; printed : list (stream * bytes);
}.

(** How a program ends: [return rc] of [main], a failed [assert], a signal,
    undefined behaviour, or a loop that is cut off. *)
Inductive stop := Returned (rc : Z) | Aborted | Killed (sig : Z) | Undefined | Cut.

Definition P (A : Type) : Type := world → (A + stop) * world.

#[global] Instance P_ret : MRet P := λ A a w, (inl a, w).
#[global] Instance P_bind : MBind P := λ A B f m w,
  match m w with (inl a, w) => f a w | (inr s, w) => (inr s, w) end.

(** Leave the program. *)
Definition leave {A} (s : stop) : P A := λ w, (inr s, w).
Definition return_main {A} (rc : Z) : P A := leave (Returned rc).
Definition assert (b : bool) : P unit := if b then mret tt else leave Aborted.

Definition fprintf (f : stream) (s : bytes) : P unit := λ w,
  (inl tt, World (log w) (errno w) (name_i w) (printed w ++ [(f, s)])).
Definition get_errno : P Z := λ w, (inl (errno w), w).

(** [main] as a whole. *)
Definition execute (m : P Z) (w : world) : stop * world :=
  match m w with (inl rc, w) => (Returned rc, w) | (inr s, w) => (s, w) end.

(** [for (x in l) body(x);] *)
Fixpoint for_each {A} (l : list A) (body : A → P unit) : P unit :=
  match l with [] => mret tt | x :: l => body x;; for_each l body end.

Definition EXIT_SUCCESS : Z := 0.
Definition EXIT_FAILURE : Z := 1.

Definition ENOENT : Z := 2.
Definition EBADF : Z := 9.
Definition EFAULT : Z := 14.
Definition EBUSY : Z := 16.
Definition ENODEV : Z := 19.
Definition EINVAL : Z := 22.

Definition O_RDONLY : Z := 0.
Definition O_WRONLY : Z := 1.
Definition O_RDWR : Z := 2.
Definition O_CREAT : Z := 0x40.
Definition SEEK_END : Z := 2.
Definition SIGILL : Z := 4.
Definition SIGBUS : Z := 7.
Definition SIGTERM : Z := 15.
Definition S_IFREG : Z := 0x8000.

(** ** test/spu_syscalls.h *)

Definition SPU_CREATE_EVENTS_ENABLED : Z := 0x0001.
Definition SPU_CREATE_GANG : Z := 0x0002.
Definition SPU_CREATE_NOSCHED : Z := 0x0004.
Definition SPU_CREATE_ISOLATE : Z := 0x0008.
Definition SPU_CREATE_AFFINITY_SPU : Z := 0x0010.
Definition SPU_CREATE_AFFINITY_MEM : Z := 0x0020.

Definition SPE_EVENT_DMA_ALIGNMENT : Z := 0x0008.
Definition SPE_EVENT_SPE_ERROR : Z := 0x0010.
Definition SPE_EVENT_INVALID_DMA : Z := 0x0800.

(** ** test/utils.h: the formats "%s/ctx-%05d-%03d" and "/spu/gang-%05d-%03d" *)

Definition context_name (gang : bytes) (pid i : Z) : bytes :=
  gang ++ lit "/ctx-" ++ zero_pad 5 (fmt_d pid) ++ lit "-" ++ zero_pad 3 (fmt_d i).

Definition gang_name (pid i : Z) : bytes :=
  lit "/spu/gang-" ++ zero_pad 5 (fmt_d pid) ++ lit "-" ++ zero_pad 3 (fmt_d i).

(** ** test/hw.h *)

Definition LS_SIZE : Z := 0x40000.

Section system.
(** What the kernel answers to a call after a log, and the text of an
    [errno]. *)
Context (kernel : list event → call → ans) (strerror : Z → bytes).

Definition sys (c : call) : P ans := λ w,
  let a := kernel (log w) c in
  (inl a, World ((c, a) :: log w) (a_errno a) (name_i w) (printed w)).

Definition sys_rc (c : call) : P Z := a ← sys c; mret (a_rc a).

Definition perror (s : bytes) : P unit :=
  e ← get_errno; fprintf stderr (s ++ lit ": " ++ strerror e ++ [newline_c]).

(** [mode] is followed by the descriptor of a neighbour when the flags ask for
    one; [va_arg] of a missing argument is undefined. *)
Definition spu_create (name : option bytes) (flags mode : Z) (va : option Z) : P Z :=
  if negb (Z.land flags SPU_CREATE_AFFINITY_SPU =? 0) then
    match va with
    | None => leave Undefined
    | Some fd => rc ← sys_rc (SYS_spu_create name flags mode (Some fd)); mret (wraps 32 rc)
    end
  else rc ← sys_rc (SYS_spu_create name flags mode None); mret (wraps 32 rc).

(** The result, and the new value of [*npc]. *)
Definition spu_run (fd : Z) (npc : option Z) (status : bool) : P (Z * Z) :=
  a ← sys (SYS_spu_run fd npc status); mret (wraps 32 (a_rc a), wrapu 32 (a_npc a)).

Definition count_spes : P Z :=
  a ← sys (c_stat (lit "/sys/devices/system/spu"));
  assert (a_rc a =? 0);; mret (wraps 32 (st_nlink (a_stat a) - 2)).

(** *** test/utils.h *)

Definition next_name_i : P Z := λ w,
  (inl (name_i w), World (log w) (errno w) (wraps 32 (name_i w + 1)) (printed w)).

Definition name_spu_context (gang_name : option bytes) : P bytes :=
  let gang_name := default (lit "/spu") gang_name in
  pid ← sys_rc c_getpid; i ← next_name_i;
  let name := context_name gang_name pid i in
  rc ← sys_rc (c_asprintf name); assert (negb (rc =? -1));; mret name.

Definition name_spu_gang : P bytes :=
  pid ← sys_rc c_getpid; i ← next_name_i;
  let name := gang_name pid i in
  rc ← sys_rc (c_asprintf name); assert (negb (rc =? -1));; mret name.

(** *** test/timing.h *)

(** The microseconds are printed as three digits of milliseconds. *)
Definition timer_start : P (Z * Z) := a ← sys c_gettimeofday; mret (a_time a).

(** The time between two answers of [gettimeofday]. *)
Definition elapsed (start now : Z * Z) : bytes :=
  let '(sec, usec) := now in
  let '(sec, usec) := if usec <? start.2 then (sec - 1, usec + 1000000) else (sec, usec) in
  fmt_d (sec - start.1) ++ lit "." ++ zero_pad 3 (fmt_d (Z.quot (usec - start.2) 1000)) ++ [newline_c].

Definition timer_stop_and_print (start : Z * Z) : P unit :=
  a ← sys c_gettimeofday; fprintf stdout (elapsed start (a_time a)).
End system.

(** ** Processes

    A history has the events of all processes, with the process of each, the newest
    first; these are the events of one, in order. *)

Definition events_of (p : nat) (h : list (nat * event)) : list event :=
  map snd (filter (λ x, x.1 = p) (rev h)).

Lemma events_of_cons p q e h :
  events_of p ((q, e) :: h) = events_of p h ++ (if decide (q = p) then [e] else []).
Proof.
  unfold events_of. cbn [rev]. rewrite filter_app, map_app, filter_cons. cbn [fst]. by case_decide.
Qed.

Lemma events_of_other p h : Forall (λ x : nat * event, x.1 ≠ p) h → events_of p h = [].
Proof.
  induction 1 as [|[q e] h Hq Hh IH]; [done|]. rewrite events_of_cons, IH. cbn. by case_decide.
Qed.
