(* ===== verification/Runs.v ===== *)
(** * Runs of a step relation

    The programs that take steps in any order are relations on states; these are
    the ways to prove what holds of all their runs, or of one. *)

From stdpp Require Import relations.
From S2P Require Import Prelude.

Local Open Scope Z_scope.

Section runs.
Context {S : Type} (step : S → S → Prop).

(** Whatever step is taken next, a state with [P] comes. *)
Inductive inevitably (P : S → Prop) (s : S) : Prop :=
| in_now : P s → inevitably P s
| in_later : (∃ s', step s s') → (∀ s', step s s' → inevitably P s') → inevitably P s.

(** A measure that goes down with every step. *)
Lemma inevitably_measure (inv : Z → S → Prop) (P : S → Prop) :
  (∀ n s, inv n s → 0 ≤ n ∧
     (P s ∨ (∃ s', step s s') ∧ ∀ s', step s s' → ∃ n', n' < n ∧ inv n' s')) →
  ∀ n s, inv n s → inevitably P s.
Proof.
  intros H n. induction (Z.lt_wf 0 n) as [n _ IH]. intros s Hs.
  destruct (H n s Hs) as [Hn [HP|[Hp Hst]]]; [by apply in_now|]. apply in_later; [done|].
  intros s' Hs'. destruct (Hst s' Hs') as (n' & Hlt & Hi). destruct (H n' s' Hi) as [Hn' _].
  apply (IH n'); [by split|done].
Qed.

(** Some run comes to a state with [P]. *)
Lemma possibly_measure (inv : Z → S → Prop) (P : S → Prop) :
  (∀ n s, inv n s → 0 ≤ n ∧ (P s ∨ ∃ s' n', step s s' ∧ n' < n ∧ inv n' s')) →
  ∀ n s, inv n s → ∃ s', rtc step s s' ∧ P s'.
Proof.
  intros H n. induction (Z.lt_wf 0 n) as [n _ IH]. intros s Hs.
  destruct (H n s Hs) as [Hn [HP|(s' & n' & Hst & Hlt & Hi)]]; [by exists s|].
  destruct (H n' s' Hi) as [Hn' _]. destruct (IH n' ltac:(by split) s' Hi) as (s2 & Hs2 & HP). exists s2.
  split; [by eapply rtc_l|done].
Qed.

(** An invariant of the steps. *)
Lemma reachable_invariant (inv : S → Prop) s0 s :
  inv s0 → (∀ s s', inv s → step s s' → inv s') → rtc step s0 s → inv s.
Proof. intros H0 H Hs. induction Hs as [|s1 s2 s3 Hst _ IH]; [done|]. eauto. Qed.

(** An invariant with a measure that may change. *)
Lemma reachable_measured (inv : Z → S → Prop) n0 s0 s :
  inv n0 s0 → (∀ n s s', inv n s → step s s' → ∃ n', inv n' s') → rtc step s0 s → ∃ n, inv n s.
Proof.
  intros H0 H Hs. apply (reachable_invariant (λ s, ∃ n, inv n s) s0 s); [eauto| |done].
  intros s1 s2 [n Hn] Hst. eauto.
Qed.

Lemma inevitably_mono (P Q : S → Prop) s : (∀ s, P s → Q s) → inevitably P s → inevitably Q s.
Proof. intros HPQ H. induction H as [s H|s Hp _ IH]; [by apply in_now, HPQ|by apply in_later]. Qed.

(** What comes inevitably is reached. *)
Lemma inevitably_reached P s : inevitably P s → ∃ s', rtc step s s' ∧ P s'.
Proof.
  induction 1 as [s H|s [s1 Hs] _ IH]; [by exists s|]. destruct (IH s1 Hs) as (s2 & Hr & HP). exists s2. split; [by eapply rtc_l|done].
Qed.

(** What comes inevitably holds at the end of a run that cannot go on. *)
Lemma inevitably_final P s s' : inevitably P s → (∀ s, P s → ∀ t, ¬ step s t) → rtc step s s' → (∀ t, ¬ step s' t) → P s'.
Proof.
  intros H HP Hs Hend. induction Hs as [s|s s1 s2 Hst Hs IH].
  - destruct H as [H|[t Ht] _]; [done|]. by apply Hend in Ht.
  - destruct H as [H|_ H]; [by apply HP in Hst|]. by apply IH; [apply H|].
Qed.
End runs.
