(* ===== verification/SpuIsa.v ===== *)
(** * The machine language of the SPE programs

    The tests carry SPE programs as arrays of instruction words.  This file
    gives the words their meaning: the instructions that occur in the programs
    modelled here, with the formats and the semantics of the SPU instruction set
    architecture (registers of four words, a local store addressed modulo its
    size, of which loads and stores move whole quadwords).  The word of a
    register that decides a branch or leaves it for a channel is the first one.
    An instruction word of another kind leaves the machine stuck. *)

From S2P Require Import Prelude CString SysProg.

Local Open Scope Z_scope.

(** ** Instructions *)

Inductive insn :=
| stop (code : Z)
| nop
| il (rt i : Z)                (* load a constant into the four words *)
| fsmbi (rt mask : Z)          (* a byte of ones for each bit *)
| ai (rt ra i : Z)
| ceq (rt ra rb : Z)           (* all ones where the words are equal *)
| ceqi (rt ra i : Z)
| lqa (rt a : Z)               (* load, store a quadword *)
| stqa (rt a : Z)
| br (off : Z)                 (* branch, relative to the instruction *)
| brz (rt off : Z)
| brnz (rt off : Z)
| shlqbyi (rt ra n : Z)        (* shift a quadword left by bytes *)
| ila (rt i : Z)               (* load an address into the four words *)
| shufb (rt ra rb rc : Z)      (* pick bytes of two quadwords *)
| rdch (rt ch : Z)             (* read, write a channel *)
| wrch (rt ch : Z).

#[global] Instance insn_eq_dec : EqDecision insn.
Proof. solve_decision. Defined.

(** Bits [lo], ..., [lo + n - 1] of a word. *)
Definition field (lo n w : Z) : Z := Z.land (Z.shiftr w lo) (Z.ones n).

Definition f_rt (w : Z) : Z := field 0 7 w.
Definition f_ra (w : Z) : Z := field 7 7 w.
Definition f_rb (w : Z) : Z := field 14 7 w.
Definition f_i10 (w : Z) : Z := wraps 10 (field 14 10 w).
(** The target of an instruction with four operands, whose third source is where the
    others have their target. *)
Definition f_rt4 (w : Z) : Z := field 21 7 w.
Definition f_i16 (w : Z) : Z := wraps 16 (field 7 16 w).

(** By the opcode of eleven, nine, eight, seven or four bits. *)
Definition decode (w : Z) : option insn :=
  if field 21 11 w =? 0x000 then Some (stop (field 0 14 w))
  else if field 21 11 w =? 0x201 then Some nop
  else if field 21 11 w =? 0x00D then Some (rdch (f_rt w) (f_ra w))
  else if field 21 11 w =? 0x10D then Some (wrch (f_rt w) (f_ra w))
  else if field 21 11 w =? 0x1FF then Some (shlqbyi (f_rt w) (f_ra w) (f_rb w))
  else if field 21 11 w =? 0x3C0 then Some (ceq (f_rt w) (f_ra w) (f_rb w))
  else if field 23 9 w =? 0x081 then Some (il (f_rt w) (f_i16 w))
  else if field 23 9 w =? 0x065 then Some (fsmbi (f_rt w) (field 7 16 w))
  else if field 23 9 w =? 0x061 then Some (lqa (f_rt w) (4 * f_i16 w))
  else if field 23 9 w =? 0x041 then Some (stqa (f_rt w) (4 * f_i16 w))
  else if field 23 9 w =? 0x064 then Some (br (4 * f_i16 w))
  else if field 23 9 w =? 0x040 then Some (brz (f_rt w) (4 * f_i16 w))
  else if field 23 9 w =? 0x042 then Some (brnz (f_rt w) (4 * f_i16 w))
  else if field 24 8 w =? 0x1C then Some (ai (f_rt w) (f_ra w) (f_i10 w))
  else if field 24 8 w =? 0x7C then Some (ceqi (f_rt w) (f_ra w) (f_i10 w))
  else if field 25 7 w =? 0x21 then Some (ila (f_rt w) (field 7 18 w))
  else if field 28 4 w =? 0xB then Some (shufb (f_rt4 w) (f_ra w) (f_rb w) (f_rt w))
  else None.

(** ** The machine *)

(** A register: four words, the first one is the preferred slot. *)
Record quad := Quad { q0 : Z; q1 : Z; q2 : Z; q3 : Z }.

#[global] Instance quad_eq_dec : EqDecision quad.
Proof. solve_decision. Defined.

Definition splat (x : Z) : quad := Quad x x x x.
Definition qmap (f : Z → Z) (a : quad) : quad := Quad (f (q0 a)) (f (q1 a)) (f (q2 a)) (f (q3 a)).
Definition qmap2 (f : Z → Z → Z) (a b : quad) : quad :=
  Quad (f (q0 a) (q0 b)) (f (q1 a) (q1 b)) (f (q2 a) (q2 b)) (f (q3 a) (q3 b)).

(** A quadword as a number. *)
Definition quad_Z (a : quad) : Z := ((q0 a * 2 ^ 32 + q1 a) * 2 ^ 32 + q2 a) * 2 ^ 32 + q3 a.
Definition Z_quad (x : Z) : quad := Quad (field 96 32 x) (field 64 32 x) (field 32 32 x) (field 0 32 x).

(** The count has five bits. *)
Definition shift_left (n : Z) (a : quad) : quad := Z_quad (wrapu 128 (Z.shiftl (quad_Z a) (8 * wrapu 5 n))).

(** What a comparison leaves in a word. *)
Definition mask (b : bool) : Z := if b then 0xFFFFFFFF else 0.

(** The word of [fsmbi] for four bits of its mask. *)
Definition byte_mask (b : Z) : Z :=
  let bit i := if Z.testbit b i then 0xFF else 0 in
  bit 3 * 2 ^ 24 + bit 2 * 2 ^ 16 + bit 1 * 2 ^ 8 + bit 0.

Definition fsmbi_quad (m : Z) : quad :=
  Quad (byte_mask (field 12 4 m)) (byte_mask (field 8 4 m)) (byte_mask (field 4 4 m)) (byte_mask (field 0 4 m)).

(** The bytes of a quadword, the first one is the most significant. *)
Definition word_bytes (w : Z) : list Z := [field 24 8 w; field 16 8 w; field 8 8 w; field 0 8 w].
Definition quad_bytes (a : quad) : list Z :=
  word_bytes (q0 a) ++ word_bytes (q1 a) ++ word_bytes (q2 a) ++ word_bytes (q3 a).

(** What a byte of the pattern of [shufb] stands for. *)
Definition shuffle_byte (src : list Z) (c : Z) : Z :=
  if field 6 2 c =? 2 then 0
  else if field 5 3 c =? 6 then 0xFF
  else if field 5 3 c =? 7 then 0x80
  else nth (Z.to_nat (field 0 5 c)) src 0.

Definition shuffle_word (src : list Z) (w : Z) : Z := fold_left (λ acc c, 256 * acc + shuffle_byte src c) (word_bytes w) 0.

Definition shuffle (a b c : quad) : quad := qmap (shuffle_word (quad_bytes a ++ quad_bytes b)) c.

(** The local store by the addresses of its words. *)
Record spu := Spu { regs : Z → quad; ls : Z → Z; pc : Z }.

Definition update {A} (f : Z → A) (i : Z) (x : A) : Z → A := λ j, if j =? i then x else f j.

Definition set_reg (rt : Z) (v : quad) (m : spu) : spu := Spu (update (regs m) rt v) (ls m) (pc m).
Definition set_pc (p : Z) (m : spu) : spu := Spu (regs m) (ls m) p.
Definition set_ls (l : Z → Z) (m : spu) : spu := Spu (regs m) l (pc m).

(** Addresses of instructions and of quadwords. *)
Definition ls_addr (a : Z) : Z := Z.land a (LS_SIZE - 4).
Definition ls_quad (a : Z) : Z := Z.land a (LS_SIZE - 16).

Definition quad_at (l : Z → Z) (a : Z) : quad :=
  let a := ls_quad a in Quad (l a) (l (a + 4)) (l (a + 8)) (l (a + 12)).

Definition put_quad (l : Z → Z) (a : Z) (v : quad) : Z → Z :=
  let a := ls_quad a in
  update (update (update (update l a (q0 v)) (a + 4) (q1 v)) (a + 8) (q2 v)) (a + 12) (q3 v).

(** A step: the next state, a stop with its code and the address after it, a
    channel whose word comes from outside, or one that takes a word. *)
Inductive outcome :=
| Next (m : spu)
| Stopped (code : Z) (m : spu)
| Reads (ch : Z) (k : Z → spu)
| Writes (ch x : Z) (m : spu)
| Stuck.

Definition next_pc (m : spu) : Z := ls_addr (pc m + 4).
Definition goes_on (m : spu) : outcome := Next (set_pc (next_pc m) m).
Definition target (off : Z) (m : spu) : Z := ls_addr (pc m + off).

Definition exec (i : insn) (m : spu) : outcome :=
  let reg r := regs m r in
  match i with
  | stop code => Stopped code (set_pc (next_pc m) m)
  | nop => goes_on m
  | il rt i => goes_on (set_reg rt (splat (wrapu 32 i)) m)
  | fsmbi rt b => goes_on (set_reg rt (fsmbi_quad b) m)
  | ai rt ra i => goes_on (set_reg rt (qmap (λ x, wrapu 32 (x + i)) (reg ra)) m)
  | ceq rt ra rb => goes_on (set_reg rt (qmap2 (λ x y, mask (x =? y)) (reg ra) (reg rb)) m)
  | ceqi rt ra i => goes_on (set_reg rt (qmap (λ x, mask (x =? wrapu 32 i)) (reg ra)) m)
  | lqa rt a => goes_on (set_reg rt (quad_at (ls m) a) m)
  | stqa rt a => goes_on (set_ls (put_quad (ls m) a (reg rt)) m)
  | br off => Next (set_pc (target off m) m)
  | brz rt off => if q0 (reg rt) =? 0 then Next (set_pc (target off m) m) else goes_on m
  | brnz rt off => if q0 (reg rt) =? 0 then goes_on m else Next (set_pc (target off m) m)
  | shlqbyi rt ra n => goes_on (set_reg rt (shift_left n (reg ra)) m)
  | ila rt i => goes_on (set_reg rt (splat i) m)
  | shufb rt ra rb rc => goes_on (set_reg rt (shuffle (reg ra) (reg rb) (reg rc)) m)
  | wrch rt ch => Writes ch (q0 (reg rt)) (set_pc (next_pc m) m)
  | rdch rt ch => Reads ch (λ x, set_pc (next_pc m) (set_reg rt (Quad x 0 0 0) m))
  end.

Definition spu_step (m : spu) : outcome :=
  match decode (ls m (pc m)) with Some i => exec i m | None => Stuck end.

(** The channel of the mailbox to the SPE. *)
Definition SPU_RdInMbox : Z := 29.

(** The status of [spu_run] for a stop instruction. *)
Definition stop_status (code : Z) : Z := Z.lor (Z.shiftl code 16) 0x2.

(** ** Programs in local store *)

(** The words of [l] from the address [a] on, over [s]. *)
Fixpoint load (s : Z → Z) (a : Z) (l : list Z) : Z → Z :=
  match l with [] => s | w :: l => load (update s a w) (a + 4) l end.

Definition empty_ls : Z → Z := λ _, 0.

(** A new context: its registers and its local store are clear. *)
Definition reset (l : Z → Z) (entry : Z) : spu := Spu (λ _, splat 0) l entry.

Lemma load_outside s a l b : b < a ∨ a + 4 * Z.of_nat (length l) ≤ b → load s a l b = s b.
Proof.
  revert s a. induction l as [|w l IH]; intros s a; cbn [load length]; [done|]. intros Hb.
  rewrite IH by lia. unfold update. rewrite (proj2 (Z.eqb_neq _ _)) by lia. done.
Qed.

Lemma load_inside s a l i w : l !! i = Some w → load s a l (a + 4 * Z.of_nat i) = w.
Proof.
  revert s a i. induction l as [|x l IH]; intros s a i; [done|]. cbn [load]. destruct i as [|i]; cbn [lookup list_lookup].
  - intros [= ->]. rewrite load_outside by lia. unfold update. rewrite Z.mul_0_r, Z.add_0_r, Z.eqb_refl. done.
  - intros H. rewrite <- (IH (update s a x) (a + 4) i H). f_equal. lia.
Qed.

(** ** Runs *)

(** What a run does: it goes on, after the words it has read from the mailbox. *)
Inductive spu_steps : spu → list Z → spu → Prop :=
| steps_refl m : spu_steps m [] m
| steps_next m m1 ms m' : spu_step m = Next m1 → spu_steps m1 ms m' → spu_steps m ms m'
| steps_reads m k x ms m' :
    spu_step m = Reads SPU_RdInMbox k → spu_steps (k x) ms m' → spu_steps m (x :: ms) m'.

(** The run with the words [ms] in the mailbox stops: with a code, in a state,
    and with words left. *)
Definition spu_stops (m : spu) (ms : list Z) (code : Z) (m' : spu) (rest : list Z) : Prop :=
  ∃ read m1, ms = read ++ rest ∧ spu_steps m read m1 ∧ spu_step m1 = Stopped code m'.

(** The run as a function, with the words in the mailbox. *)
Inductive run_result :=
| Halted (code : Z) (m : spu) (rest : list Z)
| Starved (m : spu)            (* it waits for a word *)
| Running (m : spu)            (* cut off *)
| Illegal (m : spu).

Fixpoint spu_run_fuel (n : nat) (m : spu) (ms : list Z) : run_result :=
  match n with
  | O => Running m
  | S n =>
      match spu_step m with
      | Next m' => spu_run_fuel n m' ms
      | Stopped code m' => Halted code m' ms
      | Reads ch k =>
          if ch =? SPU_RdInMbox then
            match ms with [] => Starved m | x :: ms => spu_run_fuel n (k x) ms end
          else Illegal m
      | Writes _ _ _ | Stuck => Illegal m
      end
  end.

Lemma spu_steps_trans m1 a m2 b m3 : spu_steps m1 a m2 → spu_steps m2 b m3 → spu_steps m1 (a ++ b) m3.
Proof.
  intros H. revert m3 b. induction H; intros m3 b H3; [done|..].
  - eapply steps_next; eauto.
  - eapply steps_reads; eauto.
Qed.

(** A run of the function is a run of the machine, and stays one with more
    fuel. *)
Lemma spu_run_fuel_halts n m ms code m' rest :
  spu_run_fuel n m ms = Halted code m' rest → spu_stops m ms code m' rest.
Proof.
  revert m ms. induction n as [|n IH]; intros m ms; cbn [spu_run_fuel]; [done|].
  destruct (spu_step m) as [m1|c m1|ch k|ch x m1|] eqn:E; try done.
  - intros (rd & m2 & -> & H & Hs)%IH. exists rd, m2. split; [done|]. split; [by eapply steps_next|done].
  - intros [= -> -> ->]. exists [], m. split; [done|]. by split; [constructor|].
  - destruct (Z.eqb_spec ch SPU_RdInMbox) as [->|]; [|done]. destruct ms as [|x ms]; [done|].
    intros (rd & m2 & -> & H & Hs)%IH. exists (x :: rd), m2. split; [done|]. split; [by eapply steps_reads|done].
Qed.

(** The machine is deterministic. *)
Lemma spu_stops_det m ms c1 m1 r1 c2 m2 r2 :
  spu_stops m ms c1 m1 r1 → spu_stops m ms c2 m2 r2 → c1 = c2 ∧ m1 = m2 ∧ r1 = r2.
Proof.
  intros (rd & m1' & E1 & H1 & S1) (rd2 & m2' & E2 & H2 & S2). revert ms rd2 E1 E2 H2.
  induction H1 as [m|m ma rd ma' Hn H IH|m k x rd ma' Hr H IH]; intros ms rd2 E1 E2 H2.
  - inversion H2; subst; [|congruence..]. cbn in E2. subst. by rewrite S1 in S2; simplify_eq.
  - inversion H2; subst; [congruence| |congruence]. rewrite Hn in *. simplify_eq. by eapply IH.
  - inversion H2; subst; [congruence..|]. rewrite Hr in *. simplify_eq. by eapply IH.
Qed.

(** ** Up to the next word from outside

    [settles_in n m m']: after [n] instructions the machine is in [m'], where it
    reads a channel, stops or is stuck. *)

Inductive settles_in : nat → spu → spu → Prop :=
| settled m : (∀ m', spu_step m ≠ Next m') → settles_in 0 m m
| settling n m m1 m' : spu_step m = Next m1 → settles_in n m1 m' → settles_in (S n) m m'.

Lemma settles_next n m m' m1 :
  settles_in n m m' → spu_step m = Next m1 → ∃ n', n = S n' ∧ settles_in n' m1 m'.
Proof. destruct 1 as [m H|n m m2 m' Hn H]; intros Hs; [by apply H in Hs|]. rewrite Hn in Hs. injection Hs as ->. eauto. Qed.

Lemma settles_not_next n m m' :
  settles_in n m m' → (∀ m1, spu_step m ≠ Next m1) → n = 0%nat ∧ m' = m.
Proof. destruct 1 as [m H|n m m2 m' Hn H]; intros Hs; [done|]. by apply Hs in Hn. Qed.

Lemma settles_steps n m m' : settles_in n m m' → spu_steps m [] m'.
Proof. induction 1; [constructor|by eapply steps_next]. Qed.

(** The machine settles within [n] instructions, in a state that satisfies [Q]. *)
Definition reach (n : nat) (m : spu) (Q : spu → Prop) : Prop :=
  ∃ k m', settles_in k m m' ∧ (k ≤ n)%nat ∧ Q m'.

Lemma reach_done n m (Q : spu → Prop) : (∀ m', spu_step m ≠ Next m') → Q m → reach n m Q.
Proof. intros. exists 0%nat, m. split_and!; [by constructor|lia|done]. Qed.

Lemma reach_next n r l p i m1 (Q : spu → Prop) :
  decode (l p) = Some i → exec i (Spu r l p) = Next m1 → reach n m1 Q → reach (S n) (Spu r l p) Q.
Proof.
  intros Hd He (k & m' & H & Hk & HQ). exists (S k), m'. split_and!; [|lia|done].
  eapply settling; [|done]. unfold spu_step. cbn [ls pc]. by rewrite Hd.
Qed.

Lemma step_exec r l p i : decode (l p) = Some i → spu_step (Spu r l p) = exec i (Spu r l p).
Proof. unfold spu_step. cbn [ls pc]. by intros ->. Qed.

(** *** Programs by their instructions *)

(** The instructions [l] lie at the address [a] of the local store [s]. *)
Definition listed (s : Z → Z) (a : Z) (l : list insn) : Prop :=
  ∀ i x, l !! i = Some x → decode (s (a + 4 * Z.of_nat i)) = Some x.

Lemma listed_load s a ws l : map decode ws = map Some l → listed (load s a ws) a l.
Proof.
  intros E i x Hi. assert (map Some l !! i = Some (Some x)) as H by by rewrite list_lookup_fmap, Hi.
  rewrite <- E, list_lookup_fmap in H. apply fmap_Some in H as (w & Hw & ->). by rewrite (load_inside _ _ _ _ w).
Qed.

Lemma listed_at s a l p x :
  listed s a l → a ≤ p → l !! Z.to_nat ((p - a) / 4) = Some x → (p - a) mod 4 = 0 → decode (s p) = Some x.
Proof.
  intros Hl Hp Hx Hm. apply Hl in Hx. rewrite <- Hx. do 2 f_equal.
  rewrite Z2Nat.id by (apply Z.div_pos; lia). pose proof (Z.div_mod (p - a) 4). lia.
Qed.

(** A branch on a register. *)
Lemma reach_brz n r l p rt off (Q : spu → Prop) :
  decode (l p) = Some (brz rt off) →
  (q0 (r rt) = 0 → reach n (Spu r l (ls_addr (p + off))) Q) →
  (q0 (r rt) ≠ 0 → reach n (Spu r l (ls_addr (p + 4))) Q) → reach (S n) (Spu r l p) Q.
Proof.
  intros Hd H1 H2. destruct (Z.eqb_spec (q0 (r rt)) 0) as [E|E].
  - eapply reach_next; [exact Hd| |by apply H1]. cbn. by rewrite (proj2 (Z.eqb_eq _ _) E).
  - eapply reach_next; [exact Hd| |by apply H2]. cbn. by rewrite (proj2 (Z.eqb_neq _ _) E).
Qed.

Lemma reach_brnz n r l p rt off (Q : spu → Prop) :
  decode (l p) = Some (brnz rt off) →
  (q0 (r rt) ≠ 0 → reach n (Spu r l (ls_addr (p + off))) Q) →
  (q0 (r rt) = 0 → reach n (Spu r l (ls_addr (p + 4))) Q) → reach (S n) (Spu r l p) Q.
Proof.
  intros Hd H1 H2. destruct (Z.eqb_spec (q0 (r rt)) 0) as [E|E].
  - eapply reach_next; [exact Hd| |by apply H2]. cbn. by rewrite (proj2 (Z.eqb_eq _ _) E).
  - eapply reach_next; [exact Hd| |by apply H1]. cbn. by rewrite (proj2 (Z.eqb_neq _ _) E).
Qed.

Lemma mask_zero b : mask b = 0 ↔ b = false.
Proof. by destruct b. Qed.

(** The machine is at a stop instruction with this code. *)
Definition stops (code : Z) (m : spu) : Prop := ∃ m', spu_step m = Stopped code m'.

Lemma reach_stops n r l p code (Q : spu → Prop) :
  decode (l p) = Some (stop code) → (stops code (Spu r l p) → Q (Spu r l p)) → reach n (Spu r l p) Q.
Proof.
  intros Hd HQ. apply reach_done.
  - intros m'. by erewrite step_exec by exact Hd.
  - apply HQ. eexists. by erewrite step_exec by exact Hd.
Qed.

(** A store to a quadword that holds no instruction. *)
Lemma listed_put_quad s a l b v :
  listed s a l → ls_quad b + 16 ≤ a → listed (put_quad s b v) a l.
Proof.
  intros H Hb i x Hi. rewrite <- (H i x Hi). f_equal. unfold put_quad, update.
  by rewrite !(proj2 (Z.eqb_neq _ _)) by lia.
Qed.

(** ** Programs that read words

    [St got m]: after the words [got] the machine has settled in [m]. *)

(** The machine reads, stops or goes on. *)
Definition legal (o : outcome) : Prop := match o with Writes _ _ _ | Stuck => False | _ => True end.

Class Acceptor (St : list Z → spu → Prop) (bound : nat) := {
  ac_settled got m m' : St got m → spu_step m ≠ Next m';
  ac_legal got m : St got m → legal (spu_step m);
  ac_reads got m ch f : St got m → spu_step m = Reads ch f →
    ch = SPU_RdInMbox ∧ ∀ x, 0 ≤ x < 2 ^ 32 → reach bound (f x) (St (got ++ [x]));
}.

(** The machine is [n] instructions from where it settles. *)
Definition follows (St : list Z → spu → Prop) (n : nat) (got : list Z) (m : spu) : Prop :=
  ∃ m', settles_in n m m' ∧ St got m'.

Section acceptor.
Context {St : list Z → spu → Prop} {bound : nat} `{!Acceptor St bound}.

Lemma reach_follows n got m : reach n m (St got) → ∃ k, (k ≤ n)%nat ∧ follows St k got m.
Proof. intros (k & m' & H & Hk & HS). exists k. split; [done|]. by exists m'. Qed.

Lemma follows_next n got m m1 : follows St n got m → spu_step m = Next m1 → ∃ k, n = S k ∧ follows St k got m1.
Proof. intros (m' & H & HS) (k & -> & H1)%(settles_next _ _ _ _ H). exists k. split; [done|]. by exists m'. Qed.

Lemma follows_settled n got m : follows St n got m → (∀ m1, spu_step m ≠ Next m1) → n = 0%nat ∧ St got m.
Proof. intros (m' & H & HS) Hn. by apply settles_not_next in H as [-> ->]. Qed.

Lemma follows_reads n got m ch f :
  follows St n got m → spu_step m = Reads ch f →
  n = 0%nat ∧ ch = SPU_RdInMbox ∧
  ∀ x, 0 ≤ x < 2 ^ 32 → ∃ k, (k ≤ bound)%nat ∧ follows St k (got ++ [x]) (f x).
Proof.
  intros H Hr. destruct (follows_settled _ _ _ H ltac:(by rewrite Hr)) as [-> HS].
  destruct (ac_reads _ _ _ _ HS Hr) as [-> Hx]. split_and!; [done..|]. intros x Hw. by apply reach_follows, Hx.
Qed.

Lemma follows_stops n got m code m' :
  follows St n got m → spu_step m = Stopped code m' → n = 0%nat ∧ St got m.
Proof. intros H Hs. apply (follows_settled _ _ _ H). by rewrite Hs. Qed.

Lemma follows_legal n got m : follows St n got m → legal (spu_step m).
Proof.
  intros (m' & [m1 Hs|k m1 m2 m3 Hn _] & HS); [by apply (ac_legal _ _ HS)|by rewrite Hn].
Qed.

(** A run alone. *)
Lemma follows_steps n got m ms m' :
  follows St n got m → spu_steps m ms m' → Forall (λ x, 0 ≤ x < 2 ^ 32) ms →
  ∃ k, follows St k (got ++ ms) m'.
Proof.
  intros H Hs. revert n got H. induction Hs as [m|m m1 ms m' Hn _ IH|m f x ms m' Hr _ IH]; intros n got H Hw.
  - exists n. by rewrite app_nil_r.
  - apply (follows_next _ _ _ _ H) in Hn as (k & _ & H1). by eapply IH.
  - apply Forall_cons in Hw as [Hx Hw]. destruct (follows_reads _ _ _ _ _ H Hr) as (_ & _ & Hf).
    destruct (Hf x Hx) as (k & _ & H1). destruct (IH _ _ H1 Hw) as [j Hj]. exists j. by rewrite <- app_assoc in Hj.
Qed.

Lemma acceptor_stops n m ms code m' rest :
  reach n m (St []) → spu_stops m ms code m' rest → Forall (λ x, 0 ≤ x < 2 ^ 32) ms →
  ∃ got m1, ms = got ++ rest ∧ St got m1 ∧ spu_step m1 = Stopped code m'.
Proof.
  intros (k & _ & H)%reach_follows (got & m1 & -> & Hs & Hst) [Hw _]%Forall_app.
  destruct (follows_steps _ _ _ _ _ H Hs Hw) as [j Hj]. exists got, m1. split_and!; try done.
  by destruct (follows_stops _ _ _ _ _ Hj Hst).
Qed.
End acceptor.

(** A run that reaches a waiting state goes on from there. *)
Lemma stops_after m1 read m2 ms code m' rest :
  spu_steps m1 read m2 → spu_stops m2 ms code m' rest → spu_stops m1 (read ++ ms) code m' rest.
Proof.
  intros H (rd & m3 & -> & H3 & Hs). exists (read ++ rd), m3. rewrite <- app_assoc. split; [done|].
  split; [by eapply spu_steps_trans|done].
Qed.

Lemma stops_reads m f x ms code m' rest :
  spu_step m = Reads SPU_RdInMbox f → spu_stops (f x) ms code m' rest → spu_stops m (x :: ms) code m' rest.
Proof.
  intros Hr (rd & m3 & -> & H3 & Hs). exists (x :: rd), m3. split; [done|]. split; [by eapply steps_reads|done].
Qed.

Lemma stops_here m ms code : stops code m → ∃ m', spu_stops m ms code m' ms.
Proof. intros [m' H]. exists m', [], m. split; [done|]. by split; [constructor|]. Qed.

Lemma reach_stops_after n m (Q : spu → Prop) ms code rest :
  reach n m Q → (∀ m1, Q m1 → ∃ m', spu_stops m1 ms code m' rest) → ∃ m', spu_stops m ms code m' rest.
Proof.
  intros (k & m1 & Hk & _ & HQ) H. destruct (H m1 HQ) as [m' Hm]. exists m'.
  apply (stops_after m [] m1 ms); [by eapply settles_steps|done].
Qed.
