(* ===== verification/SpuCode.v ===== *)
(** * The SPE programs of the threaded tests

    The programs of 09-mailbox, 20-scheduler, 07-lsmap/04-ppe-running and
    08-reg-file/02-reschedule as the tests have them, their instructions, and
    what each does with the words it gets. *)

From S2P Require Import Prelude CString SysProg SpuIsa.

Local Open Scope Z_scope.

(** ** The words *)

Definition mbox_single_program : list Z := [0x01a00e80; 0x00001337].

(** 02-mbox-multiple and 03-mbox-multiple+sched. *)
Definition mbox_multiple_program : list Z := [
  0x32f80002; 0x40800000;
  0x01a00e81;
  0x78008083; 0x20000103; 0x00001337;
  0x78000083; 0x1c004000; 0x217ffd03; 0x00000000
].

(** sched_multiple: the first quadword is a counter. *)
Definition sched_multiple_program : list Z := [
  0x0000000; 0x0000000; 0x0000000; 0x0000000;
  0x40800007; 0x32f80005; 0x01a00e83;
  0x01a00e84; 0x1c004387; 0x20800007;
  0x78010286; 0x20000106; 0x00001337;
  0x78010188; 0x217ffc88; 0x00000000
].

(** ** Their instructions *)

Definition mbox_single_listing : list insn := [rdch 0 29; stop 0x1337].

Definition mbox_multiple_listing : list insn := [
  fsmbi 2 0xf000; il 0 0;
  rdch 1 29;
  ceq 3 1 2; brz 3 8; stop 0x1337;
  ceq 3 1 0; ai 0 0 1; brnz 3 (-24); stop 0
].

(** From the entry 0x10. *)
Definition sched_multiple_listing : list insn := [
  il 7 0; fsmbi 5 0xf000; rdch 3 29;
  rdch 4 29; ai 7 7 1; stqa 7 0;
  ceq 6 5 4; brz 6 8; stop 0x1337;
  ceq 8 3 4; brnz 8 (-28); stop 0
].

Lemma mbox_single_listed : listed (load empty_ls 0 mbox_single_program) 0 mbox_single_listing.
Proof. by apply listed_load. Qed.

Lemma mbox_multiple_listed : listed (load empty_ls 0 mbox_multiple_program) 0 mbox_multiple_listing.
Proof. by apply listed_load. Qed.

Lemma sched_multiple_listed s : listed (load s 0 sched_multiple_program) 0x10 sched_multiple_listing.
Proof.
  change (load s 0 sched_multiple_program)
    with (load (load s 0 (take 4 sched_multiple_program)) 0x10 (drop 4 sched_multiple_program)).
  by apply listed_load.
Qed.

(** The message that ends the sequence. *)
Definition stop_message : Z := 0xFFFFFFFF.

(** The addresses are known numbers. *)
Ltac spu_addresses :=
  match goal with
  | |- reach ?n ?m ?Q =>
      let m' := eval cbv [next_pc target set_reg set_pc set_ls regs ls pc] in m in change (reach n m' Q)
  end;
  repeat match goal with
  | |- context [ls_addr ?a] => let v := eval vm_compute in (ls_addr a) in change (ls_addr a) with v
  end.

Ltac spu_decode H :=
  eapply (listed_at _ _ _ _ _ H); [lia|vm_compute; reflexivity|vm_compute; reflexivity].

(** Registers, by their numbers. *)
Ltac spu_registers :=
  repeat match goal with
  | |- context [update ?f ?i ?x ?j] =>
      let b := eval vm_compute in (Z.eqb j i) in
      lazymatch b with
      | true => change (update f i x j) with x
      | false => change (update f i x j) with (f j)
      end
  end;
  cbn [q0 q1 q2 q3 qmap qmap2 splat].

(** One instruction of a listed program, its address and operands known. *)
Ltac spu_next H :=
  eapply reach_next;
    [ spu_decode H
    | cbv [exec goes_on set_reg set_pc set_ls regs ls pc]; spu_registers; reflexivity
    | spu_addresses ].

Ltac spu_branch lem H :=
  eapply lem; [spu_decode H|spu_registers; intros ?; spu_addresses..].

(** ** A sequence of messages (02-mbox-multiple)

    After the messages 0, ..., [k] - 1 the program waits for the next one; the
    stop message ends it with the stop code 0x1337, any other but [k] with 0. *)

Lemma seqZ_snoc k : 0 ≤ k → seqZ 0 (k + 1) = seqZ 0 k ++ [k].
Proof. intros. rewrite seqZ_app by lia. by rewrite Z.add_0_l. Qed.

(** Where a sequence breaks off. *)
Lemma seqZ_prefix k n x y l :
  0 ≤ k → 0 ≤ n → seqZ 0 k ++ x :: l = seqZ 0 n ++ [y] → (k < n ∧ x = k) ∨ (k = n ∧ x = y ∧ l = []).
Proof.
  intros Hk Hn E. assert (k ≤ n) as Hle.
  { apply (f_equal length) in E. rewrite !length_app, !length_seqZ in E. cbn in E. lia. }
  destruct (Z.eq_dec k n) as [->|].
  - apply app_inv_head in E. injection E as -> ->. by right.
  - left. split; [lia|]. replace n with (k + (1 + (n - k - 1))) in E by lia.
    rewrite seqZ_app, <- app_assoc in E by lia. apply app_inv_head in E. rewrite seqZ_app in E by lia.
    cbn in E. by injection E as ->.
Qed.

Definition mbox_waits (k : Z) (m : spu) : Prop :=
  ∃ r l, m = Spu r l 8 ∧ listed l 0 mbox_multiple_listing ∧ r 0 = splat k ∧ r 2 = fsmbi_quad 0xf000.

Inductive mbox_state (got : list Z) (m : spu) : Prop :=
| mb_waits k : 0 ≤ k < 2 ^ 32 → got = seqZ 0 k → mbox_waits k m → mbox_state got m
| mb_stopped k : 0 ≤ k < 2 ^ 32 → got = seqZ 0 k ++ [stop_message] → stops 0x1337 m → mbox_state got m
| mb_wrong k x : 0 ≤ k < 2 ^ 32 → got = seqZ 0 k ++ [x] → x ≠ k → x ≠ stop_message → stops 0 m → mbox_state got m.

Lemma mbox_start : reach 2 (reset (load empty_ls 0 mbox_multiple_program) 0) (mbox_state []).
Proof.
  pose proof mbox_multiple_listed as H. unfold reset. revert H. generalize (load empty_ls 0 mbox_multiple_program).
  intros l H. spu_next H. spu_next H. apply reach_done.
  - intros m'. by erewrite step_exec by spu_decode H.
  - apply (mb_waits _ _ 0); [lia|done|]. by eexists _, _.
Qed.

Lemma mbox_waits_reads k m :
  mbox_waits k m → ∃ f, spu_step m = Reads SPU_RdInMbox f ∧
  ∀ x, 0 ≤ k < 2 ^ 32 → 0 ≤ x < 2 ^ 32 → reach 7 (f x) (mbox_state (seqZ 0 k ++ [x])).
Proof.
  intros (r & l & -> & H & H0 & H2). eexists. split; [by erewrite step_exec by spu_decode H|]. intros x Hk Hx.
  cbv [next_pc set_reg set_pc regs ls pc]. change (ls_addr (8 + 4)) with 12. spu_next H. rewrite H2.
  change (fsmbi_quad 61440) with (Quad stop_message 0 0 0). cbn [qmap2 q0 q1 q2 q3].
  spu_branch reach_brz H; rewrite mask_zero in *.
  - spu_next H. rewrite H0. cbn [qmap2 splat q0 q1 q2 q3]. spu_next H. rewrite H0. cbn [qmap splat q0 q1 q2 q3].
    spu_branch reach_brnz H; rewrite mask_zero in *.
    + apply reach_done.
      * intros m'. by erewrite step_exec by spu_decode H.
      * assert (x = k) as -> by (destruct (Z.eqb_spec x k); done).
        assert (k ≠ stop_message) by (by apply Z.eqb_neq). unfold stop_message in *.
        apply (mb_waits _ _ (k + 1)); [lia|by rewrite seqZ_snoc by lia|]. eexists _, _. split; [done|]. split; [done|]. spu_registers.
        unfold qmap. cbn [splat q0 q1 q2 q3]. by rewrite wrapu_small by lia.
    + eapply reach_stops; [spu_decode H|]. intros Hs. apply (mb_wrong _ _ k x); try done; by apply Z.eqb_neq.
  - eapply reach_stops; [spu_decode H|]. intros Hs. destruct (Z.eqb_spec x stop_message) as [->|]; [|done].
    by apply (mb_stopped _ _ k).
Qed.

(** A settled state reads, or stops. *)
Ltac acceptor_state :=
  repeat match goal with
  | H : stops _ _ |- _ => destruct H as [? H]
  | H : ?a = Next _, H' : ?a = _ |- _ => rewrite H in H'; discriminate
  | H : ?a = _ |- legal ?a => rewrite H; exact I
  | H : ?a = Reads _ _, H' : ?a = Stopped _ _ |- _ => rewrite H in H'; discriminate
  end.

#[export] Instance mbox_acceptor : Acceptor mbox_state 7.
Proof.
  split.
  - intros got m m' [k _ _ (f & Hf & _)%mbox_waits_reads|k _ _ Hs|k x _ _ _ _ Hs] H; acceptor_state.
  - intros got m [k _ _ (f & Hf & _)%mbox_waits_reads|k _ _ Hs|k x _ _ _ _ Hs]; acceptor_state.
  - intros got m ch f [k Hk -> (f' & Hf & Hx)%mbox_waits_reads|k _ _ Hs|k x _ _ _ _ Hs] H; acceptor_state.
    rewrite Hf in H. injection H as <- <-. eauto.
Qed.

(** What the program does with the words of its mailbox, from the [k]-th on: the
    stop code and the words it has left. *)
Fixpoint in_sequence (k : Z) (ms : list Z) : option (Z * list Z) :=
  match ms with
  | [] => None
  | x :: ms =>
      if x =? stop_message then Some (0x1337, ms)
      else if x =? k then in_sequence (k + 1) ms
      else Some (0, ms)
  end.

Definition is_word (x : Z) : Prop := 0 ≤ x < 2 ^ 32.

Lemma mbox_state_snoc k x m :
  0 ≤ k < 2 ^ 32 → mbox_state (seqZ 0 k ++ [x]) m →
  (x = stop_message ∧ stops 0x1337 m) ∨ (x ≠ stop_message ∧ x ≠ k ∧ stops 0 m) ∨
  (x = k ∧ x ≠ stop_message ∧ k + 1 < 2 ^ 32 ∧ mbox_waits (k + 1) m).
Proof.
  intros Hk [k' Hk' E Hw|k' Hk' E Hs|k' y Hk' E Hy Hys Hs].
  - assert (k' = k + 1) as ->.
    { apply (f_equal length) in E. rewrite length_app, !length_seqZ in E. cbn in E. lia. }
    rewrite seqZ_snoc in E by lia. apply app_inj_tail in E as [_ ->]. right. right. unfold stop_message. split_and!; [done|lia|lia|done].
  - apply app_inj_tail in E as [_ ->]. by left.
  - apply app_inj_tail in E as [E ->]. right. left. split_and!; [done| |done].
    assert (k' = k) as ->; [|done]. apply (f_equal length) in E. rewrite !length_seqZ in E. lia.
Qed.

Lemma mbox_waits_stops k m ms code rest :
  0 ≤ k < 2 ^ 32 → Forall is_word ms → mbox_waits k m → in_sequence k ms = Some (code, rest) →
  ∃ m', spu_stops m ms code m' rest.
Proof.
  intros Hk Hms. revert k m Hk. induction Hms as [|x ms Hx Hms IH]; intros k m Hk Hm; cbn; [done|]. intros E.
  destruct (mbox_waits_reads _ _ Hm) as (f & Hf & Hr). specialize (Hr x Hk Hx).
  assert (∃ m', spu_stops (f x) ms code m' rest) as [m' H]; [|exists m'; by eapply stops_reads].
  eapply reach_stops_after; [exact Hr|]. intros m1 Hm1.
  apply mbox_state_snoc in Hm1 as [[-> Hs]|[(Hn & Hxk & Hs)|(-> & Hn & Hk1 & Hw)]]; [| | |done].
  - rewrite Z.eqb_refl in E. injection E as <- <-. by apply stops_here.
  - rewrite !(proj2 (Z.eqb_neq _ _)) in E by done. injection E as <- <-. by apply stops_here.
  - rewrite (proj2 (Z.eqb_neq k stop_message)), Z.eqb_refl in E by done. apply (IH (k + 1) m1); [lia|done|done].
Qed.

Lemma in_sequence_app k j ms :
  0 ≤ k → 0 ≤ j → k + j ≤ stop_message → in_sequence k (seqZ k j ++ ms) = in_sequence (k + j) ms.
Proof.
  intros Hk Hj. revert k Hk. pattern j. apply natlike_ind; [..|done].
  - intros k _ _. by rewrite Z.add_0_r.
  - clear j Hj. intros j Hj IH k Hk Hs. rewrite seqZ_cons by lia. rewrite Z.pred_succ. cbn [in_sequence app].
    rewrite (proj2 (Z.eqb_neq k stop_message)), Z.eqb_refl by lia. rewrite <- Z.add_1_r. rewrite IH by lia. f_equal. lia.
Qed.

(** [mbox_multiple_accepts]: the program of the mailbox tests, from its first
    instruction with the words [ms] in its mailbox, stops exactly as the
    comparison with 0, 1, 2, ... says: with 0x1337 at the stop message, with 0 at
    the first other word, and not before. *)
Theorem mbox_multiple_accepts ms code rest :
  Forall is_word ms →
  (∃ m', spu_stops (reset (load empty_ls 0 mbox_multiple_program) 0) ms code m' rest) ↔
  in_sequence 0 ms = Some (code, rest).
Proof.
  intros Hms. split.
  - intros [m' H]. destruct (acceptor_stops _ _ _ _ _ _ mbox_start H Hms) as (got & m1 & -> & Hst & Hs).
    destruct Hst as [k Hk _ (f & Hf & _)%mbox_waits_reads|k Hk -> [m2 Hs']|k x Hk -> Hx Hn [m2 Hs']]; [congruence|..];
      rewrite Hs' in Hs; injection Hs as <- _; rewrite <- app_assoc, in_sequence_app by (unfold stop_message; lia);
      cbn [app in_sequence Z.add]; [done|]. by rewrite !(proj2 (Z.eqb_neq _ _)) by done.
  - intros E. eapply reach_stops_after; [exact mbox_start|]. intros m1 [k Hk E0 Hw|k Hk E0 Hs|k x Hk E0 _ _ Hs].
    + destruct (Z.eq_dec k 0) as [->|]; [by eapply mbox_waits_stops|].
      apply (f_equal length) in E0. rewrite length_seqZ in E0. cbn in E0. lia.
    + by destruct (seqZ 0 k).
    + by destruct (seqZ 0 k).
Qed.

(** Three messages in order, the stop message, one more that is not read. *)
Lemma mbox_multiple_accepts_witness :
  in_sequence 0 [0; 1; 2; stop_message; 3] = Some (0x1337, [3]) ∧
  ((∃ m', spu_stops (reset (load empty_ls 0 mbox_multiple_program) 0) [0; 1; 2; stop_message; 3] 0x1337 m' [3]) ↔
   in_sequence 0 [0; 1; 2; stop_message; 3] = Some (0x1337, [3])).
Proof.
  split; [vm_compute; reflexivity|]. apply (mbox_multiple_accepts [0; 1; 2; stop_message; 3]).
  repeat (constructor; [done|]). constructor.
Defined.

(** ** One number again and again (sched_multiple)

    The first word is the number of the thread; the same number any number of
    times and then the stop message end the program with 0x1337. *)

Definition sched_waits_id (m : spu) : Prop :=
  ∃ r l, m = Spu r l 0x18 ∧ listed l 0x10 sched_multiple_listing ∧ r 5 = fsmbi_quad 0xf000.

Definition sched_waits (id : Z) (m : spu) : Prop :=
  ∃ r l, m = Spu r l 0x1c ∧ listed l 0x10 sched_multiple_listing ∧ r 5 = fsmbi_quad 0xf000 ∧ r 3 = Quad id 0 0 0.

Inductive sched_state (got : list Z) (m : spu) : Prop :=
| sc_id : got = [] → sched_waits_id m → sched_state got m
| sc_waits id c : got = id :: replicate c id → sched_waits id m → sched_state got m
| sc_stopped id c : got = id :: replicate c id ++ [stop_message] → stops 0x1337 m → sched_state got m
| sc_wrong id c x : got = id :: replicate c id ++ [x] → x ≠ id → x ≠ stop_message → stops 0 m → sched_state got m.

Lemma sched_start l : listed l 0x10 sched_multiple_listing → reach 2 (reset l 0x10) (sched_state []).
Proof.
  unfold reset.
  intros H. spu_next H. spu_next H. apply reach_done.
  - intros m'. by erewrite step_exec by spu_decode H.
  - apply sc_id; [done|]. by eexists _, _.
Qed.

Lemma sched_waits_id_reads m :
  sched_waits_id m → ∃ f, spu_step m = Reads SPU_RdInMbox f ∧ ∀ x, reach 0 (f x) (sched_state [x]).
Proof.
  intros (r & l & -> & H & H5). eexists. split; [by erewrite step_exec by spu_decode H|]. intros x.
  cbv [next_pc set_reg set_pc regs ls pc]. change (ls_addr (0x18 + 4)) with 0x1c. apply reach_done.
  - intros m'. by erewrite step_exec by spu_decode H.
  - apply (sc_waits _ _ x 0); [done|]. by eexists _, _.
Qed.

Lemma sched_waits_reads id c m :
  sched_waits id m → ∃ f, spu_step m = Reads SPU_RdInMbox f ∧
  ∀ x, reach 9 (f x) (sched_state (id :: replicate c id ++ [x])).
Proof.
  intros (r & l & -> & H & H5 & H3). eexists. split; [by erewrite step_exec by spu_decode H|]. intros x.
  cbv [next_pc set_reg set_pc regs ls pc]. change (ls_addr (0x1c + 4)) with 0x20. spu_next H. spu_next H.
  match goal with |- reach _ (Spu _ ?l2 _) _ => assert (listed l2 0x10 sched_multiple_listing) as H' end.
  { apply listed_put_quad; [done|]. vm_compute. done. }
  revert H'. generalize (put_quad l 0 (qmap (λ x, wrapu 32 (x + 1)) (r 7))). clear l H.
  intros l H. spu_next H. rewrite H5.
  change (fsmbi_quad 61440) with (Quad stop_message 0 0 0). cbn [qmap2 q0 q1 q2 q3].
  spu_branch reach_brz H; rewrite mask_zero in *.
  - assert (x ≠ stop_message) as Hx by (intros ->; done). spu_next H. rewrite H3. cbn [qmap2 q0 q1 q2 q3].
    spu_branch reach_brnz H; rewrite mask_zero in *.
    + assert (x = id) as -> by (destruct (Z.eqb_spec id x); done). apply reach_done.
      * intros m'. by erewrite step_exec by spu_decode H.
      * apply (sc_waits _ _ id (S c)); [by rewrite replicate_S_end|]. by eexists _, _.
    + eapply reach_stops; [spu_decode H|]. intros Hs. apply (sc_wrong _ _ id c x); try done. intros ->. by rewrite Z.eqb_refl in *.
  - eapply reach_stops; [spu_decode H|]. intros Hs. apply (sc_stopped _ _ id c); [|done].
    destruct (Z.eqb_spec stop_message x) as [->|]; done.
Qed.

#[export] Instance sched_acceptor : Acceptor sched_state 9.
Proof.
  split.
  - intros got m m' [_ (f & Hf & _)%sched_waits_id_reads|id c _ (f & Hf & _)%(sched_waits_reads _ 0)|id c _ Hs|id c x _ _ _ Hs] H;
      acceptor_state.
  - intros got m [_ (f & Hf & _)%sched_waits_id_reads|id c _ (f & Hf & _)%(sched_waits_reads _ 0)|id c _ Hs|id c x _ _ _ Hs];
      acceptor_state.
  - intros got m ch f [-> (f' & Hf & Hx)%sched_waits_id_reads|id c -> (f' & Hf & Hx)%(sched_waits_reads _ c)|id c _ Hs|id c x _ _ _ Hs] H;
      acceptor_state; rewrite Hf in H; injection H as <- <-; (split; [done|]); intros x _.
    + destruct (Hx x) as (k & m' & H1 & H2 & H3). exists k, m'. split_and!; [done|lia|done].
    + apply Hx.
Qed.

(** ** One message (01-mbox-single) *)

Inductive single_state (got : list Z) (m : spu) : Prop :=
| si_waits r l : got = [] → m = Spu r l 0 → listed l 0 mbox_single_listing → single_state got m
| si_stopped x : got = [x] → stops 0x1337 m → single_state got m.

Lemma single_start : reach 0 (reset (load empty_ls 0 mbox_single_program) 0) (single_state []).
Proof.
  pose proof mbox_single_listed as H. apply reach_done.
  - intros m'. unfold reset. by erewrite step_exec by spu_decode H.
  - by eapply si_waits.
Qed.

#[export] Instance single_acceptor : Acceptor single_state 0.
Proof.
  split.
  - intros got m m' [r l _ -> Hl|x _ Hs] H; acceptor_state. by erewrite step_exec in H by spu_decode Hl.
  - intros got m [r l _ -> Hl|x _ Hs]; acceptor_state. by erewrite step_exec by spu_decode Hl.
  - intros got m ch f [r l -> -> Hl|x _ Hs] H; acceptor_state. erewrite step_exec in H by spu_decode Hl.
    injection H as <- <-. split; [done|]. intros x _. cbv [next_pc set_reg set_pc regs ls pc].
    change (ls_addr (0 + 4)) with 4. eapply reach_stops; [spu_decode Hl|]. intros Hs. by apply (si_stopped _ _ x).
Qed.
