(* ===== verification/Threads.v ===== *)
(** * Programs of several threads with SPEs

    The threaded tests run PPE threads and SPEs side by side.  A thread is a
    tree of its accesses to what is shared: variables of the program, the local
    stores, the mailboxes, the calls of the system; its loops are labels.  A
    step is one access of a thread or one instruction of an SPE, and any thread
    or SPE may take the next one.  The kernel is a relation between what it is
    asked and what it answers; the mailbox of a context is an instance of
    [Mailbox], which says what a write adds and what the SPE may get. *)

From stdpp Require Import relations.
From S2P Require Import Prelude Runs CString SysProg SpuIsa.

Local Open Scope Z_scope.

(** ** Mailboxes *)

(** [mbox_put x b b']: the kernel takes the word [x]; [mbox_take b x b']: the SPE
    gets [x]. *)
Class Mailbox (box : Type) := {
  mbox_empty : box;
  mbox_put : Z → box → box → Prop;
  mbox_take : box → Z → box → Prop;
}.

(** The words come in the order of the writes, each at most once; some may be
    lost. *)
Class InOrder (box : Type) `{!Mailbox box} := {
  content : box → list Z;
  content_empty : content mbox_empty = [];
  content_put x b b' : mbox_put x b b' → sublist (content b') (content b ++ [x]);
  content_take x b b' : mbox_take b x b' → sublist (x :: content b') (content b);
}.

(** Nothing is lost, an empty mailbox takes a word, and a word that is there can
    be read. *)
Class Reliable (box : Type) `{InOrder box} : Prop := {
  reliable_put x b b' : mbox_put x b b' → content b' = content b ++ [x];
  reliable_take x b b' : mbox_take b x b' → content b = x :: content b';
  reliable_room x b : content b = [] → ∃ b', mbox_put x b b';
  reliable_ready x l b : content b = x :: l → ∃ b', mbox_take b x b';
}.

(** A queue of [cap] words, as the hardware has it. *)
Definition queue_mailbox (cap : nat) : Mailbox (list Z) := {|
  mbox_empty := [];
  mbox_put x b b' := (length b < cap)%nat ∧ b' = b ++ [x];
  mbox_take b x b' := b = x :: b';
|}.

Definition queue_in_order cap : @InOrder (list Z) (queue_mailbox cap).
Proof. refine (@Build_InOrder _ (queue_mailbox cap) id _ _ _); [done|by intros x b b' [_ ->]|by intros x b b' ->]. Defined.

Lemma queue_reliable cap : (0 < cap)%nat → @Reliable (list Z) (queue_mailbox cap) (queue_in_order cap).
Proof.
  intros Hc. split; cbn.
  - by intros x b b' [_ ->].
  - done.
  - intros x b ->. exists [x]. by split.
  - intros x l b ->. by exists l.
Qed.

(** A queue that loses the words that satisfy [drops]. *)
Definition lossy_mailbox (drops : Z → bool) : Mailbox (list Z) := {|
  mbox_empty := [];
  mbox_put x b b' := b' = if drops x then b else b ++ [x];
  mbox_take b x b' := b = x :: b';
|}.

Definition lossy_in_order drops : @InOrder (list Z) (lossy_mailbox drops).
Proof.
  refine (@Build_InOrder _ (lossy_mailbox drops) id _ _ _); [done| |by intros x b b' ->].
  intros x b b' ->. unfold id. destruct (drops x); [by apply sublist_inserts_r|done].
Defined.

(** ** Threads *)

(** What the kernel is asked by a thread that is not an ordinary call: a [write]
    to the file [mem] or to the mailbox of a context, [spu_run] and
    [pthread_create]. *)
Inductive request :=
| r_call (c : call)
| r_mem (words : list Z)
| r_mbox (word : Z)
| r_run
| r_thread.

(** What a kernel answers that does what it is asked. *)
Definition answers_ok (r : request) (a : ans) : Prop :=
  match r with
  | r_call (SYS_spu_create _ _ _ _) => 0 ≤ wraps 32 (a_rc a)
  | r_call (c_openat _ _ _) => 0 < a_rc a
  | r_call (c_mmap _ _ _ _ _) => a_rc a ≠ -1
  | r_call (c_read _ count) => a_rc a = count
  | r_call (c_lseek _ _ _) | r_call c_pipe => a_rc a = 0
  | r_call (c_write _ data) => a_rc a = Z.of_nat (length data)
  | r_call _ => True
  | r_mem ws => a_rc a = 4 * Z.of_nat (length ws)
  | r_mbox _ => a_rc a = 4
  | r_run => 0 ≤ a_rc a
  | r_thread => a_rc a = 0
  end.

#[global] Instance answers_ok_dec r a : Decision (answers_ok r a).
Proof. destruct r as [c| | | |]; [destruct c|..]; cbn [answers_ok]; apply _. Defined.

Section threads.
Context {V L : Type}.

(** [Goto] is the head of a loop, with its variables. *)
Inductive thread :=
| Done
| Return (rc : Z)
| Abort
| Undef                            (* undefined behaviour *)
| Goto (l : L)
| Call (c : call) (k : ans → thread)
| Print (s : bytes) (k : thread)
| Get (v : V) (k : Z → thread)
| Put (v : V) (x : Z) (k : thread)
| Peek (c : nat) (a : Z) (k : Z → thread)
| Poke (c : nat) (a x : Z) (k : thread)
| WriteMem (c : nat) (ws : list Z) (k : ans → thread)
| Send (c : nat) (x : Z) (k : ans → thread)
| Run (c : nat) (entry : Z) (k : ans → thread)
| Start (t : thread) (k : ans → thread)
| Wait (n : nat) (k : thread).

(** [assert(b)] *)
Definition asserted (b : bool) (k : thread) : thread := if b then k else Abort.

(** [perror(s); return EXIT_FAILURE;] with its text. *)
Definition fails (s : bytes) : thread := Print s (Return EXIT_FAILURE).

Section system.
Context `{!EqDecision V} {box : Type} `{!Mailbox box}.
Context (code : L → thread) (kernel : request → ans → Prop).

(** A context: its SPE, the thread that runs it, its mailbox, and the words
    written to it and read by the SPE, the newest first. *)
Record spe := Spe {
  machine : spu; runner : option nat; mailbox : box; sent : list Z; got : list Z;
}.

Definition new_spe : spe := Spe (reset empty_ls 0) None mbox_empty [] [].

Definition set_machine (m : spu) (e : spe) : spe := Spe m (runner e) (mailbox e) (sent e) (got e).
Definition set_runner (r : option nat) (e : spe) : spe := Spe (machine e) r (mailbox e) (sent e) (got e).

(** The threads (the first is [main]), the contexts in the order of their
    creation, the variables, and how the process ended. *)
Record sys := Sys {
  threads : list thread; spes : list spe; vars : V → Z; ended : option SysProg.stop;
}.

Definition go (i : nat) (t : thread) (s : sys) : sys :=
  Sys (<[i:=t]> (threads s)) (spes s) (vars s) (ended s).
Definition set_spe (c : nat) (e : spe) (s : sys) : sys :=
  Sys (threads s) (<[c:=e]> (spes s)) (vars s) (ended s).
Definition set_var (v : V) (x : Z) (s : sys) : sys :=
  Sys (threads s) (spes s) (λ w, if decide (w = v) then x else vars s w) (ended s).
Definition finish (r : SysProg.stop) (s : sys) : sys := Sys (threads s) (spes s) (vars s) (Some r).

(** A new context for each [spu_create] that succeeds. *)
Definition effect (c : call) (a : ans) (s : sys) : sys :=
  match c with
  | SYS_spu_create _ _ _ _ =>
      if 0 <=? wraps 32 (a_rc a) then Sys (threads s) (spes s ++ [new_spe]) (vars s) (ended s) else s
  | _ => s
  end.

Definition spawn (t : thread) (s : sys) : sys := Sys (threads s ++ [t]) (spes s) (vars s) (ended s).

(** One access of thread [i]. *)
Inductive thread_step (s : sys) (i : nat) : thread → sys → Prop :=
| t_goto l : thread_step s i (Goto l) (go i (code l) s)
| t_return rc : thread_step s i (Return rc) (finish (Returned rc) s)
| t_abort : thread_step s i Abort (finish Aborted s)
| t_undef : thread_step s i Undef (finish Undefined s)
| t_call c k a : kernel (r_call c) a → thread_step s i (Call c k) (go i (k a) (effect c a s))
| t_print t k : thread_step s i (Print t k) (go i k s)
| t_get v k : thread_step s i (Get v k) (go i (k (vars s v)) s)
| t_put v x k : thread_step s i (Put v x k) (go i k (set_var v x s))
| t_peek c a k e : spes s !! c = Some e → thread_step s i (Peek c a k) (go i (k (ls (machine e) a)) s)
| t_poke c a x k e :
    spes s !! c = Some e →
    thread_step s i (Poke c a x k)
      (go i k (set_spe c (set_machine (set_ls (update (ls (machine e)) a x) (machine e)) e) s))
| t_mem c ws k a e :
    spes s !! c = Some e → kernel (r_mem ws) a → a_rc a = 4 * Z.of_nat (length ws) →
    thread_step s i (WriteMem c ws k)
      (go i (k a) (set_spe c (set_machine (set_ls (load (ls (machine e)) 0 ws) (machine e)) e) s))
| t_mem_fails c ws k a :
    kernel (r_mem ws) a → a_rc a < 0 → thread_step s i (WriteMem c ws k) (go i (k a) s)
| t_send c x k a e b :
    spes s !! c = Some e → kernel (r_mbox x) a → a_rc a = 4 → mbox_put x (mailbox e) b →
    thread_step s i (Send c x k)
      (go i (k a) (set_spe c (Spe (machine e) (runner e) b (x :: sent e) (got e)) s))
| t_send_fails c x k a :
    kernel (r_mbox x) a → a_rc a ≠ 4 → thread_step s i (Send c x k) (go i (k a) s)
| t_run c entry k e :
    spes s !! c = Some e → runner e = None →
    thread_step s i (Run c entry k)
      (set_spe c (set_runner (Some i) (set_machine (set_pc (ls_addr entry) (machine e)) e)) s)
| t_run_stops c entry k e code m a :
    spes s !! c = Some e → runner e = Some i → spu_step (machine e) = Stopped code m →
    kernel r_run a → a_rc a = stop_status code → a_npc a = pc m →
    thread_step s i (Run c entry k) (go i (k a) (set_spe c (set_runner None (set_machine m e)) s))
| t_run_fails c entry k a e :
    spes s !! c = Some e → runner e = None → kernel r_run a → a_rc a = -1 →
    thread_step s i (Run c entry k) (go i (k a) s)
| t_start t k a : kernel r_thread a → a_rc a = 0 → thread_step s i (Start t k) (spawn t (go i (k a) s))
| t_start_fails t k a : kernel r_thread a → a_rc a ≠ 0 → thread_step s i (Start t k) (go i (k a) s)
| t_join n k : threads s !! n = Some Done → thread_step s i (Wait n k) (go i k s).

(** One instruction of the SPE of context [c], while a thread runs it. *)
Inductive spe_step (s : sys) (c : nat) (e : spe) : sys → Prop :=
| e_next m : spu_step (machine e) = Next m → spe_step s c e (set_spe c (set_machine m e) s)
| e_reads f x b :
    spu_step (machine e) = Reads SPU_RdInMbox f → mbox_take (mailbox e) x b → 0 ≤ x < 2 ^ 32 →
    spe_step s c e (set_spe c (Spe (f x) (runner e) b (sent e) (x :: got e)) s).

Inductive step (s : sys) : sys → Prop :=
| step_thread i t s' : ended s = None → threads s !! i = Some t → thread_step s i t s' → step s s'
| step_spe c e s' : ended s = None → spes s !! c = Some e → is_Some (runner e) → spe_step s c e s' → step s s'.

(** ** Steps *)

(** What a thread can do, by its next access. *)
Lemma call_step s i c k s' :
  thread_step s i (Call c k) s' → ∃ a, kernel (r_call c) a ∧ s' = go i (k a) (effect c a s).
Proof. inversion 1. eauto. Qed.

Lemma print_step s i t k s' : thread_step s i (Print t k) s' → s' = go i k s.
Proof. by inversion 1. Qed.

Lemma get_step s i v k s' : thread_step s i (Get v k) s' → s' = go i (k (vars s v)) s.
Proof. by inversion 1. Qed.

Lemma put_step s i v x k s' : thread_step s i (Put v x k) s' → s' = go i k (set_var v x s).
Proof. by inversion 1. Qed.

Lemma goto_step s i l s' : thread_step s i (Goto l) s' → s' = go i (code l) s.
Proof. by inversion 1. Qed.

Lemma return_step s i rc s' : thread_step s i (Return rc) s' → s' = finish (Returned rc) s.
Proof. by inversion 1. Qed.

Lemma abort_step s i s' : thread_step s i Abort s' → s' = finish Aborted s.
Proof. by inversion 1. Qed.

Lemma undef_step s i s' : thread_step s i Undef s' → s' = finish Undefined s.
Proof. by inversion 1. Qed.

Lemma peek_step s i c a k s' :
  thread_step s i (Peek c a k) s' → ∃ e, spes s !! c = Some e ∧ s' = go i (k (ls (machine e) a)) s.
Proof. inversion 1. eauto. Qed.

Lemma poke_step s i c a x k s' :
  thread_step s i (Poke c a x k) s' → ∃ e, spes s !! c = Some e ∧
    s' = go i k (set_spe c (set_machine (set_ls (update (ls (machine e)) a x) (machine e)) e) s).
Proof. inversion 1. eauto. Qed.

Lemma wait_step s i n k s' : thread_step s i (Wait n k) s' → threads s !! n = Some Done ∧ s' = go i k s.
Proof. inversion 1. eauto. Qed.

Lemma start_step s i t k s' :
  thread_step s i (Start t k) s' →
  ∃ a, kernel r_thread a ∧ (a_rc a = 0 ∧ s' = spawn t (go i (k a) s) ∨ a_rc a ≠ 0 ∧ s' = go i (k a) s).
Proof. inversion 1; eauto 10. Qed.

Lemma mem_step s i c ws k s' :
  thread_step s i (WriteMem c ws k) s' →
  ∃ a, kernel (r_mem ws) a ∧
    (a_rc a < 0 ∧ s' = go i (k a) s ∨
     ∃ e, spes s !! c = Some e ∧ a_rc a = 4 * Z.of_nat (length ws) ∧
       s' = go i (k a) (set_spe c (set_machine (set_ls (load (ls (machine e)) 0 ws) (machine e)) e) s)).
Proof. inversion 1; eauto 10. Qed.

Lemma send_step s i c x k s' :
  thread_step s i (Send c x k) s' →
  ∃ a, kernel (r_mbox x) a ∧
    (a_rc a ≠ 4 ∧ s' = go i (k a) s ∨
     a_rc a = 4 ∧ ∃ e b, spes s !! c = Some e ∧ mbox_put x (mailbox e) b ∧
       s' = go i (k a) (set_spe c (Spe (machine e) (runner e) b (x :: sent e) (got e)) s)).
Proof. inversion 1; eauto 12. Qed.

Lemma run_step s i c entry k s' :
  thread_step s i (Run c entry k) s' →
  ∃ e, spes s !! c = Some e ∧
    (runner e = None ∧
       (s' = set_spe c (set_runner (Some i) (set_machine (set_pc (ls_addr entry) (machine e)) e)) s ∨
        ∃ a, kernel r_run a ∧ a_rc a = -1 ∧ s' = go i (k a) s) ∨
     runner e = Some i ∧ ∃ code m a, spu_step (machine e) = Stopped code m ∧
       kernel r_run a ∧ a_rc a = stop_status code ∧ a_npc a = pc m ∧
       s' = go i (k a) (set_spe c (set_runner None (set_machine m e)) s)).
Proof. inversion 1; eauto 15. Qed.

(** Before the process ends each step is one of a thread or of an SPE that a
    thread runs. *)
Lemma step_running s s' : step s s' → ended s = None.
Proof. by destruct 1. Qed.
(** ** Moves

    [by_thread i a]: thread [i] makes its next access, answered by [a];
    [by_spe c]: the SPE of context [c] executes an instruction. *)

Inductive move := by_thread (i : nat) (a : ans) | by_spe (c : nat).

Context (put : Z → box → option box) (take : box → option (Z * box)) (allows : request → ans → bool).

Definition advance_run (i c : nat) (entry : Z) (a : ans) (k : ans → thread) (s : sys) (e : spe) : option sys :=
  match runner e with
  | None => Some (set_spe c (set_runner (Some i) (set_machine (set_pc (ls_addr entry) (machine e)) e)) s)
  | Some j =>
      match spu_step (machine e) with
      | Stopped code m =>
          if decide (j = i ∧ a_rc a = stop_status code ∧ a_npc a = pc m ∧ allows r_run a) then
            Some (go i (k a) (set_spe c (set_runner None (set_machine m e)) s))
          else None
      | _ => None
      end
  end.

Definition advance_thread (i : nat) (a : ans) (t : thread) (s : sys) : option sys :=
  match t with
  | Done => None
  | Return rc => Some (finish (Returned rc) s)
  | Abort => Some (finish Aborted s)
  | Undef => Some (finish Undefined s)
  | Goto l => Some (go i (code l) s)
  | Call c k => if allows (r_call c) a then Some (go i (k a) (effect c a s)) else None
  | Print _ k => Some (go i k s)
  | Get v k => Some (go i (k (vars s v)) s)
  | Put v x k => Some (go i k (set_var v x s))
  | Peek c ad k => e ← spes s !! c; Some (go i (k (ls (machine e) ad)) s)
  | Poke c ad x k =>
      e ← spes s !! c; Some (go i k (set_spe c (set_machine (set_ls (update (ls (machine e)) ad x) (machine e)) e) s))
  | WriteMem c ws k =>
      e ← spes s !! c;
      if decide (allows (r_mem ws) a ∧ a_rc a = 4 * Z.of_nat (length ws)) then
        Some (go i (k a) (set_spe c (set_machine (set_ls (load (ls (machine e)) 0 ws) (machine e)) e) s))
      else None
  | Send c x k =>
      if negb (allows (r_mbox x) a) then None
      else if a_rc a =? 4 then
        e ← spes s !! c; b ← put x (mailbox e);
        Some (go i (k a) (set_spe c (Spe (machine e) (runner e) b (x :: sent e) (got e)) s))
      else Some (go i (k a) s)
  | Run c entry k => e ← spes s !! c; advance_run i c entry a k s e
  | Start t k =>
      if negb (allows r_thread a) then None
      else if a_rc a =? 0 then Some (spawn t (go i (k a) s)) else Some (go i (k a) s)
  | Wait n k => match threads s !! n with Some Done => Some (go i k s) | _ => None end
  end.

Definition advance_spe (c : nat) (e : spe) (s : sys) : option sys :=
  match runner e, spu_step (machine e) with
  | Some _, Next m => Some (set_spe c (set_machine m e) s)
  | Some _, Reads ch f =>
      '(x, b) ← take (mailbox e);
      if decide (ch = SPU_RdInMbox ∧ 0 ≤ x < 2 ^ 32) then
        Some (set_spe c (Spe (f x) (runner e) b (sent e) (x :: got e)) s)
      else None
  | _, _ => None
  end.

Definition advance (mv : move) (s : sys) : option sys :=
  match ended s with
  | Some _ => None
  | None =>
      match mv with
      | by_thread i a => t ← threads s !! i; advance_thread i a t s
      | by_spe c => e ← spes s !! c; advance_spe c e s
      end
  end.

Hypothesis put_ok : ∀ x b b', put x b = Some b' → mbox_put x b b'.
Hypothesis take_ok : ∀ b x b', take b = Some (x, b') → mbox_take b x b'.
Hypothesis allows_ok : ∀ r a, allows r a → kernel r a.

Lemma advance_thread_step i a t s s' : advance_thread i a t s = Some s' → thread_step s i t s'.
Proof.
  destruct t as [|rc| | |l|c k|u k|v k|v x k|c ad k|c ad x k|c ws k|c x k|c entry k|t k|n k]; cbn [advance_thread]; intros H.
  - done.
  - injection H as <-. constructor.
  - injection H as <-. constructor.
  - injection H as <-. constructor.
  - injection H as <-. constructor.
  - destruct (allows _ a) eqn:Ha; [|done]. injection H as <-. constructor. apply allows_ok. by rewrite Ha.
  - injection H as <-. constructor.
  - injection H as <-. constructor.
  - injection H as <-. constructor.
  - apply bind_Some in H as (e & He & E). injection E as <-. by constructor.
  - apply bind_Some in H as (e & He & E). injection E as <-. by constructor.
  - apply bind_Some in H as (e & He & H). case_decide as Hd; [|done]. destruct Hd as [Ha Hc].
    injection H as <-. constructor; auto.
  - destruct (allows _ a) eqn:Ha; [|done]. assert (kernel (r_mbox x) a) as Hk by (apply allows_ok; by rewrite Ha). cbn [negb] in H.
    destruct (Z.eqb_spec (a_rc a) 4) as [Hc|Hc]; [|injection H as <-; by constructor].
    apply bind_Some in H as (e & He & (b & Hb & E)%bind_Some). injection E as <-. constructor; auto.
  - apply bind_Some in H as (e & He & H). unfold advance_run in H. destruct (runner e) as [j|] eqn:Hr.
    + destruct (spu_step (machine e)) as [|code' m| | |] eqn:Hs; try done. case_decide as Hd; [|done].
      destruct Hd as (-> & Hc & Hp & Ha). injection H as <-. econstructor; eauto.
    + injection H as <-. by constructor.
  - destruct (allows _ a) eqn:Ha; [|done]. assert (kernel r_thread a) as Hk by (apply allows_ok; by rewrite Ha). cbn [negb] in H.
    destruct (Z.eqb_spec (a_rc a) 0); injection H as <-; by constructor.
  - destruct (threads s !! n) as [[]|] eqn:Hn; try done. injection H as <-. by constructor.
Qed.

Lemma advance_sound mv s s' : advance mv s = Some s' → step s s'.
Proof.
  unfold advance. destruct (ended s) eqn:He; [done|]. destruct mv as [i a|c].
  - intros (t & Ht & H)%bind_Some. eapply step_thread; [done..|]. by eapply advance_thread_step.
  - intros (e & Hc & H)%bind_Some. unfold advance_spe in H.
    destruct (runner e) as [j|] eqn:Hr; [|done]. destruct (spu_step (machine e)) as [m| |ch f| |] eqn:Hs; try done.
    + injection H as <-. eapply step_spe; [done..|by rewrite Hr|by constructor].
    + apply bind_Some in H as ([x b] & Hb & H). case_decide as Hd; [|done]. destruct Hd as [-> Hx].
      injection H as <-. eapply step_spe; [done..|by rewrite Hr|]. rewrite <- Hr. eapply e_reads; auto.
Qed.

(** ** A scheduler

    The first thread that can move does, with [replies] to its calls and what it asks for otherwise;
    when none can, the SPEs run. *)

Definition answer (rc npc : Z) : ans := Ans rc 0 npc (Statbuf 0 0 0 0 0) [] (0, 0) 0 [].

Context (replies : call → ans).

Definition granted (c : call) : ans :=
  match c with
  | c_read _ count => answer count 0
  | c_write _ data => answer (Z.of_nat (length data)) 0
  | c_lseek _ _ _ | c_pipe | SYS_spu_create _ _ _ _ => answer 0 0
  | _ => answer 7 0
  end.

Definition reply (s : sys) (t : thread) : ans :=
  match t with
  | Call c _ => replies c
  | WriteMem _ ws _ => answer (4 * Z.of_nat (length ws)) 0
  | Send _ _ _ => answer 4 0
  | Run c _ _ =>
      match (e ← spes s !! c; Some (spu_step (machine e))) with
      | Some (Stopped code m) => answer (stop_status code) (pc m)
      | _ => answer 0 0
      end
  | _ => answer 0 0
  end.

Definition moves (s : sys) : list move :=
  imap (λ i t, by_thread i (reply s t)) (threads s) ++ imap (λ c _, by_spe c) (spes s).

Fixpoint first_move (mvs : list move) (s : sys) : option sys :=
  match mvs with
  | [] => None
  | mv :: mvs => match advance mv s with Some s => Some s | None => first_move mvs s end
  end.

Fixpoint drive (fuel : nat) (s : sys) : sys :=
  match fuel with
  | O => s
  | S fuel => match first_move (moves s) s with Some s => drive fuel s | None => s end
  end.

Lemma drive_reachable fuel s : rtc step s (drive fuel s).
Proof.
  revert s. induction fuel as [|fuel IH]; intros s; cbn [drive]; [done|].
  assert (∀ mvs s1, first_move mvs s = Some s1 → step s s1) as Hf.
  { intros mvs. induction mvs as [|mv mvs IHm]; intros s1; cbn [first_move]; [done|].
    destruct (advance mv s) as [s2|] eqn:E; [|apply IHm]. intros [= <-]. by eapply advance_sound. }
  destruct (first_move (moves s) s) as [s1|] eqn:E; [|done]. eapply rtc_l; [by eapply Hf|apply IH].
Qed.

(** A run in a given order: [inl i] is a turn of thread [i], [inr c] one of the SPE of
    context [c]; who cannot move leaves its turn out. *)
Definition turn_move (s : sys) (t : nat + nat) : move :=
  match t with
  | inl i => by_thread i (from_option (reply s) (answer 0 0) (threads s !! i))
  | inr c => by_spe c
  end.

Definition take_turns (ts : list (nat + nat)) (s : sys) : sys :=
  fold_left (λ s t, default s (advance (turn_move s t) s)) ts s.

Lemma take_turns_reachable ts s : rtc step s (take_turns ts s).
Proof.
  unfold take_turns. revert s. induction ts as [|t ts IH]; intros s; cbn [fold_left]; [done|].
  etrans; [|apply IH]. destruct (advance _ s) as [s1|] eqn:E; cbn [default]; [|done]. by eapply rtc_once, advance_sound.
Qed.
End system.
End threads.

Arguments thread : clear implicits.
Arguments Done {V L}.
Arguments Return {V L} rc.
Arguments Abort {V L}.
Arguments Undef {V L}.
Arguments Goto {V L} l.
Arguments Call {V L} c k.
Arguments Print {V L} s k.
Arguments Get {V L} v k.
Arguments Put {V L} v x k.
Arguments Peek {V L} c a k.
Arguments Poke {V L} c a x k.
Arguments WriteMem {V L} c ws k.
Arguments Send {V L} c x k.
Arguments Run {V L} c entry k.
Arguments Start {V L} t k.
Arguments Wait {V L} n k.
Arguments sys : clear implicits.
Arguments spe : clear implicits.
