(* ===== verification/Mailbox.v ===== *)
(** * The mailbox tests (tests/09-mailbox)

    A thread runs an SPE program that reads its mailbox; [main] writes to it. *)

From stdpp Require Import relations.
From S2P Require Import Prelude CString SysProg SpuIsa SpuCode Threads.

Local Open Scope Z_scope.

(** ** The programs *)

(** [thread_abort] and the fields of [struct spe_thread_info]. *)
Inductive mbox_var := thread_abort | thread_run_rc | thread_entry.

#[global] Instance mbox_var_eq_dec : EqDecision mbox_var.
Proof. solve_decision. Defined.

(** The loops of 02 and 03, at [i] (and with [reg_fd]). *)
Inductive mbox_loop := sending (i : Z) | sending_sched (reg_fd i : Z).

Definition mbox_thread : Type := thread mbox_var mbox_loop.

Section programs.
Context (strerror : Z → bytes).

Definition perror (s : bytes) (a : ans) : bytes := s ++ lit ": " ++ strerror (a_errno a) ++ [newline_c].

(** *** The thread *)

(** [thread_abort = 1;] where the test has it. *)
Definition leaves (aborts : bool) : mbox_thread := if aborts then Put thread_abort 1 Done else Done.

Definition ran (aborts : bool) (a : ans) : mbox_thread :=
  Put thread_entry (wrapu 32 (a_npc a)) (Put thread_run_rc (wraps 32 (a_rc a))
    (if wraps 32 (a_rc a) <? 0 then Print (perror (lit "spu_run") a) (leaves aborts) else leaves aborts)).

Definition spe_thread (aborts : bool) : mbox_thread := Get thread_entry (λ e, Run 0 e (ran aborts)).

(** *** [main], from its end *)

Definition incorrect_stop (rc : Z) : bytes := lit "Incorrect stop code: 0x" ++ fmt_base 16 (wrapu 32 rc) ++ [newline_c].

Definition check_rc : mbox_thread :=
  Get thread_run_rc (λ rc,
    if negb (rc =? 0x13370002) then fails (incorrect_stop rc) else Return EXIT_SUCCESS).

Definition joins : mbox_thread := Wait 1 check_rc.

Definition sends_stop : mbox_thread :=
  Send 0 stop_message (λ a, if negb (a_rc a =? 4) then fails (perror (lit "write") a) else joins).

(** 02: [if (thread_abort) break;] *)
Definition looks (i : Z) : mbox_thread :=
  Get thread_abort (λ b, if negb (b =? 0) then sends_stop else Goto (sending (i + 1))).

Definition sends (next : mbox_thread) (i : Z) : mbox_thread :=
  Send 0 (wrapu 32 i) (λ a, if negb (a_rc a =? 4) then fails (perror (lit "write") a) else next).

(** 03: every sixteenth message, read the registers, which schedules the
    context out. *)
Definition sched_interval : Z := 16.

Definition seeks (reg_fd i : Z) : mbox_thread :=
  Call (c_lseek reg_fd 0 0) (λ a, asserted (a_rc a =? 0) (Goto (sending_sched reg_fd (i + 1)))).

Definition reads_regs (reg_fd i : Z) : mbox_thread :=
  Call (c_read reg_fd 4) (λ a, asserted (a_rc a =? 4) (seeks reg_fd i)).

Definition looks_sched (reg_fd i : Z) : mbox_thread :=
  Get thread_abort (λ b,
    if negb (b =? 0) then fails (lit "SPU program exited early" ++ [newline_c])
    else if i mod sched_interval =? sched_interval - 1 then reads_regs reg_fd i
    else Goto (sending_sched reg_fd (i + 1))).

Definition mbox_code (nr_msgs : Z) (l : mbox_loop) : mbox_thread :=
  match l with
  | sending i => if i <? nr_msgs then sends (looks i) i else sends_stop
  | sending_sched reg_fd i => if i <? nr_msgs then sends (looks_sched reg_fd i) i else sends_stop
  end.

(** [assert(rc = sizeof(spe_program))] assigns, and never fails. *)
Definition starts (aborts : bool) (next : mbox_thread) : mbox_thread :=
  Start (spe_thread aborts) (λ a, asserted (a_rc a =? 0) next).

Definition sets_entry (aborts : bool) (next : mbox_thread) : mbox_thread :=
  Put thread_entry 0 (starts aborts next).

Definition writes_program (program : list Z) (aborts : bool) (next : mbox_thread) : mbox_thread :=
  WriteMem 0 program (λ _, sets_entry aborts next).

Definition opens_wbox (ctx : Z) (next : mbox_thread) : mbox_thread :=
  Call (c_openat ctx (lit "wbox") O_WRONLY) (λ a,
    if a_rc a <=? 0 then fails (perror (lit "open:wbox") a) else next).

Definition opens_mem (ctx : Z) (next : Z → mbox_thread) : mbox_thread :=
  Call (c_openat ctx (lit "mem") O_RDWR) (λ a, asserted (0 <=? a_rc a) (next ctx)).

Definition creates (name : bytes) (next : Z → mbox_thread) : mbox_thread :=
  Call (SYS_spu_create (Some name) 0 0x1ED None) (λ a,
    let ctx := wraps 32 (a_rc a) in asserted (0 <=? ctx) (opens_mem ctx next)).

Definition sends_single : mbox_thread :=
  Send 0 3 (λ a,
    if a_rc a <? 0 then fails (perror (lit "write") a)
    else if negb (a_rc a =? 4) then
      fails (lit "short write to wbox? sent " ++ fmt_d (a_rc a) ++ lit ", expected 4" ++ [newline_c])
    else joins).

Definition mailbox_01_mbox_single : mbox_thread :=
  creates (lit "/spu/01-mbox-single") (λ ctx,
    opens_wbox ctx (writes_program mbox_single_program false sends_single)).

Definition mailbox_02_mbox_multiple : mbox_thread :=
  creates (lit "/spu/02-mbox-multiple") (λ ctx,
    opens_wbox ctx (writes_program mbox_multiple_program true (Goto (sending 0)))).

Definition opens_regs (ctx : Z) : mbox_thread :=
  Call (c_openat ctx (lit "regs") O_RDWR) (λ a,
    asserted (0 <=? a_rc a)
      (writes_program mbox_multiple_program true (Goto (sending_sched (a_rc a) 0)))).

Definition mailbox_03_mbox_multiple_sched : mbox_thread :=
  creates (lit "/spu/03-mbox-multiple+sched") (λ ctx, opens_wbox ctx (opens_regs ctx)).

(** The numbers of messages of 02 and 03. *)
Definition nr_msgs_02 : Z := 1024000.
Definition nr_msgs_03 : Z := 102400.

(** [thread_abort] is static; the other variables hold what was on the stack. *)
Definition initial {box} (main : mbox_thread) (junk : mbox_var → Z) : sys mbox_var mbox_loop box :=
  Sys [main] [] (λ v, if decide (v = thread_abort) then 0 else junk v) None.
End programs.
