(* ===== verification/MailboxProps.v ===== *)
(** * What a pass of the mailbox tests says

    Safety of 02-mbox-multiple and 03-mbox-multiple+sched on any kernel whose
    mailbox keeps the order, and their end on a kernel that does what it is
    asked and a mailbox that loses nothing: one invariant for both, with a
    measure. *)

From stdpp Require Import relations.
From S2P Require Import Prelude Runs CString SysProg SpuIsa SpuCode Threads Mailbox.

Local Open Scope Z_scope.

(** The program may be missing from the local store, unless all is [good]. *)
Definition state (good : Prop) (got : list Z) (m : spu) : Prop :=
  mbox_state got m ∨ ¬ good ∧ got = [] ∧ stops 0 m.

#[export] Instance state_acceptor good : Acceptor (state good) 7.
Proof.
  split.
  - intros got m m' [H|(_ & _ & m1 & H)] Hs; [by eapply (ac_settled (bound := 7))|congruence].
  - intros got m [H|(_ & _ & m1 & H)]; [by eapply (ac_legal (bound := 7))|by rewrite H].
  - intros got m ch f [H|(_ & _ & m1 & H)] Hs; [|congruence]. destruct (ac_reads (bound := 7) _ _ _ _ H Hs) as [-> Hx].
    split; [done|]. intros x Hw. destruct (Hx x Hw) as (k & m' & H1 & H2 & H3). exists k, m'. split_and!; [done..|by left].
Qed.

Definition loaded : Z → Z := load empty_ls 0 mbox_multiple_program.

Lemma loaded_start good : ∃ k, (k ≤ 2)%nat ∧ follows (state good) k [] (reset loaded 0).
Proof.
  destruct mbox_start as (k & m & H1 & H2 & H3). exists k. split; [done|]. exists m. split; [done|by left].
Qed.

Lemma empty_start (good : Prop) : ¬ good → follows (state good) 0 [] (reset empty_ls 0).
Proof.
  intros Hg. assert (spu_step (reset empty_ls 0) = Stopped 0 (reset empty_ls 4)) as E by done.
  eexists. split; [by constructor; rewrite E|]. right. split; [done|]. split; [done|]. eexists. done.
Qed.

(** How the SPE ends: with 0x1337 only after a sequence and the stop message. *)
Lemma state_stopped good got m code m' :
  state good got m → spu_step m = Stopped code m' →
  (code = 0x1337 ∧ ∃ k, 0 ≤ k ∧ got = seqZ 0 k ++ [stop_message]) ∨
  (code = 0 ∧ (good → ∃ k x, 0 ≤ k ∧ got = seqZ 0 k ++ [x] ∧ x ≠ k ∧ x ≠ stop_message)).
Proof.
  intros [[k Hk _ (f & Hf & _)%mbox_waits_reads|k Hk -> [m1 Hs]|k x Hk -> Hx Hn [m1 Hs]]|(Hg & -> & m1 & Hs)] H.
  - congruence.
  - rewrite Hs in H. injection H as <- _. left. split; [done|]. exists k. split; [lia|done].
  - rewrite Hs in H. injection H as <- _. right. split; [done|]. intros _. exists k, x. split_and!; [lia|done..].
  - rewrite Hs in H. injection H as <- _. by right.
Qed.

Lemma state_reads good got m ch f :
  state good got m → spu_step m = Reads ch f → ∃ k, 0 ≤ k ∧ got = seqZ 0 k.
Proof.
  intros [[k Hk -> _|k Hk -> [m1 Hs]|k x Hk -> Hx Hn [m1 Hs]]|(Hg & -> & m1 & Hs)] H; [|congruence..].
  exists k. split; [lia|done].
Qed.

Section props.
Context (strerror : Z → bytes) {box : Type} `{!Mailbox box} `{!InOrder box}.
Context (kernel : request → ans → Prop) (n : Z) (Hn : 0 ≤ n ≤ int_max).

#[local] Abbreviation system := (sys mbox_var mbox_loop box).
#[local] Abbreviation step := (Threads.step (mbox_code strerror n) kernel).
#[local] Abbreviation ran := (ran strerror true).
#[local] Abbreviation spe_thread := (spe_thread strerror true).
#[local] Abbreviation sends_stop := (sends_stop strerror).
#[local] Abbreviation writes_program := (writes_program strerror mbox_multiple_program true).
#[local] Abbreviation opens_wbox := (opens_wbox strerror).
#[local] Abbreviation opens_regs := (opens_regs strerror).

Implicit Types (s : system) (e : spe box) (t w : mbox_thread) (vs : mbox_var → Z).

(** When the kernel and the mailbox are [good], the tests end well. *)
Context (good : Prop) (Hkernel : good → ∀ r a, kernel r a ↔ answers_ok r a) (Hbox : good → Reliable box).

(** *** Before the thread is started *)

Definition enters_loop (next : mbox_thread) : Prop :=
  next = Goto (sending 0) ∨ ∃ fd, next = Goto (sending_sched fd 0).

Definition after_wbox (t : mbox_thread) : Prop :=
  (∃ next, enters_loop next ∧ t = writes_program next) ∨ ∃ ctx, t = opens_regs ctx.

Definition spe_at (l : Z → Z) : spe box := Spe (reset l 0) None mbox_empty [] [].

Definition ready_ls (l : Z → Z) : Prop := l = loaded ∨ l = empty_ls ∧ ¬ good.

Inductive before (vs : mbox_var → Z) : mbox_thread → list (spe box) → Z → Prop :=
| b_create name next : (∀ ctx, ∃ t, next ctx = opens_wbox ctx t ∧ after_wbox t) → before vs (creates name next) [] 9
| b_mem ctx next : (∃ t, next ctx = opens_wbox ctx t ∧ after_wbox t) → before vs (opens_mem ctx next) [spe_at empty_ls] 8
| b_wbox ctx t : after_wbox t → before vs (opens_wbox ctx t) [spe_at empty_ls] 7
| b_regs ctx : before vs (opens_regs ctx) [spe_at empty_ls] 6
| b_write next : enters_loop next → before vs (writes_program next) [spe_at empty_ls] 5
| b_entry l next : enters_loop next → ready_ls l → before vs (sets_entry strerror true next) [spe_at l] 4
| b_start l next : enters_loop next → ready_ls l → vs thread_entry = 0 → before vs (starts strerror true next) [spe_at l] 3
| b_fails u es : ¬ good → Forall (λ e, runner e = None) es → before vs (fails u) es 2
| b_failed es : ¬ good → Forall (λ e, runner e = None) es → before vs (Return EXIT_FAILURE) es 1
| b_abort es : ¬ good → Forall (λ e, runner e = None) es → before vs Abort es 1.

(** *** The thread and the SPE *)

Definition ready (e : spe box) : Prop :=
  runner e = None ∧ got e = [] ∧ ∃ l, machine e = reset l 0 ∧ ready_ls l.

(** [rc] is what [spu_run] returned: an error, or the stop of the SPE. *)
Definition result (e : spe box) (rc : Z) : Prop :=
  runner e = None ∧
  ((rc < 0 ∧ ¬ good) ∨
   ∃ m code m', state good (rev (got e)) m ∧ spu_step m = Stopped code m' ∧ rc = wraps 32 (stop_status code)).

Definition spe_rank (e : spe box) (k : nat) : Z := 10 * (n + 2 - Z.of_nat (length (got e))) + Z.of_nat k.

Inductive worker_at (vs : mbox_var → Z) (e : spe box) : mbox_thread → Z → Prop :=
| w_starts : ready e → vs thread_entry = 0 → worker_at vs e spe_thread (10 * (n + 2) + 19)
| w_runs : ready e → worker_at vs e (Run 0 0 ran) (10 * (n + 2) + 18)
| w_running k : runner e = Some 1%nat → follows (state good) k (rev (got e)) (machine e) →
    worker_at vs e (Run 0 0 ran) (spe_rank e k + 8)
| w_entry a : result e (wraps 32 (a_rc a)) → worker_at vs e (ran a) 7
| w_rc rc t : result e rc → (t = leaves true ∨ ∃ u, t = Print u (leaves true)) →
    worker_at vs e (Put thread_run_rc rc t) 6
| w_print u : result e (vs thread_run_rc) → worker_at vs e (Print u (leaves true)) 5
| w_leaves : result e (vs thread_run_rc) → worker_at vs e (leaves true) 4
| w_done : result e (vs thread_run_rc) → worker_at vs e Done 3.

(** *** [main] *)

(** In the loop, after it, after the stop message, after the end of the thread. *)
Inductive phase := Looping | Over | Told | Joined.

Inductive main_at : mbox_thread → phase → Z → Z → Prop :=
| m_loop i l : 0 ≤ i ≤ n → (l = sending i ∨ ∃ fd, l = sending_sched fd i) → main_at (Goto l) Looping i (8 * (n - i) + 40)
| m_send i next : 0 ≤ i < n → (next = looks strerror i ∨ ∃ fd, next = looks_sched fd i) →
    main_at (sends strerror next i) Looping i (8 * (n - i) + 39)
| m_look i : 0 ≤ i < n → main_at (looks strerror i) Looping (i + 1) (8 * (n - i) + 38)
| m_look_sched fd i : 0 ≤ i < n → main_at (looks_sched fd i) Looping (i + 1) (8 * (n - i) + 38)
| m_read fd i : 0 ≤ i < n → main_at (reads_regs fd i) Looping (i + 1) (8 * (n - i) + 37)
| m_seek fd i : 0 ≤ i < n → main_at (seeks fd i) Looping (i + 1) (8 * (n - i) + 36)
| m_stop j : 0 ≤ j ≤ n → main_at sends_stop Over j 31
| m_join j : 0 ≤ j ≤ n → main_at joins Told j 30
| m_rc j : 0 ≤ j ≤ n → main_at check_rc Joined j 29
| m_pass j : 0 ≤ j ≤ n → main_at (Return EXIT_SUCCESS) Joined j 28
| m_fails u p j : 0 ≤ j ≤ n → ¬ good → main_at (fails u) p j 27
| m_failed p j : 0 ≤ j ≤ n → ¬ good → main_at (Return EXIT_FAILURE) p j 26
| m_abort p j : 0 ≤ j ≤ n → ¬ good → main_at Abort p j 26.

Definition told (p : phase) : list Z := match p with Looping | Over => [] | _ => [stop_message] end.

(** The thread has ended without a pass. *)
Definition broken w e : Prop :=
  w = Done ∧ ¬ good ∧ ∀ k, 0 ≤ k → rev (got e) ≠ seqZ 0 k ++ [stop_message].

Record running (s : system) (t w : mbox_thread) (e : spe box) (p : phase) (j rm rw : Z) : Prop := {
  ru_threads : threads s = [t; w];
  ru_spes : spes s = [e];
  ru_ended : ended s = None;
  ru_main : main_at t p j rm;
  ru_worker : worker_at (vars s) e w rw;
  ru_sent : rev (sent e) = seqZ 0 j ++ told p;
  ru_order : sublist (rev (got e) ++ content (mailbox e)) (rev (sent e));
  ru_exact : good → rev (got e) ++ content (mailbox e) = rev (sent e);
  ru_abort : vars s thread_abort ≠ 0 → w = Done;
  ru_early : p ≠ Looping → j = n ∨ broken w e;
  ru_joined : p = Joined → w = Done;
  ru_pass : t = Return EXIT_SUCCESS → vars s thread_run_rc = 0x13370002;
}.

(** The SPE has read the numbers from 0 up to some [k] and then the stop
    message; [main] has sent all of them. *)
Definition all_received (e : spe box) : Prop :=
  rev (sent e) = seqZ 0 n ++ [stop_message] ∧
  ∃ k, 0 ≤ k ≤ n ∧ rev (got e) = seqZ 0 k ++ [stop_message] ∧ (good → k = n).

Inductive inv : Z → system → Prop :=
| inv_before s t r :
    threads s = [t] → ended s = None → vars s thread_abort = 0 → before (vars s) t (spes s) r →
    inv (18 * n + 200 + r) s
| inv_running s t w e p j rm rw : running s t w e p j rm rw → inv (rm + rw) s
| inv_ended s r M :
    ended s = Some r →
    (r = Returned EXIT_SUCCESS → ∃ e, spes s = [e] ∧ all_received e) →
    (good → r = Returned EXIT_SUCCESS) → (good → 0 ≤ M) → inv M s.

(** *** Steps *)

(** *** [main] moves *)

Definition progresses (M : Z) s : Prop := ∃ M', (good → M' < M) ∧ inv M' s.

Lemma before_alone vs t es r : before vs t es r → Forall (λ e : spe box, runner e = None) es.
Proof. destruct 1; by repeat constructor. Qed.

Lemma answer_ok r a : kernel r a → ¬ answers_ok r a → ¬ good.
Proof. intros Hk Hn' Hg. by apply Hn', Hkernel. Qed.

(** [main] goes on alone. *)
Lemma before_moves s t t' r r' es vs :
  threads s = [t] → ended s = None → vs thread_abort = 0 → before vs t' es r' → r' < r →
  ∃ M', (good → M' < 18 * n + 200 + r) ∧ inv M' (Sys (<[0%nat:=t']> (threads s)) es vs (ended s)).
Proof.
  intros Ht He Hv Hb Hr. exists (18 * n + 200 + r'). split; [lia|]. eapply inv_before; cbn; [by rewrite Ht|done..].
Qed.

Ltac to_end := try unfold progresses; match goal with |- ∃ M', (_ → M' < ?a) ∧ _ => exists (a - 1); split; [lia|] end.

Ltac ends_badly := to_end; by eapply inv_ended.

Ltac goes tac := eapply before_moves; [done|done|done|tac|lia].

Lemma lookup_two {A} (a b : A) i x : [a; b] !! i = Some x → (i = 0%nat ∧ x = a) ∨ (i = 1%nat ∧ x = b).
Proof. destruct i as [|[|i]]; cbn; naive_solver. Qed.

Lemma ready_runner l : runner (spe_at l) = None.
Proof. done. Qed.

Lemma started s next l :
  threads s = [starts strerror true next] → spes s = [spe_at l] → ended s = None → vars s thread_abort = 0 →
  vars s thread_entry = 0 → enters_loop next → ready_ls l →
  running (spawn spe_thread (go 0 next s)) next spe_thread (spe_at l) Looping 0 (8 * n + 40) (10 * (n + 2) + 19).
Proof.
  intros Ht Hs He Ha Hv Hnext Hl. split; cbn [spawn go threads spes vars ended].
  - by rewrite Ht.
  - done.
  - done.
  - replace (8 * n + 40) with (8 * (n - 0) + 40) by lia.
    destruct Hnext as [->|[fd ->]]; apply m_loop; [lia|by left|lia|right; by eexists].
  - apply w_starts; [|done]. split; [done|]. split; [done|]. by exists l.
  - done.
  - cbn. by rewrite content_empty.
  - intros _. cbn. by rewrite content_empty.
  - by rewrite Ha.
  - done.
  - done.
  - by destruct Hnext as [->|[fd ->]].
Qed.

Lemma before_step s t r s' :
  threads s = [t] → ended s = None → vars s thread_abort = 0 → before (vars s) t (spes s) r →
  step s s' → ∃ M', (good → M' < 18 * n + 200 + r) ∧ inv M' s'.
Proof.
  intros Ht He Hv Hb Hst. pose proof (before_alone _ _ _ _ Hb) as Hal. destruct Hst as [i t' s' _ Hi Hs|c e s' _ Hc [i Hi] _].
  2: { rewrite Forall_lookup in Hal. apply Hal in Hc. congruence. }
  rewrite Ht in Hi. destruct i; [|done]. injection Hi as <-.
  inversion Hb as [name next Hnx E1 E2|ctx next Hnx E1 E2|ctx t1 Hw E1 E2|ctx E1 E2|next Hnx E1 E2|l next Hnx Hl E1 E2
    |l next Hnx Hl Hz E1 E2|u es Hg Hes E1 E2|es Hg Hes E1 E2|es Hg Hes E1 E2]; subst t r; try subst es.
  - apply call_step in Hs as (a & Hk & ->). cbn [effect]. unfold asserted.
    destruct (Z.leb_spec 0 (wraps 32 (a_rc a))) as [Hc|Hc].
    + goes ltac:(rewrite <- E2; by apply b_mem).
    + goes ltac:(rewrite <- E2; apply b_abort; [|by constructor]; apply (answer_ok _ _ Hk); cbn; lia).
  - apply call_step in Hs as (a & Hk & ->). cbn [effect]. unfold asserted.
    destruct (Z.leb_spec 0 (a_rc a)) as [Hc|Hc].
    + destruct Hnx as (t1 & -> & Ht1). goes ltac:(rewrite <- E2; by apply b_wbox).
    + goes ltac:(apply b_abort; [|done]; apply (answer_ok _ _ Hk); cbn; lia).
  - apply call_step in Hs as (a & Hk & ->). cbn [effect]. destruct (Z.leb_spec (a_rc a) 0) as [Hc|Hc].
    + goes ltac:(apply b_fails; [|done]; apply (answer_ok _ _ Hk); cbn; lia).
    + destruct Hw as [(next & Hnx & ->)|[ctx' ->]].
      * goes ltac:(rewrite <- E2; by apply b_write).
      * goes ltac:(rewrite <- E2; apply b_regs).
  - apply call_step in Hs as (a & Hk & ->). cbn [effect]. unfold asserted.
    destruct (Z.leb_spec 0 (a_rc a)) as [Hc|Hc].
    + goes ltac:(rewrite <- E2; apply b_write; right; by eexists).
    + goes ltac:(apply b_abort; [|done]; apply (answer_ok _ _ Hk); cbn; lia).
  - apply mem_step in Hs as (a & Hk & [[Hc ->]|(e & Hc & _ & ->)]).
    + assert (ready_ls empty_ls) by (right; split; [done|]; apply (answer_ok _ _ Hk); cbn; lia).
      goes ltac:(rewrite <- E2; by apply b_entry).
    + rewrite <- E2 in Hc. injection Hc as <-. goes ltac:(cbn [set_spe go spes]; rewrite <- E2; apply (b_entry _ loaded); [done|by left]).
  - apply put_step in Hs as ->. goes ltac:(cbn [set_var go spes vars]; rewrite <- E2; by apply b_start).
  - apply start_step in Hs as (a & Hk & [[Hc ->]|[Hc ->]]).
    + rewrite Hc. cbn [asserted Z.eqb]. eexists. split; [|eapply inv_running, started; eauto]. lia.
    + unfold asserted. rewrite (proj2 (Z.eqb_neq _ _)) by done. goes ltac:(apply b_abort; [|done]; by apply (answer_ok _ _ Hk)).
  - apply print_step in Hs as ->. goes ltac:(by apply b_failed).
  - apply return_step in Hs as ->. ends_badly.
  - apply abort_step in Hs as ->. ends_badly.
Qed.

(** *** [main] while the thread runs *)

Lemma sent_words j : 0 ≤ j ≤ n → stop_message ∉ seqZ 0 j.
Proof. intros Hj H%elem_of_seqZ. revert Hn Hj H. unfold stop_message, int_max. lia. Qed.

(** A thread that has ended before the stop message was sent has not passed. *)
Lemma ended_early s t w e p j rm rw :
  running s t w e p j rm rw → told p = [] → 0 ≤ j ≤ n → w = Done → broken w e.
Proof.
  intros [Ht He Hd Hm Hw Hs Ho Hx Ha Hy Hj Hp] Hl Hjn ->. rewrite Hl, app_nil_r in Hs. rewrite Hs in Ho, Hx.
  assert (∀ k, 0 ≤ k → rev (got e) ≠ seqZ 0 k ++ [stop_message]) as Hno.
  { intros k Hk E. rewrite E in Ho. apply (sent_words j Hjn). eapply elem_of_sublist; [|exact Ho].
    apply elem_of_app. left. apply elem_of_app. right. by left. }
  split; [done|]. split; [|done]. intros Hg. inversion Hw as [| | | | | | |[Hr [[Hc Hb]|(m & code & m' & Hst & Hsp & _)]]]; [done|].
  destruct (state_stopped _ _ _ _ _ Hst Hsp) as [[_ (k & Hk & E)]|[_ Hk]]; [by eapply Hno|].
  destruct (Hk Hg) as (k & x & Hk0 & E & Hxk & _). specialize (Hx Hg). rewrite E, <- app_assoc in Hx. cbn in Hx.
  assert (seqZ 0 k ++ x :: (content (mailbox e) ++ [0]) = seqZ 0 j ++ [0]) as Hz.
  { rewrite <- Hx, <- !app_assoc. done. }
  apply seqZ_prefix in Hz; [|lia..]. destruct Hz as [[_ ->]|(_ & _ & Hz)]; [done|]. by destruct (content (mailbox e)).
Qed.

Lemma mbox_main_moves s t w e p j rm rw t' p' rm' :
  running s t w e p j rm rw → main_at t' p' j rm' → told p' = told p →
  (p' ≠ Looping → j = n ∨ broken w e) → (p' = Joined → w = Done) →
  (t' = Return EXIT_SUCCESS → vars s thread_run_rc = 0x13370002) →
  running (go 0 t' s) t' w e p' j rm' rw.
Proof.
  intros [Ht He Hd Hm Hw Hs Ho Hx Ha Hy Hj Hp] Hm' Hp' Hy' Hj' Hq. split; cbn [go threads spes vars ended]; try done.
  - by rewrite Ht.
  - by rewrite Hp'.
Qed.

Lemma mbox_worker_at_box vs e b l w r :
  worker_at vs e w r → worker_at vs (Spe (machine e) (runner e) b l (got e)) w r.
Proof.
  destruct 1 as [Hr Hv|Hr|k Hr Hf|a Hr|rc t Hr Ht|u Hr|Hr|Hr].
  - by apply w_starts.
  - by apply w_runs.
  - by apply (w_running _ (Spe _ _ _ _ _)).
  - by apply w_entry.
  - by apply (w_rc _ _ rc).
  - by apply w_print.
  - by apply w_leaves.
  - by apply w_done.
Qed.

(** [main] writes the word [x]. *)
Lemma mbox_main_sends s t w e p j rm rw x b t' p' j' rm' :
  running s t w e p j rm rw → mbox_put x (mailbox e) b → main_at t' p' j' rm' →
  seqZ 0 j' ++ told p' = (seqZ 0 j ++ told p) ++ [x] →
  (p' ≠ Looping → j' = n ∨ broken w e) → p' ≠ Joined → t' ≠ Return EXIT_SUCCESS →
  running (go 0 t' (set_spe 0 (Spe (machine e) (runner e) b (x :: sent e) (got e)) s))
    t' w (Spe (machine e) (runner e) b (x :: sent e) (got e)) p' j' rm' rw.
Proof.
  intros [Ht He Hd Hm Hw Hs Ho Hx Ha Hy Hj Hp] Hb Hm' Hl Hy' Hj' Hq.
  split; cbn [go set_spe threads spes vars ended sent got mailbox]; try done.
  - by rewrite Ht.
  - by rewrite He.
  - by apply mbox_worker_at_box.
  - cbn [rev]. by rewrite Hs, Hl.
  - cbn [rev]. etrans; [apply sublist_app; [reflexivity|by eapply content_put]|]. rewrite app_assoc. by apply sublist_app.
  - intros Hg. pose proof (Hbox Hg). cbn [rev]. erewrite reliable_put by done. rewrite app_assoc. by rewrite Hx.
Qed.

Lemma moves_to s t w e p j rm rw M : running s t w e p j rm rw → rm + rw < M → progresses M s.
Proof. intros Hr HM. eexists. split; [|by eapply inv_running]. done. Qed.

(** A step of [main] without a word. *)
Ltac main_goes H tac :=
  eapply moves_to; [eapply (mbox_main_moves _ _ _ _ _ _ _ _ _ _ _ H); [tac|..]|try lia]; try done.

(** The failures of [main], for another error than an early end. *)
Lemma main_fails s t w e p j rm rw u :
  running s t w e p j rm rw → 0 ≤ j ≤ n → ¬ good → p ≠ Joined → 27 < rm → progresses (rm + rw) (go 0 (fails u) s).
Proof. intros H Hj Hg Hp Hr. main_goes H ltac:(by apply m_fails). apply (ru_early _ _ _ _ _ _ _ _ H). Qed.

Lemma main_aborts s t w e p j rm rw :
  running s t w e p j rm rw → 0 ≤ j ≤ n → ¬ good → p ≠ Joined → 26 < rm → progresses (rm + rw) (go 0 Abort s).
Proof. intros H Hj Hg Hp Hr. main_goes H ltac:(by apply m_abort). apply (ru_early _ _ _ _ _ _ _ _ H). Qed.

Lemma sends_step s t w e j rm rw next i s' :
  running s t w e Looping j rm rw → t = sends strerror next i → 0 ≤ i < n → j = i → rm = 8 * (n - i) + 39 →
  (next = looks strerror i ∨ ∃ fd, next = looks_sched fd i) →
  thread_step (mbox_code strerror n) kernel s 0 t s' → progresses (rm + rw) s'.
Proof.
  intros H -> Hi -> -> Hnx Hs. apply send_step in Hs as (a & Hk & [[Hc ->]|(Hc & e' & b & He & Hb & ->)]).
  - rewrite (proj2 (Z.eqb_neq _ _)) by done. cbn [negb]. eapply main_fails; [exact H|lia| |done|lia].
    by apply (answer_ok _ _ Hk).
  - rewrite Hc. cbn [negb Z.eqb Pos.eqb]. rewrite (ru_spes _ _ _ _ _ _ _ _ H) in He. injection He as <-.
    eapply moves_to; [eapply (mbox_main_sends _ _ _ _ _ _ _ _ _ _ next Looping (i + 1) _ H Hb)|].
    + destruct Hnx as [->|[fd ->]]; constructor; lia.
    + cbn. rewrite !app_nil_r, seqZ_snoc by lia. by rewrite wrapu_small by (revert Hn; unfold int_max; lia).
    + done.
    + done.
    + by destruct Hnx as [->|[fd ->]].
    + lia.
Qed.

(** The look at [thread_abort]. *)
Lemma looks_step s t w e i rm rw :
  running s t w e Looping (i + 1) rm rw → 0 ≤ i < n → rm = 8 * (n - i) + 38 → vars s thread_abort ≠ 0 → broken w e.
Proof.
  intros H Hi -> Ha. eapply (ended_early _ _ _ _ _ _ _ _ H); [done|lia|]. by apply (ru_abort _ _ _ _ _ _ _ _ H).
Qed.

(** The result at the end of the thread. *)
Lemma worker_done vs e w r : worker_at vs e w r → w = Done → result e (vs thread_run_rc).
Proof. by intros [] Hw. Qed.

Lemma rc_pass code : code = 0x1337 → wraps 32 (stop_status code) = 0x13370002.
Proof. by intros ->. Qed.

(** When all is [good] the SPE reads no more than was sent. *)
Lemma good_length s t w e p j rm rw :
  good → running s t w e p j rm rw → 0 ≤ j ≤ n → Z.of_nat (length (got e)) ≤ n + 1.
Proof.
  intros Hg H Hj. pose proof (ru_exact _ _ _ _ _ _ _ _ H Hg) as Hx. rewrite (ru_sent _ _ _ _ _ _ _ _ H) in Hx.
  apply (f_equal length) in Hx. rewrite !length_app, length_rev, length_seqZ in Hx.
  assert (length (told p) ≤ 1)%nat by (destruct p; cbn; lia).
  lia.
Qed.

Lemma running_rank s t w e p j rm rw : good → running s t w e p j rm rw → 0 ≤ j ≤ n → 0 ≤ rw.
Proof.
  intros Hg H Hj. pose proof (good_length _ _ _ _ _ _ _ _ Hg H Hj).
  destruct (ru_worker _ _ _ _ _ _ _ _ H) as [| |k Hr Hf| | | | |]; unfold spe_rank; lia.
Qed.

Lemma main_at_range t p j rm : main_at t p j rm → 0 ≤ j ≤ n ∧ 26 ≤ rm.
Proof. destruct 1; lia. Qed.

(** A pass, and what the SPE has read. *)
Lemma main_passes s t w e j rm rw :
  running s t w e Joined j rm rw → vars s thread_run_rc = 0x13370002 → 0 ≤ j ≤ n → all_received e.
Proof.
  intros H Hv Hjn. pose proof (ru_joined _ _ _ _ _ _ _ _ H eq_refl) as Hw.
  destruct (worker_done _ _ _ _ (ru_worker _ _ _ _ _ _ _ _ H) Hw) as [_ [[Hc _]|(m & code & m' & Hst & Hsp & Hrc)]]; rewrite Hv in *; [lia|].
  destruct (state_stopped _ _ _ _ _ Hst Hsp) as [[_ (k & Hk & E)]|[-> _]]; [|done].
  assert (j = n) as ->.
  { destruct (ru_early _ _ _ _ _ _ _ _ H ltac:(done)) as [|(_ & _ & Hb)]; [done|]. by apply Hb in E. }
  pose proof (ru_sent _ _ _ _ _ _ _ _ H) as Hs. pose proof (ru_order _ _ _ _ _ _ _ _ H) as Ho.
  split; [done|]. exists k. cbn [told] in Hs. split; [|split; [done|]].
  - split; [done|]. apply sublist_length in Ho. rewrite Hs, E in Ho. rewrite !length_app, !length_seqZ in Ho. cbn in Ho. lia.
  - intros Hg. pose proof (ru_exact _ _ _ _ _ _ _ _ H Hg) as Hx. rewrite Hs, E, <- app_assoc in Hx. cbn in Hx.
    apply seqZ_prefix in Hx; [|lia..]. destruct Hx as [[Hlt Hx]|[-> _]]; [|done].
    revert Hx Hlt Hn. unfold stop_message, int_max. lia.
Qed.

(** When all is [good] the SPE gets everything. *)
Lemma good_passes s t w e j rm rw :
  good → running s t w e Joined j rm rw → 0 ≤ j ≤ n → vars s thread_run_rc = 0x13370002.
Proof.
  intros Hg H Hjn. pose proof (ru_joined _ _ _ _ _ _ _ _ H eq_refl) as Hw.
  destruct (worker_done _ _ _ _ (ru_worker _ _ _ _ _ _ _ _ H) Hw) as [_ [[_ Hb]|(m & code & m' & Hst & Hsp & ->)]]; [done|].
  destruct (state_stopped _ _ _ _ _ Hst Hsp) as [[-> _]|[_ Hk]]; [done|]. exfalso.
  destruct (Hk Hg) as (k & x & Hk0 & E & Hxk & Hxs). pose proof (ru_exact _ _ _ _ _ _ _ _ H Hg) as Hx.
  rewrite (ru_sent _ _ _ _ _ _ _ _ H), E, <- app_assoc in Hx. cbn in Hx.
  apply seqZ_prefix in Hx; [|lia..]. by destruct Hx as [[_ ->]|(_ & -> & _)].
Qed.

Lemma mbox_main_step s t w e p j rm rw s' :
  running s t w e p j rm rw → thread_step (mbox_code strerror n) kernel s 0 t s' → progresses (rm + rw) s'.
Proof.
  intros H Hs. pose proof (ru_main _ _ _ _ _ _ _ _ H) as Hm.
  inversion Hm as [i l Hi Hl|i next Hi Hnx|i Hi|fd i Hi|fd i Hi|fd i Hi|j' Hi|j' Hi|j' Hi|j' Hi|u p' j' Hi Hg|p' j' Hi Hg|p' j' Hi Hg]; subst.
  - apply goto_step in Hs as ->. destruct (Z.ltb_spec j n) as [Hlt|Hge].
    + destruct Hl as [->|[fd ->]]; cbn [mbox_code]; rewrite (proj2 (Z.ltb_lt _ _)) by done.
      * main_goes H ltac:(apply m_send; [lia|by left]).
      * main_goes H ltac:(apply m_send; [lia|right; by eexists]).
    + destruct Hl as [->|[fd ->]]; cbn [mbox_code]; rewrite (proj2 (Z.ltb_ge _ _)) by done;
        main_goes H ltac:(by apply m_stop); intros _; left; lia.
  - by eapply sends_step.
  - apply get_step in Hs as ->. destruct (Z.eqb_spec (vars s thread_abort) 0) as [E|E]; cbn [negb].
    + main_goes H ltac:(apply m_loop; [lia|by left]).
    + main_goes H ltac:(apply m_stop; lia). intros _. right. by eapply looks_step.
  - apply get_step in Hs as ->. destruct (Z.eqb_spec (vars s thread_abort) 0) as [E|E]; cbn [negb].
    + destruct (_ =? _).
      * main_goes H ltac:(by apply m_read).
      * main_goes H ltac:(apply m_loop; [lia|right; by eexists]).
    + eapply main_fails; [exact H|lia| |done|lia]. by eapply looks_step.
  - apply call_step in Hs as (a & Hk & ->). cbn [effect]. unfold asserted. destruct (Z.eqb_spec (a_rc a) 4) as [E|E].
    + main_goes H ltac:(by apply m_seek).
    + eapply main_aborts; [exact H|lia| |done|lia]. by apply (answer_ok _ _ Hk).
  - apply call_step in Hs as (a & Hk & ->). cbn [effect]. unfold asserted. destruct (Z.eqb_spec (a_rc a) 0) as [E|E].
    + main_goes H ltac:(apply m_loop; [lia|right; by eexists]).
    + eapply main_aborts; [exact H|lia| |done|lia]. by apply (answer_ok _ _ Hk).
  - apply send_step in Hs as (a & Hk & [[Hc ->]|(Hc & e' & b & He & Hb & ->)]).
    + rewrite (proj2 (Z.eqb_neq _ _)) by done. cbn [negb]. eapply main_fails; [exact H|lia| |done|lia]. by apply (answer_ok _ _ Hk).
    + rewrite Hc. cbn [negb Z.eqb Pos.eqb]. rewrite (ru_spes _ _ _ _ _ _ _ _ H) in He. injection He as <-.
      eapply moves_to; [eapply (mbox_main_sends _ _ _ _ _ _ _ _ _ _ joins Told j _ H Hb)|]; try done; [by apply m_join| | |lia].
      * cbn. by rewrite app_nil_r.
      * intros _. by apply (ru_early _ _ _ _ _ _ _ _ H).
  - apply wait_step in Hs as [Hd ->]. rewrite (ru_threads _ _ _ _ _ _ _ _ H) in Hd. cbn in Hd. injection Hd as ->.
    main_goes H ltac:(by apply m_rc). intros _. by apply (ru_early _ _ _ _ _ _ _ _ H).
  - apply get_step in Hs as ->. pose proof (ru_early _ _ _ _ _ _ _ _ H) as Hy. pose proof (ru_joined _ _ _ _ _ _ _ _ H eq_refl) as Hj.
    destruct (Z.eqb_spec (vars s thread_run_rc) 0x13370002) as [E|E]; cbn [negb].
    + main_goes H ltac:(by apply m_pass).
    + main_goes H ltac:(apply m_fails; [done|]). intros Hg. by apply E, (good_passes _ _ _ _ _ _ _ Hg H).
  - apply return_step in Hs as ->. to_end. eapply inv_ended; [done| |done|intros Hg; pose proof (running_rank _ _ _ _ _ _ _ _ Hg H Hi); lia]. intros _. exists e.
    split; [apply (ru_spes _ _ _ _ _ _ _ _ H)|]. eapply main_passes; [exact H| |done]. by apply (ru_pass _ _ _ _ _ _ _ _ H).
  - apply print_step in Hs as ->. main_goes H ltac:(by apply m_failed).
    + apply (ru_early _ _ _ _ _ _ _ _ H).
    + apply (ru_joined _ _ _ _ _ _ _ _ H).
  - apply return_step in Hs as ->. ends_badly.
  - apply abort_step in Hs as ->. ends_badly.
Qed.

(** *** The thread and the SPE move *)

Lemma mbox_worker_moves s t w e p j rm rw w' e' vs' rw' :
  running s t w e p j rm rw → w ≠ Done → worker_at vs' e' w' rw' →
  sent e' = sent e → got e' = got e → mailbox e' = mailbox e →
  (vs' thread_abort ≠ vars s thread_abort → w' = Done) → (good → rw' < rw) →
  progresses (rm + rw) (Sys (<[1%nat:=w']> (threads s)) (<[0%nat:=e']> (spes s)) vs' (ended s)).
Proof.
  intros [Ht He Hd Hm Hw Hs Ho Hx Ha Hy Hj Hp] Hne Hw' E1 E2 E3 Ha' Hr. exists (rm + rw'). split; [intros Hg; specialize (Hr Hg); lia|].
  apply (inv_running _ t w' e' p j). split; cbn [threads spes vars ended]; rewrite ?E1, ?E2, ?E3; try done.
  - by rewrite Ht.
  - by rewrite He.
  - intros Hv. apply Ha'. intros E. rewrite E in Hv. by apply Hne, Ha.
  - intros Hpl. left. destruct (Hy Hpl) as [|[-> _]]; [done|]. by destruct Hne.
  - intros Hpj. by destruct Hne; apply Hj.
  - intros ->. destruct Hne. apply Hj. by inversion Hm.
Qed.

(** The contexts of a step of the thread that leaves them alone. *)
Lemma same_spe s t w e p j rm rw : running s t w e p j rm rw → spes s = <[0%nat:=e]> (spes s).
Proof. intros H. by rewrite (ru_spes _ _ _ _ _ _ _ _ H). Qed.

Lemma result_stopped e m code m' rc :
  state good (rev (got e)) (machine e) → spu_step (machine e) = Stopped code m' → rc = wraps 32 (stop_status code) →
  result (set_runner None (set_machine m e)) rc.
Proof. intros Hst Hsp ->. split; [done|]. right. by exists (machine e), code, m'. Qed.

Lemma mbox_ready_follows e : ready e → ∃ k, (k ≤ 2)%nat ∧ follows (state good) k (rev (got e)) (machine e).
Proof.
  intros (_ & -> & l & -> & [->|[-> Hg]]).
  - apply loaded_start.
  - exists 0%nat. split; [lia|]. by apply empty_start.
Qed.

Lemma ready_runs s t w e p j rm rw s' :
  running s t w e p j rm rw → w = Run 0 0 ran → ready e → rw = 10 * (n + 2) + 18 →
  thread_step (mbox_code strerror n) kernel s 1 w s' → progresses (rm + rw) s'.
Proof.
  intros H -> Hr -> Hs. pose proof Hr as (Hrun & Hgot & l & Hml & Hl).
  apply run_step in Hs as (e' & He & Hs). pose proof (ru_spes _ _ _ _ _ _ _ _ H) as Hsp.
  pose proof (ru_threads _ _ _ _ _ _ _ _ H) as Hth.
  rewrite Hsp in He. injection He as <-. destruct Hs as [[_ [->|(a & Hk & Hc & ->)]]|[Hrun' _]]; [| |congruence].
  - destruct (mbox_ready_follows _ Hr) as (k & Hk2 & Hf).
    unfold set_spe. replace (threads s) with (<[1%nat:=Run 0 0 ran]> (threads s)) by by rewrite Hth.
    eapply (mbox_worker_moves _ _ _ _ _ _ _ _ _ _ _ _ H); try done.
    + apply (w_running _ _ k); [done|]. cbn [got machine set_runner set_machine]. rewrite Hml in *. exact Hf.
    + unfold spe_rank. cbn [got set_runner set_machine]. rewrite Hgot. cbn. lia.
  - unfold go. rewrite (same_spe _ _ _ _ _ _ _ _ H). eapply (mbox_worker_moves _ _ _ _ _ _ _ _ _ _ _ _ H); try done; [|shelve].
    apply w_entry. split; [done|]. left. rewrite Hc. split; [done|]. apply (answer_ok _ _ Hk). cbn. lia.
    Unshelve. lia.
Qed.

Lemma mbox_worker_step s t w e p j rm rw s' :
  running s t w e p j rm rw → thread_step (mbox_code strerror n) kernel s 1 w s' → progresses (rm + rw) s'.
Proof.
  intros H Hs. pose proof (ru_worker _ _ _ _ _ _ _ _ H) as Hw. pose proof (ru_spes _ _ _ _ _ _ _ _ H) as Hsp.
  assert (∀ w' vs' rw', w ≠ Done → worker_at vs' e w' rw' → (vs' thread_abort ≠ vars s thread_abort → w' = Done) → rw' < rw →
    progresses (rm + rw) (Sys (<[1%nat:=w']> (threads s)) (spes s) vs' (ended s))) as Hgo.
  { intros w' vs' rw' Hne Hw' Ha Hr. rewrite (same_spe _ _ _ _ _ _ _ _ H).
    by eapply (mbox_worker_moves _ _ _ _ _ _ _ _ _ _ _ _ H). }
  inversion Hw as [Hr Hv|Hr|k Hr Hf|a Hr|rc u Hr Hu|u Hr|Hr|Hr]; subst w rw.
  - apply get_step in Hs as ->. rewrite Hv. eapply Hgo; [done|by apply w_runs|done|lia].
  - by eapply ready_runs.
  - apply run_step in Hs as (e' & He & Hs). rewrite Hsp in He. injection He as <-.
    destruct Hs as [[Hr' _]|(_ & code & m & a & Hst & Hk & Hc & Hnpc & ->)]; [congruence|].
    destruct (follows_stops _ _ _ _ _ Hf Hst) as [-> HS].
    eapply (mbox_worker_moves _ _ _ _ _ _ _ _ _ _ _ _ H); try done.
    + apply w_entry. eapply result_stopped; [done..|]. by rewrite Hc.
    + intros Hg. destruct (main_at_range _ _ _ _ (ru_main _ _ _ _ _ _ _ _ H)) as [Hj _].
      pose proof (good_length _ _ _ _ _ _ _ _ Hg H Hj). unfold spe_rank. lia.
  - apply put_step in Hs as ->. eapply Hgo; [done|eapply w_rc; [done|]|done|lia].
    destruct (wraps 32 (a_rc a) <? 0); [right; by eexists|by left].
  - apply put_step in Hs as ->. destruct Hu as [->|[u' ->]].
    + eapply Hgo; [done|by apply w_leaves|done|lia].
    + eapply Hgo; [done|by apply w_print|done|lia].
  - apply print_step in Hs as ->. eapply Hgo; [done|by apply w_leaves|done|lia].
  - apply put_step in Hs as ->. eapply Hgo; [done|by apply w_done|done|lia].
  - inversion Hs.
Qed.

Lemma mbox_spe_moves s t w e p j rm rw c e' s' :
  running s t w e p j rm rw → spes s !! c = Some e' → is_Some (runner e') → spe_step s c e' s' → progresses (rm + rw) s'.
Proof.
  intros H Hc [q Hq] Hs. rewrite (ru_spes _ _ _ _ _ _ _ _ H) in Hc. destruct c; [|by destruct c]. injection Hc as <-.
  pose proof (ru_worker _ _ _ _ _ _ _ _ H) as Hw. pose proof (ru_threads _ _ _ _ _ _ _ _ H) as Hth.
  inversion Hw as [[Hr _] Hv|[Hr _]|k Hr Hf|a [Hr _]|rc u [Hr _] Hu|u [Hr _]|[Hr _]|[Hr _]]; subst w rw; try congruence.
  assert (Hrun : threads s = <[1%nat:=Run 0 0 ran]> (threads s)) by by rewrite Hth.
  destruct Hs as [m Hm|f x b Hm Hb Hx].
  - destruct (follows_next _ _ _ _ Hf Hm) as (k' & -> & Hf'). unfold set_spe. rewrite Hrun.
    eapply (mbox_worker_moves _ _ _ _ _ _ _ _ _ _ _ _ H); try done; [by apply (w_running _ _ k')|].
    intros _. unfold spe_rank. cbn [got set_machine]. lia.
  - destruct (follows_reads _ _ _ _ _ Hf Hm) as (-> & _ & Hfx). destruct (Hfx x Hx) as (k' & Hk' & Hf').
    exists (rm + (spe_rank (Spe (f x) (runner e) b (sent e) (x :: got e)) k' + 8)).
    split; [intros _; unfold spe_rank; cbn [got length]; lia|].
    destruct H as [Ht He Hd Hmn _ Hsn Ho Hxx Ha Hy Hj Hp]. pose proof (content_take _ _ _ Hb) as Hct.
    apply (inv_running _ t (Run 0 0 ran) (Spe (f x) (runner e) b (sent e) (x :: got e)) p j).
    split; cbn [set_spe threads spes vars ended sent got mailbox]; try done.
    + by rewrite He.
    + by apply w_running.
    + cbn [rev]. rewrite <- app_assoc. cbn [app]. etrans; [|exact Ho]. by apply sublist_app.
    + intros Hg. pose proof (Hbox Hg). cbn [rev]. rewrite <- app_assoc. cbn [app]. by rewrite <- (reliable_take x _ _ Hb), Hxx.
    + intros Hpl. left. destruct (Hy Hpl) as [|[? _]]; done.
Qed.

Lemma mbox_inv_step M s s' : inv M s → step s s' → progresses M s'.
Proof.
  intros Hi Hst. pose proof (step_running _ _ _ _ Hst) as Hn'. destruct Hi as [s t r Ht He Ha Hb|s t w e p j rm rw H|s r M Hr _ _ _].
  - by eapply before_step.
  - destruct Hst as [i t' s' _ Hi Hs|c e' s' _ Hc Hq Hs].
    + rewrite (ru_threads _ _ _ _ _ _ _ _ H) in Hi. apply lookup_two in Hi as [[-> ->]|[-> ->]];
        [by eapply mbox_main_step|by eapply mbox_worker_step].
    + by eapply mbox_spe_moves.
  - congruence.
Qed.

(** *** The start *)

Lemma initial_inv junk t :
  t = mailbox_02_mbox_multiple strerror ∨ t = mailbox_03_mbox_multiple_sched strerror →
  inv (18 * n + 200 + 9) (initial t junk).
Proof.
  intros Ht. eapply inv_before; [done..|]. cbn [initial spes vars].
  destruct Ht as [->| ->]; apply b_create; intros ctx; eexists; (split; [done|]).
  - left. eexists. split; [|done]. by left.
  - right. by eexists.
Qed.

Lemma reachable_inv_some s0 s M0 : inv M0 s0 → rtc step s0 s → ∃ M, inv M s.
Proof.
  intros H0. apply (reachable_measured _ _ _ _ _ H0). intros M s1 s2 Hi Hst.
  destruct (mbox_inv_step _ _ _ Hi Hst) as (M1 & _ & H). by exists M1.
Qed.

(** *** Progress *)

Lemma good_answer r rc npc : good → answers_ok r (answer rc npc) → kernel r (answer rc npc).
Proof. intros Hg H. by apply Hkernel. Qed.

Lemma can_step s i t s' :
  ended s = None → threads s !! i = Some t → thread_step (mbox_code strerror n) kernel s i t s' → ∃ s', step s s'.
Proof. intros. exists s'. by eapply step_thread. Qed.

Ltac can_go Hg :=
  first [by constructor
        |constructor; apply (good_answer _ 4 0 Hg); cbn; done
        |constructor; apply (good_answer _ 1 0 Hg); cbn; done
        |constructor; apply (good_answer _ 0 0 Hg); cbn; done].

Lemma before_progress s t r :
  good → threads s = [t] → ended s = None → before (vars s) t (spes s) r → ∃ s', step s s'.
Proof.
  intros Hg Ht He Hb. assert (threads s !! 0%nat = Some t) as Hi by by rewrite Ht.
  inversion Hb as [name next Hnx E1 E2|ctx next Hnx E1 E2|ctx t1 Hw E1 E2|ctx E1 E2|next Hnx E1 E2|l next Hnx Hl E1 E2
    |l next Hnx Hl Hz E1 E2|u es Hng Hes E1 E2|es Hng Hes E1 E2|es Hng Hes E1 E2]; subst t; try done;
    (eapply can_step; [done|done|]).
  - can_go Hg.
  - can_go Hg.
  - can_go Hg.
  - can_go Hg.
  - by eapply t_mem; [by rewrite <- E2|apply (good_answer (r_mem _) 40 0 Hg)|].
  - can_go Hg.
  - by apply t_start; [apply (good_answer _ 0 0 Hg)|].
Qed.

(** The thread or its SPE can go on, or the SPE waits for a word. *)
Lemma worker_progress s t w e p j rm rw :
  good → running s t w e p j rm rw → w ≠ Done →
  (∃ s', step s s') ∨ (content (mailbox e) = [] ∧ ∃ k, 0 ≤ k ∧ rev (got e) = seqZ 0 k).
Proof.
  intros Hg H Hne. pose proof (Hbox Hg) as Hrel. pose proof (ru_ended _ _ _ _ _ _ _ _ H) as He.
  assert (threads s !! 1%nat = Some w) as Hi by by rewrite (ru_threads _ _ _ _ _ _ _ _ H).
  assert (spes s !! 0%nat = Some e) as Hc by by rewrite (ru_spes _ _ _ _ _ _ _ _ H).
  pose proof (ru_worker _ _ _ _ _ _ _ _ H) as Hw.
  inversion Hw as [Hr Hv|Hr|k Hr Hf|a Hr|rc u Hr Hu|u Hr|Hr|Hr]; subst w; try done;
    try (left; eapply can_step; [done|done|by constructor]).
  - left. eapply can_step; [done|done|]. apply t_run; [done|apply Hr].
  - destruct (spu_step (machine e)) as [m|code m|ch f|ch x m|] eqn:Hs.
    + left. eexists. eapply step_spe; [done|done|by rewrite Hr|by constructor].
    + left. eapply can_step; [done|done|]. eapply (t_run_stops _ _ _ _ _ _ _ _ _ _ (answer (stop_status code) (pc m))); try done.
      apply good_answer; [done|]. cbn. destruct (follows_stops _ _ _ _ _ Hf Hs) as [_ HS].
      by destruct (state_stopped _ _ _ _ _ HS Hs) as [[-> _]|[-> _]].
    + destruct (follows_reads _ _ _ _ _ Hf Hs) as (-> & -> & _).
      destruct (follows_settled _ _ _ Hf ltac:(by rewrite Hs)) as [_ HS].
      destruct (content (mailbox e)) as [|x l] eqn:Hct; [right; split; [done|by eapply state_reads]|]. left.
      destruct (reliable_ready _ _ _ Hct) as [b Hb]. eexists. eapply step_spe; [done|done|by rewrite Hr|].
      eapply e_reads; [done|done|].
      assert (x ∈ seqZ 0 j ++ told p) as Hx.
      { rewrite <- (ru_sent _ _ _ _ _ _ _ _ H), <- (ru_exact _ _ _ _ _ _ _ _ H Hg), Hct. apply elem_of_app. right. by left. }
      destruct (main_at_range _ _ _ _ (ru_main _ _ _ _ _ _ _ _ H)) as [Hj _].
      apply elem_of_app in Hx as [Hx%elem_of_seqZ|Hx]; [revert Hx Hj Hn; unfold int_max; lia|].
      destruct p; cbn in Hx; [by apply not_elem_of_nil in Hx..|apply list_elem_of_singleton in Hx as ->|apply list_elem_of_singleton in Hx as ->]; unfold stop_message; lia.
    + pose proof (follows_legal _ _ _ Hf) as Hg'. by rewrite Hs in Hg'.
    + pose proof (follows_legal _ _ _ Hf) as Hg'. by rewrite Hs in Hg'.
Qed.

(** A write goes through, or something else can move. *)
Lemma send_progress s t w e p j rm rw x k :
  good → running s t w e p j rm rw → t = Send 0 x k → told p = [] → ∃ s', step s s'.
Proof.
  intros Hg H -> Hp. destruct (main_at_range _ _ _ _ (ru_main _ _ _ _ _ _ _ _ H)) as [Hj _]. pose proof (Hbox Hg) as Hrel.
  destruct (content (mailbox e)) as [|y l] eqn:Hct.
  - destruct (reliable_room x _ Hct) as [b Hb]. eapply (can_step _ 0).
    + apply (ru_ended _ _ _ _ _ _ _ _ H).
    + by rewrite (ru_threads _ _ _ _ _ _ _ _ H).
    + eapply (t_send _ _ _ _ _ _ _ (answer 4 0)); [by rewrite (ru_spes _ _ _ _ _ _ _ _ H)|by apply good_answer|done|done].
  - assert (w ≠ Done) as Hne by (intros Hw; by destruct (ended_early _ _ _ _ _ _ _ _ H Hp Hj Hw) as (_ & Hng & _)).
    destruct (worker_progress _ _ _ _ _ _ _ _ Hg H Hne) as [|[Hct' _]]; [done|congruence].
Qed.

Lemma wait_progress s w e j rm rw : good → running s joins w e Told j rm rw → ∃ s', step s s'.
Proof.
  intros Hg H. destruct (main_at_range _ _ _ _ (ru_main _ _ _ _ _ _ _ _ H)) as [Hj _].
  pose proof (ru_threads _ _ _ _ _ _ _ _ H) as Hth.
  assert (w = Done ∨ w ≠ Done) as [->|Hne].
  { destruct (ru_worker _ _ _ _ _ _ _ _ H); (by left) || by right. }
  - eapply (can_step _ 0); [apply (ru_ended _ _ _ _ _ _ _ _ H)|by rewrite Hth|]. apply t_join. by rewrite Hth.
  - destruct (worker_progress _ _ _ _ _ _ _ _ Hg H Hne) as [|[Hct (k & Hk & E)]]; [done|]. exfalso.
    pose proof (ru_exact _ _ _ _ _ _ _ _ H Hg) as Hx. rewrite (ru_sent _ _ _ _ _ _ _ _ H), Hct, E, app_nil_r in Hx.
    cbn [told] in Hx. assert (k = j + 1) as ->.
    { apply (f_equal length) in Hx. rewrite length_app, !length_seqZ in Hx. cbn in Hx. lia. }
    rewrite seqZ_snoc in Hx by lia. apply app_inj_tail in Hx as [_ Hx]. revert Hx Hj Hn. unfold stop_message, int_max. lia.
Qed.

Lemma running_progress s t w e p j rm rw : good → running s t w e p j rm rw → ∃ s', step s s'.
Proof.
  intros Hg H. pose proof (ru_ended _ _ _ _ _ _ _ _ H) as He.
  assert (threads s !! 0%nat = Some t) as Hi by by rewrite (ru_threads _ _ _ _ _ _ _ _ H).
  pose proof (ru_main _ _ _ _ _ _ _ _ H) as Hm.
  inversion Hm as [i l Hj Hl|i next Hj Hnx|i Hj|fd i Hj|fd i Hj|fd i Hj|j' Hj|j' Hj|j' Hj|j' Hj|u p' j' Hj Hng|p' j' Hj Hng|p' j' Hj Hng];
    subst; try done; try (eapply can_step; [done|done|can_go Hg]).
  - by eapply send_progress.
  - by eapply send_progress.
  - by eapply wait_progress.
Qed.

Lemma inv_progress M s : good → inv M s → 0 ≤ M ∧ (is_Some (ended s) ∨ ∃ s', step s s').
Proof.
  intros Hg [s1 t r Ht He Ha Hb|s1 t w e p j rm rw H|s1 r M1 Hr _ _ HM].
  - split; [destruct Hb; lia|]. right. by eapply before_progress.
  - destruct (main_at_range _ _ _ _ (ru_main _ _ _ _ _ _ _ _ H)) as [Hj Hrm].
    split; [pose proof (running_rank _ _ _ _ _ _ _ _ Hg H Hj); lia|]. right. by eapply running_progress.
  - split; [by apply HM|]. left. by rewrite Hr.
Qed.
End props.

(** ** The theorems *)

(** 02-mbox-multiple and 03-mbox-multiple+sched. *)
Inductive multiple (strerror : Z → bytes) : mbox_thread → Prop :=
| multiple_02 : multiple strerror (mailbox_02_mbox_multiple strerror)
| multiple_03 : multiple strerror (mailbox_03_mbox_multiple_sched strerror).

(** C12 [mbox_multiple_order]: when 02-mbox-multiple or 03-mbox-multiple+sched returns
    success, on any kernel with a mailbox that keeps the order, [main] has sent
    every message and the stop message, and the SPE has read the messages from 0
    up to some [k], each once and in order, and then the stop message: only the
    last ones can be missing. *)
Theorem mbox_multiple_order strerror {box} `{!Mailbox box} `{!InOrder box} kernel n main junk (s : sys mbox_var mbox_loop box) :
  0 ≤ n ≤ int_max → multiple strerror main →
  rtc (step (mbox_code strerror n) kernel) (initial main junk) s →
  ended s = Some (Returned EXIT_SUCCESS) →
  ∃ e k, spes s = [e] ∧ 0 ≤ k ≤ n ∧
    rev (sent e) = seqZ 0 n ++ [stop_message] ∧ rev (got e) = seqZ 0 k ++ [stop_message].
Proof.
  intros Hn Hm Hs He.
  assert (∃ M, inv strerror n False M s) as [M Hi].
  { eapply (reachable_inv_some strerror kernel n Hn False); [done|done| |exact Hs]. apply initial_inv. destruct Hm; auto. }
  destruct Hi as [? ? ? ? Hnone|? ? ? ? ? ? ? ? Hr|s r M Hr Hp _ _]; [congruence|by rewrite (ru_ended _ _ _ _ _ _ _ _ _ _ _ Hr) in He|].
  rewrite Hr in He. injection He as ->. destruct (Hp eq_refl) as (e & Hsp & Hsent & k & Hk & Hgot & _).
  by exists e, k.
Qed.

(** C13 [mbox_multiple_ends]: on a kernel that does what it is asked, with a mailbox
    that loses nothing, the two tests end with success whatever the order of the
    steps, and the SPE has then read every message. *)
Theorem mbox_multiple_ends strerror {box} `{!Mailbox box} `{!InOrder box} n main junk :
  0 ≤ n ≤ int_max → multiple strerror main → Reliable box →
  inevitably (step (mbox_code strerror n) answers_ok)
    (λ s : sys mbox_var mbox_loop box, ended s = Some (Returned EXIT_SUCCESS) ∧
       ∃ e, spes s = [e] ∧ rev (got e) = seqZ 0 n ++ [stop_message]) (initial main junk).
Proof.
  intros Hn Hm Hb.
  assert (Hk : True → ∀ r a, answers_ok r a ↔ answers_ok r a) by done.
  eapply (inevitably_measure _ (inv strerror n True)).
  2: { apply initial_inv. destruct Hm; auto. }
  intros M s Hi. destruct (inv_progress strerror answers_ok n Hn True Hk (λ _, Hb) M s I Hi) as [HM Hp]. split; [done|].
  destruct Hp as [[r Hr]|Hp].
  - left. destruct Hi as [? ? ? ? Hnone|? ? ? ? ? ? ? ? Hr'|s r' M Hr' Hpass Hg _];
      [congruence|by rewrite (ru_ended _ _ _ _ _ _ _ _ _ _ _ Hr') in Hr|].
    rewrite (Hg I) in *. split; [done|]. destruct (Hpass eq_refl) as (e & Hsp & _ & k & _ & Hgot & Hkn). exists e. split; [done|]. by rewrite <- (Hkn I).
  - right. split; [done|]. intros s' Hst.
    destruct (mbox_inv_step strerror answers_ok n Hn True Hk (λ _, Hb) M s s' Hi Hst) as (M' & HM' & Hi'). exists M'. auto.
Qed.

(** ** Runs *)

Definition no_text (e : Z) : bytes := [].

(** The queue of four words, and one that loses the word 2; every kernel is
    allowed. *)
Definition hardware : Mailbox (list Z) := queue_mailbox 4.
Definition loses_2 (x : Z) : bool := x =? 2.
Definition faulty : Mailbox (list Z) := lossy_mailbox loses_2.

Definition queue_put (x : Z) (b : list Z) : option (list Z) := if decide (length b < 4)%nat then Some (b ++ [x]) else None.
Definition faulty_put (x : Z) (b : list Z) : option (list Z) := Some (if loses_2 x then b else b ++ [x]).
Definition queue_take (b : list Z) : option (Z * list Z) := match b with [] => None | x :: b => Some (x, b) end.

Definition any_answer (r : request) (a : ans) : Prop := True.

(** Three messages. *)
Definition start_with : sys mbox_var mbox_loop (list Z) := initial (mailbox_02_mbox_multiple no_text) (λ _, 99).
Definition passing_run : sys mbox_var mbox_loop (list Z) :=
  @drive _ _ _ (list Z) hardware (mbox_code no_text 3) queue_put queue_take (λ _ _, true) granted 150 start_with.
Definition lossy_run : sys mbox_var mbox_loop (list Z) :=
  @drive _ _ _ (list Z) faulty (mbox_code no_text 3) faulty_put queue_take (λ _ _, true) granted 150 start_with.

Lemma queue_take_ok b x b' : queue_take b = Some (x, b') → b = x :: b'.
Proof. destruct b; [done|]. by intros [= <- <-]. Qed.

Lemma passing_run_reachable :
  rtc (@step _ _ _ _ hardware (mbox_code no_text 3) any_answer) start_with passing_run.
Proof.
  apply drive_reachable; [| |done].
  - intros x b b'. unfold queue_put. case_decide; [|done]. by intros [= <-].
  - apply queue_take_ok.
Qed.

Lemma lossy_run_reachable :
  rtc (@step _ _ _ _ faulty (mbox_code no_text 3) any_answer) start_with lossy_run.
Proof.
  apply drive_reachable; [| |done].
  - by intros x b b' [= <-].
  - apply queue_take_ok.
Qed.

Lemma mbox_multiple_order_witness :
  ended passing_run = Some (Returned EXIT_SUCCESS) ∧
  ∃ e k, spes passing_run = [e] ∧ 0 ≤ k ≤ 3 ∧
    rev (sent e) = seqZ 0 3 ++ [stop_message] ∧ rev (got e) = seqZ 0 k ++ [stop_message].
Proof.
  split; [vm_compute; reflexivity|].
  apply (@mbox_multiple_order no_text _ hardware (queue_in_order 4) any_answer 3 (mailbox_02_mbox_multiple no_text) (λ _, 99)).
  - unfold int_max. lia.
  - constructor.
  - exact passing_run_reachable.
  - vm_compute. reflexivity.
Defined.

(** 02 with three messages and the queue of the hardware. *)
Lemma mbox_multiple_ends_witness :
  @Reliable (list Z) hardware (queue_in_order 4) ∧
  inevitably (@step _ _ _ (list Z) hardware (mbox_code no_text 3) answers_ok)
    (λ s, ended s = Some (Returned EXIT_SUCCESS) ∧ ∃ e, spes s = [e] ∧ rev (got e) = seqZ 0 3 ++ [stop_message]) start_with.
Proof.
  assert (Hq : @Reliable (list Z) hardware (queue_in_order 4)) by (apply queue_reliable; lia).
  split; [exact Hq|].
  apply (@mbox_multiple_ends no_text _ hardware (queue_in_order 4) 3 (mailbox_02_mbox_multiple no_text) (λ _, 99)).
  - unfold int_max. lia.
  - constructor.
  - exact Hq.
Defined.

(** [mbox_multiple_misses_tail]: the test passes although the mailbox has lost a
    message, the last one. *)
Theorem mbox_multiple_misses_tail :
  ∃ s e, rtc (@step _ _ _ _ faulty (mbox_code no_text 3) any_answer) start_with s ∧
    ended s = Some (Returned EXIT_SUCCESS) ∧ spes s = [e] ∧
    rev (sent e) = [0; 1; 2; stop_message] ∧ rev (got e) = [0; 1; stop_message].
Proof.
  exists lossy_run. eexists. split; [exact lossy_run_reachable|].
  split; [vm_compute; reflexivity|]. split; [vm_compute; reflexivity|]. by vm_compute.
Qed.
