(* ===== verification/SchedMultiple.v ===== *)
(** * Many contexts at once (tests/20-scheduler/sched_multiple.c)

    A data set names the context for each of a list of messages; every message
    is the number of its context, and each SPE checks that it gets no other. *)

From stdpp Require Import relations.
From S2P Require Import Prelude CString SysProg SpuIsa SpuCode Threads.

Local Open Scope Z_scope.

(** ** The program *)

(** [thread_abort], and the fields of [threads[i]]. *)
Inductive sched_var := sched_abort | run_rc (i : Z) | writes (i : Z).

#[global] Instance sched_var_eq_dec : EqDecision sched_var.
Proof. solve_decision. Defined.

(** What [read_dataset] finds: the first byte of the file, the number of the
    others, and the others. *)
Record dataset := Dataset { n_spes : Z; pattern_len : Z; pattern : list Z }.

(** The data set in a file. *)
Definition data_of (file : bytes) : dataset :=
  match file with
  | [] => Dataset 0 (-1) []
  | c :: r => Dataset (code c) (Z.of_nat (length file) - 1) (map code r)
  end.

(** The loops of [main]: over the contexts, over the pattern, over the contexts
    again. *)
Inductive sched_loop := creating (d : dataset) (i : Z) | writing (d : dataset) (i : Z) | completing (d : dataset) (i : Z).

Definition sched_thread : Type := thread sched_var sched_loop.

Section program.
Context (strerror : Z → bytes).

Definition sched_perror (s : bytes) (a : ans) : bytes := s ++ lit ": " ++ strerror (a_errno a) ++ [newline_c].

Definition PROT_READ : Z := 1.
Definition MAP_PRIVATE : Z := 2.

(** [%2d] *)
Definition pad_left (n : nat) (s : bytes) : bytes := replicate (n - length s) " "%char ++ s.

(** *** A thread *)

Definition invalid_rc (rc : Z) : bytes :=
  lit "thread exited with invalid rc: 0x" ++ fmt_base 16 (wrapu 32 rc) ++ [newline_c].

Definition sched_ran (i : Z) (a : ans) : sched_thread :=
  let rc := wraps 32 (a_rc a) in
  Put (run_rc i) rc (if negb (rc =? 0x13370002) then Put sched_abort 1 (Print (invalid_rc rc) Done) else Done).

Definition sched_spe_thread (i : Z) : sched_thread := Run (Z.to_nat i) 0x10 (sched_ran i).

(** *** The loops of [main] *)

Section loops.
Context (d : dataset).

Definition starts_thread (i : Z) : sched_thread :=
  Start (sched_spe_thread i) (λ a,
    if negb (a_rc a =? 0) then fails (sched_perror (lit "pthread_create") a) else Goto (creating d (i + 1))).

Definition writes_mem (i : Z) : sched_thread :=
  WriteMem (Z.to_nat i) sched_multiple_program (λ a,
    if negb (a_rc a =? 64) then fails (sched_perror (lit "write:mem") a) else starts_thread i).

Definition opens_wbox (ctx i : Z) : sched_thread :=
  Call (c_openat ctx (lit "wbox") O_WRONLY) (λ a,
    if a_rc a <? 0 then Print (sched_perror (lit "openat") a) Abort else writes_mem i).

Definition opens_mbox (ctx i : Z) : sched_thread :=
  Put (writes i) 0 (opens_wbox ctx i).

Definition opens_spe (ctx i : Z) : sched_thread :=
  Call (c_openat ctx (lit "mem") O_RDWR) (λ a, asserted (0 <=? a_rc a) (opens_mbox ctx i)).

Definition creates_spe (name : bytes) (i : Z) : sched_thread :=
  Call (SYS_spu_create (Some name) 0 0x1ED None) (λ a,
    let ctx := wraps 32 (a_rc a) in asserted (0 <=? ctx) (opens_spe ctx i)).

Definition allocates_name (name : bytes) (i : Z) : sched_thread :=
  Call (c_asprintf name) (λ a, asserted (negb (a_rc a =? -1)) (creates_spe name i)).

(** The counter of [name_spu_context] is the number of names before. *)
Definition names_spe (i : Z) : sched_thread :=
  Call c_getpid (λ pid, allocates_name (context_name (lit "/spu") (a_rc pid) i) i).

Definition looks_abort (i : Z) : sched_thread :=
  Get sched_abort (λ b, if negb (b =? 0) then Return EXIT_FAILURE else Goto (writing d (i + 1))).

Definition sends_message (i p : Z) : sched_thread :=
  Send (Z.to_nat p) p (λ a,
    if negb (a_rc a =? 4) then fails (sched_perror (lit "write:mbox") a) else looks_abort i).

Definition counts (i p w : Z) : sched_thread := Put (writes p) (w + 1) (sends_message i p).

(** [threads + pattern[i]] may be outside the array. *)
Definition writes_message (i p : Z) : sched_thread :=
  if n_spes d <=? p then Undef else Get (writes p) (counts i p).

Definition decides (i rc : Z) : sched_thread :=
  if negb (rc =? 0x13370002) then fails (invalid_rc rc) else Goto (completing d (i + 1)).

Definition prints_end (i rc : Z) : sched_thread :=
  Print (lit "thread " ++ pad_left 2 (fmt_d i) ++ lit " ended, status=0x" ++ fmt_hex 8 (wrapu 32 rc) ++ [newline_c])
    (decides i rc).

Definition checks_rc (i : Z) : sched_thread := Get (run_rc i) (prints_end i).

Definition waits (i : Z) : sched_thread := Wait (S (Z.to_nat i)) (checks_rc i).

Definition sends_end (i : Z) : sched_thread :=
  Send (Z.to_nat i) stop_message (λ a,
    if negb (a_rc a =? 4) then fails (sched_perror (lit "write:mbox") a) else waits i).

Definition prints_writes (i w : Z) : sched_thread :=
  Print (lit "[" ++ fmt_d i ++ lit "] " ++ fmt_d w ++ lit " writes" ++ [newline_c]) (sends_end i).

Definition completes (i : Z) : sched_thread := Get (writes i) (prints_writes i).
End loops.

Definition sched_code (l : sched_loop) : sched_thread :=
  match l with
  | creating d i => if i <? n_spes d then names_spe d i else Goto (writing d 0)
  | writing d i =>
      if i <? pattern_len d then
        match pattern d !! Z.to_nat i with Some p => writes_message d i p | None => Undef end
      else Goto (completing d 0)
  | completing d i => if i <? n_spes d then completes d i else Return EXIT_SUCCESS
  end.

(** *** [main] *)

Definition uses (d : dataset) : sched_thread :=
  Print (lit "using " ++ fmt_d (n_spes d) ++ lit " spe contexts, for " ++ fmt_d (pattern_len d) ++ lit " ops" ++ [newline_c])
    (Goto (creating d 0)).

(** The mapped file; an empty one has no first byte. *)
Definition takes_data (len : Z) (data : bytes) : sched_thread :=
  match data with
  | [] => Undef
  | c :: r => uses (Dataset (code c) (len - 1) (map code r))
  end.

Definition maps_data (fd len : Z) : sched_thread :=
  Call (c_mmap len PROT_READ MAP_PRIVATE fd 0) (λ a,
    if a_rc a =? -1 then fails (sched_perror (lit "mmap") a) else takes_data len (a_data a)).

Definition stats_data (fd : Z) : sched_thread :=
  Call (c_fstat fd) (λ a,
    if negb (a_rc a =? 0) then fails (sched_perror (lit "fstat") a) else maps_data fd (wraps 32 (st_size (a_stat a)))).

Definition reads_dataset (filename : bytes) : sched_thread :=
  Call (c_open filename O_RDONLY) (λ a,
    if a_rc a <? 0 then fails (sched_perror (lit "open") a) else stats_data (a_rc a)).

Definition sched_multiple (argv : list bytes) : sched_thread :=
  match argv with
  | [_; file] => reads_dataset file
  | progname :: _ => fails (lit "Usage: " ++ progname ++ lit " <file>" ++ [newline_c])
  | [] => Undef
  end.

(** [thread_abort] is static; [calloc] has given the array, which is clear. *)
Definition sched_initial {box} (argv : list bytes) : sys sched_var sched_loop box :=
  Sys [sched_multiple argv] [] (λ _, 0) None.
End program.
