(* ===== verification/SchedProps.v ===== *)
(** * What a pass of sched_multiple says

    One invariant over any number of contexts: what [main] has sent to each, and
    where its thread and its SPE are. *)

From stdpp Require Import relations.
From S2P Require Import Prelude Runs CString SysProg SpuIsa SpuCode Threads SchedMultiple.

Local Open Scope Z_scope.

(** The messages for context [c] among the first [k] of the pattern, and the stop
    message when the first [q] contexts have got theirs. *)
Definition sent_to (pat : list Z) (k q c : nat) : list Z :=
  filter (λ x, x = Z.of_nat c) (take k pat) ++ (if decide (c < q)%nat then [stop_message] else []).

Lemma sched_stopped got m code m' :
  sched_state got m → spu_step m = Stopped code m' → wraps 32 (stop_status code) = 0x13370002 →
  ∃ id n, got = id :: replicate n id ++ [stop_message].
Proof.
  intros [-> (f & Hf & _)%sched_waits_id_reads|id n -> (f & Hf & _)%(sched_waits_reads _ 0)|id n -> [m1 Hs]|id n x -> _ _ [m1 Hs]] H Hc;
    [congruence|congruence|eauto|].
  rewrite Hs in H. injection H as <- _. done.
Qed.

(** Without a stop message in [l2], the one at the end is the last word. *)
Lemma sublist_before_stop l1 l2 (x : Z) : x ∉ l2 → sublist (l1 ++ [x]) (l2 ++ [x]) → sublist l1 l2.
Proof.
  intros Hx (k1 & k2 & E & H1 & H2)%sublist_app_r. 
  apply sublist_cons_r in H2 as [H2|(k & -> & H2)].
  - apply sublist_nil_r in H2 as ->. rewrite app_nil_r in E. subst k1. destruct Hx.
    eapply elem_of_sublist; [|exact H1]. apply elem_of_app. right. by left.
  - apply sublist_nil_r in H2 as ->. by apply app_inj_tail in E as [-> _].
Qed.

Section props.
Context (strerror : Z → bytes) {box : Type} `{!Mailbox box} `{!InOrder box}.
Context (kernel : request → ans → Prop).

#[local] Abbreviation system := (sys sched_var sched_loop box).
#[local] Abbreviation step := (Threads.step (sched_code strerror) kernel).
#[local] Abbreviation ran := sched_ran.

Implicit Types (s : system) (e : spe box) (t w : sched_thread) (vs : sched_var → Z).

(** *** A thread and its SPE *)

Definition ready (e : spe box) : Prop := runner e = None ∧ got e = [] ∧ ∃ l, machine e = reset l 0 ∧ listed l 0x10 sched_multiple_listing.

Definition result (e : spe box) (rc : Z) : Prop :=
  rc = 0x13370002 → ∃ id n, rev (got e) = id :: replicate n id ++ [stop_message].

Inductive worker_at vs e (c : nat) : sched_thread → Prop :=
| w_runs : ready e → worker_at vs e c (Run c 0x10 (ran (Z.of_nat c)))
| w_running k : runner e = Some (S c) → follows sched_state k (rev (got e)) (machine e) →
    worker_at vs e c (Run c 0x10 (ran (Z.of_nat c)))
| w_ran a : runner e = None → result e (wraps 32 (a_rc a)) → worker_at vs e c (ran (Z.of_nat c) a)
| w_ends t : runner e = None → result e (vs (run_rc (Z.of_nat c))) →
    (t = Done ∨ (∃ u, t = Print u Done) ∨ ∃ u, t = Put sched_abort 1 (Print u Done)) → worker_at vs e c t.

(** *** [main] *)

Context (file : bytes).

(** What the kernel maps is the file. *)
Definition maps_file : Prop := ∀ len fd a,
  kernel (r_call (c_mmap len PROT_READ MAP_PRIVATE fd 0)) a → a_rc a ≠ -1 →
  a_data a = file ∧ len = Z.of_nat (length file).

Context (Hfile : maps_file).

#[local] Abbreviation d := (data_of file).

#[local] Abbreviation N := (n_spes d).

(** [created] contexts, [started] threads, [k] messages and [q] stop messages
    sent, [z] threads joined, [y] found to have passed. *)
Inductive main_at vs : sched_thread → nat → nat → nat → nat → nat → nat → Prop :=
| p_creating i : Z.of_nat i ≤ N → main_at vs (Goto (creating d (Z.of_nat i))) i i 0 0 0 0
| p_names i : Z.of_nat i < N → main_at vs (names_spe strerror d (Z.of_nat i)) i i 0 0 0 0
| p_allocates i name : Z.of_nat i < N → main_at vs (allocates_name strerror d name (Z.of_nat i)) i i 0 0 0 0
| p_creates i name : Z.of_nat i < N → main_at vs (creates_spe strerror d name (Z.of_nat i)) i i 0 0 0 0
| p_opens i ctx : Z.of_nat i < N → main_at vs (opens_spe strerror d ctx (Z.of_nat i)) (S i) i 0 0 0 0
| p_mbox i ctx : Z.of_nat i < N → main_at vs (opens_mbox strerror d ctx (Z.of_nat i)) (S i) i 0 0 0 0
| p_wbox i ctx : Z.of_nat i < N → main_at vs (opens_wbox strerror d ctx (Z.of_nat i)) (S i) i 0 0 0 0
| p_mem i : Z.of_nat i < N → main_at vs (writes_mem strerror d (Z.of_nat i)) (S i) i 0 0 0 0
| p_starts i : Z.of_nat i < N → main_at vs (starts_thread strerror d (Z.of_nat i)) (S i) i 0 0 0 0
| p_writing n k : Z.of_nat n = N → main_at vs (Goto (writing d (Z.of_nat k))) n n k 0 0 0
| p_message n k p : Z.of_nat n = N → pattern d !! k = Some p → p < N →
    main_at vs (Get (writes p) (counts strerror d (Z.of_nat k) p)) n n k 0 0 0
| p_counts n k p x : Z.of_nat n = N → pattern d !! k = Some p → p < N →
    main_at vs (counts strerror d (Z.of_nat k) p x) n n k 0 0 0
| p_sends n k p : Z.of_nat n = N → pattern d !! k = Some p → p < N →
    main_at vs (sends_message strerror d (Z.of_nat k) p) n n k 0 0 0
| p_looks n k : Z.of_nat n = N → main_at vs (looks_abort d (Z.of_nat k)) n n (S k) 0 0 0
| p_completing n k i : Z.of_nat n = N → (i ≤ n)%nat → main_at vs (Goto (completing d (Z.of_nat i))) n n k i i i
| p_completes n k i : Z.of_nat n = N → (i < n)%nat → main_at vs (completes strerror d (Z.of_nat i)) n n k i i i
| p_prints n k i x : Z.of_nat n = N → (i < n)%nat → main_at vs (prints_writes strerror d (Z.of_nat i) x) n n k i i i
| p_ends n k i : Z.of_nat n = N → (i < n)%nat → main_at vs (sends_end strerror d (Z.of_nat i)) n n k i i i
| p_waits n k i : Z.of_nat n = N → (i < n)%nat → main_at vs (waits d (Z.of_nat i)) n n k (S i) i i
| p_checks n k i : Z.of_nat n = N → (i < n)%nat → main_at vs (checks_rc d (Z.of_nat i)) n n k (S i) (S i) i
| p_end n k i : Z.of_nat n = N → (i < n)%nat →
    main_at vs (prints_end d (Z.of_nat i) (vs (run_rc (Z.of_nat i)))) n n k (S i) (S i) i
| p_passes n k : Z.of_nat n = N → main_at vs (Return EXIT_SUCCESS) n n k n n n
| p_fails u n m k q z y : main_at vs (fails u) n m k q z y
| p_prints_fail u n m k q z y : main_at vs (Print u Abort) n m k q z y
| p_failed n m k q z y : main_at vs (Return EXIT_FAILURE) n m k q z y
| p_abort n m k q z y : main_at vs Abort n m k q z y
| p_undef n m k q z y : main_at vs Undef n m k q z y.

Lemma main_at_vars vs vs' t n m k q z y :
  main_at vs t n m k q z y → (∀ c, (c < z)%nat → vs' (run_rc (Z.of_nat c)) = vs (run_rc (Z.of_nat c))) →
  main_at vs' t n m k q z y.
Proof.
  intros H Hv. destruct H; try by econstructor.
  - rewrite <- Hv by lia. by constructor.
Qed.

Lemma worker_at_vars vs vs' e c w :
  worker_at vs e c w → vs' (run_rc (Z.of_nat c)) = vs (run_rc (Z.of_nat c)) → worker_at vs' e c w.
Proof.
  intros [Hr|k Hr Hf|a Hr Ha|t Hr Hs Ht] Hv.
  - by apply w_runs.
  - by eapply w_running.
  - by apply w_ran.
  - apply w_ends; [done| |done]. by rewrite Hv.
Qed.

(** The writes of [main] leave the SPE alone. *)
Lemma sched_worker_at_box vs e b l c w : worker_at vs e c w → worker_at vs (Spe (machine e) (runner e) b l (got e)) c w.
Proof.
  intros [Hr|k Hr Hf|a Hr Ha|t Hr Hs Ht].
  - by apply w_runs.
  - by eapply (w_running _ (Spe _ _ _ _ _)).
  - by apply w_ran.
  - by apply w_ends.
Qed.

(** *** The invariant *)

Definition fresh e : Prop :=
  runner e = None ∧ got e = [] ∧ ∃ l, machine e = reset l 0.

Record running s t (ws : list sched_thread) (n m k q z y : nat) : Prop := {
  ru_threads : threads s = t :: ws;
  ru_started : length ws = m;
  ru_created : length (spes s) = n;
  ru_ended : ended s = None;
  ru_main : main_at (vars s) t n m k q z y;
  ru_sent c e : spes s !! c = Some e →
    rev (sent e) = sent_to (pattern d) k q c ∧ sublist (rev (got e) ++ content (mailbox e)) (rev (sent e));
  ru_workers c w : ws !! c = Some w → ∃ e, spes s !! c = Some e ∧ worker_at (vars s) e c w;
  ru_fresh c e : spes s !! c = Some e → (m ≤ c)%nat → fresh e;
  ru_loaded i e : t = starts_thread strerror d (Z.of_nat i) → spes s !! i = Some e → listed (ls (machine e)) 0x10 sched_multiple_listing;
  ru_bounds : (y ≤ z)%nat;
  ru_joined c : (c < z)%nat → ws !! c = Some Done;
  ru_passed c : (c < y)%nat → vars s (run_rc (Z.of_nat c)) = 0x13370002;
}.

(** What a pass means for each context. *)
Definition all_received s : Prop :=
  Z.of_nat (length (spes s)) = N ∧
  ∀ c e, spes s !! c = Some e →
    ∃ i j, rev (got e) = replicate i (Z.of_nat c) ++ [stop_message] ∧
      rev (sent e) = replicate j (Z.of_nat c) ++ [stop_message] ∧
      (1 ≤ i ≤ j)%nat ∧ (j ≤ length (filter (λ x, x = Z.of_nat c) (pattern d)))%nat.

(** Before the data set is there. *)
Inductive reading : sched_thread → Prop :=
| r_main argv : reading (sched_multiple strerror argv)
| r_open file : reading (reads_dataset strerror file)
| r_stat fd : reading (stats_data strerror fd)
| r_map fd len : reading (maps_data strerror fd len)
| r_uses : reading (uses d)
| r_fails u : reading (fails u)
| r_failed : reading (Return EXIT_FAILURE)
| r_undef : reading Undef.

Inductive inv s : Prop :=
| inv_reading t : threads s = [t] → spes s = [] → ended s = None → reading t → inv s
| inv_running t ws n m k q z y : running s t ws n m k q z y → inv s
| inv_ended r : ended s = Some r → (r = Returned EXIT_SUCCESS → all_received s) → inv s.

(** *** [main] moves *)

Lemma pattern_range k p : pattern d !! k = Some p → 0 ≤ p < 256.
Proof.
  unfold data_of. destruct file as [|c r]; cbn [pattern]; [done|]. rewrite list_lookup_fmap.
  destruct (r !! k) as [b|]; [|done]. intros [= <-]. apply code_range.
Qed.

Lemma sched_main_goes s t ws n m k q z y t' z' y' :
  running s t ws n m k q z y → main_at (vars s) t' n m k q z' y' → (y' ≤ z')%nat →
  (∀ c, (c < z')%nat → ws !! c = Some Done) → (∀ c, (c < y')%nat → vars s (run_rc (Z.of_nat c)) = 0x13370002) →
  (∀ i e, t' = starts_thread strerror d (Z.of_nat i) → spes s !! i = Some e → listed (ls (machine e)) 0x10 sched_multiple_listing) →
  inv (go 0 t' s).
Proof.
  intros [Ht Hm Hn He Hma Hs Hw Hf Hl Hyz Hj Hp] Hm' Hyz' Hj' Hp' Hl'.
  apply (inv_running _ t' ws n m k q z' y'). split; cbn [go threads spes vars ended]; try done. by rewrite Ht.
Qed.

(** Nothing but the place of [main] changes. *)
Lemma sched_main_moves s t ws n m k q z y t' :
  running s t ws n m k q z y → main_at (vars s) t' n m k q z y → (∀ i, t' ≠ starts_thread strerror d i) → inv (go 0 t' s).
Proof.
  intros H Hm Hne. eapply sched_main_goes; [exact H|exact Hm|apply H|apply H|apply H|]. intros i e E. by apply Hne in E.
Qed.

Lemma main_puts s t ws n m k q z y t' v x :
  running s t ws n m k q z y → (∀ c, v ≠ run_rc c) → main_at (vars s) t' n m k q z y →
  (∀ i, t' ≠ starts_thread strerror d i) → inv (go 0 t' (set_var v x s)).
Proof.
  intros [Ht Hm Hn He Hma Hs Hw Hf Hl Hyz Hj Hp] Hv Hm' Hne.
  assert (∀ c, vars (set_var v x s) (run_rc c) = vars s (run_rc c)) as Hr.
  { intros c. cbn [set_var vars]. rewrite decide_False; [done|]. intros E. by apply (Hv c). }
  apply (inv_running _ t' ws n m k q z y). split; cbn [go set_var threads spes vars ended]; try done.
  - by rewrite Ht.
  - eapply main_at_vars; [exact Hm'|]. intros c _. apply Hr.
  - intros c w Hc. destruct (Hw c w Hc) as (e & Hce & Hwe). exists e. split; [done|]. eapply worker_at_vars; [done|]. apply Hr.
  - intros i e E. by apply Hne in E.
  - intros c Hc. rewrite <- (Hp c Hc). apply Hr.
Qed.

(** [main] writes [x] to context [c]. *)
Lemma sched_main_sends s t ws n m k q z y c x e b t' k' q' :
  running s t ws n m k q z y → spes s !! c = Some e → mbox_put x (mailbox e) b →
  main_at (vars s) t' n m k' q' z y → (∀ i, t' ≠ starts_thread strerror d i) →
  sent_to (pattern d) k' q' c = sent_to (pattern d) k q c ++ [x] →
  (∀ c', c' ≠ c → (c' < n)%nat → sent_to (pattern d) k' q' c' = sent_to (pattern d) k q c') →
  inv (go 0 t' (set_spe c (Spe (machine e) (runner e) b (x :: sent e) (got e)) s)).
Proof.
  intros [Ht Hm Hn He Hma Hs Hw Hf Hl Hyz Hj Hp] Hc Hb Hm' Hne Hx Hx'.
  apply (inv_running _ t' ws n m k' q' z y). split; cbn [go set_spe threads spes vars ended]; try done.
  - by rewrite Ht.
  - by rewrite length_insert.
  - intros c' e' [(<- & <- & _)|[Hcc Hc']]%list_lookup_insert_Some.
    + destruct (Hs c e Hc) as [Hs1 Hs2]. cbn [sent got mailbox rev]. rewrite Hx, Hs1. split; [done|].
      rewrite Hs1 in Hs2. etrans; [apply sublist_app; [reflexivity|by eapply content_put]|]. rewrite app_assoc. by apply sublist_app.
    + rewrite Hx'; [by apply Hs|done|]. rewrite <- Hn. by eapply lookup_lt_Some.
  - intros c' w Hw'. destruct (Hw c' w Hw') as (e' & Hc' & Hwe). destruct (decide (c' = c)) as [->|].
    + rewrite Hc in Hc'. injection Hc' as <-. eexists. split; [apply list_lookup_insert_eq; by eapply lookup_lt_Some|].
      by apply sched_worker_at_box.
    + exists e'. by rewrite list_lookup_insert_ne by done.
  - intros c' e' [(<- & <- & _)|[Hcc Hc']]%list_lookup_insert_Some Hmc; [|by eapply Hf].
    destruct (Hf c e Hc Hmc) as (H1 & H2 & H3). by split.
  - intros i e' E. by apply Hne in E.
Qed.

(** A context is created. *)
Lemma main_creates s t ws i z y t' :
  running s t ws i i 0 0 z y → main_at (vars s) t' (S i) i 0 0 z y → (∀ i, t' ≠ starts_thread strerror d i) →
  inv (go 0 t' (Sys (threads s) (spes s ++ [new_spe]) (vars s) (ended s))).
Proof.
  intros [Ht Hm Hn He Hma Hs Hw Hf Hl Hyz Hj Hp] Hm' Hne.
  apply (inv_running _ t' ws (S i) i 0 0 z y). split; cbn [go threads spes vars ended]; try done.
  - by rewrite Ht.
  - rewrite length_app. cbn. lia.
  - intros c e [Hc|[Hge Hc]]%lookup_app_Some; [by apply Hs|]. apply list_lookup_singleton_Some in Hc as [Hc <-].
    cbn. unfold sent_to. rewrite take_0, decide_False by lia. cbn. by rewrite content_empty.
  - intros c w Hc. destruct (Hw c w Hc) as (e & Hce & Hwe). exists e. split; [|done]. by apply lookup_app_l_Some.
  - intros c e [Hc|[Hge Hc]]%lookup_app_Some Hmc; [by eapply Hf|]. apply list_lookup_singleton_Some in Hc as [Hc <-].
    split; [done|]. split; [done|]. by eexists.
  - intros j e E. by apply Hne in E.
Qed.

(** Its program is written. *)
Lemma main_loads s t ws i z y e :
  running s t ws (S i) i 0 0 z y → spes s !! i = Some e → main_at (vars s) (starts_thread strerror d (Z.of_nat i)) (S i) i 0 0 z y →
  inv (go 0 (starts_thread strerror d (Z.of_nat i))
    (set_spe i (set_machine (set_ls (load (ls (machine e)) 0 sched_multiple_program) (machine e)) e) s)).
Proof.
  intros [Ht Hm Hn He Hma Hs Hw Hf Hl Hyz Hj Hp] Hc Hm'. destruct (Hf i e Hc ltac:(lia)) as (Hr & Hg & l & Hml).
  apply (inv_running _ (starts_thread strerror d (Z.of_nat i)) ws (S i) i 0 0 z y).
  split; cbn [go set_spe threads spes vars ended]; try done.
  - by rewrite Ht.
  - by rewrite length_insert.
  - intros c e' [(<- & <- & _)|[Hcc Hc']]%list_lookup_insert_Some; [|by apply Hs]. cbn. by apply Hs.
  - intros c w Hw'. destruct (Hw c w Hw') as (e' & Hc' & Hwe). exists e'.
    rewrite list_lookup_insert_ne; [done|]. apply lookup_lt_Some in Hw'. lia.
  - intros c e' [(<- & <- & _)|[Hcc Hc']]%list_lookup_insert_Some Hmc; [|by eapply Hf].
    split; [done|]. split; [done|]. rewrite Hml. by eexists.
  - intros j e' E Hj'. apply list_lookup_insert_Some in Hj' as [(<- & <- & _)|[Hcc Hj']].
    + cbn. apply sched_multiple_listed.
    + apply (f_equal (λ u, match u with Start (Run c _ _) _ => c | _ => 0%nat end)) in E. cbn in E. lia.
Qed.

(** Its thread is started. *)
Lemma main_starts s ws i z y t' :
  running s (starts_thread strerror d (Z.of_nat i)) ws (S i) i 0 0 z y →
  main_at (vars s) t' (S i) (S i) 0 0 z y → (∀ i, t' ≠ starts_thread strerror d i) →
  inv (spawn (sched_spe_thread (Z.of_nat i)) (go 0 t' s)).
Proof.
  intros [Ht Hm Hn He Hma Hs Hw Hf Hl Hyz Hj Hp] Hm' Hne.
  apply (inv_running _ t' (ws ++ [sched_spe_thread (Z.of_nat i)]) (S i) (S i) 0 0 z y).
  split; cbn [go spawn threads spes vars ended]; try done.
  - by rewrite Ht.
  - rewrite length_app. cbn. lia.
  - intros c w [Hc|[Hge Hc]]%lookup_app_Some; [by apply Hw|].
    apply list_lookup_singleton_Some in Hc as [Hc <-]. assert (c = i) as -> by lia.
    destruct (lookup_lt_is_Some_2 (spes s) i ltac:(lia)) as [e Hce]. exists e. split; [done|].
    destruct (Hf i e Hce ltac:(lia)) as (Hr & Hg & l & Hml).
    unfold sched_spe_thread. rewrite Nat2Z.id. apply w_runs. split; [done|]. split; [done|]. exists l. split; [done|].
    pose proof (Hl i e eq_refl Hce) as H. by rewrite Hml in H.
  - intros c e Hc Hmc. eapply Hf; [done|lia].
  - intros j e E. by apply Hne in E.
  - intros c Hc. apply lookup_app_l_Some. by apply Hj.
Qed.

(** A move to a state that keeps the counts. *)
Ltac goes H := eapply (sched_main_moves _ _ _ _ _ _ _ _ _ _ H); [by constructor|done].

Lemma creating_step s t ws n m k q z y s' :
  running s t ws n m k q z y → (∃ i, t = Goto (creating d (Z.of_nat i)) ∧ Z.of_nat i ≤ N ∧ n = i ∧ m = i ∧ k = 0%nat ∧ q = 0%nat ∧ z = 0%nat ∧ y = 0%nat) →
  thread_step (sched_code strerror) kernel s 0 t s' → inv s'.
Proof.
  intros H (i & -> & Hi & -> & -> & -> & -> & -> & ->) Hs. apply goto_step in Hs as ->. cbn [sched_code].
  destruct (Z.ltb_spec (Z.of_nat i) N).
  - eapply (sched_main_moves _ _ _ _ _ _ _ _ _ _ H); [by constructor|done].
  - eapply (sched_main_moves _ _ _ _ _ _ _ _ _ _ H); [|done]. apply (p_writing _ i 0). lia.
Qed.

Lemma sent_to_message k p c :
  pattern d !! k = Some p →
  sent_to (pattern d) (S k) 0 c = sent_to (pattern d) k 0 c ++ (if decide (p = Z.of_nat c) then [p] else []).
Proof.
  intros Hp. unfold sent_to. rewrite (take_S_r _ _ _ Hp), filter_app, filter_cons. cbn [filter list_filter].
  rewrite !(decide_False (P := (c < 0)%nat)) by lia. rewrite !app_nil_r. by case_decide.
Qed.

Lemma sent_to_stop k q c :
  sent_to (pattern d) k (S q) c = sent_to (pattern d) k q c ++ (if decide (c = q) then [stop_message] else []).
Proof.
  unfold sent_to. rewrite <- app_assoc. f_equal. repeat case_decide; try lia; by rewrite ?app_nil_r.
Qed.

(** At the end every thread has stopped with 0x1337. *)
Lemma passes_received s ws n k r :
  running s (Return EXIT_SUCCESS) ws n n k n n n → Z.of_nat n = N → all_received (finish r s).
Proof.
  intros H HN. unfold all_received. cbn [finish spes]. split; [by rewrite (ru_created _ _ _ _ _ _ _ _ _ H)|]. intros c e Hc.
  assert (c < n)%nat as Hcn by (rewrite <- (ru_created _ _ _ _ _ _ _ _ _ H); by eapply lookup_lt_Some).
  destruct (ru_sent _ _ _ _ _ _ _ _ _ H c e Hc) as [Hs Ho].
  destruct (ru_workers _ _ _ _ _ _ _ _ _ H c Done (ru_joined _ _ _ _ _ _ _ _ _ H c Hcn)) as (e' & Hc' & Hw).
  rewrite Hc in Hc'. injection Hc' as <-. inversion Hw as [| | |t' _ Hr _ Et]; subst.
  destruct (Hr (ru_passed _ _ _ _ _ _ _ _ _ H c Hcn)) as (id & j & Hg).
  set (l := filter (λ x, x = Z.of_nat c) (take k (pattern d))) in *.
  assert (Hl : l = replicate (length l) (Z.of_nat c)).
  { symmetry. apply replicate_as_Forall. split; [done|]. apply Forall_forall. intros x Hx. by apply list_elem_of_filter in Hx as [-> _]. }
  assert (Hst : stop_message ∉ l).
  { intros Hx. apply list_elem_of_filter in Hx as [Hx (i & Hi)%list_elem_of_lookup]. 
    apply lookup_take_Some in Hi as [Hi _]. apply pattern_range in Hi. unfold stop_message in *. lia. }
  unfold sent_to in Hs. rewrite decide_True in Hs by done. fold l in Hs.
  rewrite Hs, Hg in Ho. cbn [app] in Ho.
  assert (sublist (id :: replicate j id) l) as Hsub.
  { apply (sublist_before_stop _ _ stop_message Hst). etrans; [|exact Ho]. by apply (sublist_inserts_r (content (mailbox e)) _ (id :: replicate j id ++ [stop_message])). }
  assert (id = Z.of_nat c) as ->.
  { assert (id ∈ l) as Hid by (eapply elem_of_sublist; [|exact Hsub]; by left). by apply list_elem_of_filter in Hid as [-> _]. }
  exists (S j), (length l). split; [exact Hg|]. split; [by rewrite Hs, Hl at 1|].
  apply sublist_length in Hsub. cbn in Hsub. rewrite length_replicate in Hsub. split; [lia|].
  apply sublist_length. unfold l. rewrite <- (take_drop k (pattern d)) at 2. rewrite filter_app. by apply sublist_inserts_r.
Qed.

Lemma sends_message_step s ws n k p s' :
  running s (sends_message strerror d (Z.of_nat k) p) ws n n k 0 0 0 → Z.of_nat n = N → pattern d !! k = Some p → p < N →
  thread_step (sched_code strerror) kernel s 0 (sends_message strerror d (Z.of_nat k) p) s' → inv s'.
Proof.
  intros H HN Hp HpN (a & Hk & [[Hc ->]|(Hc & e & b & He & Hb & ->)])%send_step.
  - rewrite (proj2 (Z.eqb_neq _ _)) by done. goes H.
  - rewrite Hc. cbn [negb Z.eqb Pos.eqb]. pose proof (pattern_range _ _ Hp).
    eapply (sched_main_sends _ _ _ _ _ _ _ _ _ _ _ _ _ _ (S k) 0 H He Hb); [by constructor|done|..].
    + by rewrite (sent_to_message _ _ _ Hp), decide_True by lia.
    + intros c' Hc' _. rewrite (sent_to_message _ _ _ Hp), decide_False by lia. by rewrite app_nil_r.
Qed.

Lemma sends_end_step s ws n k i s' :
  running s (sends_end strerror d (Z.of_nat i)) ws n n k i i i → Z.of_nat n = N → (i < n)%nat →
  thread_step (sched_code strerror) kernel s 0 (sends_end strerror d (Z.of_nat i)) s' → inv s'.
Proof.
  intros H HN Hi (a & Hk & [[Hc ->]|(Hc & e & b & He & Hb & ->)])%send_step.
  - rewrite (proj2 (Z.eqb_neq _ _)) by done. goes H.
  - rewrite Hc. cbn [negb Z.eqb Pos.eqb]. rewrite Nat2Z.id in *.
    eapply (sched_main_sends _ _ _ _ _ _ _ _ _ _ _ _ _ _ k (S i) H He Hb); [by constructor|done|..].
    + by rewrite sent_to_stop, decide_True by done.
    + intros c' Hc' _. rewrite sent_to_stop, decide_False by done. by rewrite app_nil_r.
Qed.

(** A loop of [main] goes on. *)
Lemma loops_step s l ws n m k q z y s' :
  running s (Goto l) ws n m k q z y →
  l = writing d (Z.of_nat k) ∧ Z.of_nat n = N ∧ m = n ∧ q = 0%nat ∧ z = 0%nat ∧ y = 0%nat ∨
  (∃ i, l = completing d (Z.of_nat i) ∧ Z.of_nat n = N ∧ (i ≤ n)%nat ∧ m = n ∧ q = i ∧ z = i ∧ y = i) →
  thread_step (sched_code strerror) kernel s 0 (Goto l) s' → inv s'.
Proof.
  intros H [(-> & HN & -> & -> & -> & ->)|(i & -> & HN & Hi & -> & -> & -> & ->)] ->%goto_step; cbn [sched_code].
  - rewrite Nat2Z.id. destruct (_ <? pattern_len d).
    + destruct (pattern d !! k) as [p|] eqn:Hp; [|goes H]. unfold writes_message.
      destruct (Z.leb_spec N p); [goes H|]. goes H.
    + eapply (sched_main_moves _ _ _ _ _ _ _ _ _ _ H); [|done]. apply (p_completing _ n k 0); [done|lia].
  - destruct (Z.ltb_spec (Z.of_nat i) N).
    + eapply (sched_main_moves _ _ _ _ _ _ _ _ _ _ H); [|done]. apply p_completes; [done|lia].
    + assert (i = n) as -> by lia. goes H.
Qed.

Lemma sched_main_step s t ws n m k q z y s' :
  running s t ws n m k q z y → thread_step (sched_code strerror) kernel s 0 t s' → inv s'.
Proof.
  intros H Hs. pose proof (ru_main _ _ _ _ _ _ _ _ _ H) as Hm.
  inversion Hm as [i Hi|i Hi|i name Hi|i name Hi|i ctx Hi|i ctx Hi|i ctx Hi|i Hi|i Hi|n' k' HN|n' k' p HN Hp HpN|n' k' p x HN Hp HpN
    |n' k' p HN Hp HpN|n' k' HN|n' k' i HN Hi|n' k' i HN Hi|n' k' i x HN Hi|n' k' i HN Hi|n' k' i HN Hi|n' k' i HN Hi|n' k' i HN Hi
    |n' k' HN|u|u| | |]; subst t n m k q z y.
  - eapply creating_step; [exact H| |exact Hs]. eauto 15.
  - apply call_step in Hs as (a & Hk & ->). goes H.
  - apply call_step in Hs as (a & Hk & ->). unfold asserted. destruct (negb _); goes H.
  - apply call_step in Hs as (a & Hk & ->). cbn [effect]. unfold asserted. destruct (0 <=? wraps 32 (a_rc a)).
    + eapply main_creates; [exact H|by constructor|done].
    + goes H.
  - apply call_step in Hs as (a & Hk & ->). unfold asserted. destruct (0 <=? _); goes H.
  - apply put_step in Hs as ->. eapply main_puts; [exact H|done|by constructor|done].
  - apply call_step in Hs as (a & Hk & ->). destruct (a_rc a <? 0); goes H.
  - apply mem_step in Hs as (a & Hk & [[Hc ->]|(e & Hc & Hrc & ->)]).
    + rewrite (proj2 (Z.eqb_neq _ _)) by lia. goes H.
    + rewrite Nat2Z.id in *. change (4 * Z.of_nat (length sched_multiple_program)) with 64 in Hrc. rewrite Hrc.
      eapply main_loads; [exact H|done|by constructor].
  - apply start_step in Hs as (a & Hk & [[Hc ->]|[Hc ->]]).
    + rewrite Hc. eapply main_starts; [exact H| |done]. 
      cbn [negb Z.eqb]. replace (Z.of_nat i + 1) with (Z.of_nat (S i)) by lia. apply p_creating. lia.
    + rewrite (proj2 (Z.eqb_neq _ _)) by done. goes H.
  - eapply loops_step; [exact H| |exact Hs]. by left.
  - apply get_step in Hs as ->. goes H.
  - apply put_step in Hs as ->. eapply main_puts; [exact H|done|by constructor|done].
  - by eapply sends_message_step.
  - apply get_step in Hs as ->. destruct (negb _); [goes H|].
    replace (Z.of_nat k' + 1) with (Z.of_nat (S k')) by lia. goes H.
  - eapply loops_step; [exact H| |exact Hs]. right. by exists i.
  - apply get_step in Hs as ->. goes H.
  - apply print_step in Hs as ->. goes H.
  - by eapply sends_end_step.
  - apply wait_step in Hs as [Hd ->]. rewrite (ru_threads _ _ _ _ _ _ _ _ _ H), Nat2Z.id in Hd. cbn in Hd.
    eapply (sched_main_goes _ _ _ _ _ _ _ _ _ _ _ _ H); [by apply p_checks|lia| |apply H|done].
    intros c Hc. destruct (decide (c = i)) as [->|]; [done|]. apply (ru_joined _ _ _ _ _ _ _ _ _ H). lia.
  - apply get_step in Hs as ->. goes H.
  - apply print_step in Hs as ->. unfold decides. destruct (Z.eqb_spec (vars s (run_rc (Z.of_nat i))) 0x13370002) as [E|]; cbn [negb]; [|goes H].
    replace (Z.of_nat i + 1) with (Z.of_nat (S i)) by lia.
    eapply (sched_main_goes _ _ _ _ _ _ _ _ _ _ _ _ H); [apply p_completing; [done|lia]|done|apply H| |done].
    intros c Hc. destruct (decide (c = i)) as [->|]; [done|]. apply (ru_passed _ _ _ _ _ _ _ _ _ H). lia.
  - apply return_step in Hs as ->. eapply inv_ended; [done|]. intros _. by eapply passes_received.
  - apply print_step in Hs as ->. goes H.
  - apply print_step in Hs as ->. goes H.
  - apply return_step in Hs as ->. by eapply inv_ended.
  - apply abort_step in Hs as ->. by eapply inv_ended.
  - apply undef_step in Hs as ->. by eapply inv_ended.
Qed.

(** *** The threads and the SPEs move *)

(** Thread [c] moves to [w'], its context to [e']; it writes no variable but
    [run_rc c] and [thread_abort]. *)
Lemma sched_worker_moves s t ws n m k q z y c w w' e e' vs' :
  running s t ws n m k q z y → ws !! c = Some w → w ≠ Done → spes s !! c = Some e →
  worker_at vs' e' c w' → sent e' = sent e →
  sublist (rev (got e') ++ content (mailbox e')) (rev (got e) ++ content (mailbox e)) →
  (∀ c', c' ≠ c → vs' (run_rc (Z.of_nat c')) = vars s (run_rc (Z.of_nat c'))) →
  inv (Sys (<[S c:=w']> (threads s)) (<[c:=e']> (spes s)) vs' (ended s)).
Proof.
  intros [Ht Hm Hn Hed Hma Hs Hw Hf Hl Hyz Hj Hp] Hc Hne He Hw' Es Eo Hv.
  assert (z ≤ c)%nat as Hz.
  { destruct (decide (z ≤ c)%nat) as [|Hlt]; [done|]. rewrite Hj in Hc by lia. by injection Hc as <-. }
  assert (c < m)%nat as Hcm by (rewrite <- Hm; by eapply lookup_lt_Some).
  apply (inv_running _ t (<[c:=w']> ws) n m k q z y). split; cbn [threads spes vars ended]; try done.
  - by rewrite Ht.
  - by rewrite length_insert.
  - by rewrite length_insert.
  - eapply main_at_vars; [done|]. intros c' Hc'. apply Hv. lia.
  - intros c' e1 [(<- & <- & _)|[Hcc Hc']]%list_lookup_insert_Some; [|by apply Hs].
    rewrite Es. destruct (Hs c e He) as [H1 H2]. split; [done|]. by etrans.
  - intros c' w1 [(<- & <- & _)|[Hcc Hc']]%list_lookup_insert_Some.
    + exists e'. split; [|done]. apply list_lookup_insert_eq. by eapply lookup_lt_Some.
    + destruct (Hw c' w1 Hc') as (e1 & He1 & Hw1). exists e1. rewrite list_lookup_insert_ne by done.
      split; [done|]. eapply worker_at_vars; [done|]. by apply Hv.
  - intros c' e1 [(<- & <- & _)|[Hcc Hc']]%list_lookup_insert_Some Hmc; [lia|by eapply Hf].
  - intros i e1 E [(<- & <- & _)|[Hcc Hi]]%list_lookup_insert_Some; [|by eapply Hl].
    subst t. inversion Hma; subst; lia.
  - intros c' Hc'. rewrite list_lookup_insert_ne by lia. by apply Hj.
  - intros c' Hc'. rewrite Hv by lia. by apply Hp.
Qed.

(** The context stays as it is. *)
Lemma worker_goes s t ws n m k q z y c w w' e vs' :
  running s t ws n m k q z y → ws !! c = Some w → w ≠ Done → spes s !! c = Some e →
  worker_at vs' e c w' → (∀ c', c' ≠ c → vs' (run_rc (Z.of_nat c')) = vars s (run_rc (Z.of_nat c'))) →
  inv (Sys (<[S c:=w']> (threads s)) (spes s) vs' (ended s)).
Proof.
  intros H Hc Hne He Hw' Hv. rewrite <- (list_insert_id (spes s) c e He). by eapply sched_worker_moves.
Qed.

Lemma sched_ready_follows e l :
  machine e = reset l 0 → listed l 0x10 sched_multiple_listing → got e = [] →
  ∃ k, follows sched_state k (rev (got e)) (set_pc (ls_addr 0x10) (machine e)).
Proof.
  intros -> Hl ->. destruct (reach_follows _ _ _ (sched_start l Hl)) as (k & _ & Hf). by exists k.
Qed.

Lemma run_worker_step s t ws n m k q z y c e s' :
  running s t ws n m k q z y → ws !! c = Some (Run c 0x10 (ran (Z.of_nat c))) → spes s !! c = Some e →
  worker_at (vars s) e c (Run c 0x10 (ran (Z.of_nat c))) →
  thread_step (sched_code strerror) kernel s (S c) (Run c 0x10 (ran (Z.of_nat c))) s' → inv s'.
Proof.
  intros H Hc He Hw Hs. apply run_step in Hs as (e1 & He1 & Hs). rewrite He in He1. injection He1 as <-.
  assert (Hth : threads s = <[S c:=Run c 0x10 (ran (Z.of_nat c))]> (threads s)).
  { symmetry. apply list_insert_id. by rewrite (ru_threads _ _ _ _ _ _ _ _ _ H). }
  destruct Hs as [[Hr [->|(a & Hk & Hrc & ->)]]|(Hr & code & mm & a & Hst & Hk & Hrc & Hnpc & ->)].
  - inversion Hw as [(_ & Hg & l & Hml & Hl)|k' Hr' _| |t' _ _ [|[[u ?]|[u ?]]]]; try done; [|congruence].
    destruct (sched_ready_follows e l Hml Hl Hg) as [k' Hf]. unfold set_spe. rewrite Hth.
    eapply sched_worker_moves; try done. by apply (w_running _ _ _ k').
  - unfold go. eapply worker_goes; try done. apply w_ran; [done|]. intros E. rewrite Hrc in E. done.
  - inversion Hw as [[Hr' _]|k' Hr' Hf| |t' Hr' _ _]; try congruence.
    destruct (follows_stops _ _ _ _ _ Hf Hst) as [-> HS]. unfold go. cbn [set_spe threads spes vars ended].
    eapply sched_worker_moves; try done. apply w_ran; [done|]. intros E. rewrite Hrc in E. by eapply sched_stopped.
Qed.

Lemma sched_worker_step s t ws n m k q z y c w s' :
  running s t ws n m k q z y → ws !! c = Some w → thread_step (sched_code strerror) kernel s (S c) w s' → inv s'.
Proof.
  intros H Hc Hs. destruct (ru_workers _ _ _ _ _ _ _ _ _ H c w Hc) as (e & He & Hw).
  pose proof Hw as Hw0. destruct Hw0 as [Hr|k' Hr Hf|a Hr Ha|w Hr Hres Hw'].
  - by eapply run_worker_step.
  - by eapply run_worker_step.
  - apply put_step in Hs as ->. unfold go. cbn [set_var threads spes vars ended].
    eapply worker_goes; try done.
    + apply w_ends; [done|by rewrite decide_True|]. destruct (negb _); [right; right; by eexists|by left].
    + intros c' Hc'. rewrite decide_False; [done|]. intros [= E]. lia.
  - destruct Hw' as [->|[[u ->]|[u ->]]].
    + inversion Hs.
    + apply print_step in Hs as ->. unfold go. eapply worker_goes; try done. apply w_ends; [done..|by left].
    + apply put_step in Hs as ->. unfold go. cbn [set_var threads spes vars ended]. eapply worker_goes; try done.
      apply w_ends; [done|done|]. right. left. by eexists.
Qed.

Lemma sched_spe_moves s t ws n m k q z y c e s' :
  running s t ws n m k q z y → spes s !! c = Some e → is_Some (runner e) → spe_step s c e s' → inv s'.
Proof.
  intros H He [j Hj] Hs.
  destruct (ws !! c) as [w|] eqn:Hc.
  2: { apply lookup_ge_None_1 in Hc. rewrite (ru_started _ _ _ _ _ _ _ _ _ H) in Hc.
       destruct (ru_fresh _ _ _ _ _ _ _ _ _ H c e He Hc) as [Hr _]. congruence. }
  destruct (ru_workers _ _ _ _ _ _ _ _ _ H c w Hc) as (e1 & He1 & Hw). rewrite He in He1. injection He1 as <-.
  inversion Hw as [[Hr _]|k' Hr Hf|a Hr Ha|w' Hr Hres Hw']; subst w; try congruence.
  assert (Hth : threads s = <[S c:=Run c 0x10 (ran (Z.of_nat c))]> (threads s)).
  { symmetry. apply list_insert_id. by rewrite (ru_threads _ _ _ _ _ _ _ _ _ H). }
  destruct Hs as [m1 Hm1|f x b Hm1 Hb Hx]; unfold set_spe; rewrite Hth.
  - destruct (follows_next _ _ _ _ Hf Hm1) as (k1 & -> & Hf'). eapply sched_worker_moves; try done. by apply (w_running _ _ _ k1).
  - destruct (follows_reads _ _ _ _ _ Hf Hm1) as (-> & _ & Hfx). destruct (Hfx x Hx) as (k1 & _ & Hf').
    eapply sched_worker_moves; try done; [by apply (w_running _ _ _ k1)|]. cbn [got mailbox rev].
    rewrite <- app_assoc. apply sublist_app; [done|]. by apply content_take.
Qed.

Lemma reading_step s t s' :
  threads s = [t] → spes s = [] → ended s = None → reading t → thread_step (sched_code strerror) kernel s 0 t s' → inv s'.
Proof.
  intros Ht Hsp He Hr Hs.
  assert (∀ t', reading t' → inv (go 0 t' s)) as Hgo.
  { intros t' Hr'. eapply inv_reading; cbn; [by rewrite Ht|done|done|done]. }
  destruct Hr as [argv|f|fd|fd len| |u| |].
  - destruct argv as [|prog [|f [|x argv]]]; cbn [sched_multiple] in Hs.
    + apply undef_step in Hs as ->. by eapply inv_ended.
    + apply print_step in Hs as ->. apply Hgo. constructor.
    + apply call_step in Hs as (a & Hk & ->). apply Hgo. destruct (a_rc a <? 0); constructor.
    + apply print_step in Hs as ->. apply Hgo. constructor.
  - apply call_step in Hs as (a & Hk & ->). apply Hgo. destruct (a_rc a <? 0); constructor.
  - apply call_step in Hs as (a & Hk & ->). apply Hgo. destruct (negb _); constructor.
  - apply call_step in Hs as (a & Hk & ->). apply Hgo. destruct (Z.eqb_spec (a_rc a) (-1)) as [|Hne]; [constructor|].
    destruct (Hfile _ _ _ Hk Hne) as [-> ->].
    assert (takes_data (Z.of_nat (length file)) file = Undef ∨ takes_data (Z.of_nat (length file)) file = uses d) as [->| ->]
      by (destruct file; [by left|by right]); constructor.
  - apply print_step in Hs as ->. eapply (inv_running _ (Goto (creating d 0)) [] 0 0 0 0 0 0).
    split; cbn [go threads spes vars ended]; try done.
    + by rewrite Ht.
    + by rewrite Hsp.
    + apply (p_creating _ 0). unfold data_of. destruct file; cbn; [done|]. apply code_range.
    + by rewrite Hsp.
    + by rewrite Hsp.
    + lia.
    + lia.
  - apply print_step in Hs as ->. apply Hgo. constructor.
  - apply return_step in Hs as ->. by eapply inv_ended.
  - apply undef_step in Hs as ->. by eapply inv_ended.
Qed.

Lemma sched_inv_step s s' : inv s → step s s' → inv s'.
Proof.
  intros Hi Hst. pose proof (step_running _ _ _ _ Hst) as Hn'. destruct Hi as [t Ht Hsp He Hr|t ws n m k q z y H|r Hr _]; [..|congruence].
  - destruct Hst as [i t' s' _ Hi Hs|c e s' _ Hc _ _]; [|by rewrite Hsp in Hc].
    rewrite Ht in Hi. destruct i; [|done]. injection Hi as <-. by eapply reading_step.
  - destruct Hst as [i t' s' _ Hi Hs|c e s' _ Hc Hr Hs]; [|by eapply sched_spe_moves].
    rewrite (ru_threads _ _ _ _ _ _ _ _ _ H) in Hi. destruct i as [|c]; cbn in Hi.
    + injection Hi as <-. by eapply sched_main_step.
    + by eapply sched_worker_step.
Qed.
End props.

(** C14 [sched_multiple_received]: when sched_multiple returns success, on any kernel
    that maps the data set and has mailboxes that keep the order, every context
    has had a message in the data set, the SPE of context [c] has read the number
    [c] at least once, no more often than it was written to it, then the stop
    message, and nothing else.  So a data set without a message for some context
    cannot pass. *)
Theorem sched_multiple_received strerror {box} `{!Mailbox box} `{!InOrder box} kernel file argv (s : sys sched_var sched_loop box) :
  maps_file kernel file →
  rtc (step (sched_code strerror) kernel) (sched_initial strerror argv) s →
  ended s = Some (Returned EXIT_SUCCESS) →
  Z.of_nat (length (spes s)) = n_spes (data_of file) ∧
  ∀ c e, spes s !! c = Some e →
    ∃ i j, rev (got e) = replicate i (Z.of_nat c) ++ [stop_message] ∧
      rev (sent e) = replicate j (Z.of_nat c) ++ [stop_message] ∧
      (1 ≤ i ≤ j)%nat ∧ (j ≤ length (filter (λ x, x = Z.of_nat c) (pattern (data_of file))))%nat.
Proof.
  intros Hf Hs He. assert (inv strerror file s) as Hi.
  { eapply (reachable_invariant _ (inv strerror file)); [| |exact Hs].
    - eapply inv_reading; [done..|]. constructor.
    - intros s1 s2. by apply sched_inv_step. }
  destruct Hi as [t Ht Hsp Hnone _|t ws n m k q z y H|r Hr Hp]; [congruence|by rewrite (ru_ended _ _ _ _ _ _ _ _ _ _ _ H) in He|].
  rewrite Hr in He. injection He as ->. by apply Hp.
Qed.

(** ** A run: two contexts, the pattern 0 1 0 *)

Definition sample_file : bytes := map byte_of [2; 0; 1; 0].

Definition maps_sample (r : request) (a : ans) : bool :=
  match r with
  | r_call (c_mmap len _ _ _ _) => bool_decide (a_data a = sample_file ∧ len = Z.of_nat (length sample_file))
  | _ => true
  end.

Definition sample_replies (c : call) : ans :=
  match c with
  | c_fstat _ => Ans 0 0 0 (Statbuf 0 4 0 0 0) [] (0, 0) 0 []
  | c_mmap _ _ _ _ _ => Ans 4096 0 0 (Statbuf 0 0 0 0 0) sample_file (0, 0) 0 []
  | c => granted c
  end.

Definition sample_put (x : Z) (b : list Z) : option (list Z) := if decide (length b < 4)%nat then Some (b ++ [x]) else None.
Definition sample_take (b : list Z) : option (Z * list Z) := match b with [] => None | x :: b => Some (x, b) end.

Definition sample_start : sys sched_var sched_loop (list Z) :=
  sched_initial (λ _, []) [lit "sched_multiple"; lit "run.data"].

Definition sample_run : sys sched_var sched_loop (list Z) :=
  @drive _ _ _ (list Z) (queue_mailbox 4) (sched_code (λ _, [])) sample_put sample_take maps_sample sample_replies 300 sample_start.

Lemma sched_multiple_received_witness :
  ended sample_run = Some (Returned EXIT_SUCCESS) ∧
  Z.of_nat (length (spes sample_run)) = n_spes (data_of sample_file) ∧
  ∀ c e, spes sample_run !! c = Some e →
    ∃ i j, rev (got e) = replicate i (Z.of_nat c) ++ [stop_message] ∧
      rev (sent e) = replicate j (Z.of_nat c) ++ [stop_message] ∧
      (1 ≤ i ≤ j)%nat ∧ (j ≤ length (filter (λ x, x = Z.of_nat c) (pattern (data_of sample_file))))%nat.
Proof.
  split; [vm_compute; reflexivity|].
  apply (@sched_multiple_received (λ _, []) _ (queue_mailbox 4) (queue_in_order 4) (λ r a, maps_sample r a) sample_file
           [lit "sched_multiple"; lit "run.data"]).
  - intros len fd a Hk _. unfold maps_sample in Hk. apply bool_decide_unpack in Hk. done.
  - apply drive_reachable; [| |done].
    + intros x b b'. unfold sample_put. case_decide; [|done]. by intros [= <-].
    + intros b x b'. destruct b; [done|]. by intros [= <- <-].
  - vm_compute. reflexivity.
Defined.
