(* ===== verification/LsShared.v ===== *)
(** * Threads and an SPE on one local store (tests/07-lsmap/04-ppe-running.c,
    tests/08-reg-file/02-reschedule.c)

    A PPE thread polls local store through its mapping while the SPE runs, and
    stores to it.  A word of the mapping is read or written at once; the SPE
    reads and writes quadwords. *)

From stdpp Require Import relations.
From S2P Require Import Prelude CString SysProg SpuIsa SpuCode Threads.

Local Open Scope Z_scope.

(** ** The SPE programs *)

(** il $3,-1; stqa $3,0; lqa $3,0; brnz $3,(. - 4); stop 0x1337 *)
Definition spe_app : list Z := [0x40ffff83; 0x20800003; 0x30800003; 0x217fff83; 0x00001337].

Definition spe_app_listing : list insn := [il 3 (-1); stqa 3 0; lqa 3 0; brnz 3 (-4); stop 0x1337].

(** The first quadword is for signalling. *)
Definition reschedule_program : list Z := [
  0x00000000; 0x00000000; 0x00000000; 0x00000000;
  0x40800080; 0x20800000;
  0x30800001; 0x78000082; 0x217fff02; 0x00001337
].

Definition reschedule_listing : list insn := [il 0 1; stqa 0 0; lqa 1 0; ceq 2 1 0; brnz 2 (-8); stop 0x1337].

Lemma spe_app_listed s : listed (load s 0x10 spe_app) 0x10 spe_app_listing.
Proof. by apply listed_load. Qed.

(** ** 04-ppe-running *)

Inductive no_var := .

#[global] Instance no_var_eq_dec : EqDecision no_var.
Proof. solve_decision. Defined.

(** The loop of [ppe_thread]. *)
Inductive poll_loop := polling (i : Z).

Definition poll_thread : Type := thread no_var poll_loop.

Section ppe_running.
Context (strerror : Z → bytes).

Definition ls_perror (s : bytes) (a : ans) : bytes := s ++ lit ": " ++ strerror (a_errno a) ++ [newline_c].

(** [ls[i] = v;] for the words of [vs], in this order. *)
Fixpoint pokes {V L} (stores : list (Z * Z)) (k : thread V L) : thread V L :=
  match stores with [] => k | (i, v) :: r => Poke 0 (4 * i) v (pokes r k) end.

(** The four reads of one turn, which has been tried [i] times; then the zeros,
    the last word first. *)
Definition zeroes (i : Z) : poll_thread :=
  pokes [(3, 0); (2, 0); (1, 0); (0, 0)] (Print (lit "ppe_thread: " ++ fmt_d i ++ lit " loops" ++ [newline_c]) Done).

(** [i++] must not overflow. *)
Definition polls_again (i : Z) : poll_thread := if i =? int_max then Undef else Goto (polling (i + 1)).

Definition decides (i a b c e : Z) : poll_thread :=
  if negb (Z.land (Z.land (Z.land a b) c) e =? 0xFFFFFFFF) then polls_again i else zeroes i.

Definition reads_3 (i a b c : Z) : poll_thread := Peek 0 12 (decides i a b c).
Definition reads_2 (i a b : Z) : poll_thread := Peek 0 8 (reads_3 i a b).
Definition reads_1 (i a : Z) : poll_thread := Peek 0 4 (reads_2 i a).

Definition poll_code (l : poll_loop) : poll_thread := match l with polling i => Peek 0 0 (reads_1 i) end.

Definition ppe_thread : poll_thread := Goto (polling 0).

(** *** [main], from its end *)

Definition joins_thread (entry rc : Z) : poll_thread :=
  Print (lit "npc: 0x" ++ fmt_base 16 entry ++ lit ", status: 0x" ++ fmt_base 16 rc ++ [newline_c])
    (Wait 1 (Return EXIT_SUCCESS)).

Definition checks_stop (a : ans) : poll_thread :=
  let rc := wraps 32 (a_rc a) in
  if rc <? 0 then fails (ls_perror (lit "spu_run") a)
  else if Z.land rc 0x2 =? 0 then fails (lit "spu didn't stop-and-signal? rc = 0x" ++ fmt_base 16 rc ++ [newline_c])
  else if negb (Z.shiftr rc 16 =? 0x1337) then
    fails (lit "spu executed different stop instruction? rc = 0x" ++ fmt_base 16 rc ++ [newline_c])
  else joins_thread (wrapu 32 (a_npc a)) rc.

(** A quadword before the program; [usleep] has no effect here. *)
Definition ls_buf_size : Z := 4.

Definition runs_app : poll_thread := Run 0 (ls_buf_size * 4) checks_stop.

Definition starts_poll : poll_thread :=
  Start ppe_thread (λ a, if negb (a_rc a =? 0) then fails (ls_perror (lit "pthread_create") a) else runs_app).

(** [memset] and [memcpy]. *)
Definition fills_ls : poll_thread :=
  pokes (imap (λ i w, (Z.of_nat i, w)) (replicate (Z.to_nat ls_buf_size) 0 ++ spe_app)) starts_poll.

Definition maps_ls (fd : Z) : poll_thread :=
  Call (c_mmap LS_SIZE 3 1 fd 0) (λ a,
    if a_rc a =? -1 then fails (ls_perror (lit "mmap") a) else fills_ls).

Definition opens_ls (ctx : Z) : poll_thread :=
  Call (c_openat ctx (lit "mem") O_RDWR) (λ a,
    if a_rc a <? 0 then fails (ls_perror (lit "openat: mem") a) else maps_ls (a_rc a)).

Definition lsmap_04_ppe_running : poll_thread :=
  Call (SYS_spu_create (Some (lit "/spu/04-ppe-running")) 0 0x1ED None) (λ a,
    let ctx := wraps 32 (a_rc a) in asserted (0 <=? ctx) (opens_ls ctx)).

(** The context is not used for messages. *)
Definition poll_initial {box} : sys no_var poll_loop box := Sys [lsmap_04_ppe_running] [] (λ _, 0) None.
End ppe_running.

(** ** 02-reschedule *)

Inductive resched_var := resched_abort | resched_rc | resched_entry.

#[global] Instance resched_var_eq_dec : EqDecision resched_var.
Proof. solve_decision. Defined.

(** The loop of [main]. *)
Inductive resched_loop := watching (reg_fd : Z).

Definition resched_thread : Type := thread resched_var resched_loop.

Section reschedule.
Context (strerror : Z → bytes).

Definition resched_ran (a : ans) : resched_thread :=
  Put resched_entry (wrapu 32 (a_npc a)) (Put resched_rc (wraps 32 (a_rc a))
    (if wraps 32 (a_rc a) <? 0 then Print (ls_perror strerror (lit "spu_run") a) (Put resched_abort 1 Done)
     else Put resched_abort 1 Done)).

Definition resched_spe_thread : resched_thread := Get resched_entry (λ e, Run 0 e resched_ran).

Definition resched_check : resched_thread :=
  Wait 1 (Get resched_rc (λ rc,
    if negb (rc =? 0x13370002) then fails (lit "Incorrect stop code: 0x" ++ fmt_base 16 (wrapu 32 rc) ++ [newline_c])
    else Return EXIT_SUCCESS)).

(** A big-endian word of what [read] gave. *)
Definition first_word (m : bytes) : Z := fold_left (λ acc c, acc * 256 + code c) (take 4 m) 0.

Definition reads_r0 (reg_fd : Z) : resched_thread :=
  Call (c_read reg_fd 4) (λ a,
    if negb (a_rc a =? 4) then fails (ls_perror strerror (lit "read") a)
    else Print (lit "SPE r0: 0x" ++ fmt_hex 8 (first_word (a_data a)) ++ [newline_c])
      (if negb (first_word (a_data a) =? 1) then fails (lit "Unexpected value of r0!" ++ [newline_c])
       else Poke 0 0 0 resched_check)).

(** [while (!thread_abort && ls_map[0] == 0) usleep(1);] *)
Definition resched_code (l : resched_loop) : resched_thread :=
  match l with
  | watching fd =>
      Get resched_abort (λ b,
        if negb (b =? 0) then reads_r0 fd
        else Peek 0 0 (λ x, if x =? 0 then Goto (watching fd) else reads_r0 fd))
  end.

Definition resched_starts (reg_fd : Z) : resched_thread :=
  Put resched_entry 0x10 (Start resched_spe_thread (λ a, asserted (a_rc a =? 0) (Goto (watching reg_fd)))).

Definition resched_fills (reg_fd : Z) : resched_thread :=
  pokes (imap (λ i w, (Z.of_nat i, w)) reschedule_program) (resched_starts reg_fd).

Definition reg_file_02_reschedule : resched_thread :=
  Call (SYS_spu_create (Some (lit "/spu/02-reschedule")) 0 0x1ED None) (λ a,
    let ctx := wraps 32 (a_rc a) in asserted (0 <=? ctx)
      (Call (c_openat ctx (lit "mem") O_RDWR) (λ ls, asserted (0 <=? a_rc ls)
        (Call (c_mmap LS_SIZE 3 1 (a_rc ls) 0) (λ m, asserted (negb (a_rc m =? -1))
          (Call (c_openat ctx (lit "regs") O_RDWR) (λ r, asserted (0 <=? a_rc r) (resched_fills (a_rc r))))))))).

Definition resched_initial {box} (junk : resched_var → Z) : sys resched_var resched_loop box :=
  Sys [reg_file_02_reschedule] [] (λ v, if decide (v = resched_abort) then 0 else junk v) None.
End reschedule.
