(* ===== verification/LsSharedProps.v ===== *)
(** * 07-lsmap/04-ppe-running passes

    The SPE and the thread wait for each other through a quadword of local
    store.  One invariant relates the quadword, the place of the SPE and the
    values the thread has read. *)

From stdpp Require Import relations.
From S2P Require Import Prelude Runs CString SysProg SpuIsa SpuCode Threads LsShared.

Local Open Scope Z_scope.

(** Before the SPE has stored its ones; after that, with the number of words the
    thread has cleared again. *)
Inductive stage := Before | After (k : nat).

(** The words of the quadword, as truth values. *)
Definition ones (st : stage) (j : nat) : bool :=
  match st with Before => false | After k => bool_decide (j + k < 4)%nat end.

Definition signals (l : Z → Z) (st : stage) : Prop :=
  ∀ j : nat, (j < 4)%nat → l (4 * Z.of_nat j) = mask (ones st j).

(** The local store after the first stores of [main]. *)
Definition filled (stores : list (Z * Z)) : Z → Z := fold_left (λ l s, update l (4 * s.1) s.2) stores empty_ls.

Definition all_stores : list (Z * Z) := imap (λ i w, (Z.of_nat i, w)) (replicate (Z.to_nat ls_buf_size) 0 ++ spe_app).

Lemma filled_listed : listed (filled all_stores) 0x10 spe_app_listing.
Proof. intros i x Hi. do 5 (destruct i as [|i]; [injection Hi as <-; by vm_compute|]). done. Qed.

Lemma filled_signals : signals (filled all_stores) Before.
Proof. intros j Hj. do 4 (destruct j as [|j]; [by vm_compute|]). lia. Qed.

(** A store to the quadword. *)
Lemma listed_update l j v : (j < 4)%nat → listed l 0x10 spe_app_listing → listed (update l (4 * Z.of_nat j) v) 0x10 spe_app_listing.
Proof.
  intros Hj H i x Hi. rewrite <- (H i x Hi). unfold update. by rewrite (proj2 (Z.eqb_neq _ _)) by lia.
Qed.

(** The next word, from the last one, is cleared. *)
Lemma signals_clear l k : (k < 4)%nat → signals l (After k) → signals (update l (4 * Z.of_nat (3 - k)) 0) (After (S k)).
Proof.
  intros Hk H j Hj. unfold update. destruct (Z.eqb_spec (4 * Z.of_nat j) (4 * Z.of_nat (3 - k))) as [E|E].
  - cbn [ones]. by rewrite bool_decide_false by lia.
  - rewrite (H j Hj). cbn [ones]. f_equal. apply bool_decide_ext. lia.
Qed.

Lemma signals_ones l v : v = splat 0xFFFFFFFF → signals (put_quad l 0 v) (After 0).
Proof. intros -> j Hj. do 4 (destruct j as [|j]; [done|]). lia. Qed.

Section props.
Context (strerror : Z → bytes) {box : Type} `{!Mailbox box}.

#[local] Abbreviation system := (sys no_var poll_loop box).
#[local] Abbreviation step := (Threads.step poll_code answers_ok).

Implicit Types (s : system) (e : spe box) (t w : poll_thread).

(** *** The SPE and [main], which runs it *)

Inductive spe_at : stage → spu → Z → Prop :=
| s_il r l : listed l 0x10 spe_app_listing → signals l Before → spe_at Before (Spu r l 0x10) 12
| s_stqa r l : listed l 0x10 spe_app_listing → signals l Before → r 3 = splat 0xFFFFFFFF → spe_at Before (Spu r l 0x14) 11
| s_lqa k r l : listed l 0x10 spe_app_listing → signals l (After k) → spe_at (After k) (Spu r l 0x18) 5
| s_brnz k r l v : listed l 0x10 spe_app_listing → signals l (After k) → q0 (r 3) = mask v → (v = false → k = 4%nat) →
    spe_at (After k) (Spu r l 0x1c) (if v then 6 else 4)
| s_stop r l : listed l 0x10 spe_app_listing → signals l (After 4) → spe_at (After 4) (Spu r l 0x20) 3.

Definition over st e : Prop :=
  st = After 4 ∧ runner e = None ∧ listed (ls (machine e)) 0x10 spe_app_listing ∧ signals (ls (machine e)) (After 4).

Inductive main_at st e : poll_thread → Z → Prop :=
| m_run r l : st = Before → runner e = None → machine e = Spu r l 0 → listed l 0x10 spe_app_listing → signals l Before →
    main_at st e (runs_app strerror) 13
| m_running n : runner e = Some 0%nat → spe_at st (machine e) n → main_at st e (runs_app strerror) n
| m_prints entry rc : over st e → main_at st e (joins_thread entry rc) 2
| m_waits : over st e → main_at st e (Wait 1 (Return EXIT_SUCCESS)) 1
| m_returns : over st e → main_at st e (Return EXIT_SUCCESS) 0.

(** *** The thread that polls *)

(** A one that was read is there. *)
Definition seen st (v : bool) : Prop := v = true → st = After 0.

Definition clears (i : Z) (k : nat) : poll_thread :=
  pokes (drop k [(3, 0); (2, 0); (1, 0); (0, 0)]) (Print (lit "ppe_thread: " ++ fmt_d i ++ lit " loops" ++ [newline_c]) Done).

(** [c] bounds the turns that the thread has counted; it grows only when [i] does. *)
Inductive poller_at (c : Z) st : poll_thread → Z → Prop :=
| l_goto i : i ≤ c → st = Before ∨ st = After 0 → poller_at c st (Goto (polling i)) 20
| l_0 i : i ≤ c → st = Before ∨ st = After 0 → poller_at c st (poll_code (polling i)) 19
| l_1 i x : i ≤ c → st = Before ∨ st = After 0 → seen st x → poller_at c st (reads_1 i (mask x)) (if x then 18 else 30)
| l_2 i x y : i ≤ c → st = Before ∨ st = After 0 → seen st x → seen st y →
    poller_at c st (reads_2 i (mask x) (mask y)) (if x && y then 17 else 29)
| l_3 i x y z : i ≤ c → st = Before ∨ st = After 0 → seen st x → seen st y → seen st z →
    poller_at c st (reads_3 i (mask x) (mask y) (mask z)) (if x && y && z then 16 else 28)
| l_clears i k : (k ≤ 4)%nat → st = After k → poller_at c st (clears i k) (15 - Z.of_nat k)
| l_undef : int_max < c → st = Before ∨ st = After 0 → poller_at c st Undef 5
| l_done : st = After 4 → poller_at c st Done 0.

Definition rank st (mr pr : Z) : Z :=
  match st with Before => 60 + mr | After _ => if pr =? 0 then mr + 1 else 20 + pr end.

(** *** Before the thread is started *)

Definition spe_with (l : Z → Z) : spe box := Spe (reset l 0) None mbox_empty [] [].

Inductive alone : poll_thread → list (spe box) → Z → Prop :=
| a_creates : alone (lsmap_04_ppe_running strerror) [] 124
| a_opens ctx : alone (opens_ls strerror ctx) [spe_with empty_ls] 123
| a_maps fd : alone (maps_ls strerror fd) [spe_with empty_ls] 122
| a_fills l r : l ++ r = all_stores → alone (pokes r (starts_poll strerror)) [spe_with (filled l)] (110 + Z.of_nat (length r)).

Inductive inv (c : Z) : Z → system → Prop :=
| inv_alone s t n : threads s = [t] → ended s = None → 0 ≤ c → alone t (spes s) n → inv c n s
| inv_both s t w e st mr pr :
    threads s = [t; w] → spes s = [e] → ended s = None → main_at st e t mr → poller_at c st w pr →
    signals (ls (machine e)) st → listed (ls (machine e)) 0x10 spe_app_listing → inv c (rank st mr pr) s
| inv_ended s r : ended s = Some r → r = Returned EXIT_SUCCESS ∨ r = Undefined ∧ int_max < c → inv c 0 s.

(** *** [main] alone *)

Lemma alone_goes c s t t' es n n' :
  threads s = [t] → ended s = None → 0 ≤ c → alone t' es n' → n' < n →
  ∃ m, m < n ∧ inv c m (Sys (<[0%nat:=t']> (threads s)) es (vars s) (ended s)).
Proof. intros Ht He Hc Ha Hn. exists n'. split; [done|]. eapply inv_alone; cbn; [by rewrite Ht|done..]. Qed.

Lemma alone_idle t es n : alone t es n → Forall (λ e : spe box, runner e = None) es.
Proof. destruct 1; by repeat constructor. Qed.

Lemma filled_snoc l i v : filled (l ++ [(i, v)]) = update (filled l) (4 * i) v.
Proof. unfold filled. by rewrite fold_left_app. Qed.

Ltac goes c s tac := eapply (alone_goes c s); [done|done|done|tac|lia].

Lemma poll_alone_step c s t n s' :
  threads s = [t] → ended s = None → 0 ≤ c → alone t (spes s) n → step s s' → ∃ m, m < n ∧ inv c m s'.
Proof.
  intros Ht He H0 Ha Hst. destruct Hst as [i t' s' _ Hi Hs|k e s' _ Hc [i Hi] _].
  2: { apply alone_idle in Ha. rewrite Forall_lookup in Ha. apply Ha in Hc. congruence. }
  rewrite Ht in Hi. destruct i; [|done]. injection Hi as <-.
  inversion Ha as [E1 E2 E3|ctx E1 E2 E3|fd E1 E2 E3|l r El E1 E2 E3]; subst t n.
  - apply call_step in Hs as (a & Hk & ->). cbn [answers_ok] in Hk. cbn [effect]. rewrite (proj2 (Z.leb_le _ _) Hk).
    goes c s ltac:(rewrite <- E2; apply a_opens).
  - apply call_step in Hs as (a & Hk & ->). cbn [answers_ok] in Hk. cbn [effect]. rewrite (proj2 (Z.ltb_ge _ _)) by lia.
    goes c s ltac:(rewrite <- E2; apply a_maps).
  - apply call_step in Hs as (a & Hk & ->). cbn [answers_ok] in Hk. cbn [effect]. rewrite (proj2 (Z.eqb_neq _ _) Hk).
    eapply (alone_goes c s); [done|done|done| |].
    + rewrite <- E2. by apply (a_fills [] all_stores).
    + by vm_compute.
  - destruct r as [|[i v] r]; cbn [pokes] in Hs.
    + apply start_step in Hs as (a & Hk & [[Hc ->]|[Hc _]]); [|done]. rewrite Hc. cbn [negb Z.eqb].
      rewrite app_nil_r in El. subst l. exists (rank Before 13 20). split; [cbn; lia|].
      eapply (inv_both _ _ (runs_app strerror) ppe_thread (spe_with (filled all_stores))); cbn [spawn go threads spes vars ended].
      * by rewrite Ht.
      * done.
      * done.
      * eapply m_run; [done..|apply filled_listed|apply filled_signals].
      * apply l_goto; [done|by left].
      * apply filled_signals.
      * apply filled_listed.
    + apply poke_step in Hs as (e & Hc & ->). rewrite <- E2 in Hc. injection Hc as <-.
      eapply (alone_goes c s); [done|done|done| |].
      * cbn [set_spe spes]. rewrite <- E2. cbn [list_insert insert].
        replace (set_machine _ _) with (spe_with (filled (l ++ [(i, v)]))).
        -- apply (a_fills (l ++ [(i, v)]) r). by rewrite <- app_assoc.
        -- by rewrite filled_snoc.
      * cbn [length]. lia.
Qed.

(** *** [main] and the SPE *)

Definition both c s t w e st mr pr : Prop :=
  threads s = [t; w] ∧ spes s = [e] ∧ ended s = None ∧ main_at st e t mr ∧ poller_at c st w pr ∧
  signals (ls (machine e)) st ∧ listed (ls (machine e)) 0x10 spe_app_listing.

Lemma poller_rank c st w pr : poller_at c st w pr → 0 ≤ pr ∧ (pr = 0 ↔ w = Done).
Proof.
  destruct 1 as [i|i|i x|i x y|i x y z|i k Hk| |]; repeat case_match; (split; [lia|]); try by split; [lia|].
  - split; [lia|]. by do 5 (destruct k as [|k]; [done|]).
  - done.
Qed.

(** The SPE stores its ones: what the thread has read until then are zeros. *)
Lemma poller_before c st w pr : poller_at c Before w pr → st = Before ∨ st = After 0 → ∃ pr', poller_at c st w pr'.
Proof.
  intros H Hst. inversion H as [i Hi _|i Hi _|i x Hi _ Hx|i x y Hi _ Hx Hy|i x y z Hi _ Hx Hy Hz|i k Hk E|Hc _|E]; subst w; try done; eexists.
  - by apply l_goto.
  - by apply l_0.
  - apply l_1; [done|done|]. intros E. by apply Hx in E.
  - apply l_2; [done|done|..]; intros E; [by apply Hx in E|by apply Hy in E].
  - apply l_3; [done|done|..]; intros E; [by apply Hx in E|by apply Hy in E|by apply Hz in E].
  - by apply l_undef.
Qed.

(** A step of [main] or of the SPE; it counts down before the SPE has stored, and
    when the thread has ended. *)
Definition counts_down c s t w e st mr pr s' : Prop :=
  ∃ M, inv c M s' ∧ (st = Before ∨ w = Done → M < rank st mr pr).

Lemma both_moves c s t w e st mr pr t' e' st' mr' pr' vs :
  both c s t w e st mr pr → main_at st' e' t' mr' → poller_at c st' w pr' →
  signals (ls (machine e')) st' → listed (ls (machine e')) 0x10 spe_app_listing →
  (st = Before ∨ w = Done → rank st' mr' pr' < rank st mr pr) →
  counts_down c s t w e st mr pr (Sys (<[0%nat:=t']> (threads s)) (<[0%nat:=e']> (spes s)) vs (ended s)).
Proof.
  intros (Ht & He & Hd & Hm & Hp & Hs & Hl) Hm' Hp' Hs' Hl' Hr. exists (rank st' mr' pr'). split; [|done].
  apply (inv_both _ _ t' w e' st' mr' pr'); cbn [threads spes vars ended]; try done.
  - by rewrite Ht.
  - by rewrite He.
Qed.

Lemma poller_stage c k w pr : poller_at c (After k) w pr → (k ≤ 4)%nat ∧ (w = Done → k = 4%nat ∧ pr = 0) ∧ pr ≤ 30.
Proof.
  intros H. pose proof (poller_rank _ _ _ _ H) as [_ Hz].
  assert ((k ≤ 4)%nat ∧ (w = Done → k = 4%nat) ∧ pr ≤ 30) as (Hk & HD & Hp).
  2: { split_and!; [done| |done]. intros E. split; [by apply HD|by apply Hz]. }
  clear Hz.
  inversion H as [i Hi Hs|i Hi Hs|i x Hi Hs|i x y Hi Hs|i x y z Hi Hs|i j Hj Hs|Hc Hs|Hs]; subst;
    try (assert (k = 0%nat) as -> by (destruct Hs as [Hs|Hs]; congruence); repeat case_match; by split_and!; [lia| |lia]).
  - injection Hs as ->. split; [done|]. split; [|lia]. by do 5 (destruct j as [|j]; [done|]).
  - injection Hs as ->. by split_and!; [lia| |lia].
Qed.

Lemma spe_next_step c s w e st mr pr m :
  both c s (runs_app strerror) w e st mr pr → runner e = Some 0%nat → spe_at st (machine e) mr → spu_step (machine e) = Next m →
  counts_down c s (runs_app strerror) w e st mr pr (set_spe 0 (set_machine m e) s).
Proof.
  intros H Hr Hsp Hm. pose proof H as (Ht & He & Hd & _ & Hp & Hs & Hl).
  unfold set_spe. replace (threads s) with (<[0%nat:=runs_app strerror]> (threads s)) by by rewrite Ht.
  inversion Hsp as [r l Hlst Hsg E1 E2 E3|r l Hlst Hsg H3 E1 E2 E3|k r l Hlst Hsg E1 E2 E3|k r l v Hlst Hsg Hv Hk E1 E2 E3|r l Hlst Hsg E1 E2 E3];
    subst st mr; rewrite <- E2 in Hm; (erewrite step_exec in Hm by spu_decode Hlst).
  - injection Hm as <-. eapply (both_moves _ _ _ _ _ _ _ _ _ _ Before 11 pr _ H); cbn; try done.
    eapply m_running; [done|]. by apply s_stqa.
  - injection Hm as <-. destruct (poller_before _ (After 0) _ _ Hp ltac:(by right)) as [pr' Hp'].
    destruct (poller_stage _ _ _ _ Hp') as (_ & _ & Hpr).
    assert (Hlst' : listed (put_quad l 0 (r 3)) 0x10 spe_app_listing) by (apply listed_put_quad; [done|by vm_compute]).
    eapply (both_moves _ _ _ _ _ _ _ _ _ _ (After 0) 5 pr' _ H); cbn; try done; [|by apply signals_ones|].
    + eapply m_running; [done|]. apply s_lqa; [done|by apply signals_ones].
    + intros _. case_match; lia.
  - injection Hm as <-. destruct (poller_stage _ _ _ _ Hp) as (Hk & HD & _).
    eapply (both_moves _ _ _ _ _ _ _ _ _ _ (After k) (if ones (After k) 0 then 6 else 4) pr _ H); cbn [machine set_machine ls]; try done.
    + eapply m_running; [done|]. apply s_brnz; [done|done|exact (Hsg 0%nat ltac:(lia))|]. intros E%bool_decide_eq_false. lia.
    + intros [|Hw]; [done|]. destruct (HD Hw) as [-> ->]. cbn. rewrite bool_decide_false by lia. lia.
  - cbn [exec regs q0] in Hm. rewrite Hv in Hm. destruct v; cbn in Hm; injection Hm as <-.
    + destruct (poller_stage _ _ _ _ Hp) as (_ & HD & _).
      eapply (both_moves _ _ _ _ _ _ _ _ _ _ (After k) 5 pr _ H); cbn [machine set_machine ls]; try done.
      * eapply m_running; [done|]. by apply s_lqa.
      * intros [|Hw]; [done|]. destruct (HD Hw) as [-> ->]. cbn. lia.
    + specialize (Hk eq_refl) as ->. eapply (both_moves _ _ _ _ _ _ _ _ _ _ (After 4) 3 pr _ H); cbn [machine set_machine ls]; try done.
      * eapply m_running; [done|]. by apply s_stop.
      * intros [|Hw]; [done|]. destruct (poller_stage _ _ _ _ Hp) as (_ & HD & _). destruct (HD Hw) as [_ ->]. cbn. lia.
  - done.
Qed.

(** The stop of the SPE. *)
Lemma spe_stop_step st m code m' n :
  spe_at st m n → spu_step m = Stopped code m' →
  st = After 4 ∧ n = 3 ∧ code = 0x1337 ∧ ls m' = ls m ∧ listed (ls m) 0x10 spe_app_listing ∧ signals (ls m) (After 4).
Proof.
  intros [r l Hlst Hsg|r l Hlst Hsg H3|k r l Hlst Hsg|k r l v Hlst Hsg Hv Hk|r l Hlst Hsg] Hm;
    (erewrite step_exec in Hm by spu_decode Hlst); try done.
  - cbn [exec regs q0] in Hm. rewrite Hv in Hm. by destruct v.
  - injection Hm as <- <-. by split_and!.
Qed.
(** A step of [main]. *)
Lemma poll_main_moves c s t w e st mr pr t' vs mr' :
  both c s t w e st mr pr → main_at st e t' mr' → mr' < mr →
  counts_down c s t w e st mr pr (Sys (<[0%nat:=t']> (threads s)) (spes s) vs (ended s)).
Proof.
  intros H Hm Hlt. pose proof H as (Ht & He & Hd & _ & Hp & Hs & Hl).
  replace (spes s) with (<[0%nat:=e]> (spes s)) by by rewrite He.
  eapply (both_moves _ _ _ _ _ _ _ _ t' e st mr' pr vs H); try done.
  intros Hc. unfold rank. destruct st; [lia|]. destruct Hc as [|Hc]; [done|].
  apply poller_stage in Hp as (_ & HD & _). destruct (HD Hc) as [_ ->]. cbn. lia.
Qed.

Lemma run_starts c s w e mr pr s' :
  both c s (runs_app strerror) w e Before mr pr → runner e = None → mr = 13 →
  (∃ r l, machine e = Spu r l 0) →
  s' = set_spe 0 (set_runner (Some 0%nat) (set_machine (set_pc (ls_addr (ls_buf_size * 4)) (machine e)) e)) s →
  counts_down c s (runs_app strerror) w e Before mr pr s'.
Proof.
  intros H Hr -> (r & l & Hm) ->. pose proof H as (Ht & He & Hd & _ & Hp & Hs & Hl). rewrite Hm in Hs, Hl |- *.
  unfold set_spe. replace (threads s) with (<[0%nat:=runs_app strerror]> (threads s)) by by rewrite Ht.
  eapply (both_moves _ _ _ _ _ _ _ _ _ _ Before 12 pr _ H); cbn [set_runner set_machine machine set_pc ls regs]; try done.
  eapply m_running; [done|]. by apply s_il.
Qed.

Lemma run_ends c s w e st mr pr code m a vs :
  both c s (runs_app strerror) w e st mr pr → spe_at st (machine e) mr → spu_step (machine e) = Stopped code m →
  a_rc a = stop_status code →
  counts_down c s (runs_app strerror) w e st mr pr
    (Sys (<[0%nat:=checks_stop strerror a]> (threads s)) (<[0%nat:=set_runner None (set_machine m e)]> (spes s)) vs (ended s)).
Proof.
  intros H Hsp Hm Ha. pose proof H as (Ht & He & Hd & _ & Hp & Hs & Hl).
  destruct (spe_stop_step _ _ _ _ _ Hsp Hm) as (-> & -> & -> & Hls & Hlst & Hsg).
  eapply (both_moves _ _ _ _ _ _ _ _ _ _ (After 4) 2 pr _ H); cbn [set_runner set_machine machine]; rewrite ?Hls; try done.
  - unfold checks_stop. rewrite Ha. apply m_prints. split_and!; cbn [set_runner set_machine machine runner]; by rewrite ?Hls.
  - intros [|Hw]; [done|]. apply poller_stage in Hp as (_ & HD & _). destruct (HD Hw) as [_ ->]. cbn. lia.
Qed.

Lemma poll_main_step c s t w e st mr pr s' :
  both c s t w e st mr pr → thread_step poll_code answers_ok s 0 t s' → counts_down c s t w e st mr pr s'.
Proof.
  intros H Hs. pose proof H as (Ht & He & Hd & Hm & Hp & _).
  inversion Hm as [r l E1 Hr Hmm Hl Hsg E2 E3|n Hr Hsp E2 E3|entry rc Ho E2 E3|Ho E2 E3|Ho E2 E3]; subst t mr.
  - apply run_step in Hs as (e' & He' & [[_ [->|(a & Hk & Ha & _)]]|[Hr' _]]); rewrite He in He'; injection He' as <-; [| |congruence].
    + subst st. eapply run_starts; eauto.
    + cbn in Hk. lia.
  - apply run_step in Hs as (e' & He' & [[Hr' _]|(_ & code & m & a & Hst & _ & Ha & _ & ->)]); rewrite He in He'; injection He' as <-; [congruence|].
    by eapply (run_ends c s).
  - apply print_step in Hs as ->. eapply (poll_main_moves c s); [done|by apply m_waits|lia].
  - apply wait_step in Hs as [_ ->]. eapply (poll_main_moves c s); [done|by apply m_returns|lia].
  - apply return_step in Hs as ->. exists 0. split; [eapply inv_ended; [done|by left]|].
    intros Hc. destruct Ho as (-> & _). destruct Hc as [|Hc]; [done|].
    apply poller_stage in Hp as (_ & HD & _). destruct (HD Hc) as [_ ->]. cbn. lia.
Qed.

(** *** The thread *)

(** A step of the thread; it counts down once the SPE has stored.  A step that
    counts a turn moves the thread; once the SPE has stored there is at most one. *)
Definition polls_on c s st mr pr s' : Prop :=
  ∃ c' M, inv c' M s' ∧ (st ≠ Before → M < rank st mr pr) ∧
    (c' = c ∨ c' = c + 1 ∧ threads s' !! 1%nat ≠ threads s !! 1%nat ∧ (st ≠ Before → M ≤ 40 < rank st mr pr)).

Lemma rank_after c s t w e k mr pr :
  both c s t w e (After k) mr pr → pr ≠ 0 → 20 < rank (After k) mr pr ∧ rank (After k) mr pr = 20 + pr.
Proof. intros (_ & _ & _ & _ & Hp & _) Hz. apply poller_rank in Hp as [Hp _]. cbn. rewrite (proj2 (Z.eqb_neq _ _)) by done. lia. Qed.

Lemma poller_goes c c' s t w e st mr pr w' pr' :
  both c s t w e st mr pr → poller_at c' st w' pr' → inv c' (rank st mr pr') (go 1 w' s).
Proof.
  intros (Ht & He & Hd & Hm & Hp & Hs & Hl) Hp'.
  apply (inv_both _ _ t w' e st mr pr'); cbn [threads spes vars ended go]; try done. by rewrite Ht.
Qed.

Lemma poller_lower c c' s t w e st mr pr w' pr' :
  both c s t w e st mr pr → poller_at c' st w' pr' → (st ≠ Before → mr ≤ 6 → pr' < pr) → st ≠ Before →
  rank st mr pr' < rank st mr pr.
Proof.
  intros (Ht & He & Hd & Hm & Hp & Hs & Hl) Hp' Hlt Hst. assert (Hmr : 0 ≤ mr ≤ 6).
  { destruct Hm as [r l E|n _ Hsp|entry rc Ho|Ho|Ho]; [done| |lia..]. destruct Hsp; try done; repeat case_match; lia. }
  destruct st as [|k]; [done|]. specialize (Hlt ltac:(done) ltac:(lia)).
  apply poller_rank in Hp as [Hp _]. apply poller_rank in Hp' as [Hp' _]. cbn [rank].
  repeat case_match; lia.
Qed.

Lemma poller_moves c s t w e st mr pr w' pr' :
  both c s t w e st mr pr → poller_at c st w' pr' → (st ≠ Before → mr ≤ 6 → pr' < pr) →
  polls_on c s st mr pr (go 1 w' s).
Proof.
  intros H Hp' Hlt. exists c, (rank st mr pr'). split; [by eapply poller_goes|]. split; [|by left].
  by eapply poller_lower.
Qed.

(** One turn more. *)
Lemma poller_counts c s t w e st mr pr w' pr' :
  both c s t w e st mr pr → poller_at (c + 1) st w' pr' → w' ≠ w → (st ≠ Before → pr' ≠ 0 ∧ pr' ≤ 20 < pr) →
  polls_on c s st mr pr (go 1 w' s).
Proof.
  intros H Hp' Hw Hlt. exists (c + 1), (rank st mr pr'). split; [by eapply poller_goes|].
  split; [eapply poller_lower; try done; intros Hn _; specialize (Hlt Hn); lia|]. right. split; [done|]. pose proof H as (Ht & _). split.
  - cbn [threads go]. rewrite Ht. cbn. congruence.
  - intros Hn. destruct st; [done|]. specialize (Hlt Hn). destruct (rank_after _ _ _ _ _ _ _ _ H ltac:(lia)) as [_ ->].
    cbn [rank]. rewrite (proj2 (Z.eqb_neq _ _)) by lia. lia.
Qed.

(** What [main] and the SPE see of a word that is cleared. *)
Lemma main_clears e k t mr a :
  (k < 4)%nat → (a < 4)%nat → signals (update (ls (machine e)) (4 * Z.of_nat a) 0) (After (S k)) →
  main_at (After k) e t mr →
  main_at (After (S k)) (set_machine (set_ls (update (ls (machine e)) (4 * Z.of_nat a) 0) (machine e)) e) t mr.
Proof.
  intros Hk Ha Hs [r l E|n Hr Hsp|entry rc Ho|Ho|Ho]; [done| |(destruct Ho as [E _]; injection E as ->; lia)..].
  apply m_running; [done|]. revert Hs. cbn [set_machine machine]. inversion Hsp as [| |k' r l Hl Hsg E1 E2 E3|k' r l v Hl Hsg Hv Hkv E1 E2 E3|r l Hl Hsg E1 E2 E3]; subst;
    cbn [set_ls ls regs pc]; intros Hs.
  - apply s_lqa; [by apply listed_update|done].
  - apply s_brnz; [by apply listed_update|done|done|]. intros E. apply Hkv in E. lia.
  - lia.
Qed.

Lemma clears_next i k : (k < 4)%nat → clears i k = Poke 0 (4 * Z.of_nat (3 - k)) 0 (clears i (S k)).
Proof. intros H. by do 4 (destruct k as [|k]; [done|]); lia. Qed.

Lemma poller_clears c s t e k mr i s' :
  both c s t (clears i k) e (After k) mr (15 - Z.of_nat k) → (k < 4)%nat →
  thread_step poll_code answers_ok s 1 (clears i k) s' → polls_on c s (After k) mr (15 - Z.of_nat k) s'.
Proof.
  intros (Ht & He & Hd & Hm & Hp & Hs & Hl) Hk Hst. rewrite clears_next in Hst by done.
  apply poke_step in Hst as (e' & He' & ->). rewrite He in He'. injection He' as <-.
  pose proof (signals_clear _ _ Hk Hs) as Hs'.
  exists c, (rank (After (S k)) mr (15 - Z.of_nat (S k))). split; [|split; [|by left]].
  - eapply (inv_both _ _ t (clears i (S k)) _ (After (S k))); cbn [go set_spe threads spes vars ended].
    + by rewrite Ht.
    + by rewrite He.
    + done.
    + apply main_clears; [done|lia|done|done].
    + apply l_clears; [lia|done].
    + done.
    + apply listed_update; [lia|done].
  - intros _. cbn [rank]. rewrite !(proj2 (Z.eqb_neq _ _)) by lia. lia.
Qed.

Lemma decides_masks i a b c d :
  decides i (mask a) (mask b) (mask c) (mask d) = if a && b && c && d then zeroes i else polls_again i.
Proof. by destruct a, b, c, d. Qed.

Lemma seen_ones l st j : (j < 4)%nat → st = Before ∨ st = After 0 → signals l st → ∃ v, l (4 * Z.of_nat j) = mask v ∧ seen st v ∧ (st ≠ Before → v = true).
Proof.
  intros Hj Hst Hs. exists (ones st j). split; [by apply Hs|]. destruct Hst as [-> | ->]; split; try done.
  intros _. cbn. by rewrite bool_decide_true by lia.
Qed.

Lemma poller_step c s t w e st mr pr s' :
  both c s t w e st mr pr → thread_step poll_code answers_ok s 1 w s' → polls_on c s st mr pr s'.
Proof.
  intros H Hs. pose proof H as (Ht & He & Hd & Hm & Hp & Hsg & Hl).
  assert (Hpeek : ∀ j k s1, (j < 4)%nat → st = Before ∨ st = After 0 →
    thread_step poll_code answers_ok s 1 (Peek 0 (4 * Z.of_nat j) k) s1 →
    ∃ v, s1 = go 1 (k (mask v)) s ∧ seen st v ∧ (st ≠ Before → v = true)).
  { intros j k s1 Hj Hst (e' & Hc & ->)%peek_step. rewrite He in Hc. injection Hc as <-.
    destruct (seen_ones _ _ j Hj Hst Hsg) as (v & -> & Hv & Hv'). by exists v. }
  inversion Hp as [i Hi Hst|i Hi Hst|i x Hi Hst Hx|i x y Hi Hst Hx Hy|i x y z Hi Hst Hx Hy Hz|i k Hk Hst|Hc Hst|Hst]; subst w; try subst pr.
  - apply goto_step in Hs as ->. eapply poller_moves; [done|by apply l_0|lia].
  - destruct (Hpeek 0%nat _ _ ltac:(lia) Hst Hs) as (v & -> & Hv & Hv').
    eapply poller_moves; [done|by apply l_1|]. intros Hn _. rewrite (Hv' Hn). lia.
  - destruct (Hpeek 1%nat _ _ ltac:(lia) Hst Hs) as (v & -> & Hv & Hv').
    eapply poller_moves; [done|by apply l_2|]. intros Hn _. rewrite (Hv' Hn). destruct x; cbn; lia.
  - destruct (Hpeek 2%nat _ _ ltac:(lia) Hst Hs) as (v & -> & Hv & Hv').
    eapply poller_moves; [done|by apply l_3|]. intros Hn _. rewrite (Hv' Hn). destruct x, y; cbn; lia.
  - destruct (Hpeek 3%nat _ _ ltac:(lia) Hst Hs) as (v & -> & Hv & Hv'). rewrite decides_masks.
    destruct (x && y && z && v) eqn:E.
    + assert (st = After 0) as -> by (apply Hv; by destruct x, y, z, v).
      apply (poller_moves _ _ _ _ _ _ _ _ (clears i 0) 15 H); [exact (l_clears _ (After 0) i 0 ltac:(lia) eq_refl)|]. intros _ _. destruct (x && y && z); lia.
    + assert (st ≠ Before → x && y && z = false) as Hf.
      { intros Hn. rewrite (Hv' Hn) in E. by rewrite andb_true_r in E. }
      unfold polls_again. destruct (Z.eqb_spec i int_max).
      * eapply poller_counts; [done|apply l_undef; [lia|done]|done|]. intros Hn. rewrite (Hf Hn). lia.
      * eapply poller_counts; [done|apply l_goto; [lia|done]|done|]. intros Hn. rewrite (Hf Hn). lia.
  - subst st. destruct (decide (k = 4%nat)) as [->|Hk'].
    + apply print_step in Hs as ->. eapply poller_moves; [done|by apply l_done|lia].
    + by eapply poller_clears; [exact H|lia|].
  - apply undef_step in Hs as ->. exists c, 0. split; [eapply inv_ended; [done|by right]|]. split; [|by left].
    intros Hn. destruct st; [done|]. cbn. lia.
  - inversion Hs.
Qed.

(** *** All steps *)

Lemma spe_runs c s t w e st mr pr s' :
  both c s t w e st mr pr → is_Some (runner e) → spe_step s 0 e s' → counts_down c s t w e st mr pr s'.
Proof.
  intros H Hr Hs. pose proof H as (_ & _ & _ & Hm & _).
  assert (t = runs_app strerror ∧ runner e = Some 0%nat ∧ spe_at st (machine e) mr) as (-> & Hr0 & Hsp).
  { destruct Hm as [r l _ Hn| |entry rc Ho|Ho|Ho]; [rewrite Hn in Hr; by destruct Hr|done|..];
      destruct Ho as (_ & Hn & _); rewrite Hn in Hr; by destruct Hr. }
  destruct Hs as [m Hst|f x b Hst _ _]; [by eapply spe_next_step|].
  exfalso. destruct Hsp as [r l Hl|r l Hl|k r l Hl|k r l v Hl _ Hv|r l Hl]; (erewrite step_exec in Hst by spu_decode Hl); try done.
  cbn [exec regs q0] in Hst. rewrite Hv in Hst. by destruct v.
Qed.

(** The turns that are counted: only when the thread moves. *)
Lemma poll_inv_step c M s s' :
  inv c M s → step s s' → ∃ c' M', inv c' M' s' ∧ (c' = c ∨ c' = c + 1 ∧ threads s' !! 1%nat ≠ threads s !! 1%nat).
Proof.
  intros Hi Hst. pose proof (step_running _ _ _ _ Hst) as Hn. destruct Hi as [s t n Ht Hd Hc Ha|s t w e st mr pr Ht He Hd Hm Hp Hs Hl|s r Hd _].
  - destruct (poll_alone_step _ _ _ _ _ Ht Hd Hc Ha Hst) as (M' & _ & Hi). exists c, M'. split; [done|by left].
  - assert (H : both c s t w e st mr pr) by done. destruct Hst as [i t' s' _ Hi Hstep|k e' s' _ Hk Hr Hstep].
    + rewrite Ht in Hi. destruct i as [|[|i]]; [injection Hi as <-..|done].
      * destruct (poll_main_step _ _ _ _ _ _ _ _ _ H Hstep) as (M' & Hi & _). exists c, M'. split; [done|by left].
      * destruct (poller_step _ _ _ _ _ _ _ _ _ H Hstep) as (c' & M' & Hi & _ & Hc'). exists c', M'. split; [done|tauto].
    + rewrite He in Hk. destruct k; [|done]. injection Hk as <-.
      destruct (spe_runs _ _ _ _ _ _ _ _ _ H Hr Hstep) as (M' & Hi & _). exists c, M'. split; [done|by left].
  - congruence.
Qed.

(** *** Something can always be done *)

Lemma alone_progress s t n : threads s = [t] → ended s = None → alone t (spes s) n → ∃ s', step s s'.
Proof.
  intros Ht Hd Ha. assert (∃ s', thread_step poll_code answers_ok s 0 t s') as [s' Hs].
  { inversion Ha as [E1 E2 E3|ctx E1 E2 E3|fd E1 E2 E3|l r El E1 E2 E3].
    - eexists. by apply (t_call _ _ _ _ _ _ (answer 0 0)); vm_compute.
    - eexists. by apply (t_call _ _ _ _ _ _ (answer 7 0)).
    - eexists. by apply (t_call _ _ _ _ _ _ (answer 7 0)).
    - destruct r as [|[i v] r]; eexists; [by apply (t_start _ _ _ _ _ _ (answer 0 0))|].
      eapply t_poke. by rewrite <- E2. }
  exists s'. apply (step_thread _ _ s 0 t); [done|by rewrite Ht|done].
Qed.

Lemma spe_goes st m n : spe_at st m n → (∃ m', spu_step m = Next m') ∨ ∃ m', spu_step m = Stopped 0x1337 m'.
Proof.
  destruct 1 as [r l Hl|r l Hl|k r l Hl|k r l v Hl _ Hv|r l Hl]; (erewrite step_exec by spu_decode Hl); [by eauto..| |by eauto].
  left. cbn [exec regs q0]. rewrite Hv. destruct v; by eauto.
Qed.

(** Before the ones are there, and when the thread has ended, [main] or the SPE
    goes on. *)
Lemma main_progress c s t w e st mr pr :
  both c s t w e st mr pr → st = Before ∨ w = Done → ∃ s', step s s' ∧ ∃ M, inv c M s' ∧ M < rank st mr pr.
Proof.
  intros H Hc. pose proof H as (Ht & He & Hd & Hm & Hp & _).
  assert (Hmain : ∀ s', thread_step poll_code answers_ok s 0 t s' → ∃ s', step s s' ∧ ∃ M, inv c M s' ∧ M < rank st mr pr).
  { intros s' Hs. exists s'. split; [apply (step_thread _ _ s 0 t); [done|by rewrite Ht|done]|].
    destruct (poll_main_step _ _ _ _ _ _ _ _ _ H Hs) as (M & Hi & HM). eauto. }
  assert (Hspe : ∀ m, runner e = Some 0%nat → spu_step (machine e) = Next m → ∃ s', step s s' ∧ ∃ M, inv c M s' ∧ M < rank st mr pr).
  { intros m Hr Hs. exists (set_spe 0 (set_machine m e) s).
    assert (Hst : spe_step s 0 e (set_spe 0 (set_machine m e) s)) by by constructor.
    split; [apply (step_spe _ _ s 0 e); [done|by rewrite He|by rewrite Hr|done]|].
    destruct (spe_runs _ _ _ _ _ _ _ _ _ H ltac:(by rewrite Hr) Hst) as (M & Hi & HM). eauto. }
  assert (H0 : spes s !! 0%nat = Some e) by by rewrite He.
  inversion Hm as [r l E1 Hr Hmm Hl Hsg E2 E3|n Hr Hsp E2 E3|entry rc Ho E2 E3|Ho E2 E3|Ho E2 E3]; subst t mr.
  - eapply Hmain, t_run; [exact H0|done].
  - destruct (spe_goes _ _ _ Hsp) as [[m Hs]|[m Hs]]; [by eapply Hspe|].
    by eapply Hmain, (t_run_stops _ _ _ _ _ _ _ _ 0x1337 m (answer (stop_status 0x1337) (pc m))).
  - eapply Hmain, t_print.
  - destruct Ho as (-> & _). destruct Hc as [ | ->]; [done|]. eapply Hmain, t_join. by rewrite Ht.
  - eapply Hmain, t_return.
Qed.

(** The thread can always go on. *)
Lemma poller_progress c s t w e k mr pr :
  both c s t w e (After k) mr pr → w ≠ Done → ∃ s', step s s' ∧ polls_on c s (After k) mr pr s'.
Proof.
  intros H Hw. pose proof H as (Ht & He & Hd & Hm & Hp & _).
  assert (∃ s', thread_step poll_code answers_ok s 1 w s') as [s' Hs].
  { assert (H0 : spes s !! 0%nat = Some e) by by rewrite He.
    destruct Hp as [i|i|i x|i x y|i x y z|i j Hj| |]; try done; try (eexists; by econstructor).
    destruct (decide (j = 4%nat)) as [->|Hn]; [by eexists; econstructor|]. rewrite clears_next by lia. eexists. by econstructor. }
  exists s'. split; [apply (step_thread _ _ s 1 w); [done|by rewrite Ht|done]|by eapply poller_step].
Qed.

(** Success is still to come: the count has room for the turn that misses the
    ones, or the SPE has stored them and no turn will. *)
Definition live M s : Prop := ∃ c, inv c M s ∧ (c < int_max ∨ c ≤ int_max ∧ M ≤ 40).

Lemma live_lower c s M M' s' : (c < int_max ∨ c ≤ int_max ∧ M ≤ 40) → inv c M' s' → M' < M → live M' s'.
Proof. intros Hc Hi Hlt. exists c. split; [done|]. lia. Qed.

Lemma live_progress M s :
  live M s → 0 ≤ M ∧ (ended s = Some (Returned EXIT_SUCCESS) ∨ ∃ s' M', step s s' ∧ M' < M ∧ live M' s').
Proof.
  intros (c & Hi & Hc). destruct Hi as [s t n Ht Hd H0 Ha|s t w e st mr pr Ht He Hd Hm Hp Hs Hl|s r Hd Hr].
  - split; [inversion Ha; lia|]. right. destruct (alone_progress _ _ _ Ht Hd Ha) as [s' Hst].
    destruct (poll_alone_step _ _ _ _ _ Ht Hd H0 Ha Hst) as (M' & Hi & HM). exists s', M'. split_and!; try done. by eapply live_lower.
  - assert (H : both c s t w e st mr pr) by done. split.
    { assert (0 ≤ mr) by (destruct Hm as [|n _ Hsp| | |]; [lia|destruct Hsp; repeat case_match; lia|lia..]).
      apply poller_rank in Hp as [Hp _]. destruct st; cbn; repeat case_match; lia. }
    right. assert (st = Before ∨ w = Done → ∃ s' M', step s s' ∧ M' < rank st mr pr ∧ live M' s') as Hmain.
    { intros Hw. destruct (main_progress _ _ _ _ _ _ _ _ H Hw) as (s' & Hst & M' & Hi & HM). exists s', M'.
      split_and!; try done. by eapply live_lower. }
    destruct st as [|k]; [apply Hmain; by left|].
    destruct (decide (pr = 0)) as [Hz|Hz]; [apply Hmain; right; by eapply poller_rank|].
    destruct (poller_progress _ _ _ _ _ _ _ _ H) as (s' & Hst & c' & M' & Hi & HM & Hc').
    { intros Hw. apply Hz. by eapply poller_rank. }
    exists s', M'. specialize (HM ltac:(done)). split_and!; try done.
    destruct Hc' as [->|(-> & _ & H40)]; [by eapply live_lower|]. specialize (H40 ltac:(done)).
    exists (c + 1). split; [done|]. lia.
  - split; [done|]. left. destruct Hr as [->|[_ Hr]]; [done|lia].
Qed.

(** A state that is reached, with (at least) the number of steps that the thread
    has taken: a step that does not change the thread need not be counted. *)
Inductive polled : nat → system → Prop :=
| polled_start : polled 0 (poll_initial strerror)
| polled_other n s s' : polled n s → step s s' → threads s' !! 1%nat = threads s !! 1%nat → polled n s'
| polled_thread n s s' : polled n s → step s s' → polled (S n) s'.

Lemma polled_inv n s : polled n s → ∃ c M, inv c M s ∧ c ≤ Z.of_nat n.
Proof.
  induction 1 as [|n s s' _ (c & M & Hi & Hc) Hst Hsame|n s s' _ (c & M & Hi & Hc) Hst].
  - exists 0, 124. split; [|done]. eapply inv_alone; [done..|apply a_creates].
  - destruct (poll_inv_step _ _ _ _ Hi Hst) as (c' & M' & Hi' & [->|(_ & Hn)]); [eauto|done].
  - destruct (poll_inv_step _ _ _ _ Hi Hst) as (c' & M' & Hi' & Hc'). exists c', M'. split; [done|]. lia.
Qed.

Lemma reached_polled s : rtc step (poll_initial strerror) s → ∃ n, polled n s.
Proof.
  intros Hr. apply (reachable_invariant step (λ s, ∃ n, polled n s) (poll_initial strerror)); [by eexists; constructor| |done].
  intros s1 s2 [n Hn] Hst. exists (S n). by eapply polled_thread.
Qed.
End props.

(** A run of the test: [main] up to the start of the SPE, two turns of the thread,
    the first two instructions, the rest of the thread, the rest of the SPE. *)
Definition no_message (e : Z) : bytes := [].

Definition poll_run : sys no_var poll_loop (list Z) :=
  @take_turns _ _ _ (list Z) (queue_mailbox 4) poll_code (λ _ _, None) (λ _, None) (λ r a, bool_decide (answers_ok r a)) granted
    (replicate 14 (inl 0%nat) ++ replicate 2 (inl 1%nat) ++ replicate 2 (inr 0%nat) ++ replicate 16 (inl 1%nat) ++
     replicate 2 (inr 0%nat) ++ replicate 4 (inl 0%nat))
    (@poll_initial no_message _).

Lemma poll_run_reachable :
  rtc (@step _ _ _ _ (queue_mailbox 4) poll_code answers_ok) (@poll_initial no_message _) poll_run.
Proof. apply take_turns_reachable; [done..|]. intros r a. by rewrite bool_decide_spec. Qed.

(** C15 [lsmap_04_ppe_running_ends]: on a kernel that does what it is asked, the PPE
    thread and the SPE of 04-ppe-running never lose each other's signal: from every
    state that is reached, in whatever order they have run, the process can still
    succeed, as long as the thread has taken fewer than INT_MAX steps; and when it
    has ended, it has succeeded, or the thread has taken more steps than that, and
    has counted its turns beyond the range of an [int]. *)
Theorem lsmap_04_ppe_running_ends strerror {box} `{!Mailbox box} s :
  rtc (step poll_code answers_ok) (@poll_initial strerror box) s →
  (∃ n, polled strerror n s) ∧
  ∀ n, polled strerror n s →
    (Z.of_nat n < int_max → ∃ s', rtc (step poll_code answers_ok) s s' ∧ ended s' = Some (Returned EXIT_SUCCESS)) ∧
    (∀ r, ended s = Some r → r = Returned EXIT_SUCCESS ∨ r = Undefined ∧ int_max < Z.of_nat n).
Proof.
  intros Hr. split; [by apply reached_polled|]. intros n (c & M & Hi & Hc)%polled_inv. split.
  - intros Hn. eapply (possibly_measure _ (live strerror)); [by apply live_progress|]. exists c. split; [exact Hi|]. lia.
  - intros r Hd. destruct Hi; simplify_eq. destruct H0 as [->|[-> Hlt]]; [by left|right]. split; [done|lia].
Qed.

Lemma lsmap_04_ppe_running_ends_witness :
  ended poll_run = Some (Returned EXIT_SUCCESS) ∧
  ((∃ n, @polled no_message _ (queue_mailbox 4) n poll_run) ∧
   ∀ n, @polled no_message _ (queue_mailbox 4) n poll_run →
    (Z.of_nat n < int_max → ∃ s', rtc (@step _ _ _ _ (queue_mailbox 4) poll_code answers_ok) poll_run s' ∧
       ended s' = Some (Returned EXIT_SUCCESS)) ∧
    (∀ r, ended poll_run = Some r → r = Returned EXIT_SUCCESS ∨ r = Undefined ∧ int_max < Z.of_nat n)).
Proof.
  split; [vm_compute; reflexivity|].
  exact (@lsmap_04_ppe_running_ends no_message _ (queue_mailbox 4) poll_run poll_run_reachable).
Defined.
