(* ===== verification/SaveRestore.v ===== *)
(** * Running a context again and again (tests/18-save-restore)

    01-repeat runs one context many times; in 02-sched another thread reads its
    registers all the while, which takes it off its SPE. *)

From stdpp Require Import relations.
From S2P Require Import Prelude Runs CString SysProg SpuIsa SpuCode Threads.

Local Open Scope Z_scope.

(** ** The programs *)

(** The field [run] of [struct read_thread_info]. *)
Inductive save_var := read_run.

#[global] Instance save_var_eq_dec : EqDecision save_var.
Proof. solve_decision. Defined.

(** The loop of [main], with the messages of 01 or 02, and that of
    [read_thread_fn]. *)
Inductive save_loop := repeating (sched : bool) (i : Z) | reading (fd : Z).

Definition save_thread : Type := thread save_var save_loop.

(** The program: one word. *)
Definition stop_word : Z := 0x1337.

Section programs.
Context (N_ITERATIONS : Z).

Definition bad_exit (sched : bool) (i rc entry : Z) : bytes :=
  lit "spu_run returned unexepected exit code 0x" ++ fmt_base 16 (wrapu 32 rc) ++
  (if sched then lit ", npc is 0x" ++ fmt_base 16 (wrapu 32 entry) else []) ++
  lit " (" ++ fmt_d i ++ lit " iter)" ++ [newline_c].

Definition checks_run (sched : bool) (i : Z) (a : ans) : save_thread :=
  let rc := wraps 32 (a_rc a) in
  if negb (rc =? 0x13370002) then fails (bad_exit sched i rc (a_npc a)) else Goto (repeating sched (i + 1)).

Definition runs_again (sched : bool) (i : Z) : save_thread := Run 0 0 (checks_run sched i).

Definition seeks_start (fd : Z) : save_thread :=
  Call (c_lseek fd 0 0) (λ a, asserted (a_rc a =? 0) (Goto (reading fd))).

Definition reads_some (fd : Z) : save_thread :=
  Call (c_read fd 16) (λ a, asserted (a_rc a =? 16) (seeks_start fd)).

Definition save_code (l : save_loop) : save_thread :=
  match l with
  | repeating sched i => if i <? N_ITERATIONS then runs_again sched i else Return EXIT_SUCCESS
  | reading fd => Get read_run (λ b, if negb (b =? 0) then reads_some fd else Done)
  end.

Definition read_thread_fn (fd : Z) : save_thread := Goto (reading fd).

(** *** [main], from its end *)

Definition starts_reader (fd : Z) : save_thread :=
  Start (read_thread_fn fd) (λ a, asserted (a_rc a =? 0) (Goto (repeating true 0))).

Definition sets_run (fd : Z) : save_thread := Put read_run 1 (starts_reader fd).

Definition loads_stop (next : save_thread) : save_thread := Poke 0 0 stop_word next.

Definition closes_mem (fd : Z) (next : save_thread) : save_thread := Call (c_close fd) (λ _, loads_stop next).

Definition maps_mem (fd : Z) (next : save_thread) : save_thread :=
  Call (c_mmap LS_SIZE 3 1 fd 0) (λ a, asserted (negb (a_rc a =? -1)) (closes_mem fd next)).

Definition opens_ls_file (ctx : Z) (next : save_thread) : save_thread :=
  Call (c_openat ctx (lit "mem") O_RDWR) (λ a, asserted (0 <=? a_rc a) (maps_mem (a_rc a) next)).

Definition opens_regs_file (ctx : Z) : save_thread :=
  Call (c_openat ctx (lit "regs") O_RDONLY) (λ a,
    asserted (0 <=? a_rc a) (opens_ls_file ctx (sets_run (a_rc a)))).

Definition creates_context (name : bytes) (next : Z → save_thread) : save_thread :=
  Call (SYS_spu_create (Some name) 0 0x1ED None) (λ a,
    let ctx := wraps 32 (a_rc a) in asserted (0 <=? ctx) (next ctx)).

Definition save_restore_01_repeat : save_thread :=
  creates_context (lit "/spu/01-repeat") (λ ctx, opens_ls_file ctx (Goto (repeating false 0))).

Definition save_restore_02_sched : save_thread :=
  creates_context (lit "/spu/02-sched") opens_regs_file.

Definition save_initial {box} (main : save_thread) (junk : Z) : sys save_var save_loop box :=
  Sys [main] [] (λ _, junk) None.

(** ** Every run is to the stop *)

Section props.
Context {box : Type} `{!Mailbox box} (N_pos : 0 ≤ N_ITERATIONS).

#[local] Abbreviation system := (sys save_var save_loop box).
#[local] Abbreviation step := (Threads.step save_code answers_ok).

Implicit Types (s : system) (e : spe box) (t : save_thread).

(** Another thread reads, or is still to be started. *)
Inductive reader : save_thread → Prop :=
| r_goto fd : reader (Goto (reading fd))
| r_get fd : reader (save_code (reading fd))
| r_read fd : reader (reads_some fd)
| r_seek fd : reader (seeks_start fd).

(** What [main] has before it: its loop, or in 02 the start of the reader. *)
Inductive rest_of : save_thread → Z → Prop :=
| rest_loop b : rest_of (Goto (repeating b 0)) (3 * N_ITERATIONS + 2)
| rest_reader fd : rest_of (sets_run fd) (3 * N_ITERATIONS + 4).

(** [main], its context and what is left of its steps; [v] is the value of
    [read_run]. *)
Inductive main_place (v : Z) : save_thread → list (spe box) → Z → Prop :=
| p_create name next :
    (∀ ctx, next ctx = opens_ls_file ctx (Goto (repeating false 0)) ∨ next ctx = opens_regs_file ctx) →
    main_place v (creates_context name next) [] (3 * N_ITERATIONS + 10)
| p_regs ctx e : runner e = None → main_place v (opens_regs_file ctx) [e] (3 * N_ITERATIONS + 9)
| p_ls ctx t n e : rest_of t n → runner e = None → main_place v (opens_ls_file ctx t) [e] (n + 4)
| p_map fd t n e : rest_of t n → runner e = None → main_place v (maps_mem fd t) [e] (n + 3)
| p_close fd t n e : rest_of t n → runner e = None → main_place v (closes_mem fd t) [e] (n + 2)
| p_load t n e : rest_of t n → runner e = None → main_place v (loads_stop t) [e] (n + 1)
| p_set fd e : runner e = None → ls (machine e) 0 = stop_word → main_place v (sets_run fd) [e] (3 * N_ITERATIONS + 4)
| p_start fd e : v = 1 → runner e = None → ls (machine e) 0 = stop_word → main_place v (starts_reader fd) [e] (3 * N_ITERATIONS + 3)
| p_loop b i e : 0 ≤ i ≤ N_ITERATIONS → runner e = None → ls (machine e) 0 = stop_word →
    main_place v (Goto (repeating b i)) [e] (3 * (N_ITERATIONS - i) + 2)
| p_run b i e : 0 ≤ i < N_ITERATIONS → runner e = None → ls (machine e) 0 = stop_word →
    main_place v (runs_again b i) [e] (3 * (N_ITERATIONS - i) + 1)
| p_running b i e : 0 ≤ i < N_ITERATIONS → runner e = Some 0%nat → pc (machine e) = 0 → ls (machine e) 0 = stop_word →
    main_place v (runs_again b i) [e] (3 * (N_ITERATIONS - i))
| p_return e : runner e = None → main_place v (Return EXIT_SUCCESS) [e] 1.

(** A reader is there for good. *)
Definition readers (v : Z) (ts : list save_thread) : Prop := Forall reader ts ∧ (ts = [] ∨ v = 1).

Inductive inv : Z → system → Prop :=
| inv_goes s t ts n :
    threads s = t :: ts → ended s = None → main_place (vars s read_run) t (spes s) n → readers (vars s read_run) ts → inv n s
| inv_over s : ended s = Some (Returned EXIT_SUCCESS) → inv 0 s.

Lemma rest_place v t n e : rest_of t n → runner e = None → ls (machine e) 0 = stop_word → main_place v t [e] n.
Proof.
  destruct 1 as [b|fd]; intros.
  - replace (3 * N_ITERATIONS + 2) with (3 * (N_ITERATIONS - 0) + 2) by lia. apply p_loop; [lia|done..].
  - by apply p_set.
Qed.

Lemma stop_step m : pc m = 0 → ls m 0 = stop_word → ∃ m', spu_step m = Stopped 0x1337 m' ∧ ls m' = ls m.
Proof.
  destruct m as [r l p]. cbn [pc ls]. intros -> Hl. eexists.
  split; [by erewrite step_exec by (rewrite Hl; reflexivity)|done].
Qed.

Lemma save_main_goes s t ts t' es' vs' n n' :
  threads s = t :: ts → ended s = None → readers (vs' read_run) ts → main_place (vs' read_run) t' es' n' → n' < n →
  ∃ m, m < n ∧ inv m (Sys (<[0%nat:=t']> (threads s)) es' vs' (ended s)).
Proof. intros Ht He Hr Hm Hlt. exists n'. split; [done|]. eapply inv_goes; cbn; [by rewrite Ht|done..]. Qed.

Ltac goes := eapply save_main_goes; [eassumption|eassumption|..].

Lemma start_goes s fd ts e a n :
  threads s = starts_reader fd :: ts → ended s = None → readers (vars s read_run) ts → spes s = [e] →
  runner e = None → ls (machine e) 0 = stop_word → vars s read_run = 1 → a_rc a = 0 → 3 * N_ITERATIONS + 2 < n →
  ∃ m, m < n ∧ inv m (spawn (read_thread_fn fd) (go 0 (asserted (a_rc a =? 0) (Goto (repeating true 0))) s)).
Proof.
  intros Ht He [Hr _] Hs Hn Hl Hv -> Hlt. exists (3 * N_ITERATIONS + 2). split; [done|].
  eapply (inv_goes _ _ (ts ++ [read_thread_fn fd])); cbn [spawn go threads spes vars ended]; [by rewrite Ht|done| |].
  - rewrite Hs. apply rest_place; [constructor|done..].
  - split; [|by right]. apply Forall_app. split; [done|]. by repeat constructor.
Qed.

Lemma run_goes s b i ts e s' n :
  threads s = runs_again b i :: ts → ended s = None → readers (vars s read_run) ts → spes s = [e] →
  0 ≤ i < N_ITERATIONS → ls (machine e) 0 = stop_word →
  runner e = None ∧ n = 3 * (N_ITERATIONS - i) + 1 ∨ runner e = Some 0%nat ∧ pc (machine e) = 0 ∧ n = 3 * (N_ITERATIONS - i) →
  thread_step save_code answers_ok s 0 (runs_again b i) s' → ∃ m, m < n ∧ inv m s'.
Proof.
  intros Ht He Hr Hs Hi Hl Hn Hst. apply run_step in Hst as (e' & Hc & Hst).
  rewrite Hs in Hc. injection Hc as <-. destruct Hst as [[Hn' [->|(a & Hk & Ha & _)]]|(Hn' & code & m & a & Hst & _ & Ha & _ & ->)].
  - destruct Hn as [[_ ->]|[Hx _]]; [|congruence]. exists (3 * (N_ITERATIONS - i)). split; [lia|].
    eapply inv_goes; cbn [set_spe threads spes vars ended]; [done|done| |done]. rewrite Hs. by apply p_running.
  - cbn in Hk. lia.
  - destruct Hn as [[Hx _]|(_ & Hp & ->)]; [congruence|].
    destruct (stop_step _ Hp Hl) as (m' & Hm' & Hls). rewrite Hm' in Hst. injection Hst as <- <-.
    unfold checks_run. rewrite Ha. unfold go, set_spe. cbn [threads spes vars ended]. rewrite Hs. goes; [done| |].
    + apply p_loop; [lia|done|]. cbn [set_runner set_machine machine]. by rewrite Hls.
    + lia.
Qed.

Lemma save_main_step s t ts n s' :
  threads s = t :: ts → ended s = None → main_place (vars s read_run) t (spes s) n → readers (vars s read_run) ts →
  thread_step save_code answers_ok s 0 t s' → ∃ m, m < n ∧ inv m s'.
Proof.
  intros Ht He Hm Hr Hs. remember (spes s) as es eqn:Es. symmetry in Es.
  destruct Hm as [name next Hnx|ctx e Hn|ctx u k e Hu Hn|fd u k e Hu Hn|fd u k e Hu Hn|u k e Hu Hn|fd e Hn Hl|fd e Hv Hn Hl|b i e Hi Hn Hl|b i e Hi Hn Hl|b i e Hi Hn Hp Hl|e Hn].
  - apply call_step in Hs as (a & Hk & ->). cbn [answers_ok] in Hk. cbn [effect]. rewrite (proj2 (Z.leb_le _ _) Hk). cbn [asserted].
    unfold go. cbn [threads spes vars ended]. rewrite Es. destruct (Hnx (wraps 32 (a_rc a))) as [-> | ->]; cbn [app].
    + goes; [done|by apply p_ls; [constructor|]|lia].
    + goes; [done|by apply p_regs|lia].
  - apply call_step in Hs as (a & Hk & ->). cbn [answers_ok] in Hk. cbn [effect]. rewrite (proj2 (Z.leb_le _ _)) by lia. cbn [asserted].
    unfold go. rewrite Es. goes; [done|by apply p_ls; [constructor|]|lia].
  - apply call_step in Hs as (a & Hk & ->). cbn [answers_ok] in Hk. cbn [effect]. rewrite (proj2 (Z.leb_le _ _)) by lia. cbn [asserted].
    unfold go. rewrite Es. goes; [done|by apply p_map|lia].
  - apply call_step in Hs as (a & Hk & ->). cbn [answers_ok] in Hk. cbn [effect]. rewrite (proj2 (Z.eqb_neq _ _) Hk). cbn [asserted negb].
    unfold go. rewrite Es. goes; [done|by apply p_close|lia].
  - apply call_step in Hs as (a & _ & ->). unfold go. cbn [effect]. rewrite Es. goes; [done|by apply p_load|lia].
  - apply poke_step in Hs as (e' & Hc & ->). rewrite Es in Hc. injection Hc as <-.
    unfold go, set_spe. cbn [threads spes vars ended]. rewrite Es. goes; [done|by apply rest_place|lia].
  - apply put_step in Hs as ->. unfold go, set_var. cbn [threads spes vars ended]. rewrite Es.
    goes; [split; [apply Hr|by right]|by apply p_start|lia].
  - apply start_step in Hs as (a & Hk & [[Hc ->]|[Hc _]]); [|done]. eapply start_goes; try eassumption. lia.
  - apply goto_step in Hs as ->. unfold go. cbn [save_code]. rewrite Es. destruct (Z.ltb_spec i N_ITERATIONS).
    + goes; [done|by apply p_run; [lia|..]|lia].
    + goes; [done|by apply p_return|lia].
  - eapply run_goes; eauto.
  - eapply run_goes; eauto.
  - apply return_step in Hs as ->. exists 0. split; [lia|by apply inv_over].
Qed.

(** The reader never stops, and never fails. *)
Lemma reader_step s j r s' :
  reader r → vars s read_run = 1 → thread_step save_code answers_ok s j r s' → ∃ r', reader r' ∧ s' = go j r' s.
Proof.
  intros [fd|fd|fd|fd] Hv Hs.
  - apply goto_step in Hs as ->. eexists. split; [apply r_get|done].
  - apply get_step in Hs as ->. rewrite Hv. eexists. split; [apply r_read|done].
  - apply call_step in Hs as (a & Hk & ->). cbn [answers_ok] in Hk. rewrite Hk. eexists. split; [apply r_seek|done].
  - apply call_step in Hs as (a & Hk & ->). cbn [answers_ok] in Hk. rewrite Hk. eexists. split; [apply r_goto|done].
Qed.

(** Before the run, and at the stop, the SPE does nothing. *)
Lemma spe_idle v t es n c e s s' :
  main_place v t es n → es !! c = Some e → is_Some (runner e) → ¬ spe_step s c e s'.
Proof.
  intros Hm Hc Hr Hs. destruct c as [|c]; [|by destruct Hm].
  destruct Hm as [| | | | | | | | | |b i e' Hi Hn Hp Hl|]; cbn in Hc; simplify_eq;
    try match goal with H : runner _ = None |- _ => rewrite H in Hr; by destruct Hr end.
  destruct (stop_step _ Hp Hl) as (m' & Hm' & _). destruct Hs; congruence.
Qed.

Lemma save_inv_step M s s' : inv M s → step s s' → ∃ M', inv M' s'.
Proof.
  intros Hi Hst. pose proof (step_running _ _ _ _ Hst) as Hn. destruct Hi as [s t ts n Ht He Hm Hr|s He]; [|congruence].
  destruct Hst as [i t' s' _ Hi Hs|c e s' _ Hc Hrun Hs]; [|by apply (spe_idle _ _ _ _ _ _ _ _ Hm Hc Hrun) in Hs].
  rewrite Ht in Hi. destruct i as [|j]; cbn in Hi.
  - injection Hi as <-. destruct (save_main_step _ _ _ _ _ Ht He Hm Hr Hs) as (m & _ & H). by exists m.
  - destruct Hr as [Hf [->|Hv]]; [done|]. pose proof (proj1 (Forall_lookup _ _) Hf _ _ Hi) as Hrd.
    destruct (reader_step _ _ _ _ Hrd Hv Hs) as (r' & Hr' & ->). exists n.
    eapply (inv_goes _ t (<[j:=r']> ts)); cbn [go threads spes vars ended]; [by rewrite Ht|done..|].
    split; [by apply Forall_insert|by right].
Qed.

(** *** [main] can always go on *)

Lemma main_can s t ts n :
  threads s = t :: ts → ended s = None → main_place (vars s read_run) t (spes s) n → ∃ s', thread_step save_code answers_ok s 0 t s'.
Proof.
  intros Ht He Hm. remember (spes s) as es eqn:Es. symmetry in Es.
  assert (H0 : ∀ e, es = [e] → spes s !! 0%nat = Some e) by (intros e ->; by rewrite Es).
  destruct Hm as [name next Hnx|ctx e Hn|ctx u k e Hu Hn|fd u k e Hu Hn|fd u k e Hu Hn|u k e Hu Hn|fd e Hn Hl|fd e Hv Hn Hl|b i e Hi Hn Hl|b i e Hi Hn Hl|b i e Hi Hn Hp Hl|e Hn].
  - eexists. by apply (t_call _ _ _ _ _ _ (answer 3 0)); vm_compute.
  - eexists. by apply (t_call _ _ _ _ _ _ (answer 4 0)); vm_compute.
  - eexists. by apply (t_call _ _ _ _ _ _ (answer 4 0)); vm_compute.
  - eexists. by apply (t_call _ _ _ _ _ _ (answer 4 0)); vm_compute.
  - eexists. by apply (t_call _ _ _ _ _ _ (answer 4 0)).
  - eexists. eapply t_poke. by apply H0.
  - eexists. apply t_put.
  - eexists. by apply (t_start _ _ _ _ _ _ (answer 0 0)).
  - eexists. apply t_goto.
  - eexists. eapply t_run; [by apply H0|done].
  - destruct (stop_step _ Hp Hl) as (m' & Hm' & _). eexists.
    by apply (t_run_stops _ _ _ _ _ _ _ e 0x1337 m' (answer (stop_status 0x1337) (pc m'))); [apply H0|..].
  - eexists. apply t_return.
Qed.

Lemma save_inv_progress M s :
  inv M s → 0 ≤ M ∧ (ended s = Some (Returned EXIT_SUCCESS) ∨ ∃ s' M', step s s' ∧ M' < M ∧ inv M' s').
Proof.
  destruct 1 as [s t ts n Ht He Hm Hr|s He]; [|by split; [|left]]. split.
  - destruct Hm as [| |? ? ? ? Hu|? ? ? ? Hu|? ? ? ? Hu|? ? ? Hu| | | | | |]; try lia; destruct Hu; lia.
  - right. destruct (main_can _ _ _ _ Ht He Hm) as [s' Hs].
    destruct (save_main_step _ _ _ _ _ Ht He Hm Hr Hs) as (m & Hlt & Hi). exists s', m. split; [|by split].
    eapply (step_thread _ _ s 0 t); [done|by rewrite Ht|done].
Qed.

Lemma save_initial_inv main junk :
  main = save_restore_01_repeat ∨ main = save_restore_02_sched → ∃ M, inv M (save_initial main junk).
Proof.
  intros Hm. eexists. eapply inv_goes; [done|done| |by split; [|left]].
  destruct Hm as [-> | ->]; apply p_create; by auto.
Qed.

End props.
End programs.

(** Three turns of 02: the reader goes on between those of [main]. *)
Definition sched_run : sys save_var save_loop (list Z) :=
  @take_turns _ _ _ (list Z) (queue_mailbox 4) (save_code 3) (λ _ _, None) (λ _, None) (λ r a, bool_decide (answers_ok r a)) granted
    (replicate 8 (inl 0%nat) ++ mjoin (replicate 10 [inl 1%nat; inl 0%nat; inl 1%nat]) ++ replicate 2 (inl 0%nat))
    (@save_initial _ save_restore_02_sched 99).

Lemma sched_run_reachable :
  rtc (@step _ _ _ _ (queue_mailbox 4) (save_code 3) answers_ok) (@save_initial _ save_restore_02_sched 99) sched_run.
Proof. apply take_turns_reachable; [done..|]. intros r a. by rewrite bool_decide_spec. Qed.

(** [save_restore_ends]: on a kernel that does what it is asked, the tests of
    18-save-restore can only end with success, and from every state of a run, however
    often the reader has taken the context off its SPE, all the iterations that are
    left can be made. *)
Theorem save_restore_ends {box} `{!Mailbox box} n main junk (s : sys save_var save_loop box) :
  0 ≤ n → main = save_restore_01_repeat ∨ main = save_restore_02_sched →
  rtc (step (save_code n) answers_ok) (save_initial main junk) s →
  (∀ r, ended s = Some r → r = Returned EXIT_SUCCESS) ∧
  ∃ s', rtc (step (save_code n) answers_ok) s s' ∧ ended s' = Some (Returned EXIT_SUCCESS).
Proof.
  intros Hn Hm Hr. destruct (save_initial_inv n (box := box) main junk Hm) as [M0 H0].
  destruct (reachable_measured _ _ _ _ _ H0 (save_inv_step n Hn) Hr) as [M Hi].
  split; [by destruct Hi; intros r' Hr'; simplify_eq|].
  eapply (possibly_measure _ (inv n)); [|exact Hi]. intros k s1 H1.
  destruct (save_inv_progress n Hn _ _ H1) as [Hk Hp]. eauto.
Qed.

Lemma save_restore_ends_witness :
  ended sched_run = Some (Returned EXIT_SUCCESS) ∧
  ((∀ r, ended sched_run = Some r → r = Returned EXIT_SUCCESS) ∧
   ∃ s', rtc (@step _ _ _ _ (queue_mailbox 4) (save_code 3) answers_ok) sched_run s' ∧ ended s' = Some (Returned EXIT_SUCCESS)).
Proof.
  split; [vm_compute; reflexivity|].
  apply (@save_restore_ends _ (queue_mailbox 4) 3 save_restore_02_sched 99); [lia|by right|exact sched_run_reachable].
Defined.
