(* ===== verification/SpuTests.v ===== *)
(** * Test programs (tests/00-testsuite, 02-spu_create, 03-spu_run, 05-gang,
    06-context-lifetime, 07-lsmap, 12-nosched, 13-affinity, 20-scheduler, 21-sputrace,
    benchmarks/01-spu_create)

    One definition per [main] and per function, named after the directory and
    the file. *)

From S2P Require Import Prelude CString SysProg RunTest.

Local Open Scope Z_scope.

Section programs.
Context (kernel : list event → call → ans) (strerror : Z → bytes).

#[local] Abbreviation sys_rc := (SysProg.sys_rc kernel).
#[local] Abbreviation spu_create := (SysProg.spu_create kernel).
#[local] Abbreviation spu_run := (SysProg.spu_run kernel).
#[local] Abbreviation perror := (SysProg.perror strerror).

(** [close] whose result is not used. *)
Definition close_ (fd : Z) : P unit := rc ← sys_rc (c_close fd); mret tt.

(** [if (ctx < 0) { perror(s); return EXIT_FAILURE; }] *)
Definition fail_if (b : bool) (s : bytes) : P unit :=
  if b then perror s;; return_main EXIT_FAILURE else mret tt.

(** [if (b) { fprintf(stderr, s); return EXIT_FAILURE; }] *)
Definition complain_if (b : bool) (s : bytes) : P unit :=
  if b then fprintf stderr s;; return_main EXIT_FAILURE else mret tt.

(** ** 00-testsuite *)

Definition testsuite_00_pass : P Z := mret EXIT_SUCCESS.
Definition testsuite_01_fail : P Z := mret EXIT_FAILURE.
Definition testsuite_02_root : P Z := uid ← sys_rc c_getuid; mret (if uid =? 0 then 0 else 1).
Definition testsuite_03_skip : P Z := mret EXIT_FAILURE.
Definition testsuite_06_cap : P Z := mret EXIT_FAILURE.
Definition testsuite_07_nocap : P Z := mret EXIT_FAILURE.

(** A [kill] of the process itself that succeeds delivers the signal before it
    returns, and SIGTERM is not handled. *)
Definition testsuite_08_signal : P Z :=
  pid ← sys_rc c_getpid; rc ← sys_rc (c_kill pid SIGTERM);
  if rc =? 0 then leave (Killed SIGTERM) else mret EXIT_FAILURE.

(** ** 02-spu_create *)

Definition spu_create_01_create : P Z :=
  rc ← spu_create (Some (lit "/spu/01-create")) 0 0 None;
  fail_if (rc <? 0) (lit "spu_create");; mret EXIT_SUCCESS.

Definition spu_create_02_no_name : P Z :=
  rc ← spu_create None 0 0 None;
  assert (rc =? -1);;
  e ← get_errno;
  complain_if (negb (e =? EFAULT))
    (lit "expected ENOENT(" ++ fmt_d ENOENT ++ lit "), got " ++ fmt_d e ++ [newline_c]);;
  mret EXIT_SUCCESS.

Definition spu_create_all_flags : Z :=
  Z.lor SPU_CREATE_EVENTS_ENABLED (Z.lor SPU_CREATE_GANG (Z.lor SPU_CREATE_NOSCHED
    (Z.lor SPU_CREATE_ISOLATE (Z.lor SPU_CREATE_AFFINITY_SPU SPU_CREATE_AFFINITY_MEM)))).

Definition try_invalid_flag (name : bytes) (bit : Z) : P unit :=
  let flags := Z.shiftl 1 bit in
  if negb (Z.land flags spu_create_all_flags =? 0) then mret tt
  else
    ctx ← spu_create (Some name) flags 0 None;
    complain_if (negb (ctx =? -1))
      (lit "spu_create() accepted invalid flags: 0x" ++ fmt_hex 8 flags ++ [newline_c]);;
    e ← get_errno;
    complain_if (negb (e =? EINVAL))
      (lit "spu_create(): wrong errno (" ++ fmt_d e ++ lit ") with invalid flags: 0x"
         ++ fmt_hex 8 flags ++ [newline_c]).

Definition spu_create_03_invalid_flags : P Z :=
  name ← name_spu_context kernel None;
  for_each (seqZ 0 32) (try_invalid_flag name);;
  mret EXIT_SUCCESS.

(** All nine permission bits. *)
Definition TEST_MODES : Z := 0x1FF.

Definition try_mode (mode : Z) : P unit :=
  if negb (Z.land mode TEST_MODES =? mode) then mret tt
  else
    name ← name_spu_context kernel None;
    ctx ← spu_create (Some name) 0 mode None;
    assert (0 <=? ctx);;
    a ← sys kernel (c_fstat ctx);
    fail_if (negb (a_rc a =? 0)) (lit "fstat");;
    let st_mode := Z.land (st_mode (a_stat a)) TEST_MODES in
    complain_if (negb (st_mode =? mode))
      (lit "incorrect mode 0" ++ zero_pad 4 (fmt_base 8 st_mode) ++ lit ", expecting 0"
         ++ zero_pad 4 (fmt_base 8 mode) ++ [newline_c]);;
    close_ ctx.

(** [file] is [__FILE__]. *)
Definition spu_create_04_mode (file : bytes) : P Z :=
  fprintf stdout (file ++ lit ": checking modes: 0" ++ zero_pad 4 (fmt_base 8 TEST_MODES) ++ [newline_c]);;
  rc ← sys_rc (c_umask 0);
  for_each (seqZ 0 (TEST_MODES + 1)) try_mode;;
  mret EXIT_SUCCESS.

Definition SPU_DMA_INFO_SIZE : Z := 5 * 8 + 16 * 4 * 8.
Definition SPU_PROXYDMA_INFO_SIZE : Z := 3 * 8 + 8 * 4 * 8.

(** Name, mode and size. *)
Record spufs_file := SpufsFile { sf_name : bytes; sf_mode : Z; sf_size : Z }.

(** The modes 0100444, 0100666 and 0100222. *)
Definition r_file : Z := 0x8124.
Definition rw_file : Z := 0x81B6.
Definition w_file : Z := 0x8092.

Definition spufs_files : list spufs_file := [
  SpufsFile (lit "capabilities") r_file 0; SpufsFile (lit "mem") rw_file LS_SIZE;
  SpufsFile (lit "regs") rw_file (16 * 128); SpufsFile (lit "mbox") r_file 0;
  SpufsFile (lit "ibox") r_file 0; SpufsFile (lit "wbox") w_file 0;
  SpufsFile (lit "mbox_stat") r_file 4; SpufsFile (lit "ibox_stat") r_file 4;
  SpufsFile (lit "wbox_stat") r_file 4; SpufsFile (lit "signal1") rw_file 0;
  SpufsFile (lit "signal2") rw_file 0; SpufsFile (lit "signal1_type") rw_file 0;
  SpufsFile (lit "signal2_type") rw_file 0; SpufsFile (lit "cntl") rw_file 0;
  SpufsFile (lit "fpcr") rw_file 16; SpufsFile (lit "lslr") r_file 0;
  SpufsFile (lit "mfc") rw_file 0; SpufsFile (lit "mss") rw_file 0;
  SpufsFile (lit "npc") rw_file 0; SpufsFile (lit "srr0") rw_file 0;
  SpufsFile (lit "decr") rw_file 0; SpufsFile (lit "decr_status") rw_file 0;
  SpufsFile (lit "event_mask") rw_file 0; SpufsFile (lit "event_status") r_file 0;
  SpufsFile (lit "psmap") rw_file 0x20000; SpufsFile (lit "phys-id") rw_file 0;
  SpufsFile (lit "object-id") rw_file 0; SpufsFile (lit "mbox_info") r_file 4;
  SpufsFile (lit "ibox_info") r_file 4; SpufsFile (lit "wbox_info") r_file 4;
  SpufsFile (lit "dma_info") r_file SPU_DMA_INFO_SIZE;
  SpufsFile (lit "proxydma_info") r_file SPU_PROXYDMA_INFO_SIZE;
  SpufsFile (lit "tid") r_file 0; SpufsFile (lit "stat") r_file 0
].

Definition check_file (ctx : Z) (file : spufs_file) : P unit :=
  a ← sys kernel (c_fstatat ctx (sf_name file));
  e ← get_errno;
  complain_if (negb (a_rc a =? 0))
    (lit "can't stat context file " ++ sf_name file ++ lit ": " ++ strerror e ++ [newline_c]);;
  complain_if (negb (st_mode (a_stat a) =? sf_mode file))
    (lit "file " ++ sf_name file ++ lit ": mode " ++ fmt_base 8 (st_mode (a_stat a))
       ++ lit " doesn't match " ++ fmt_base 8 (sf_mode file) ++ [newline_c]);;
  complain_if (negb (sf_size file =? st_size (a_stat a)))
    (lit "file " ++ sf_name file ++ lit ": size " ++ fmt_d (st_size (a_stat a))
       ++ lit " doesn't match " ++ fmt_d (sf_size file) ++ [newline_c]).

Definition spu_create_05_files : P Z :=
  rc ← sys_rc (c_umask 0);
  ctx ← spu_create (Some (lit "/spu/05-files")) 0 0x1FF None;
  assert (0 <=? ctx);;
  for_each spufs_files (check_file ctx);;
  close_ ctx;;
  mret EXIT_SUCCESS.

Definition spu_create_06_isolation_unavailable : P Z :=
  rc ← sys_rc (c_umask 0);
  ctx ← spu_create (Some (lit "/spu/06-isolation-unavailable"))
          (Z.lor SPU_CREATE_ISOLATE SPU_CREATE_NOSCHED) 0x1FF None;
  (if 0 <=? ctx then
     fprintf stderr (lit "spu_create with SPU_CREATE_ISOLATE flag succeeded" ++ [newline_c]);;
     close_ ctx;; return_main EXIT_FAILURE
   else mret tt);;
  e ← get_errno;
  complain_if (negb (e =? ENODEV))
    (lit "Incorrect errno for SPU_CREATE_ISOLATE: got " ++ fmt_d e ++ lit ", expected "
       ++ fmt_d ENODEV ++ [newline_c]);;
  mret EXIT_SUCCESS.

(** ** 03-spu_run *)

(** [ctx = spu_create(name, flags, 0755); assert(ctx >= 0);] *)
Definition new_context (name : bytes) (flags : Z) : P Z :=
  ctx ← spu_create (Some name) flags 0x1ED None; assert (0 <=? ctx);; mret ctx.

Definition spu_run_01_spu_run : P Z :=
  ctx ← new_context (lit "/spu/01-spu_run") 0;
  '(rc, _) ← spu_run ctx (Some 0) true;
  fail_if (rc <? 0) (lit "spu_run");; mret EXIT_SUCCESS.

(** The failure 02-no-context and 03-no-entry expect of [spu_run]. *)
Definition expect_failure (rc expected : Z) : P unit :=
  complain_if (negb (rc =? -1)) (lit "spu_run didn't fail" ++ [newline_c]);;
  e ← get_errno;
  complain_if (negb (e =? expected))
    (lit "spu_run failed with wrong errno (" ++ fmt_d e ++ lit ")" ++ [newline_c]).

(** [entry] is not initialised: [junk] is what it holds. *)
Definition spu_run_02_no_context (junk : Z) : P Z :=
  fd ← sys_rc (c_open (lit "/dev/null") O_RDWR);
  assert (0 <=? fd);;
  '(rc, _) ← spu_run fd (Some junk) true;
  expect_failure rc EINVAL;; mret EXIT_SUCCESS.

Definition spu_run_03_no_entry : P Z :=
  ctx ← new_context (lit "/spu/03-no-entry") 0;
  '(rc, _) ← spu_run ctx None true;
  expect_failure rc EFAULT;; mret EXIT_SUCCESS.

Definition spu_run_04_no_status : P Z :=
  ctx ← new_context (lit "/spu/04-no-status") 0;
  '(rc, _) ← spu_run ctx (Some 0) false;
  fail_if (rc <? 0) (lit "spu_run(no status)");; mret EXIT_SUCCESS.

(** The [do ... while (entry != 0)] loop; [Cut] when [n] rounds do not end it. *)
Fixpoint entry_loop (n : nat) (ctx entry : Z) : P unit :=
  match n with
  | O => leave Cut
  | S n =>
      let expected_entry := wraps 32 (wrapu 32 (entry + 4) mod LS_SIZE) in
      '(rc, entry) ← spu_run ctx (Some entry) false;
      fail_if (rc <? 0) (lit "spu_run");;
      complain_if (negb (entry =? wrapu 32 expected_entry))
        (lit "entry = 0x" ++ fmt_base 16 entry ++ lit ", expected 0x"
           ++ fmt_base 16 (wrapu 32 expected_entry) ++ [newline_c]);;
      if negb (entry =? 0) then entry_loop n ctx entry else mret tt
  end.

Definition spu_run_05_entry (n : nat) : P Z :=
  ctx ← new_context (lit "/spu/05-entry") 0;
  entry_loop n ctx 0;; mret EXIT_SUCCESS.

(** ** 05-gang *)

Definition gang_01_create : P Z :=
  gang ← spu_create (Some (lit "/spu/01-create")) SPU_CREATE_GANG 0x1ED None;
  fail_if (gang <? 0) (lit "spu_create");; mret EXIT_SUCCESS.

Definition gang_02_create_destroy : P Z :=
  gang ← new_context (lit "/spu/02-create-destroy") SPU_CREATE_GANG;
  rc ← sys_rc (c_close gang);
  fail_if (negb (rc =? 0)) (lit "close");; mret EXIT_SUCCESS.

Definition gang_03_context_within_gang : P Z :=
  gang ← new_context (lit "/spu/01-gang") SPU_CREATE_GANG;
  ctx ← spu_create (Some (lit "/spu/01-gang/01-ctx")) 0 0x1ED None;
  fail_if (ctx <? 0) (lit "spu_create");; mret EXIT_SUCCESS.

(** ** 06-context-lifetime *)

Definition check_gang_presence_on_close (gang_name : bytes) (fd : Z) : P Z :=
  rc ← sys_rc (c_stat gang_name);
  if negb (rc =? 0) then fprintf stderr (lit "gang destroyed too early" ++ [newline_c]);; mret (-1)
  else
    rc ← sys_rc (c_close fd);
    if negb (rc =? 0) then perror (lit "close(fd)");; mret (-1)
    else
      rc ← sys_rc (c_stat gang_name);
      if rc =? 0 then fprintf stderr (lit "gang not destroyed" ++ [newline_c]);; mret (-1)
      else
        e ← get_errno;
        if negb (e =? ENOENT) then
          fprintf stderr (lit "Wrong errno (" ++ fmt_d e ++ lit ") for stat" ++ [newline_c]);; mret (-1)
        else mret 0.

Definition lifetime_01_no_destroy : P Z :=
  gang_name ← name_spu_gang kernel;
  gang ← spu_create (Some gang_name) SPU_CREATE_GANG 0x1C0 None;
  assert (negb (gang =? -1));;
  ctx_name ← name_spu_context kernel (Some gang_name);
  fprintf stdout (lit "creating context " ++ ctx_name ++ [newline_c]);;
  ctx ← spu_create (Some ctx_name) 0 0x1C0 None;
  fail_if (ctx =? -1) (lit "spu_create");;
  assert (negb (ctx =? -1));;
  rc ← sys_rc (c_close gang);
  fail_if (negb (rc =? 0)) (lit "close");;
  rc ← check_gang_presence_on_close gang_name ctx;
  if negb (rc =? 0) then mret EXIT_FAILURE else mret EXIT_SUCCESS.

Definition lifetime_02_internal_reference : P Z :=
  gang_name ← name_spu_gang kernel;
  gang ← spu_create (Some gang_name) SPU_CREATE_GANG 0x1C0 None;
  assert (0 <=? gang);;
  fd ← sys_rc (c_open gang_name O_RDONLY);
  assert (0 <=? fd);;
  rc ← sys_rc (c_close gang);
  fail_if (negb (rc =? 0)) (lit "close(gang)");;
  rc ← check_gang_presence_on_close gang_name fd;
  if negb (rc =? 0) then mret EXIT_FAILURE else mret EXIT_SUCCESS.

(** ** 07-lsmap *)

(** [ctx = spu_create(name, 0, 0700); lsfd = openat(ctx, "mem", O_RDWR);] with
    their assertions. *)
Definition open_mem (name : bytes) : P Z :=
  ctx ← spu_create (Some name) 0 0x1C0 None;
  assert (0 <=? ctx);;
  lsfd ← sys_rc (c_openat ctx (lit "mem") O_RDWR);
  assert (0 <=? lsfd);;
  mret lsfd.

Definition lsmap_05_size : P Z :=
  lsfd ← open_mem (lit "/spu/05-size");
  a ← sys kernel (c_fstat lsfd);
  fail_if (negb (a_rc a =? 0)) (lit "fstat");;
  let size := st_size (a_stat a) in
  complain_if (negb (size =? LS_SIZE))
    (lit "filesize of mem = 0x" ++ zero_pad 8 (fmt_base 16 (wrapu 64 size)) ++ lit " != 0x"
       ++ fmt_hex 8 LS_SIZE ++ [newline_c]);;
  close_ lsfd;; mret EXIT_SUCCESS.

Definition lsmap_06_seek_end : P Z :=
  lsfd ← open_mem (lit "/spu/06-seek-end");
  off ← sys_rc (c_lseek lsfd 0 SEEK_END);
  if off <? 0 then perror (lit "lseek");; mret EXIT_FAILURE
  else
    complain_if (negb (off =? LS_SIZE))
      (lit "seek to tail by SEEK_END, but return value 0x" ++ zero_pad 8 (fmt_base 16 off) ++ lit " != 0x"
         ++ fmt_hex 8 LS_SIZE ++ [newline_c]);;
    mret EXIT_SUCCESS.

(** Seek to [off] bytes from the end and read [count]: the two programs that
    expect [expected] bytes. *)
Definition seek_and_read (name : bytes) (off count expected : Z) : P Z :=
  lsfd ← open_mem name;
  o ← sys_rc (c_lseek lsfd off SEEK_END);
  assert (o =? LS_SIZE + off);;
  rc ← sys_rc (c_read lsfd count);
  complain_if (negb (rc =? expected))
    (lit "read past end of file returned " ++ fmt_d rc ++ lit ", expected " ++ fmt_d expected ++ [newline_c]);;
  mret EXIT_SUCCESS.

Definition lsmap_07_seek_end_read : P Z := seek_and_read (lit "/spu/07-seek-end+read") 0 1 0.
Definition lsmap_08_seek_end_partial_read : P Z :=
  seek_and_read (lit "/spu/08-seek-end+partial-read") (-2) 4 2.

(** ** 12-nosched *)

Definition nosched_01_create : P Z :=
  rc ← spu_create (Some (lit "/spu/01-nosched-create")) SPU_CREATE_NOSCHED 0 None;
  fail_if (rc <? 0) (lit "spu_create");; mret EXIT_SUCCESS.

Definition nosched_02_create_run : P Z :=
  ctx ← new_context (lit "/spu/02-nosched-create-run") SPU_CREATE_NOSCHED;
  '(rc, _) ← spu_run ctx (Some 0) true;
  fail_if (rc <? 0) (lit "spu_run");; mret EXIT_SUCCESS.

(** ** 13-affinity *)

Definition affinity_01_create_mem : P Z :=
  gang ← new_context (lit "/spu/01-gang") SPU_CREATE_GANG;
  ctx ← spu_create (Some (lit "/spu/01-gang/01-affinity-create-mem")) SPU_CREATE_AFFINITY_MEM 0 None;
  fail_if (ctx <? 0) (lit "spu_create");; mret EXIT_SUCCESS.

Definition affinity_02_create_spu : P Z :=
  gang ← new_context (lit "/spu/gang-01/") SPU_CREATE_GANG;
  ctx0 ← spu_create (Some (lit "/spu/gang-01/02-affinity-create-spu.1")) 0 0 None;
  assert (0 <=? ctx0);;
  ctx1 ← spu_create (Some (lit "/spu/gang-01/02-affinity-create-spu.2")) SPU_CREATE_AFFINITY_SPU 0 (Some ctx0);
  fail_if (ctx1 <? 0) (lit "spu_create");; mret EXIT_SUCCESS.

Definition affinity_03_bad_neighbour : P Z :=
  gang ← new_context (lit "/spu/gang-01/") SPU_CREATE_GANG;
  bad_fd ← sys_rc (c_open (lit "/dev/null") O_RDONLY);
  assert (0 <=? bad_fd);;
  close_ bad_fd;;
  ctx ← spu_create (Some (lit "/spu/gang-01/03-bad-neighbour")) SPU_CREATE_AFFINITY_SPU 0 (Some bad_fd);
  complain_if (0 <? ctx) (lit "expected spu_create to fail!" ++ [newline_c]);;
  e ← get_errno;
  complain_if (negb (e =? EBADF))
    (lit "Bad errno: got " ++ fmt_d e ++ lit ", expected EBADF" ++ [newline_c]);;
  mret EXIT_SUCCESS.

(** ** 21-sputrace *)

(** [buf] is cut at the last byte read; the bytes before it may hold a NUL. *)
Definition sputrace_01_read : P Z :=
  trace_fd ← sys_rc (c_open (lit "/proc/sputrace") O_RDONLY);
  fail_if (trace_fd <? 0) (lit "open(/proc/sputrace)");;
  ctx ← new_context (lit "/spu/01-sputrace-read") 0;
  '(rc, _) ← spu_run ctx (Some 0) true;
  assert (0 <=? rc);;
  a ← sys kernel (c_read trace_fd 1024);
  fail_if (a_rc a <=? 0) (lit "read");;
  let buf := take (Z.to_nat (a_rc a - 1)) (a_data a) ++ [NUL] in
  match strstr buf (lit "spu_bind_context__enter") with
  | Ok found =>
      complain_if (negb found) (lit "Invalid sputrace log?" ++ [newline_c]);;
      close_ trace_fd;; mret EXIT_SUCCESS
  | _ => leave Undefined
  end.

Definition sputrace_02_permissions : P Z :=
  a ← sys kernel (c_stat (lit "/proc/sputrace"));
  fail_if (negb (a_rc a =? 0)) (lit "stat(/proc/sputrace)");;
  complain_if (negb (st_mode (a_stat a) =? Z.lor S_IFREG 0x100))
    (lit "invalid mode: " ++ zero_pad 4 (fmt_base 8 (st_mode (a_stat a))) ++ [newline_c]);;
  complain_if (negb (st_uid (a_stat a) =? 0))
    (lit "invalid user: " ++ fmt_d (wraps 32 (st_uid (a_stat a))) ++ [newline_c]);;
  complain_if (negb (st_gid (a_stat a) =? 0))
    (lit "invalid group: " ++ fmt_d (wraps 32 (st_gid (a_stat a))) ++ [newline_c]);;
  mret EXIT_SUCCESS.

Definition sputrace_03_multiple_open : P Z :=
  fd0 ← sys_rc (c_open (lit "/proc/sputrace") O_RDONLY);
  assert (0 <=? fd0);;
  fd1 ← sys_rc (c_open (lit "/proc/sputrace") O_RDONLY);
  complain_if (0 <=? fd1) (lit "open(/proc/sputrace) succeeded, expecting failure" ++ [newline_c]);;
  e ← get_errno;
  complain_if (negb (e =? EBUSY))
    (lit "open(/proc/sputrace) failed with errno " ++ fmt_d e ++ lit ", expecting EBUSY("
       ++ fmt_d EBUSY ++ lit ")" ++ [newline_c]);;
  mret EXIT_SUCCESS.

(** ** 20-scheduler/02-yield-starvation *)

Definition N_CONTEXTS : Z := 200.

(** The format ends in a newline. *)
Definition starved_name (x : Z) : bytes := lit "/spu/02-yield-starvation-" ++ fmt_d x ++ [newline_c].

(** The two loops; the contexts are the elements of [ctxs]. *)
Fixpoint creates_starved (l : list Z) : P (list Z) :=
  match l with
  | [] => mret []
  | x :: l => ctx ← new_context (starved_name x) 0; ctxs ← creates_starved l; mret (ctx :: ctxs)
  end.

Fixpoint runs_starved (ctxs : list Z) (entry : Z) : P unit :=
  match ctxs with
  | [] => mret tt
  | ctx :: ctxs =>
      '(rc, entry) ← spu_run ctx (Some entry) false;
      fail_if (rc <? 0) (lit "spu_run");; runs_starved ctxs entry
  end.

(** [entry] is not initialised: [junk] is what it holds. *)
Definition scheduler_02_yield_starvation (junk : Z) : P Z :=
  ctxs ← creates_starved (seqZ 0 N_CONTEXTS);
  runs_starved ctxs junk;;
  mret EXIT_SUCCESS.

(** ** benchmarks/01-spu_create *)

Definition ITERATIONS : Z := 16384.

Definition create_close (name : bytes) : P unit :=
  rc ← spu_create (Some name) 0 0 None; assert (0 <=? rc);; close_ rc.

Definition benchmark_01_single : P Z :=
  tv ← timer_start kernel;
  for_each (seqZ 0 ITERATIONS) (λ _, create_close (lit "/spu/01-single"));;
  timer_stop_and_print kernel tv;;
  mret EXIT_SUCCESS.
End programs.

(** ** What the runner sees

    [exit(rc)] passes the low byte on; [abort] raises SIGABRT, with a core dump
    where the limits allow one. *)

Definition SIGABRT : Z := 6.

Definition exit_info (pid : Z) (core : bool) (s : stop) : option siginfo :=
  match s with
  | Returned rc => Some (Siginfo pid CLD_EXITED (Z.land rc 255))
  | Aborted => Some (Siginfo pid (if core then CLD_DUMPED else CLD_KILLED) SIGABRT)
  | Killed sig => Some (Siginfo pid CLD_KILLED sig)
  | Undefined | Cut => None
  end.
