(* ===== verification/SpuApps.v ===== *)
(** * Test programs that run code on an SPE (tests/07-lsmap, 08-reg-file,
    12-nosched, 15-class0)

    Each puts a program into the local store of a context, with [write] or
    through a mapping, runs it and looks at how it stopped.  What the SPE does
    with the code is an answer of the kernel; the stores that build the image
    are part of the log. *)

From S2P Require Import Prelude CString SysProg SpuTests.

Local Open Scope Z_scope.

Definition PROT_READ_WRITE : Z := 3.
Definition MAP_SHARED : Z := 1.
Definition MAP_FAILED : Z := -1.

(** An array of [uint32_t] in memory. *)
Definition words (l : list Z) : bytes := concat (map (be_bytes 4) l).

(** A store to a mapping; it is no call and leaves [errno] alone. *)
Definition no_answer : ans := Ans 0 0 0 (Statbuf 0 0 0 0 0) [] (0, 0) 0 [].

Definition store_ls (addr : Z) (data : bytes) : P unit := λ w,
  (inl tt, World ((m_store addr data, no_answer) :: log w) (errno w) (name_i w) (printed w)).

(** [si_signo] and [si_addr]. *)
Abbreviation spe_siginfo := (Z * Z)%type.

(** ** The SPE programs *)

(** nop, nop, and a word that is no instruction. *)
Definition illegal_instruction_program : list Z := [0x40200000; 0x40200000; 0xa0000000].

(** A DMA read to the address in the first two words; [command] is the word that
    loads the MFC command. *)
Definition dma_program (command : Z) : list Z := [
  0x00000000; 0x00000000; 0x00000000; 0x00000000;
  0x40880000; 0x30800001; 0x40880002; 0x40800003; command;
  0x21a00800; 0x21a00881; 0x3fe10081; 0x21a00901; 0x21a00982; 0x21a00a03; 0x21a00a84;
  0x40800085; 0x40800086; 0x21a00b05; 0x21a00b86; 0x01a00c07; 0x7c004288; 0x21000108;
  0x00000000; 0x00001337
].

Definition misaligned_dma_program : list Z := dma_program 0x40802004.
Definition invalid_dma_program : list Z := dma_program 0x40808004.

Section apps.
Context (kernel : list event → call → ans) (strerror : Z → bytes).

#[local] Abbreviation sys_rc := (SysProg.sys_rc kernel).
#[local] Abbreviation spu_run := (SysProg.spu_run kernel).
#[local] Abbreviation new_context := (SpuTests.new_context kernel).
#[local] Abbreviation fail_if := (SpuTests.fail_if strerror).
#[local] Abbreviation perror := (SysProg.perror strerror).

Definition map_mem (ls_fd : Z) : P Z := sys_rc (c_mmap LS_SIZE PROT_READ_WRITE MAP_SHARED ls_fd 0).

(** ** 07-lsmap *)

(** [ls_fd = openat(ctx, "mem", O_RDWR)] of a new context. *)
Definition open_ls (name : bytes) : P (Z * Z) :=
  ctx ← new_context name 0;
  ls_fd ← sys_rc (c_openat ctx (lit "mem") O_RDWR);
  fail_if (ls_fd <? 0) (lit "openat");;
  mret (ctx, ls_fd).

(** [rc = write(ls_fd, &buf, sizeof(buf)); if (rc != sizeof(buf)) ...] *)
Definition write_words (ls_fd : Z) (buf : list Z) : P unit :=
  rc ← sys_rc (c_write ls_fd (words buf));
  fail_if (negb (rc =? 4 * Z.of_nat (length buf))) (lit "write").

(** Run from 0, and the checks of the stop that 01 to 03 share. *)
Definition check_stop (rc : Z) : P unit :=
  complain_if (Z.land rc 0x2 =? 0) (lit "spu didn't stop-and-signal?" ++ [newline_c]);;
  complain_if (negb (Z.shiftr rc 16 =? 0x1337)) (lit "spu executed different stop instruction?" ++ [newline_c]).

Definition lsmap_01_ppe_setup : P Z :=
  '(ctx, ls_fd) ← open_ls (lit "/spu/01-ppe-setup");
  write_words ls_fd [0x00001337];;
  '(rc, entry) ← spu_run ctx (Some 0) true;
  fail_if (rc <? 0) (lit "spu_run");;
  complain_if (negb (entry =? 4))
    (lit "spu finished exection at 0x" ++ fmt_base 16 entry ++ lit ", expected 0x4" ++ [newline_c]);;
  check_stop rc;;
  mret EXIT_SUCCESS.

Definition run_filled (ctx : Z) : P Z :=
  '(rc, entry) ← spu_run ctx (Some 0) true;
  fail_if (rc <? 0) (lit "spu_run");;
  check_stop rc;;
  fprintf stdout (lit "npc: 0x" ++ fmt_base 16 entry ++ lit ", status: 0x" ++ fmt_base 16 rc ++ [newline_c]);;
  mret EXIT_SUCCESS.

(** "br 2" over a "stop 0x0", and the last two words. *)
Definition skip_pair : list Z := [0x32000100; 0x00000000].
Definition last_pair : list Z := [0x40200000; 0x00001337].

Definition lsmap_02_ppe_setup_all : P Z :=
  '(ctx, ls_fd) ← open_ls (lit "/spu/02-ppe-setup-all");
  for_each (seqZ 0 (LS_SIZE / 8 - 1)) (λ _, write_words ls_fd skip_pair);;
  write_words ls_fd last_pair;;
  run_filled ctx.

(** [ls_map[i] = v;] *)
Definition set_word (ls_map i v : Z) : P unit := store_ls (ls_map + 4 * i) (be_bytes 4 v).

Definition store_pair (ls_map i : Z) (pair : list Z) : P unit :=
  set_word ls_map i (nth 0 pair 0);; set_word ls_map (i + 1) (nth 1 pair 0).

(** The loop counts [i] in steps of 2: [k] is half of it. *)
Definition lsmap_03_ppe_setup_all_mmap : P Z :=
  '(ctx, ls_fd) ← open_ls (lit "/spu/03-ppe-setup-all-mmap");
  ls_map ← map_mem ls_fd;
  fail_if (ls_map =? MAP_FAILED) (lit "mmap");;
  for_each (seqZ 0 ((LS_SIZE / 4 - 2) / 2)) (λ k, store_pair ls_map (2 * k) skip_pair);;
  store_pair ls_map (LS_SIZE / 4 - 2) last_pair;;
  run_filled ctx.

(** ** 08-reg-file *)

Definition nr_regs : Z := 128.

Definition load_immediate_insn (reg : Z) : Z := Z.lor (Z.lor 0x40800000 (Z.shiftl reg 7)) reg.

(** A big-endian word of what [read] stored. *)
Fixpoint be_value (m : bytes) (acc : Z) : Z :=
  match m with [] => acc | c :: m => be_value m (acc * 256 + code c) end.

Definition word_at (m : bytes) (i : nat) : Z := be_value (take 4 (drop (4 * i) m)) 0.

Definition fmt_x (x : Z) : bytes := lit "0x" ++ fmt_hex 8 x.

Definition check_reg (reg_fd i : Z) : P unit :=
  a ← sys kernel (c_read reg_fd 16);
  fail_if (negb (a_rc a =? 16)) (lit "read");;
  let reg := a_data a in
  complain_if (negb (word_at reg 0 =? i))
    (lit "Incorrect register value: " ++ fmt_x (word_at reg 0) ++ lit " != " ++ fmt_x i ++ [newline_c]);;
  fprintf stdout (lit "[" ++ replicate (3 - length (fmt_d i)) " "%char ++ fmt_d i ++ lit "]: "
    ++ fmt_x (word_at reg 0) ++ lit " " ++ fmt_x (word_at reg 1) ++ lit " "
    ++ fmt_x (word_at reg 2) ++ lit " " ++ fmt_x (word_at reg 3) ++ [newline_c]).

Definition reg_file_01_reg_setup : P Z :=
  ctx ← new_context (lit "/spu/01-reg-setup") 0;
  ls_fd ← sys_rc (c_openat ctx (lit "mem") O_RDWR);
  assert (0 <=? ls_fd);;
  ls_map ← map_mem ls_fd;
  assert (negb (ls_map =? MAP_FAILED));;
  reg_fd ← sys_rc (c_openat ctx (lit "regs") O_RDONLY);
  fail_if (reg_fd <=? 0) (lit "open:regs");;
  for_each (seqZ 0 nr_regs) (λ i, set_word ls_map i (load_immediate_insn i));;
  set_word ls_map nr_regs 0x00001337;;
  '(rc, entry) ← spu_run ctx (Some 0) false;
  fail_if (rc <? 0) (lit "spu_run");;
  complain_if (negb (rc =? 0x13370002))
    (lit "Incorrect stop code 0x" ++ fmt_hex 8 rc ++ lit "?" ++ [newline_c]);;
  for_each (seqZ 0 nr_regs) (check_reg reg_fd);;
  mret EXIT_SUCCESS.

(** ** 12-nosched *)

Definition npc_program : list Z := [0x00001336; 0x00001337].
Definition npc_program_entry : Z := 4.

Definition nosched_03_npc : P Z :=
  ctx ← new_context (lit "/spu/03-npc") SPU_CREATE_NOSCHED;
  ls_fd ← sys_rc (c_openat ctx (lit "mem") O_WRONLY);
  assert (0 <=? ls_fd);;
  rc ← sys_rc (c_write ls_fd (words npc_program));
  assert (rc =? 8);;
  '(rc, entry) ← spu_run ctx (Some npc_program_entry) false;
  fail_if (rc <? 0) (lit "spu_run");;
  complain_if (rc =? 0x13360002)
    (lit "nosched context was started from 0x0, not 0x" ++ fmt_base 16 npc_program_entry ++ [newline_c]);;
  mret EXIT_SUCCESS.

(** ** 15-class0 *)

(** [assert(ls_fd)] accepts -1. *)
Definition load_program (ctx : Z) (program : list Z) : P Z :=
  ls_fd ← sys_rc (c_openat ctx (lit "mem") O_RDWR);
  assert (negb (ls_fd =? 0));;
  ls_map ← map_mem ls_fd;
  assert (negb (ls_map =? MAP_FAILED));;
  store_ls ls_map (words program);;
  mret ls_map.

Definition class0_load_illegal_instruction_app (ctx : Z) : P Z :=
  ls_map ← load_program ctx illegal_instruction_program; mret 0.

(** [buf] is the address of the buffer, as an [unsigned long]. *)
Definition class0_load_misaligned_dma_app (ctx buf : Z) : P Z :=
  ls_map ← load_program ctx misaligned_dma_program;
  store_ls ls_map (be_bytes 8 (wrapu 64 (buf + 1)));; mret 0x10.

Definition class0_load_invalid_dma_app (ctx buf : Z) : P Z :=
  ls_map ← load_program ctx invalid_dma_program;
  store_ls ls_map (be_bytes 8 buf);; mret 0x10.

(** [sighandler] keeps the last signal in [siginfo]; a signal without the handler
    kills the process. *)
Definition deliver (handled : list Z) (signals : list spe_siginfo) : P spe_siginfo :=
  match List.find (λ s, negb (bool_decide (s.1 ∈ handled))) signals with
  | Some s => leave (Killed s.1)
  | None => mret (default (0, 0) (last signals))
  end.

(** [spu_run] with the signals the SPE raises: the result, [*npc], [*status] and
    [siginfo]. *)
Definition spu_run_signals (handled : list Z) (ctx entry : Z) (status : bool) : P (Z * Z * Z * spe_siginfo) :=
  a ← sys kernel (SYS_spu_run ctx (Some entry) status);
  s ← deliver handled (a_signals a);
  mret (wraps 32 (a_rc a), wrapu 32 (a_npc a), wrapu 32 (a_status a), s).

Definition handle_signal (sig : Z) : P unit :=
  rc ← sys_rc (c_sigaction sig); assert (rc =? 0).

Definition expect_spu_run_error (rc : Z) : P unit :=
  complain_if (0 <=? rc)
    (lit "spu_run succeeded (rc=0x" ++ fmt_hex 8 rc ++ lit "), expected failure" ++ [newline_c]).

(** 01-dma-alignment-signal and 03-invalid-dma-signal. *)
Definition dma_signal (name : bytes) (load : Z → P Z) : P Z :=
  handle_signal SIGBUS;;
  ctx ← new_context name 0;
  entry ← load ctx;
  '(rc, _, _, siginfo) ← spu_run_signals [SIGBUS] ctx entry false;
  expect_spu_run_error rc;;
  complain_if (negb (fst siginfo =? SIGBUS)) (lit "no sigbus received!" ++ [newline_c]);;
  mret EXIT_SUCCESS.

Definition class0_01_dma_alignment_signal (buf : Z) : P Z :=
  dma_signal (lit "/spu/01-dma-alignment-signal") (λ ctx, class0_load_misaligned_dma_app ctx buf).
Definition class0_03_invalid_dma_signal (buf : Z) : P Z :=
  dma_signal (lit "/spu/03-invalid-dma-signal") (λ ctx, class0_load_invalid_dma_app ctx buf).

Definition expect_event (event expected : Z) : P unit :=
  complain_if (negb (event =? expected))
    (lit "got event 0x" ++ zero_pad 4 (fmt_base 16 event) ++ lit ", expected 0x"
       ++ fmt_hex 4 expected ++ [newline_c]).

Definition expect_rc (rc expected : Z) : P unit :=
  complain_if (negb (rc =? expected))
    (lit "spu_run returned 0x" ++ fmt_hex 8 rc ++ lit ", expected 0" ++ [newline_c]).

(** 02-dma-alignment-event and 04-invalid-dma-event. *)
Definition dma_event (name : bytes) (load : Z → P Z) (expected : Z) : P Z :=
  ctx ← new_context name SPU_CREATE_EVENTS_ENABLED;
  entry ← load ctx;
  '(rc, _, event, _) ← spu_run_signals [] ctx entry true;
  expect_rc rc 0;;
  expect_event event expected;;
  mret EXIT_SUCCESS.

Definition class0_02_dma_alignment_event (buf : Z) : P Z :=
  dma_event (lit "/spu/02-dma-alignment-event") (λ ctx, class0_load_misaligned_dma_app ctx buf)
    SPE_EVENT_DMA_ALIGNMENT.
Definition class0_04_invalid_dma_event (buf : Z) : P Z :=
  dma_event (lit "/spu/04-invalid-dma-event") (λ ctx, class0_load_invalid_dma_app ctx buf)
    SPE_EVENT_INVALID_DMA.

Definition illegal_insn_addr : Z := 8.

(** The program counter is past the illegal instruction. *)
Definition expect_npc (entry : Z) : P unit :=
  complain_if (negb (entry =? illegal_insn_addr + 4))
    (lit "npc at 0x" ++ zero_pad 5 (fmt_base 16 entry) ++ lit ", expected 0xc" ++ [newline_c]).

(** [fmt_p] is [%p]. *)
Definition class0_05_illegal_insn_signal (fmt_p : Z → bytes) : P Z :=
  handle_signal SIGILL;;
  ctx ← new_context (lit "/spu/05-illegal-insn-signal") 0;
  entry ← class0_load_illegal_instruction_app ctx;
  '(rc, entry, _, siginfo) ← spu_run_signals [SIGILL] ctx entry false;
  expect_spu_run_error rc;;
  expect_npc entry;;
  complain_if (negb (fst siginfo =? SIGILL)) (lit "no sigill received!" ++ [newline_c]);;
  complain_if (negb (snd siginfo =? illegal_insn_addr))
    (lit "siginfo.si_addr = " ++ fmt_p (snd siginfo) ++ lit ", expeted 0x8");;
  mret EXIT_SUCCESS.

Definition class0_06_illegal_insn_event : P Z :=
  ctx ← new_context (lit "/spu/06-illegal-insn-event") SPU_CREATE_EVENTS_ENABLED;
  entry ← class0_load_illegal_instruction_app ctx;
  '(rc, entry, event, _) ← spu_run_signals [] ctx entry true;
  expect_rc rc 0x20;;
  expect_npc entry;;
  expect_event event SPE_EVENT_SPE_ERROR;;
  mret EXIT_SUCCESS.
End apps.
