(* ===== verification/SpuDma.v ===== *)
(** * DMA between main memory and an SPE (tests/14-dma)

    The SPE program of the DMA tests hands a command to the memory flow
    controller (MFC) of its SPE through channels and waits for its tag.  The MFC
    performs a command at any time after that, while the SPE goes on. *)

From stdpp Require Import relations.
From S2P Require Import Prelude Runs CString SysProg SpuIsa SpuTests SpuApps.

Local Open Scope Z_scope.

(** ** pattern.c *)

Fixpoint load_loop (n : nat) (i : Z) (buf : list Z) : res (list Z) :=
  match n with
  | O => Ok buf
  | S n =>
      if decide (Z.to_nat i < length buf)%nat then load_loop n (i + 1) (<[Z.to_nat i := Z.land i 0xff]> buf) else UB
  end.

Definition load_pattern (buf : list Z) (len : Z) : res (list Z) := load_loop (Z.to_nat len) 0 buf.

Fixpoint check_loop (n : nat) (i : Z) (buf : list Z) : res Z :=
  match n with
  | O => Ok 0
  | S n =>
      match buf !! Z.to_nat i with
      | Some b => if negb (b =? Z.land i 0xff) then Ok (-1) else check_loop n (i + 1) buf
      | None => UB
      end
  end.

Definition check_pattern (buf : list Z) (len : Z) : res Z := check_loop (Z.to_nat len) 0 buf.

(** The first [len] bytes of the pattern. *)
Definition pattern_of (len : Z) : list Z := map (λ i, Z.land i 0xff) (seqZ 0 len).

(** ** The memory flow controller *)

(** The channels of the MFC (Cell Broadband Engine Architecture). *)
Definition MFC_LSA : Z := 16.
Definition MFC_EAH : Z := 17.
Definition MFC_EAL : Z := 18.
Definition MFC_Size : Z := 19.
Definition MFC_TagID : Z := 20.
Definition MFC_Cmd : Z := 21.
Definition MFC_WrTagMask : Z := 22.
Definition MFC_WrTagUpdate : Z := 23.
Definition MFC_RdTagStat : Z := 24.

Definition MFC_PUT_CMD : Z := 0x20.
Definition MFC_GET_CMD : Z := 0x40.

Record command := Command { c_op : Z; c_lsa : Z; c_ea : Z; c_size : Z; c_tag : Z }.

(** The parameters of the next command, the commands that are not done, and what
    the SPE waits for. *)
Record mfc := Mfc {
  p_lsa : Z; p_eah : Z; p_eal : Z; p_size : Z; p_tag : Z;
  pending : list command; tag_mask : Z; update_when : option Z;
}.

Definition idle_mfc : mfc := Mfc 0 0 0 0 0 [] 0 None.

Definition write_channel (ch x : Z) (s : mfc) : option mfc :=
  let 'Mfc lsa eah eal sz tag q m u := s in
  if ch =? MFC_LSA then Some (Mfc x eah eal sz tag q m u)
  else if ch =? MFC_EAH then Some (Mfc lsa x eal sz tag q m u)
  else if ch =? MFC_EAL then Some (Mfc lsa eah x sz tag q m u)
  else if ch =? MFC_Size then Some (Mfc lsa eah eal x tag q m u)
  else if ch =? MFC_TagID then Some (Mfc lsa eah eal sz x q m u)
  else if ch =? MFC_Cmd then Some (Mfc lsa eah eal sz tag (q ++ [Command x lsa (eah * 2 ^ 32 + eal) sz tag]) m u)
  else if ch =? MFC_WrTagMask then Some (Mfc lsa eah eal sz tag q x u)
  else if ch =? MFC_WrTagUpdate then Some (Mfc lsa eah eal sz tag q m (Some x))
  else None.

Definition set_pending (q : list command) (s : mfc) : mfc :=
  Mfc (p_lsa s) (p_eah s) (p_eal s) (p_size s) (p_tag s) q (tag_mask s) (update_when s).
Definition no_update (s : mfc) : mfc :=
  Mfc (p_lsa s) (p_eah s) (p_eal s) (p_size s) (p_tag s) (pending s) (tag_mask s) None.

(** The tags of the mask without a command that is not done. *)
Definition busy (q : list command) : Z := fold_right (λ c acc, Z.lor (Z.shiftl 1 (c_tag c)) acc) 0 q.
Definition tag_status (s : mfc) : Z := Z.ldiff (tag_mask s) (busy (pending s)).

(** At once, for any of the tags, for all of them. *)
Definition updated (when : Z) (s : mfc) : bool :=
  if when =? 0 then true else if when =? 1 then negb (tag_status s =? 0) else tag_status s =? tag_mask s.

(** *** Transfers *)

(** Main memory by its bytes; the bytes of local store, big-endian. *)
Definition ls_byte (l : Z → Z) (a : Z) : Z := field (8 * (3 - a mod 4)) 8 (l (a - a mod 4)).
Definition word_of (mem : Z → Z) (a : Z) : Z :=
  ((mem a * 256 + mem (a + 1)) * 256 + mem (a + 2)) * 256 + mem (a + 3).

Definition within (a start size : Z) : bool := (start <=? a) && (a <? start + size).

Definition transfer (c : command) (l mem : Z → Z) : (Z → Z) * (Z → Z) :=
  if c_op c =? MFC_GET_CMD then
    (λ a, if within a (c_lsa c) (c_size c) then word_of mem (c_ea c + (a - c_lsa c)) else l a, mem)
  else
    (l, λ b, if within b (c_ea c) (c_size c) then ls_byte l (c_lsa c + (b - c_ea c)) else mem b).

(** A command that the MFC takes: aligned, up to 16 kB, inside local store. *)
Definition valid (c : command) : bool :=
  ((c_op c =? MFC_GET_CMD) || (c_op c =? MFC_PUT_CMD)) &&
  (c_lsa c mod 16 =? 0) && (c_ea c mod 16 =? 0) && (c_size c mod 16 =? 0) &&
  (0 <? c_size c) && (c_size c <=? 0x4000) && (0 <=? c_lsa c) && (c_lsa c + c_size c <=? LS_SIZE) &&
  (0 <=? c_tag c) && (c_tag c <? 32).

(** The 4096 bytes of the tests, in local store and in main memory. *)
Definition ls_page (l : Z → Z) : list Z := map (λ i, ls_byte l (0x1000 + i)) (seqZ 0 4096).
Definition mem_page (mem : Z → Z) (buf : Z) : list Z := map (λ i, mem (buf + i)) (seqZ 0 4096).

(** What a process has stored, by the log of its stores; local store as it is seen
    through a mapping at [ls_map]. *)
Definition store_bytes (mem : Z → Z) (addr : Z) (data : bytes) : Z → Z :=
  λ b, if within b addr (Z.of_nat (length data)) then from_option code 0 (data !! Z.to_nat (b - addr)) else mem b.

Fixpoint stored (l : list event) : Z → Z :=
  match l with
  | [] => λ _, 0
  | (m_store addr data, _) :: l => store_bytes (stored l) addr data
  | _ :: l => stored l
  end.

Definition mapped (mem : Z → Z) (ls_map : Z) : Z → Z := λ a, word_of mem (ls_map + a).

(** *** The SPE with its MFC *)

Record dma := Dma { d_spu : spu; d_mfc : mfc; d_mem : Z → Z }.

(** A run of the SPE, up to its stop. *)
Inductive dma_step : dma → dma → Prop :=
| d_next m m' s mem : spu_step m = Next m' → dma_step (Dma m s mem) (Dma m' s mem)
| d_write m ch x m' s s' mem :
    spu_step m = Writes ch x m' → write_channel ch x s = Some s' → dma_step (Dma m s mem) (Dma m' s' mem)
| d_read m f s mem u :
    spu_step m = Reads MFC_RdTagStat f → update_when s = Some u → updated u s = true →
    dma_step (Dma m s mem) (Dma (f (tag_status s)) (no_update s) mem)
| d_transfer m s mem q1 c q2 :
    (∀ code m', spu_step m ≠ Stopped code m') → pending s = q1 ++ c :: q2 → valid c = true →
    dma_step (Dma m s mem)
      (Dma (set_ls (transfer c (ls m) mem).1 m) (set_pending (q1 ++ q2) s) (transfer c (ls m) mem).2).

(** ** The programs *)

(** "il $4,64" and "il $4,32": the commands get and put. *)
Definition spe_get_program : list Z := dma_program 0x40802004.
Definition spe_put_program : list Z := dma_program 0x40801004.

Section programs.
Context (kernel : list event → call → ans) (strerror : Z → bytes).

#[local] Abbreviation sys_rc := (SysProg.sys_rc kernel).

Definition buf_size : Z := 4096.

Definition byte_chars (l : list Z) : bytes := map byte_of l.

(** Undefined behaviour ends the program. *)
Definition defined {A} (r : res A) : P A := match r with Ok a => mret a | _ => leave Undefined end.

(** [if (rc != 0x13370002) ...] *)
Definition checks_code (rc : Z) : P unit :=
  complain_if (negb (rc =? 0x13370002)) (lit "Incorrect stop code: 0x" ++ fmt_base 16 (wrapu 32 rc) ++ [newline_c]).

(** [if (check_pattern(...)) ...], with what is then in the 4096 bytes. *)
Definition checks_page (page : list Z) : P unit :=
  bad ← defined (check_pattern page buf_size);
  complain_if (negb (bad =? 0)) (lit "Pattern check failed" ++ [newline_c]).

(** The end of 01, 02 and 04. *)
Definition checks_dma (rc : Z) (page : list Z) : P Z :=
  checks_code rc;; checks_page page;; mret EXIT_SUCCESS.

(** [entry = 0x10; rc = spu_run(ctx, &entry, NULL)]; the answer holds what the run
    has left in the 4096 bytes. *)
Definition runs_dma (ctx : Z) : P (Z * list Z) :=
  a ← sys kernel (SYS_spu_run ctx (Some 0x10) false); mret (wraps 32 (a_rc a), map code (a_data a)).

Definition opens_mem (ctx : Z) : P Z :=
  ls_fd ← sys_rc (c_openat ctx (lit "mem") O_RDWR);
  assert (0 <=? ls_fd);;
  ls_map ← map_mem kernel ls_fd;
  assert (negb (ls_map =? MAP_FAILED));;
  mret ls_map.

(** [load_pattern] on the 4096 bytes at [addr], whatever they were. *)
Definition loads_pattern (addr : Z) (old : list Z) : P unit :=
  new ← defined (load_pattern old buf_size); store_ls addr (byte_chars new).

(** [*((uint64_t * )(ls_map)) = (unsigned long)&buf;] *)
Definition sets_address (ls_map buf : Z) : P unit := store_ls ls_map (be_bytes 8 buf).

(** The contexts up to their runs.  [buf] is the address of the static array, which
    is clear at the start. *)
Definition get_setup (buf : Z) : P (Z * Z) :=
  loads_pattern buf (replicate 4096 0);;
  ctx ← new_context kernel (lit "/spu/01-spe-get") 0;
  ls_map ← opens_mem ctx;
  store_ls ls_map (words spe_get_program);;
  sets_address ls_map buf;;
  mret (ctx, ls_map).

Definition dma_01_spe_get (buf : Z) : P Z :=
  '(ctx, ls_map) ← get_setup buf;
  '(rc, page) ← runs_dma ctx;
  checks_dma rc page.

Definition put_setup (buf : Z) : P (Z * Z) :=
  ctx ← new_context kernel (lit "/spu/02-spe-put") 0;
  ls_map ← opens_mem ctx;
  store_ls ls_map (words spe_put_program);;
  loads_pattern (ls_map + 0x1000) (replicate 4096 0);;
  sets_address ls_map buf;;
  mret (ctx, ls_map).

Definition dma_02_spe_put (buf : Z) : P Z :=
  '(ctx, ls_map) ← put_setup buf;
  '(rc, page) ← runs_dma ctx;
  checks_dma rc page.

(** *** With a huge page *)

Definition HUGEPAGE_FILE_03 : bytes := lit "/huge/03-hugepage".
Definition HUGEPAGE_FILE_04 : bytes := lit "/huge/04-hugepage-ppe-faulted".
Definition HUGEPAGE_SIZE : Z := 16 * 1024 * 1024.

Definition opens_hugepage (file : bytes) : P Z :=
  hp_fd ← sys_rc (c_open_mode file (Z.lor O_RDWR O_CREAT) 0x180);
  (if hp_fd <? 0 then
     perror strerror (lit "open");;
     complain_if true (lit "failed to open " ++ file ++ lit ". are hugepages enabled? permissions?" ++ [newline_c])
   else mret tt);;
  rc ← sys_rc (c_unlink file);
  hp_map ← sys_rc (c_mmap HUGEPAGE_SIZE PROT_READ_WRITE MAP_SHARED hp_fd 0);
  assert (negb (hp_map =? MAP_FAILED));;
  mret hp_map.

Definition dma_03_hugepage_spe_faulted : P Z :=
  ctx ← new_context kernel (lit "/spu/03-hugepage-spe-faulted") 0;
  hp_map ← opens_hugepage HUGEPAGE_FILE_03;
  ls_map ← opens_mem ctx;
  store_ls ls_map (words spe_get_program);;
  sets_address ls_map hp_map;;
  '(rc, page) ← runs_dma ctx;
  checks_code rc;;
  mret EXIT_SUCCESS.

Definition dma_04_hugepage_ppe_faulted : P Z :=
  ctx ← new_context kernel (lit "/spu/04-hugepage-ppe-faulted") 0;
  hp_map ← opens_hugepage HUGEPAGE_FILE_04;
  loads_pattern hp_map (replicate 4096 0);;
  ls_map ← opens_mem ctx;
  store_ls ls_map (words spe_get_program);;
  sets_address ls_map hp_map;;
  '(rc, page) ← runs_dma ctx;
  checks_dma rc page.
End programs.
