(* ===== verification/DmaProps.v ===== *)
(** * The DMA tests pass

    Whenever the MFC performs the command of the program, the SPE stops only when
    the 4096 bytes are there. *)

From stdpp Require Import relations.
From S2P Require Import Prelude Runs CString NoteSpec SysProg SpuIsa SpuCode SpuTests SpuApps SpuDma.

Local Open Scope Z_scope.

(** ** The pattern *)

Definition pattern_from (i : Z) (n : nat) : list Z := map (λ i, Z.land i 0xff) (seqZ i (Z.of_nat n)).

Lemma pattern_from_S i n : pattern_from i (S n) = Z.land i 0xff :: pattern_from (i + 1) n.
Proof. unfold pattern_from. rewrite Nat2Z.inj_succ, seqZ_cons by lia. cbn [map]. by rewrite Z.pred_succ. Qed.

Lemma length_pattern_from i n : length (pattern_from i n) = n.
Proof. unfold pattern_from. rewrite length_map, length_seqZ. lia. Qed.

Lemma check_loop_spec n pre post :
  (n ≤ length post)%nat →
  check_loop n (Z.of_nat (length pre)) (pre ++ post) =
  Ok (if decide (take n post = pattern_from (Z.of_nat (length pre)) n) then 0 else -1).
Proof.
  revert pre post. induction n as [|n IH]; intros pre post Hn; cbn [check_loop]; [done|].
  destruct post as [|b post]; [cbn in Hn; lia|]. cbn [length] in Hn. rewrite Nat2Z.id, list_lookup_middle by done.
  rewrite pattern_from_S. cbn [take]. destruct (Z.eqb_spec b (Z.land (Z.of_nat (length pre)) 0xff)) as [->|Hb]; cbn [negb].
  - rewrite cons_middle, app_assoc. replace (Z.of_nat (length pre) + 1) with (Z.of_nat (length (pre ++ [Z.land (Z.of_nat (length pre)) 0xff]))) by (rewrite length_app; cbn; lia).
    rewrite IH by lia. f_equal. apply decide_ext. split; [by intros ->|by intros [= ->]].
  - rewrite decide_False; [done|]. by intros [= ? _].
Qed.

Lemma load_loop_spec n pre post :
  (n ≤ length post)%nat →
  load_loop n (Z.of_nat (length pre)) (pre ++ post) = Ok (pre ++ pattern_from (Z.of_nat (length pre)) n ++ drop n post).
Proof.
  revert pre post. induction n as [|n IH]; intros pre post Hn; cbn [load_loop]; [done|].
  destruct post as [|b post]; [cbn in Hn; lia|]. cbn [length] in Hn. rewrite Nat2Z.id, decide_True by (rewrite length_app; cbn; lia).
  rewrite insert_app_r_alt, Nat.sub_diag by lia. cbn [insert list_insert]. rewrite cons_middle, app_assoc.
  replace (Z.of_nat (length pre) + 1) with (Z.of_nat (length (pre ++ [Z.land (Z.of_nat (length pre)) 0xff]))) by (rewrite length_app; cbn; lia).
  rewrite IH by lia. rewrite pattern_from_S, <- app_assoc. cbn [app drop]. replace (Z.of_nat (length (pre ++ _))) with (Z.of_nat (length pre) + 1) by (rewrite length_app; cbn; lia). done.
Qed.

(** [check_pattern_spec]: the check accepts exactly the bytes of the pattern, *)
Lemma check_pattern_spec buf len :
  0 ≤ len ≤ Z.of_nat (length buf) →
  check_pattern buf len = Ok (if decide (take (Z.to_nat len) buf = pattern_of len) then 0 else -1).
Proof.
  intros H. unfold check_pattern. rewrite (check_loop_spec _ [] buf) by lia.
  unfold pattern_from, pattern_of. by rewrite Z2Nat.id by lia.
Qed.

(** [load_pattern_spec]: which [load_pattern] writes, and nothing after them. *)
Lemma load_pattern_spec buf len :
  0 ≤ len ≤ Z.of_nat (length buf) → load_pattern buf len = Ok (pattern_of len ++ drop (Z.to_nat len) buf).
Proof.
  intros H. unfold load_pattern. rewrite (load_loop_spec _ [] buf) by lia.
  unfold pattern_from, pattern_of. by rewrite Z2Nat.id by lia.
Qed.

(** ** The SPE program *)

Definition dma_listing (op : Z) : list insn := [
  il 0 0x1000; lqa 1 0; il 2 0x1000; il 3 0; il 4 op;
  wrch 0 16; wrch 1 17; shlqbyi 1 1 4; wrch 1 18; wrch 2 19; wrch 3 20; wrch 4 21;
  il 5 1; il 6 1; wrch 5 22; wrch 6 23; rdch 7 24; ceqi 8 5 1; brnz 8 8; stop 0; stop 0x1337
].

(** Shifted by a word. *)
Lemma shift_word a : 0 ≤ q1 a < 2 ^ 32 → 0 ≤ q2 a < 2 ^ 32 → 0 ≤ q3 a < 2 ^ 32 → q0 (shift_left 4 a) = q1 a.
Proof.
  intros H1 H2 H3. unfold shift_left. change (8 * wrapu 5 4) with 32. unfold Z_quad. cbn [q0]. unfold field, wrapu, quad_Z.
  rewrite Z.land_ones, Z.shiftr_div_pow2, Z.shiftl_mul_pow2 by lia.
  set (y := (q1 a * 2 ^ 32 + q2 a) * 2 ^ 32 + q3 a).
  assert (Hy : 0 ≤ y < 2 ^ 96) by (unfold y; lia).
  replace (((q0 a * 2 ^ 32 + q1 a) * 2 ^ 32 + q2 a) * 2 ^ 32 + q3 a) with (q0 a * 2 ^ 96 + y) by (unfold y; ring).
  replace ((q0 a * 2 ^ 96 + y) * 2 ^ 32) with (y * 2 ^ 32 + q0 a * 2 ^ 128) by ring.
  rewrite Z_mod_plus_full, (Z.mod_small (y * 2 ^ 32)) by lia.
  replace (y * 2 ^ 32 / 2 ^ 96) with (q1 a).
  - by apply Z.mod_small.
  - apply (Z.div_unique_pos _ _ _ ((q2 a * 2 ^ 32 + q3 a) * 2 ^ 32)); unfold y; lia.
Qed.

(** The addresses are known numbers; one instruction of the program. *)
Ltac dma_addresses :=
  match goal with
  | |- inevitably dma_step ?Q (Dma ?m ?s ?mem) =>
      let m' := eval cbv [next_pc target set_reg set_pc set_ls regs ls pc] in m in change (inevitably dma_step Q (Dma m' s mem))
  end;
  repeat match goal with
  | |- context [ls_addr ?a] => let v := eval vm_compute in (ls_addr a) in change (ls_addr a) with v
  end.

Ltac dma_exec H :=
  erewrite step_exec by spu_decode H;
  cbv [exec goes_on set_reg set_pc set_ls regs ls pc]; spu_registers; reflexivity.

Section run.
Context (Q : dma → Prop).

#[local] Abbreviation ends := (inevitably dma_step Q).

(** *** Without a command, the SPE alone moves *)

Ltac alone_inv :=
  let s' := fresh "s'" in let H := fresh "H" in
  intros s' H; inversion H; subst; simplify_eq; try congruence;
  try match goal with E : pending _ = ?l ++ _ :: _, E' : pending _ = [] |- _ => rewrite E' in E; by destruct l end.

Lemma solo_next m m1 s mem :
  pending s = [] → spu_step m = Next m1 → ends (Dma m1 s mem) → ends (Dma m s mem).
Proof. intros Hp Hs H. apply in_later; [eexists; by apply d_next|]. alone_inv. Qed.

Lemma solo_write m ch x m1 s s1 mem :
  pending s = [] → spu_step m = Writes ch x m1 → write_channel ch x s = Some s1 → ends (Dma m1 s1 mem) → ends (Dma m s mem).
Proof. intros Hp Hs Hw H. apply in_later; [eexists; by eapply d_write|]. alone_inv. Qed.

Lemma solo_read m f s mem u :
  pending s = [] → spu_step m = Reads MFC_RdTagStat f → update_when s = Some u → updated u s = true →
  ends (Dma (f (tag_status s)) (no_update s) mem) → ends (Dma m s mem).
Proof. intros Hp Hs Hu Hup H. apply in_later; [eexists; by eapply d_read|]. alone_inv. Qed.

(** *** With a command, it may be performed now *)

Definition performed (c : command) (d : dma) : dma :=
  Dma (set_ls (transfer c (ls (d_spu d)) (d_mem d)).1 (d_spu d)) (set_pending [] (d_mfc d)) (transfer c (ls (d_spu d)) (d_mem d)).2.

Ltac busy_inv c :=
  let s' := fresh "s'" in let H := fresh "H" in
  intros s' H; inversion H; subst; simplify_eq; try congruence;
  match goal with E : pending _ = ?l ++ _ :: _, E' : pending _ = [c] |- _ =>
    rewrite E' in E; destruct l as [|? [|]]; try done; injection E as <- <-
  end.

Lemma busy_next c m m1 s mem :
  pending s = [c] → valid c = true → spu_step m = Next m1 →
  ends (performed c (Dma m s mem)) → ends (Dma m1 s mem) → ends (Dma m s mem).
Proof. intros Hp Hv Hs Hd H. apply in_later; [eexists; by apply d_next|]. busy_inv c. exact Hd. Qed.

Lemma busy_write c m ch x m1 s s1 mem :
  pending s = [c] → valid c = true → spu_step m = Writes ch x m1 → write_channel ch x s = Some s1 →
  ends (performed c (Dma m s mem)) → ends (Dma m1 s1 mem) → ends (Dma m s mem).
Proof. intros Hp Hv Hs Hw Hd H. apply in_later; [eexists; by eapply d_write|]. busy_inv c. exact Hd. Qed.

(** The SPE waits. *)
Lemma busy_read c m f s mem u :
  pending s = [c] → valid c = true → spu_step m = Reads MFC_RdTagStat f → update_when s = Some u → updated u s = false →
  ends (performed c (Dma m s mem)) → ends (Dma m s mem).
Proof.
  intros Hp Hv Hs Hu Hup Hd. apply in_later; [eexists; apply (d_transfer _ _ _ [] c []); [by rewrite Hs|done..]|]. busy_inv c. exact Hd.
Qed.
(** *** After the transfer *)

Section finish.
Context (op : Z) (l mem : Z → Z) (Hl : listed l 0x10 (dma_listing op)).
Context (HQ : ∀ r s, pending s = [] → Q (Dma (Spu r l 0x60) s mem)).

Implicit Types (r : Z → quad) (s : mfc).

Lemma done_54 r s : pending s = [] → r 5 = splat 1 → ends (Dma (Spu r l 0x54) s mem).
Proof.
  intros Hp H5. eapply solo_next; [done|dma_exec Hl|dma_addresses]. rewrite H5. eapply solo_next; [done| |].
  - erewrite step_exec by spu_decode Hl. cbv [exec regs]. spu_registers. reflexivity.
  - dma_addresses. by apply in_now, HQ.
Qed.

Lemma done_50 r s :
  pending s = [] → tag_mask s = 1 → update_when s = Some 1 → r 5 = splat 1 → ends (Dma (Spu r l 0x50) s mem).
Proof.
  intros Hp Hm Hu H5. eapply solo_read; [done|dma_exec Hl|done| |].
  - unfold updated, tag_status. by rewrite Hm, Hp.
  - dma_addresses. by apply done_54.
Qed.

Lemma done_4c r s : pending s = [] → tag_mask s = 1 → r 5 = splat 1 → r 6 = splat 1 → ends (Dma (Spu r l 0x4c) s mem).
Proof.
  intros Hp Hm H5 H6. destruct s as [a1 a2 a3 a4 a5 q m u]. eapply solo_write; [done|dma_exec Hl| |].
  - rewrite H6. reflexivity.
  - dma_addresses. by apply done_50.
Qed.

Lemma done_48 r s : pending s = [] → r 5 = splat 1 → r 6 = splat 1 → ends (Dma (Spu r l 0x48) s mem).
Proof.
  intros Hp H5 H6. destruct s as [a1 a2 a3 a4 a5 q m u]. eapply solo_write; [done|dma_exec Hl| |].
  - rewrite H5. reflexivity.
  - dma_addresses. by apply done_4c.
Qed.

Lemma done_44 r s : pending s = [] → r 5 = splat 1 → ends (Dma (Spu r l 0x44) s mem).
Proof. intros Hp H5. eapply solo_next; [done|dma_exec Hl|dma_addresses]. by apply done_48. Qed.

Lemma done_40 r s : pending s = [] → ends (Dma (Spu r l 0x40) s mem).
Proof. intros Hp. eapply solo_next; [done|dma_exec Hl|dma_addresses]. by apply done_44. Qed.
End finish.

(** *** From the command on *)

Section command.
Context (op : Z) (c : command) (l mem : Z → Z).
Context (Hl : listed l 0x10 (dma_listing op)) (Hv : valid c = true) (Ht : c_tag c = 0).
Context (Hl' : listed (transfer c l mem).1 0x10 (dma_listing op)).
Context (HQ : ∀ r s, pending s = [] → Q (Dma (Spu r (transfer c l mem).1 0x60) s (transfer c l mem).2)).

Implicit Types (r : Z → quad) (s : mfc).

Lemma busy_50 r s :
  pending s = [c] → tag_mask s = 1 → update_when s = Some 1 → r 5 = splat 1 → ends (Dma (Spu r l 0x50) s mem).
Proof.
  intros Hp Hm Hu H5. eapply busy_read; [exact Hp|done|dma_exec Hl|done| |].
  - unfold updated, tag_status. rewrite Hm, Hp. cbn [busy fold_right]. by rewrite Ht.
  - by eapply done_50.
Qed.

Lemma busy_4c r s : pending s = [c] → tag_mask s = 1 → r 5 = splat 1 → r 6 = splat 1 → ends (Dma (Spu r l 0x4c) s mem).
Proof.
  intros Hp Hm H5 H6. destruct s as [a1 a2 a3 a4 a5 q m u]. eapply busy_write; [exact Hp|done|dma_exec Hl| | |].
  - rewrite H6. reflexivity.
  - by eapply done_4c.
  - dma_addresses. by apply busy_50.
Qed.

Lemma busy_48 r s : pending s = [c] → r 5 = splat 1 → r 6 = splat 1 → ends (Dma (Spu r l 0x48) s mem).
Proof.
  intros Hp H5 H6. destruct s as [a1 a2 a3 a4 a5 q m u]. eapply busy_write; [exact Hp|done|dma_exec Hl| | |].
  - rewrite H5. reflexivity.
  - by eapply done_48.
  - dma_addresses. by apply busy_4c.
Qed.

Lemma busy_44 r s : pending s = [c] → r 5 = splat 1 → ends (Dma (Spu r l 0x44) s mem).
Proof.
  intros Hp H5. eapply busy_next; [exact Hp|done|dma_exec Hl|by eapply done_44|dma_addresses]. by apply busy_48.
Qed.

Lemma busy_40 r s : pending s = [c] → ends (Dma (Spu r l 0x40) s mem).
Proof.
  intros Hp. eapply busy_next; [exact Hp|done|dma_exec Hl|by eapply done_40|dma_addresses]. by apply busy_44.
Qed.
End command.
End run.

(** The command of the program. *)
Definition page_command (op ea : Z) : command := Command op 0x1000 ea buf_size 0.

(** The stop with the transfer done. *)
Definition transferred (op ea : Z) (l mem : Z → Z) (d : dma) : Prop :=
  pending (d_mfc d) = [] ∧ stops 0x1337 (d_spu d) ∧ (ls (d_spu d), d_mem d) = transfer (page_command op ea) l mem.

Lemma page_valid op ea : op = MFC_GET_CMD ∨ op = MFC_PUT_CMD → ea mod 128 = 0 → valid (page_command op ea) = true.
Proof.
  intros Hop Hea. unfold valid. cbn [c_op c_lsa c_ea c_size c_tag page_command].
  rewrite (proj2 (Z.eqb_eq (ea mod 16) 0)).
  - by destruct Hop as [-> | ->].
  - pose proof (Z.div_mod ea 128). replace ea with (ea / 128 * 8 * 16) by lia. by apply Z.mod_mul.
Qed.

Lemma transfer_listed op ea l mem :
  listed l 0x10 (dma_listing op) → listed (transfer (page_command op ea) l mem).1 0x10 (dma_listing op).
Proof.
  intros H i x Hi. rewrite <- (H i x Hi). unfold transfer. destruct (_ =? _); [|done]. cbn [fst page_command c_lsa c_size].
  apply lookup_lt_Some in Hi. cbn in Hi. unfold within. by rewrite (proj2 (Z.leb_gt _ _)) by lia.
Qed.

Lemma dma_transfers op ea r l mem :
  op = MFC_GET_CMD ∨ op = MFC_PUT_CMD → 0 ≤ ea < 2 ^ 64 → ea mod 128 = 0 →
  listed l 0x10 (dma_listing op) → quad_at l 0 = Quad (ea / 2 ^ 32) (ea mod 2 ^ 32) 0 0 →
  inevitably dma_step (transferred op ea l mem) (Dma (Spu r l 0x10) idle_mfc mem).
Proof.
  intros Hop Hea Ha Hl Hq. pose proof (Z.mod_pos_bound ea (2 ^ 32) ltac:(lia)) as Hlo.
  assert (Hw : wrapu 32 op = op) by by destruct Hop as [-> | ->].
  do 5 (eapply solo_next; [done|dma_exec Hl|dma_addresses]). rewrite Hq, Hw.
  do 2 (eapply solo_write; [done|dma_exec Hl|reflexivity|dma_addresses]).
  eapply solo_next; [done|dma_exec Hl|dma_addresses]. cbn [q0].
  eapply solo_write; [done| | |].
  { erewrite step_exec by spu_decode Hl. cbv [exec goes_on set_reg set_pc set_ls regs ls pc]. spu_registers.
    rewrite shift_word by (cbn [q1 q2 q3]; lia). reflexivity. }
  { reflexivity. }
  dma_addresses. do 3 (eapply solo_write; [done|dma_exec Hl|reflexivity|dma_addresses]).
  cbn [q1 app]. change (wrapu 32 4096) with 4096. change (wrapu 32 0) with 0.
  replace (ea / 2 ^ 32 * 2 ^ 32 + ea mod 2 ^ 32) with ea by (pose proof (Z.div_mod ea (2 ^ 32)); lia).
  eapply (busy_40 _ op (page_command op ea)); [done|by apply page_valid|done|by apply transfer_listed| |done].
  intros r' s Hp. split_and!; [done| |].
  - pose proof (transfer_listed op ea l mem Hl) as Hl'. cbn [d_spu]. eexists. by erewrite step_exec by spu_decode Hl'.
  - cbn [ls d_spu d_mem]. by destruct (transfer _ _ _).
Qed.

Lemma transferred_stopped op ea l mem d d' : transferred op ea l mem d → ¬ dma_step d d'.
Proof.
  intros (Hp & [m1 Hs] & _) Hst. destruct Hst as [? ? ? ? H|? ? ? ? ? ? ? H|? ? ? ? ? H|? ? ? ? ? ? H]; cbn in Hs; congruence.
Qed.

(** Every run of the program stops, and it stops with the transfer done. *)
Lemma dma_runs op ea r l mem :
  op = MFC_GET_CMD ∨ op = MFC_PUT_CMD → 0 ≤ ea < 2 ^ 64 → ea mod 128 = 0 →
  listed l 0x10 (dma_listing op) → quad_at l 0 = Quad (ea / 2 ^ 32) (ea mod 2 ^ 32) 0 0 →
  ∀ d code m', rtc dma_step (Dma (Spu r l 0x10) idle_mfc mem) d → spu_step (d_spu d) = Stopped code m' →
  code = 0x1337 ∧ transferred op ea l mem d.
Proof.
  intros Hop Hea Ha Hl Hq d code m' Hr Hs.
  assert (transferred op ea l mem d) as (Hp & [m1 Hs1] & Ht).
  { eapply (inevitably_final dma_step); [by apply dma_transfers|by intros; eapply transferred_stopped|exact Hr|].
    intros t Hst. destruct Hst as [? ? ? ? H|? ? ? ? ? ? ? H|? ? ? ? ? H|? ? ? ? ? ? H]; cbn in Hs; congruence. }
  split; [congruence|]. split_and!; [done|by eexists|done].
Qed.

(** *** Bytes *)

Lemma word_byte mem a j :
  (∀ b, 0 ≤ mem b < 256) → 0 ≤ j < 4 → field (8 * (3 - j)) 8 (word_of mem a) = mem (a + j).
Proof.
  intros Hm Hj. unfold field, word_of. rewrite Z.land_ones, Z.shiftr_div_pow2 by lia.
  pose proof (Hm a). pose proof (Hm (a + 1)). pose proof (Hm (a + 2)). pose proof (Hm (a + 3)).
  assert (j = 0 ∨ j = 1 ∨ j = 2 ∨ j = 3) as [-> |[-> |[-> | ->]]] by lia; rewrite ?Z.add_0_r;
    repeat match goal with |- context [2 ^ ?e] => let v := eval vm_compute in (2 ^ e) in change (2 ^ e) with v end;
    Z.to_euclidean_division_equations; lia.
Qed.

(** What a get leaves in local store. *)
Lemma get_page ea l mem :
  (∀ b, 0 ≤ mem b < 256) → ls_page (transfer (page_command MFC_GET_CMD ea) l mem).1 = mem_page mem ea.
Proof.
  intros Hm. apply map_ext_in. intros i Hi%list_elem_of_In%elem_of_seqZ. unfold ls_byte, transfer.
  change (c_op (page_command MFC_GET_CMD ea) =? MFC_GET_CMD) with true. cbn [fst page_command c_lsa c_size c_ea].
  pose proof (Z.mod_pos_bound (0x1000 + i) 4 ltac:(lia)) as Hb. pose proof (Z.div_mod (0x1000 + i) 4 ltac:(lia)) as Hd.
  unfold within, buf_size. rewrite (proj2 (Z.leb_le _ _)), (proj2 (Z.ltb_lt _ _)) by lia. cbn [andb].
  rewrite word_byte by done. f_equal. lia.
Qed.

(** What a put leaves in main memory. *)
Lemma put_page ea l mem : mem_page (transfer (page_command MFC_PUT_CMD ea) l mem).2 ea = ls_page l.
Proof.
  apply map_ext_in. intros i Hi%list_elem_of_In%elem_of_seqZ. unfold transfer.
  change (c_op (page_command MFC_PUT_CMD ea) =? MFC_GET_CMD) with false. cbn [snd page_command c_lsa c_size c_ea].
  unfold within, buf_size. rewrite (proj2 (Z.leb_le _ _)), (proj2 (Z.ltb_lt _ _)) by lia. cbn [andb]. f_equal. lia.
Qed.

(** ** The tests *)

Lemma checks_pattern rc page w :
  length page = 4096%nat →
  (execute (checks_dma rc page) w = (Returned EXIT_SUCCESS, w) ↔ rc = 0x13370002 ∧ page = pattern_of 4096).
Proof.
  intros Hlen. unfold checks_dma, checks_code, checks_page, complain_if. destruct (Z.eqb_spec rc 0x13370002) as [->|Hrc]; cbn [negb].
  - rewrite check_pattern_spec by (unfold buf_size; lia).
    change (Z.to_nat buf_size) with 4096%nat. rewrite take_ge by lia. change (pattern_of buf_size) with (pattern_of 4096).
    destruct (decide (page = pattern_of 4096)) as [->|Hp]; split; try done. by intros [_ ?].
  - split; [|by intros [? _]]. done.
Qed.

Lemma length_pattern_of n : 0 ≤ n → Z.of_nat (length (pattern_of n)) = n.
Proof. intros. unfold pattern_of. rewrite length_map, length_seqZ. lia. Qed.

Lemma length_ls_page l : length (ls_page l) = 4096%nat.
Proof. unfold ls_page. by rewrite length_map, length_seqZ. Qed.

Lemma length_mem_page mem buf : length (mem_page mem buf) = 4096%nat.
Proof. unfold mem_page. by rewrite length_map, length_seqZ. Qed.

(** A run from the image of the test stops. *)
Definition stopped (d : dma) : Prop := ∃ code m', spu_step (d_spu d) = Stopped code m'.

Lemma dma_stops op ea r l mem :
  op = MFC_GET_CMD ∨ op = MFC_PUT_CMD → 0 ≤ ea < 2 ^ 64 → ea mod 128 = 0 →
  listed l 0x10 (dma_listing op) → quad_at l 0 = Quad (ea / 2 ^ 32) (ea mod 2 ^ 32) 0 0 →
  inevitably dma_step stopped (Dma (Spu r l 0x10) idle_mfc mem).
Proof.
  intros Hop Hea Ha Hl Hq. eapply inevitably_mono; [|by apply (dma_transfers op ea)].
  intros d (_ & [m' Hs] & _). by exists 0x1337, m'.
Qed.

(** *** Memory *)

Lemma store_bytes_outside mem addr data b :
  b < addr ∨ addr + Z.of_nat (length data) ≤ b → store_bytes mem addr data b = mem b.
Proof.
  intros H. unfold store_bytes, within. destruct (Z.leb_spec addr b); [|done].
  by rewrite (proj2 (Z.ltb_ge _ _)) by lia.
Qed.

Lemma store_bytes_inside mem addr data i c :
  0 ≤ i → data !! Z.to_nat i = Some c → store_bytes mem addr data (addr + i) = code c.
Proof.
  intros Hi Hc. pose proof (lookup_lt_Some _ _ _ Hc). unfold store_bytes, within.
  rewrite (proj2 (Z.leb_le _ _)), (proj2 (Z.ltb_lt _ _)) by lia. cbn [andb].
  replace (addr + i - addr) with i by lia. by rewrite Hc.
Qed.

Lemma store_bytes_range mem addr data b : (∀ b, 0 ≤ mem b < 256) → 0 ≤ store_bytes mem addr data b < 256.
Proof.
  intros Hm. unfold store_bytes. destruct (within _ _ _); [|done].
  destruct (data !! _) as [ch|]; cbn; [apply code_range|done].
Qed.

Lemma stored_range l b : 0 ≤ stored l b < 256.
Proof.
  revert b. induction l as [|[c a] l IH]; intros b; [done|]. destruct c; cbn [stored]; try apply IH. by apply store_bytes_range.
Qed.

(** The bytes of a word. *)
Lemma mapped_word mem base data a w :
  0 ≤ a → 0 ≤ w < 2 ^ 32 → take 4 (drop (Z.to_nat a) data) = be_bytes 4 w → mapped (store_bytes mem base data) base a = w.
Proof.
  intros Ha Hw E. unfold mapped, word_of.
  assert (∀ j c, (j < 4)%nat → be_bytes 4 w !! j = Some c → store_bytes mem base data (base + a + Z.of_nat j) = code c) as H.
  { intros j c Hj Hc. rewrite <- Z.add_assoc. apply store_bytes_inside; [lia|].
    rewrite <- E, lookup_take_lt, lookup_drop in Hc by done. rewrite <- Hc. f_equal. lia. }
  cbn in H. pose proof (H 0%nat _ ltac:(lia) eq_refl) as H0. rewrite Z.add_0_r in H0. rewrite H0.
  pose proof (H 1%nat _ ltac:(lia) eq_refl) as H1. pose proof (H 2%nat _ ltac:(lia) eq_refl) as H2.
  pose proof (H 3%nat _ ltac:(lia) eq_refl) as H3. change (Z.of_nat 1) with 1 in H1. change (Z.of_nat 2) with 2 in H2. change (Z.of_nat 3) with 3 in H3.
  rewrite H1, H2, H3.
  rewrite !code_byte_of by (apply Z.mod_pos_bound; lia). change (2 ^ 32) with 4294967296 in Hw.
  Z.to_euclidean_division_equations. lia.
Qed.

Lemma mapped_outside mem base data a :
  Z.of_nat (length data) ≤ a → mapped (store_bytes mem base data) base a = mapped mem base a.
Proof. intros H. unfold mapped, word_of. by rewrite !store_bytes_outside by lia. Qed.

Lemma be_bytes_words x : 0 ≤ x → be_bytes 8 x = be_bytes 4 (x / 2 ^ 32) ++ be_bytes 4 (x mod 2 ^ 32).
Proof.
  intros Hx. cbn [be_bytes app]. rewrite !Z.div_div by lia.
  repeat match goal with |- context [256 * ?e] => let v := eval vm_compute in (256 * e) in change (256 * e) with v end.
  change (2 ^ 32) with 4294967296.
  repeat match goal with |- context [4294967296 * ?e] => let v := eval vm_compute in (4294967296 * e) in change (4294967296 * e) with v end.
  assert ((x mod 4294967296 / 16777216) mod 256 = (x / 16777216) mod 256) as -> by (Z.to_euclidean_division_equations; lia).
  assert ((x mod 4294967296 / 65536) mod 256 = (x / 65536) mod 256) as -> by (Z.to_euclidean_division_equations; lia).
  assert ((x mod 4294967296 / 256) mod 256 = (x / 256) mod 256) as -> by (Z.to_euclidean_division_equations; lia).
  by assert ((x mod 4294967296) mod 256 = x mod 256) as -> by (Z.to_euclidean_division_equations; lia).
Qed.

Lemma words_at l i w : l !! i = Some w → take 4 (drop (4 * i) (words l)) = be_bytes 4 w.
Proof.
  revert i. induction l as [|x l IH]; intros i; [done|]. unfold words. cbn [map concat]. destruct i as [|i]; cbn [lookup list_lookup].
  - intros [= ->]. by rewrite Nat.mul_0_r, drop_0, take_app_length' by (by rewrite length_be_bytes).
  - intros H. rewrite <- (IH i H). f_equal. rewrite drop_app_ge by (rewrite length_be_bytes; lia). f_equal. rewrite length_be_bytes. lia.
Qed.

(** A word of a program that is stored at the start of the mapping. *)
Lemma mapped_program mem base program i w :
  program !! i = Some w → 0 ≤ w < 2 ^ 32 → mapped (store_bytes mem base (words program)) base (4 * Z.of_nat i) = w.
Proof.
  intros Hi Hw. apply mapped_word; [lia|done|]. rewrite <- (words_at _ _ _ Hi). do 2 f_equal. lia.
Qed.

(** The program with its address, after other stores beyond the first 4096 bytes. *)
Definition setup_mem (mid : Z → Z) (base buf : Z) : Z → Z := store_bytes mid base (be_bytes 8 buf).

Definition holds_program (mid : Z → Z) (base : Z) (program : list Z) : Prop :=
  ∀ i w, program !! i = Some w → mapped mid base (4 * Z.of_nat i) = w.

Section setup.
Context (op word base buf : Z) (mid : Z → Z).
Context (Hop : decode word = Some (il 4 op)) (Hbuf : 0 ≤ buf < 2 ^ 64) (Hmid : holds_program mid base (dma_program word)).

Lemma setup_outside a : 8 ≤ a → mapped (setup_mem mid base buf) base a = mapped mid base a.
Proof. intros Ha. apply mapped_outside. by rewrite length_be_bytes. Qed.

Lemma setup_listed : listed (mapped (setup_mem mid base buf) base) 0x10 (dma_listing op).
Proof.
  intros i x Hi. rewrite setup_outside by lia.
  assert (map decode (drop 4 (dma_program word)) !! i = Some (Some x)) as H.
  { replace (map decode (drop 4 (dma_program word))) with (map Some (dma_listing op)) by (cbn [dma_program drop map]; by rewrite Hop).
    by rewrite list_lookup_fmap, Hi. }
  rewrite list_lookup_fmap, lookup_drop in H. apply fmap_Some in H as (w & Hw & ->).
  rewrite <- (Hmid _ _ Hw). by replace (0x10 + 4 * Z.of_nat i) with (4 * Z.of_nat (4 + i)) by lia.
Qed.

Lemma setup_quad : quad_at (mapped (setup_mem mid base buf) base) 0 = Quad (buf / 2 ^ 32) (buf mod 2 ^ 32) 0 0.
Proof.
  unfold quad_at. cbv zeta. change (ls_quad 0) with 0. change (0 + 4) with 4. change (0 + 8) with 8. change (0 + 12) with 12.
  rewrite (setup_outside 8), (setup_outside 12) by lia.
  rewrite (Hmid 2%nat 0 eq_refl : mapped mid base 8 = 0), (Hmid 3%nat 0 eq_refl : mapped mid base 12 = 0).
  f_equal; (apply mapped_word; [lia| |rewrite be_bytes_words by lia]).
  - change (2 ^ 64) with (2 ^ 32 * 2 ^ 32) in Hbuf. split; [apply Z.div_pos; lia|apply Z.div_lt_upper_bound; lia].
  - by rewrite drop_0, take_app_length' by (by rewrite length_be_bytes).
  - apply Z.mod_pos_bound. lia.
  - rewrite drop_app_length' by (by rewrite length_be_bytes). by rewrite take_ge by (by rewrite length_be_bytes).
Qed.
End setup.


Lemma pattern_at i : 0 ≤ i < 4096 → pattern_of 4096 !! Z.to_nat i = Some (Z.land i 0xff).
Proof.
  intros Hi. unfold pattern_of. rewrite list_lookup_fmap, lookup_seqZ_lt by lia. rewrite Z2Nat.id, Z.add_0_l by lia. done.
Qed.

Lemma pattern_byte i : 0 ≤ Z.land i 0xff < 256.
Proof. change 0xff with (Z.ones 8). rewrite Z.land_ones by lia. apply Z.mod_pos_bound. lia. Qed.

(** The pattern, stored at [addr]. *)
Definition pattern_mem (mem : Z → Z) (addr : Z) : Z → Z := store_bytes mem addr (byte_chars (pattern_of 4096)).

Lemma pattern_mem_at mem addr i : 0 ≤ i < 4096 → pattern_mem mem addr (addr + i) = Z.land i 0xff.
Proof.
  intros Hi. unfold pattern_mem. erewrite store_bytes_inside; [|lia|].
  - apply code_byte_of, (pattern_byte i).
  - unfold byte_chars. by rewrite list_lookup_fmap, pattern_at.
Qed.

Lemma pattern_mem_outside mem addr b : b < addr ∨ addr + 4096 ≤ b → pattern_mem mem addr b = mem b.
Proof.
  intros H. apply store_bytes_outside. unfold byte_chars. rewrite length_map, length_pattern_of by lia. done.
Qed.

Lemma dma_words_bound word i w : 0 ≤ word < 2 ^ 32 → dma_program word !! i = Some w → 0 ≤ w < 2 ^ 32.
Proof.
  intros Hw Hi. assert (Forall (λ w, 0 ≤ w < 2 ^ 32) (dma_program word)) as H by (repeat (apply Forall_cons; split; [lia|]); done).
  by apply (proj1 (Forall_lookup _ _) H i w).
Qed.

(** *** The memory of 01 *)

Definition get_mem (mem : Z → Z) (base buf : Z) : Z → Z :=
  setup_mem (store_bytes (pattern_mem mem buf) base (words spe_get_program)) base buf.

Lemma length_words l : length (words l) = (4 * length l)%nat.
Proof. induction l as [|x l IH]; [done|]. unfold words in *. cbn [map concat length]. rewrite length_app, IH, length_be_bytes. lia. Qed.

Lemma get_mem_program mem base : holds_program (store_bytes mem base (words spe_get_program)) base spe_get_program.
Proof. intros i w Hi. apply mapped_program; [done|]. by eapply (dma_words_bound 0x40802004). Qed.

Lemma get_mem_page mem base buf :
  buf + 4096 ≤ base ∨ base + LS_SIZE ≤ buf → mem_page (get_mem mem base buf) buf = pattern_of 4096.
Proof.
  unfold LS_SIZE. intros H. apply map_ext_in. intros i Hi%list_elem_of_In%elem_of_seqZ. unfold get_mem, setup_mem.
  rewrite !store_bytes_outside by (rewrite ?length_words, ?length_be_bytes; cbn; lia). by apply pattern_mem_at.
Qed.

(** *** The memory of 02 *)

Definition put_mem (mem : Z → Z) (base buf : Z) : Z → Z :=
  setup_mem (pattern_mem (store_bytes mem base (words spe_put_program)) (base + 0x1000)) base buf.

Lemma put_mem_program mem base :
  holds_program (pattern_mem (store_bytes mem base (words spe_put_program)) (base + 0x1000)) base spe_put_program.
Proof.
  intros i w Hi. pose proof (lookup_lt_Some _ _ _ Hi) as Hl. cbn in Hl.
  unfold mapped, word_of. rewrite !pattern_mem_outside by lia. apply mapped_program; [done|]. by eapply (dma_words_bound 0x40801004).
Qed.

Lemma ls_page_mapped mem base : (∀ b, 0 ≤ mem b < 256) → ls_page (mapped mem base) = mem_page mem (base + 0x1000).
Proof.
  intros Hm. apply map_ext_in. intros i Hi%list_elem_of_In%elem_of_seqZ. unfold ls_byte, mapped.
  rewrite (word_byte mem _ _ Hm (Z.mod_pos_bound _ 4 ltac:(lia))). f_equal. lia.
Qed.

Lemma put_mem_page mem base buf :
  (∀ b, 0 ≤ mem b < 256) → ls_page (mapped (put_mem mem base buf) base) = pattern_of 4096.
Proof.
  intros Hm. rewrite ls_page_mapped.
  - apply map_ext_in. intros i Hi%list_elem_of_In%elem_of_seqZ. unfold put_mem, setup_mem.
    rewrite store_bytes_outside by (rewrite length_be_bytes; lia). by apply pattern_mem_at.
  - unfold put_mem, setup_mem, pattern_mem. by do 3 (intros ?; apply store_bytes_range).
Qed.

(** *** The programs up to their runs *)

Lemma loads_pattern_runs addr old w :
  length old = 4096%nat →
  loads_pattern addr old w = store_ls addr (byte_chars (pattern_of 4096)) w.
Proof.
  intros Hl. unfold loads_pattern. rewrite load_pattern_spec by (rewrite Hl; done).
  change (Z.to_nat buf_size) with 4096%nat. rewrite drop_ge by lia. by rewrite app_nil_r.
Qed.

(** A call that is checked leaves memory alone. *)
Lemma opens_mem_stores kernel ctx w base w1 :
  SpuDma.opens_mem kernel ctx w = (inl base, w1) → stored (log w1) = stored (log w).
Proof.
  unfold SpuDma.opens_mem, map_mem, sys_rc, sys, SysProg.assert, mbind, P_bind, mret, P_ret, leave.
  destruct (0 <=? _); [|done]. destruct (negb _); [|done]. by intros [= _ <-].
Qed.

Lemma new_context_stores kernel name w ctx w1 :
  new_context kernel name 0 w = (inl ctx, w1) → stored (log w1) = stored (log w).
Proof.
  unfold new_context, SysProg.spu_create, sys_rc, sys, SysProg.assert, mbind, P_bind, mret, P_ret, leave.
  change (negb (Z.land 0 SPU_CREATE_AFFINITY_SPU =? 0)) with false. cbv beta iota zeta.
  match goal with |- context [0 <=? ?x] => destruct (0 <=? x) end; [|done]. by intros [= _ <-].
Qed.

Lemma bind_inl {A B} (m : P A) (f : A → P B) w b w2 :
  (m ≫= f) w = (inl b, w2) → ∃ a w1, m w = (inl a, w1) ∧ f a w1 = (inl b, w2).
Proof. unfold mbind, P_bind. destruct (m w) as [[a|s] w1]; [eauto|done]. Qed.

Lemma store_ls_inl addr data w u w1 :
  store_ls addr data w = (inl u, w1) → stored (log w1) = store_bytes (stored (log w)) addr data.
Proof. by intros [= _ <-]. Qed.

Lemma get_setup_memory kernel buf w ctx base w1 :
  get_setup kernel buf w = (inl (ctx, base), w1) → stored (log w1) = get_mem (stored (log w)) base buf.
Proof.
  unfold get_setup. intros ([] & wa & Ha & (c & wb & Hb & (b & wc & Hc & ([] & wd & Hd & ([] & we & He & [= -> -> <-])%bind_inl)%bind_inl)%bind_inl)%bind_inl)%bind_inl.
  rewrite loads_pattern_runs in Ha by apply length_replicate. apply store_ls_inl in Ha, Hd, He.
  apply new_context_stores in Hb. apply opens_mem_stores in Hc. by rewrite He, Hd, Hc, Hb, Ha.
Qed.

Lemma put_setup_memory kernel buf w ctx base w1 :
  put_setup kernel buf w = (inl (ctx, base), w1) → stored (log w1) = put_mem (stored (log w)) base buf.
Proof.
  unfold put_setup. intros (c & wb & Hb & (b & wc & Hc & ([] & wd & Hd & ([] & wa & Ha & ([] & we & He & [= -> -> <-])%bind_inl)%bind_inl)%bind_inl)%bind_inl)%bind_inl.
  rewrite loads_pattern_runs in Ha by apply length_replicate. apply store_ls_inl in Ha, Hd, He.
  apply new_context_stores in Hb. apply opens_mem_stores in Hc. by rewrite He, Ha, Hd, Hc, Hb.
Qed.

(** *** The tests *)

(** The SPE, at the start of the run of a process that has stored [mem]. *)
Definition dma_start (r : Z → quad) (mem : Z → Z) (ls_map : Z) : dma := Dma (Spu r (mapped mem ls_map) 0x10) idle_mfc mem.

(** [a] is what [spu_run] answers when a run has stopped, and [page] are the bytes
    that it leaves where [main] looks. *)
Definition run_answers (start : dma) (page : dma → list Z) (a : ans) : Prop :=
  ∃ d cd m', rtc dma_step start d ∧ spu_step (d_spu d) = Stopped cd m' ∧
    a_rc a = stop_status cd ∧ map code (a_data a) = page d.

Lemma execute_inl {A} (m : P A) (f : A → P Z) w x w1 : m w = (inl x, w1) → execute (m ≫= f) w = execute (f x) w1.
Proof. intros H. unfold execute, mbind, P_bind. by rewrite H. Qed.

Lemma runs_dma_answer kernel ctx w :
  ∃ w1, runs_dma kernel ctx w =
    (inl (wraps 32 (a_rc (kernel (log w) (SYS_spu_run ctx (Some 0x10) false))),
          map code (a_data (kernel (log w) (SYS_spu_run ctx (Some 0x10) false)))), w1).
Proof. eexists. reflexivity. Qed.

Lemma checks_answer kernel ctx w :
  a_rc (kernel (log w) (SYS_spu_run ctx (Some 0x10) false)) = stop_status 0x1337 →
  map code (a_data (kernel (log w) (SYS_spu_run ctx (Some 0x10) false))) = pattern_of 4096 →
  (execute ('(rc, page) ← runs_dma kernel ctx; checks_dma rc page) w).1 = Returned EXIT_SUCCESS.
Proof.
  intros Hrc Hd. destruct (runs_dma_answer kernel ctx w) as [w1 Hr]. rewrite Hrc, Hd in Hr.
  rewrite (execute_inl _ _ _ _ _ Hr).
  assert (length (pattern_of 4096) = 4096%nat) as Hl by (apply Nat2Z.inj, length_pattern_of; lia).
  cbv beta iota. change (wraps 32 (stop_status 0x1337)) with 0x13370002.
  by rewrite (proj2 (checks_pattern _ _ w1 Hl) (conj eq_refl eq_refl)).
Qed.

(** The image that the SPE runs. *)
Lemma get_setup_image kernel buf w ctx base w1 :
  get_setup kernel buf w = (inl (ctx, base), w1) → 0 ≤ buf < 2 ^ 64 →
  listed (mapped (stored (log w1)) base) 0x10 (dma_listing MFC_GET_CMD) ∧
  quad_at (mapped (stored (log w1)) base) 0 = Quad (buf / 2 ^ 32) (buf mod 2 ^ 32) 0 0.
Proof.
  intros Hset Hb. rewrite (get_setup_memory _ _ _ _ _ _ Hset). split.
  - by apply (setup_listed _ 0x40802004); [|apply get_mem_program].
  - by apply (setup_quad 0x40802004); [|apply get_mem_program].
Qed.

Lemma put_setup_image kernel buf w ctx base w1 :
  put_setup kernel buf w = (inl (ctx, base), w1) → 0 ≤ buf < 2 ^ 64 →
  listed (mapped (stored (log w1)) base) 0x10 (dma_listing MFC_PUT_CMD) ∧
  quad_at (mapped (stored (log w1)) base) 0 = Quad (buf / 2 ^ 32) (buf mod 2 ^ 32) 0 0.
Proof.
  intros Hset Hb. rewrite (put_setup_memory _ _ _ _ _ _ Hset). split.
  - by apply (setup_listed _ 0x40801004); [|apply put_mem_program].
  - by apply (setup_quad 0x40801004); [|apply put_mem_program].
Qed.

(** What a run of 01 has left when it has stopped. *)
Lemma get_run_page kernel buf w ctx base w1 r d code m' :
  get_setup kernel buf w = (inl (ctx, base), w1) → 0 ≤ buf < 2 ^ 64 → buf mod 128 = 0 →
  buf + 4096 ≤ base ∨ base + LS_SIZE ≤ buf →
  rtc dma_step (dma_start r (stored (log w1)) base) d → spu_step (d_spu d) = Stopped code m' →
  code = 0x1337 ∧ ls_page (ls (d_spu d)) = pattern_of 4096.
Proof.
  intros Hset Hb Ha Hdis Hr Hs. destruct (get_setup_image _ _ _ _ _ _ Hset Hb) as [Hl Hq].
  destruct (dma_runs MFC_GET_CMD buf r _ _ ltac:(by left) Hb Ha Hl Hq d code m' Hr Hs) as (-> & _ & _ & Ht). split; [done|].
  replace (ls (d_spu d)) with (transfer (page_command MFC_GET_CMD buf) (mapped (stored (log w1)) base) (stored (log w1))).1 by by rewrite <- Ht.
  rewrite get_page by apply stored_range. rewrite (get_setup_memory _ _ _ _ _ _ Hset). by apply get_mem_page.
Qed.

(** C16 [spe_get_passes]: 01-spe-get on any kernel that lets it start, with its buffer
    anywhere outside the mapping: whenever the MFC performs the command, the run of
    the SPE program that the test has stored stops; and when [spu_run] answers what
    such a run has left, the test returns success. *)
Theorem spe_get_passes kernel buf w ctx base w1 r :
  get_setup kernel buf w = (inl (ctx, base), w1) →
  0 ≤ buf < 2 ^ 64 → buf mod 128 = 0 → buf + 4096 ≤ base ∨ base + LS_SIZE ≤ buf →
  let start := dma_start r (stored (log w1)) base in
  inevitably dma_step stopped start ∧
  (run_answers start (λ d, ls_page (ls (d_spu d))) (kernel (log w1) (SYS_spu_run ctx (Some 0x10) false)) →
   (execute (dma_01_spe_get kernel buf) w).1 = Returned EXIT_SUCCESS).
Proof.
  intros Hset Hb Ha Hdis start. destruct (get_setup_image _ _ _ _ _ _ Hset Hb) as [Hl Hq].
  split; [by apply (dma_stops MFC_GET_CMD buf); auto|]. intros (d & cd & m' & Hr & Hs & Hrc & Hd).
  destruct (get_run_page _ _ _ _ _ _ _ _ _ _ Hset Hb Ha Hdis Hr Hs) as [-> Hp].
  unfold dma_01_spe_get. etrans; [exact (f_equal fst (execute_inl _ _ _ _ _ Hset))|].
  apply checks_answer; [exact Hrc|]. by etrans; [exact Hd|].
Qed.

(** [spe_put_passes]: 02-spe-put in the same way, with the pattern in local store
    at the start and in the buffer at the end. *)
Theorem spe_put_passes kernel buf w ctx base w1 r :
  put_setup kernel buf w = (inl (ctx, base), w1) → 0 ≤ buf < 2 ^ 64 → buf mod 128 = 0 →
  let start := dma_start r (stored (log w1)) base in
  inevitably dma_step stopped start ∧
  (run_answers start (λ d, mem_page (d_mem d) buf) (kernel (log w1) (SYS_spu_run ctx (Some 0x10) false)) →
   (execute (dma_02_spe_put kernel buf) w).1 = Returned EXIT_SUCCESS).
Proof.
  intros Hset Hb Ha start. destruct (put_setup_image _ _ _ _ _ _ Hset Hb) as [Hl Hq].
  split; [by apply (dma_stops MFC_PUT_CMD buf); auto|]. intros (d & cd & m' & Hr & Hs & Hrc & Hd).
  destruct (dma_runs MFC_PUT_CMD buf r _ _ ltac:(by right) Hb Ha Hl Hq d cd m' Hr Hs) as (-> & _ & _ & Ht).
  unfold dma_02_spe_put. etrans; [exact (f_equal fst (execute_inl _ _ _ _ _ Hset))|].
  apply checks_answer; [exact Hrc|]. etrans; [exact Hd|].
  replace (d_mem d) with (transfer (page_command MFC_PUT_CMD buf) (mapped (stored (log w1)) base) (stored (log w1))).2 by by rewrite <- Ht.
  rewrite put_page, (put_setup_memory _ _ _ _ _ _ Hset). apply put_mem_page, stored_range.
Qed.

(** *** Witnesses *)

(** A kernel that starts the test, with the mapping at 0x20000000; the run ends as
    the theorem says. *)
Definition dma_answer (rc : Z) (data : bytes) : ans := Ans rc 0 0 (Statbuf 0 0 0 0 0) data (0, 0) 0 [].

Definition dma_kernel (l : list event) (c : call) : ans :=
  match c with
  | SYS_spu_run _ _ _ => dma_answer (stop_status 0x1337) (byte_chars (pattern_of 4096))
  | c_mmap _ _ _ _ _ => dma_answer 0x20000000 []
  | _ => dma_answer 3 []
  end.

Definition dma_world : world := World [] 0 0 [].
Definition dma_buf : Z := 0x10020000.
Definition get_world : world := (get_setup dma_kernel dma_buf dma_world).2.
Definition put_world : world := (put_setup dma_kernel dma_buf dma_world).2.

Lemma answered_pattern : map code (byte_chars (pattern_of 4096)) = pattern_of 4096.
Proof.
  unfold byte_chars, pattern_of. rewrite !map_map. apply map_ext. intros i. apply code_byte_of.
  change 0xff with (Z.ones 8). rewrite Z.land_ones by lia. apply Z.mod_pos_bound. lia.
Qed.

Lemma get_world_set : get_setup dma_kernel dma_buf dma_world = (inl (3, 0x20000000), get_world).
Proof.
  assert ((get_setup dma_kernel dma_buf dma_world).1 = inl (3, 0x20000000)) as H.
  { unfold get_setup. unfold mbind at 1, P_bind at 1. rewrite loads_pattern_runs by apply length_replicate. vm_compute. reflexivity. }
  unfold get_world. destruct (get_setup dma_kernel dma_buf dma_world). by rewrite <- H.
Qed.

(** Some run stops, and leaves the pattern. *)
Lemma get_answers kernel buf w ctx base w1 r data :
  get_setup kernel buf w = (inl (ctx, base), w1) → 0 ≤ buf < 2 ^ 64 → buf mod 128 = 0 →
  buf + 4096 ≤ base ∨ base + LS_SIZE ≤ buf → map code data = pattern_of 4096 →
  run_answers (dma_start r (stored (log w1)) base) (λ d, ls_page (ls (d_spu d))) (dma_answer (stop_status 0x1337) data).
Proof.
  intros Hset Hb Ha Hdis Hdata. destruct (get_setup_image _ _ _ _ _ _ Hset Hb) as [Hl Hq].
  destruct (inevitably_reached _ _ _ (dma_stops MFC_GET_CMD buf r _ (stored (log w1)) ltac:(by left) Hb Ha Hl Hq)) as (d & Hr & cd & m' & Hs).
  destruct (get_run_page _ _ _ _ _ _ _ _ _ _ Hset Hb Ha Hdis Hr Hs) as [-> Hp].
  exists d, 0x1337, m'. split_and!; [exact Hr|exact Hs|done|]. by etrans.
Qed.

Lemma spe_get_passes_witness :
  get_setup dma_kernel dma_buf dma_world = (inl (3, 0x20000000), get_world) ∧
  inevitably dma_step stopped (dma_start (λ _, splat 0) (stored (log get_world)) 0x20000000) ∧
  (execute (dma_01_spe_get dma_kernel dma_buf) dma_world).1 = Returned EXIT_SUCCESS.
Proof.
  assert (Hb : 0 ≤ dma_buf < 2 ^ 64) by (unfold dma_buf; lia).
  assert (Hd : dma_buf + 4096 ≤ 0x20000000 ∨ 0x20000000 + LS_SIZE ≤ dma_buf) by (left; unfold dma_buf; lia).
  destruct (spe_get_passes dma_kernel dma_buf dma_world 3 0x20000000 get_world (λ _, splat 0) get_world_set Hb eq_refl Hd) as [H1 H2].
  split; [exact get_world_set|]. split; [exact H1|]. apply H2.
  exact (get_answers _ _ _ _ _ _ (λ _, splat 0) _ get_world_set Hb eq_refl Hd answered_pattern).
Defined.
