(* ===== verification/SpuRuns.v ===== *)
(** * Runs of the test programs, and loops of attempts

    [runs m w r evs]: from [w] the program ends with [r] and has made the calls
    [evs], in this order.  [sweep] is the outcome of a loop that stops at the
    first attempt that goes wrong. *)

From S2P Require Import Prelude CString SysProg.

Local Open Scope Z_scope.

Definition runs {A} (m : P A) (w : world) (r : A + stop) (evs : list event) : Prop :=
  (m w).1 = r ∧ log (m w).2 = rev evs ++ log w.

Lemma runs_ret {A} (a : A) w : runs (mret a) w (inl a) [].
Proof. done. Qed.

Lemma runs_bind {A B} (m : P A) (f : A → P B) w a r e1 e2 :
  runs m w (inl a) e1 → runs (f a) (m w).2 r e2 → runs (m ≫= f) w r (e1 ++ e2).
Proof.
  unfold runs, mbind, P_bind. destruct (m w) as [x w1]. cbn. intros [-> H1] [H2 H3].
  rewrite rev_app_distr, <- app_assoc, <- H1. done.
Qed.

Lemma runs_stop {A B} (m : P A) (f : A → P B) w s e : runs m w (inr s) e → runs (m ≫= f) w (inr s) e.
Proof. unfold runs, mbind, P_bind. destruct (m w) as [x w1]. cbn. by intros [-> H1]. Qed.

Lemma runs_execute (m : P Z) w r evs :
  runs m w r evs →
  (execute m w).1 = match r with inl rc => Returned rc | inr s => s end ∧
  log (execute m w).2 = rev evs ++ log w.
Proof. unfold runs, execute. destruct (m w) as [[a|s] w1]; cbn; by intros [<- ->]. Qed.

(** Every attempt went well, or the one after [l1] did not and ended the
    program. *)
Definition sweep {A} (good : A → list event → Prop) (bad : A → stop → list event → Prop)
    (l : list A) (r : unit + stop) (evs : list event) : Prop :=
  match r with
  | inl _ => ∃ es, evs = concat es ∧ Forall2 good l es
  | inr s => ∃ l1 x l2 es e, l = l1 ++ x :: l2 ∧ Forall2 good l1 es ∧ bad x s e ∧ evs = concat es ++ e
  end.

Lemma sweep_nil {A} (good : A → list event → Prop) bad : sweep good bad [] (inl tt) [].
Proof. by exists []. Qed.

Lemma sweep_cons {A} (good : A → list event → Prop) bad x l r e evs :
  good x e → sweep good bad l r evs → sweep good bad (x :: l) r (e ++ evs).
Proof.
  intros Hx. destruct r as [[]|s]; cbn.
  - intros (es & -> & H). exists (e :: es). split; [done|]. by constructor.
  - intros (l1 & y & l2 & es & e' & -> & H & Hb & ->). exists (x :: l1), y, l2, (e :: es), e'.
    split_and!; try done; [by constructor|]. cbn. by rewrite app_assoc.
Qed.

Lemma sweep_stop {A} (good : A → list event → Prop) (bad : A → stop → list event → Prop) x l s e :
  bad x s e → sweep good bad (x :: l) (inr s) e.
Proof. intros H. exists [], x, l, [], e. by split_and!; try constructor. Qed.

(** Attempts that are skipped leave no trace. *)
Lemma sweep_skip {A} (good : A → list event → Prop) bad (keep : A → bool) l r evs :
  sweep (λ x e, if keep x then good x e else e = []) (λ x s e, keep x = true ∧ bad x s e) l r evs →
  sweep good bad (filter (λ x, keep x = true) l) r evs.
Proof.
  assert (∀ k es, Forall2 (λ x e, if keep x then good x e else e = []) k es →
    ∃ es', concat es' = concat es ∧ Forall2 good (filter (λ x, keep x = true) k) es') as Hf.
  { induction 1 as [|x e k es Hx _ (es' & He & IH)]; [by exists []|]. cbn.
    destruct (keep x) eqn:Hk; [|rewrite Hx; by exists es'].
    exists (e :: es'). cbn. rewrite He. split; [done|by constructor]. }
  destruct r as [[]|s]; cbn.
  - intros (es & -> & H). apply Hf in H as (es' & <- & H). by exists es'.
  - intros (l1 & x & l2 & es & e & -> & H & [Hk Hb] & ->). apply Hf in H as (es' & <- & H).
    exists (filter (λ x, keep x = true) l1), x, (filter (λ x, keep x = true) l2), es', e.
    rewrite filter_app, filter_cons_True by done. done.
Qed.

Lemma for_each_sweep {A} (body : A → P unit) good bad l :
  (∀ x w, x ∈ l → ∃ r e, runs (body x) w r e ∧
     match r with inl _ => good x e | inr s => bad x s e end) →
  ∀ w, ∃ r evs, runs (for_each l body) w r evs ∧ sweep good bad l r evs.
Proof.
  induction l as [|x l IH]; intros H w.
  - exists (inl tt), []. split; [done|apply sweep_nil].
  - destruct (H x w ltac:(by left)) as (r & e & Hr & Hx). destruct r as [[]|s].
    + destruct (IH (λ y w Hy, H y w ltac:(by right)) (body x w).2) as (r' & evs & Hr' & Hs).
      exists r', (e ++ evs). split; [by eapply runs_bind|by apply sweep_cons].
    + exists (inr s), e. split; [by apply runs_stop|by apply sweep_stop].
Qed.

(** ** Symbolic execution

    [wp m w Q]: the program run from [w] ends, with a result and calls that
    satisfy [Q]. *)

Definition wp {A} (m : P A) (w : world) (Q : A + stop → list event → Prop) : Prop :=
  ∃ r evs, runs m w r evs ∧ Q r evs.

Lemma wp_ret {A} (a : A) w Q : Q (inl a) [] → wp (mret a) w Q.
Proof. intros. by exists (inl a), []. Qed.

Lemma wp_leave {A} s w (Q : A + stop → list event → Prop) : Q (inr s) [] → wp (leave s) w Q.
Proof. intros. by exists (inr s), []. Qed.

Lemma wp_mono {A} (m : P A) w (Q Q' : A + stop → list event → Prop) :
  wp m w Q → (∀ r e, Q r e → Q' r e) → wp m w Q'.
Proof. intros (r & e & H & HQ) Hm. exists r, e. auto. Qed.

Lemma wp_bind {A B} (m : P A) (f : A → P B) w Q :
  wp m w (λ r e, match r with
                 | inl a => ∀ w', log w' = rev e ++ log w → wp (f a) w' (λ r' e', Q r' (e ++ e'))
                 | inr s => Q (inr s) e
                 end) → wp (m ≫= f) w Q.
Proof.
  intros (r & e & H & HQ). destruct r as [a|s].
  - destruct (HQ (m w).2 (proj2 H)) as (r' & e' & H' & HQ'). exists r', (e ++ e').
    split; [by eapply runs_bind|done].
  - exists (inr s), e. split; [by apply runs_stop|done].
Qed.

Lemma wp_ret_bind {A B} (a : A) (f : A → P B) w Q : wp (f a) w Q → wp (mret a ≫= f) w Q.
Proof. done. Qed.

Lemma wp_leave_bind {A B} s (f : A → P B) w Q : Q (inr s) [] → wp (leave s ≫= f) w Q.
Proof. intros. by exists (inr s), []. Qed.

Lemma wp_assoc {A B C} (m : P A) (f : A → P B) (g : B → P C) w Q :
  wp (m ≫= λ a, f a ≫= g) w Q → wp ((m ≫= f) ≫= g) w Q.
Proof.
  intros (r & e & H & HQ). exists r, e. split; [|done]. unfold runs, mbind, P_bind in *.
  by destruct (m w) as [[a|s] w1].
Qed.

Lemma wp_assert {B} b (k : P B) w Q :
  (b = true → wp k w Q) → (b = false → Q (inr Aborted) []) → wp (assert b;; k) w Q.
Proof. intros H1 H2. destruct b; [by apply H1|by apply (wp_leave_bind Aborted), H2]. Qed.

Lemma wp_get_errno {B} (k : Z → P B) w Q : wp (k (errno w)) w Q → wp (get_errno ≫= k) w Q.
Proof. done. Qed.

Lemma wp_next_name_i {B} (k : Z → P B) w Q :
  wp (k (name_i w)) (World (log w) (errno w) (wraps 32 (name_i w + 1)) (printed w)) Q →
  wp (next_name_i ≫= k) w Q.
Proof. done. Qed.

Lemma wp_fprintf {B} f s (k : P B) w Q :
  wp k (World (log w) (errno w) (name_i w) (printed w ++ [(f, s)])) Q → wp (fprintf f s;; k) w Q.
Proof. done. Qed.

Lemma wp_if {A} (b : bool) (m1 m2 : P A) w Q :
  (b = true → wp m1 w Q) → (b = false → wp m2 w Q) → wp (if b then m1 else m2) w Q.
Proof. destruct b; auto. Qed.

Lemma wp_if_bind {A B} (b : bool) (m1 m2 : P A) (k : A → P B) w Q :
  (b = true → wp (m1 ≫= k) w Q) → (b = false → wp (m2 ≫= k) w Q) → wp ((if b then m1 else m2) ≫= k) w Q.
Proof. destruct b; auto. Qed.

Section calls.
Context (kernel : list event → call → ans).

Lemma wp_sys {B} c (k : ans → P B) w Q :
  (∀ a, a = kernel (log w) c →
    wp (k a) (World ((c, a) :: log w) (a_errno a) (name_i w) (printed w)) (λ r e, Q r ((c, a) :: e))) →
  wp (sys kernel c ≫= k) w Q.
Proof.
  intros H. destruct (H _ eq_refl) as (r & e & [H1 H2] & HQ).
  exists r, ((c, kernel (log w) c) :: e). split; [|exact HQ]. split; [exact H1|].
  etrans; [exact H2|]. cbn. by rewrite <- app_assoc.
Qed.

(** The calls of [name_spu_context] and [name_spu_gang]. *)
Definition naming (name : bytes) (pid alloc : ans) : list event :=
  [(c_getpid, pid); (c_asprintf name, alloc)].

Lemma wp_naming {B} (f : Z → Z → bytes) (k : bytes → P B) w Q :
  (∀ pid alloc, let name := f (a_rc pid) (name_i w) in
    (a_rc alloc = -1 → Q (inr Aborted) (naming name pid alloc)) ∧
    (a_rc alloc ≠ -1 → ∀ w', log w' = rev (naming name pid alloc) ++ log w →
      wp (k name) w' (λ r e, Q r (naming name pid alloc ++ e)))) →
  wp ((pid ← sys_rc kernel c_getpid; i ← next_name_i;
       rc ← sys_rc kernel (c_asprintf (f pid i)); assert (negb (rc =? -1));; mret (f pid i)) ≫= k) w Q.
Proof.
  intros H. apply wp_assoc. unfold sys_rc. apply wp_assoc, wp_sys. intros pid _. apply wp_ret_bind.
  apply wp_assoc, wp_next_name_i. cbn [name_i log errno printed].
  apply wp_assoc, wp_assoc, wp_sys. intros alloc _. apply wp_ret_bind, wp_assoc.
  destruct (H pid alloc) as [H1 H2]. apply wp_assert; intros E.
  - apply wp_ret_bind. apply negb_true_iff, Z.eqb_neq in E. by apply H2.
  - apply negb_false_iff, Z.eqb_eq in E. by apply H1.
Qed.
End calls.

Lemma wp_execute (m : P Z) w Q :
  wp m w (λ r e, Q (match r with inl rc => Returned rc | inr s => s end) e) →
  ∃ s e w', execute m w = (s, w') ∧ log w' = rev e ++ log w ∧ Q s e.
Proof.
  intros (r & e & H & HQ). apply runs_execute in H as [E H].
  exists (execute m w).1, e, (execute m w).2. rewrite E. split; [|done].
  rewrite <- E. by destruct (execute m w).
Qed.

Lemma wp_for_each {A B} (body : A → P unit) good bad l (k : P B) w Q :
  (∀ x w, x ∈ l → wp (body x) w (λ r e, match r with inl _ => good x e | inr s => bad x s e end)) →
  (∀ e, sweep good bad l (inl tt) e → ∀ w', log w' = rev e ++ log w → wp k w' (λ r e', Q r (e ++ e'))) →
  (∀ s e, sweep good bad l (inr s) e → Q (inr s) e) →
  wp (for_each l body;; k) w Q.
Proof.
  intros Hb H1 H2. apply wp_bind. destruct (for_each_sweep body good bad l Hb w) as (r & e & H & Hs).
  exists r, e. split; [done|]. destruct r as [[]|s]; auto.
Qed.

(** One step of a program. *)
Ltac wp_step :=
  lazymatch goal with
  | |- wp (let _ := _ in _) _ _ => cbv zeta
  | |- wp ((_ ≫= _) ≫= _) _ _ => apply wp_assoc
  | |- wp ((let _ := _ in _) ≫= _) _ _ => cbv zeta
  | |- wp (mret _ ≫= _) _ _ => apply wp_ret_bind
  | |- wp (mret _) _ _ => apply wp_ret
  | |- wp (leave _ ≫= _) _ _ => apply wp_leave_bind
  | |- wp (leave _) _ _ => apply wp_leave
  | |- wp (return_main _ ≫= _) _ _ => apply wp_leave_bind
  | |- wp (return_main _) _ _ => apply wp_leave
  | |- wp (assert _;; _) _ _ => apply wp_assert; intros ?
  | |- wp (get_errno ≫= _) _ _ => apply wp_get_errno; cbn [errno]
  | |- wp (fprintf _ _;; _) _ _ => apply wp_fprintf; cbn [log errno name_i printed]
  | |- wp (sys _ _ ≫= _) _ _ =>
      let a := fresh "a" in apply wp_sys; intros a _; cbn [log errno name_i printed]
  | |- wp ((if _ then _ else _) ≫= _) _ _ => apply wp_if_bind; intros ?
  | |- wp (if _ then _ else _) _ _ => apply wp_if; intros ?
  end.
