(* ===== verification/SpuProps.v ===== *)
(** * What the test programs accept

    For every kernel: which calls a test makes, and that it passes exactly when
    the answers are the ones it is written to demand. *)

From S2P Require Import Prelude CString SysProg SpuTests SpuRuns.

Local Open Scope Z_scope.

(** The loops of the programs are opaque to the steps that run them. *)
Ltac wp_open := unfold complain_if, fail_if, close_, new_context, spu_create, spu_run, perror, sys_rc.
Ltac wp_steps := wp_open; repeat wp_step.

Ltac bool_props :=
  rewrite ?negb_true_iff, ?negb_false_iff, ?Z.eqb_eq, ?Z.eqb_neq, ?Z.leb_le, ?Z.leb_gt, ?Z.ltb_lt, ?Z.ltb_ge in *.

(** The answer to [spu_create] as the wrapper gives it. *)
Definition created (a : ans) : Z := wraps 32 (a_rc a).

(** ** 02-spu_create/03-invalid-flags *)

(** The attempt with the flag [bit], and whether it was refused as it must be. *)
Definition invalid_try (name : bytes) (bit : Z) (a : ans) : event :=
  (SYS_spu_create (Some name) (Z.shiftl 1 bit) 0 None, a).

Definition refused (a : ans) : Prop := created a = -1 ∧ a_errno a = EINVAL.

Definition unassigned (bit : Z) : bool := Z.land (Z.shiftl 1 bit) spu_create_all_flags =? 0.

Lemma unassigned_bits : filter (λ b, unassigned b = true) (seqZ 0 32) = seqZ 6 26.
Proof. vm_compute. reflexivity. Qed.

(** A flag without a meaning does not ask for a neighbour. *)
Lemma no_neighbour_flag f :
  Z.land f spu_create_all_flags = 0 → Z.land f SPU_CREATE_AFFINITY_SPU ≠ 0 → False.
Proof.
  intros H E. apply E. change SPU_CREATE_AFFINITY_SPU with (Z.land spu_create_all_flags SPU_CREATE_AFFINITY_SPU).
  by rewrite Z.land_assoc, H.
Qed.

Lemma try_invalid_flag_spec kernel name bit w :
  wp (try_invalid_flag kernel name bit) w (λ r e,
    match r with
    | inl _ => if unassigned bit then ∃ a, e = [invalid_try name bit a] ∧ refused a else e = []
    | inr s => unassigned bit = true ∧
               (s = Returned 1 ∧ ∃ a, e = [invalid_try name bit a] ∧ ¬ refused a)
    end).
Proof.
  unfold try_invalid_flag, unassigned. wp_steps; bool_props.
  - rewrite (proj2 (Z.eqb_neq _ _)) by done. done.
  - exfalso. by eapply no_neighbour_flag.
  - rewrite H. split_and!; try done. eexists. split; [done|]. by intros [? _].
  - rewrite H. split_and!; try done. eexists. split; [done|]. by intros [_ ?].
  - rewrite H. by eexists.
Qed.

(** [invalid_flags_verdict]: 03-invalid-flags makes one attempt for each of
    the bits 6 to 31, which are those without a meaning, stops with failure at
    the first that is not refused with EINVAL, and passes exactly when all are. *)
Theorem invalid_flags_verdict kernel w :
  ∃ s evs w', execute (spu_create_03_invalid_flags kernel) w = (s, w') ∧ log w' = rev evs ++ log w ∧
    ∃ name pid alloc, name = context_name (lit "/spu") (a_rc pid) (name_i w) ∧
     ((s = Aborted ∧ a_rc alloc = -1 ∧ evs = naming name pid alloc) ∨
      (a_rc alloc ≠ -1 ∧ ∃ r tries, evs = naming name pid alloc ++ tries ∧
        (s = match r with inl _ => Returned 0 | inr s => s end) ∧
        sweep (λ bit e, ∃ a, e = [invalid_try name bit a] ∧ refused a)
              (λ bit s e, s = Returned 1 ∧ ∃ a, e = [invalid_try name bit a] ∧ ¬ refused a)
              (seqZ 6 26) r tries)).
Proof.
  apply wp_execute. apply (wp_naming kernel (context_name (lit "/spu"))). intros pid alloc. cbn zeta.
  split; intros Ha.
  { eexists _, pid, alloc. split; [done|]. by left. }
  intros w1 Hw1. eapply wp_for_each.
  - intros bit w2 _. apply try_invalid_flag_spec.
  - intros e He w2 _. apply wp_ret. apply sweep_skip in He. rewrite unassigned_bits in He.
    eexists _, pid, alloc. split; [done|]. right. split; [done|].
    exists (inl tt), e. rewrite app_nil_r. by split_and!.
  - intros s e He. apply sweep_skip in He. rewrite unassigned_bits in He.
    eexists _, pid, alloc. split; [done|]. right. split; [done|]. by exists (inr s), e.
Qed.

(** ** 02-spu_create/04-mode *)

(** One mode: the context is created with it, shows it, and is closed again. *)
Definition mode_calls (name : bytes) (pid alloc : ans) (mode : Z) (c st : ans) : list event :=
  naming name pid alloc ++ [(SYS_spu_create (Some name) 0 mode None, c); (c_fstat (created c), st)].

Definition shows (mode : Z) (st : ans) : Prop :=
  a_rc st = 0 ∧ Z.land (st_mode (a_stat st)) TEST_MODES = mode.

Definition mode_good (mode : Z) (e : list event) : Prop :=
  ∃ name pid alloc c st cl, e = mode_calls name pid alloc mode c st ++ [(c_close (created c), cl)] ∧
    0 ≤ created c ∧ shows mode st.

Definition mode_bad (mode : Z) (s : stop) (e : list event) : Prop :=
  ∃ name pid alloc c st,
    (s = Aborted ∧ a_rc alloc = -1 ∧ e = naming name pid alloc) ∨
    (s = Aborted ∧ created c < 0 ∧
     e = naming name pid alloc ++ [(SYS_spu_create (Some name) 0 mode None, c)]) ∨
    (s = Returned 1 ∧ e = mode_calls name pid alloc mode c st ∧ ¬ shows mode st).

Lemma all_modes mode : mode ∈ seqZ 0 (TEST_MODES + 1) → Z.land mode TEST_MODES = mode.
Proof.
  rewrite elem_of_seqZ. unfold TEST_MODES. intros H. change 0x1FF with (Z.ones 9).
  rewrite Z.land_ones by lia. apply Z.mod_small. lia.
Qed.

Lemma try_mode_spec kernel strerror mode w :
  Z.land mode TEST_MODES = mode →
  wp (try_mode kernel strerror mode) w
    (λ r e, match r with inl _ => mode_good mode e | inr s => mode_bad mode s e end).
Proof.
  intros Hm. unfold try_mode. rewrite (proj2 (Z.eqb_eq _ _) Hm). cbn [negb].
  apply (wp_naming kernel (context_name (lit "/spu"))). intros pid alloc. cbn zeta. set (name := context_name _ _ _).
  split; [intros Ha; exists name, pid, alloc, alloc, alloc; by left|]. intros Ha w1 _.
  wp_steps; bool_props; try done.
  - eexists name, pid, alloc, a, a0. right. right. split_and!; try done. by intros [? _].
  - eexists name, pid, alloc, a, a0. right. right. split_and!; try done. by intros [_ ?].
  - eexists name, pid, alloc, a, a0, a1. by split_and!.
  - eexists name, pid, alloc, a, a. right. by left.
Qed.

(** [mode_verdict]: 04-mode tries the 512 modes from 0 to 0777 in order, with
    an empty umask; it passes exactly when each context shows the mode it was
    created with, and then every descriptor it got is closed; it fails at the
    first context that shows another mode, and aborts when one is not created. *)
Theorem mode_verdict kernel strerror file w :
  ∃ s evs w', execute (spu_create_04_mode kernel strerror file) w = (s, w') ∧ log w' = rev evs ++ log w ∧
    ∃ um r tries, evs = (c_umask 0, um) :: tries ∧ (s = match r with inl _ => Returned 0 | inr s => s end) ∧
      sweep mode_good mode_bad (seqZ 0 512) r tries.
Proof.
  apply wp_execute. unfold spu_create_04_mode, sys_rc. do 4 wp_step.
  eapply wp_for_each.
  - intros mode w2 Hm. apply try_mode_spec, all_modes, Hm.
  - intros e He w2 _. apply wp_ret. exists a, (inl tt), e. by rewrite app_nil_r.
  - intros s e He. by exists a, (inr s), e.
Qed.

(** ** 02-spu_create/05-files *)

Definition file_try (ctx : Z) (f : spufs_file) (a : ans) : event := (c_fstatat ctx (sf_name f), a).

Definition file_as_listed (f : spufs_file) (a : ans) : Prop :=
  a_rc a = 0 ∧ st_mode (a_stat a) = sf_mode f ∧ st_size (a_stat a) = sf_size f.

Lemma check_file_spec kernel strerror ctx f w :
  wp (check_file kernel strerror ctx f) w (λ r e, ∃ a, e = [file_try ctx f a] ∧
    match r with inl _ => file_as_listed f a | inr s => s = Returned 1 ∧ ¬ file_as_listed f a end).
Proof.
  unfold check_file. wp_steps; bool_props; (eexists; split; [done|]).
  - split; [done|]. by intros (? & _).
  - split; [done|]. by intros (_ & ? & _).
  - split; [done|]. by intros (_ & _ & ?).
  - by split_and!.
Qed.

Definition file_good (ctx : Z) (f : spufs_file) (e : list event) : Prop :=
  ∃ a, e = [file_try ctx f a] ∧ file_as_listed f a.

Definition file_bad (ctx : Z) (f : spufs_file) (s : stop) (e : list event) : Prop :=
  s = Returned 1 ∧ ∃ a, e = [file_try ctx f a] ∧ ¬ file_as_listed f a.

(** [files_verdict]: 05-files looks at the 34 files of its table in order and
    passes exactly when each is there with the listed mode and size, failing at
    the first that is not; a pass closes the context. *)
Theorem files_verdict kernel strerror w :
  ∃ s evs w', execute (spu_create_05_files kernel strerror) w = (s, w') ∧ log w' = rev evs ++ log w ∧
    ∃ um c, let start := [(c_umask 0, um); (SYS_spu_create (Some (lit "/spu/05-files")) 0 0x1FF None, c)] in
      (s = Aborted ∧ created c < 0 ∧ evs = start) ∨
      (0 ≤ created c ∧ ∃ r tries, evs = start ++ tries ++ (if r is inl cl then [(c_close (created c), cl)] else []) ∧
        s = match r with inl _ => Returned 0 | inr s => s end ∧
        sweep (file_good (created c)) (file_bad (created c))
              spufs_files (match r with inl _ => inl tt | inr s => inr s end) tries).
Proof.
  apply wp_execute. unfold spu_create_05_files. wp_open. repeat wp_step; bool_props; try done.
  - eapply (wp_for_each _ (file_good (created a0)) (file_bad (created a0))).
    + intros f w2 _. eapply wp_mono; [apply check_file_spec|].
      intros [[]|s] e (a1 & -> & H1); [by exists a1|]. destruct H1 as [-> H1]. split; [done|]. by exists a1.
    + intros e He w2 _. wp_steps. eexists _, _. right. split; [done|].
      exists (inl a1), e. by split_and!.
    + intros s e He. eexists _, _. right. split; [done|]. exists (inr s), e. rewrite app_nil_r. by split_and!.
  - eexists _, _. left. by split_and!.
Qed.

(** ** 03-spu_run/05-entry *)

(** Round [i] of the loop: [spu_run] from [4 * i], and whether it stopped after
    the instruction there. *)
Definition entry_try (ctx i : Z) (a : ans) : event := (SYS_spu_run ctx (Some (4 * i)) false, a).

Definition advanced (i : Z) (a : ans) : Prop :=
  0 ≤ wraps 32 (a_rc a) ∧ wrapu 32 (a_npc a) = (4 * (i + 1)) mod LS_SIZE.

Definition entry_good (ctx i : Z) (e : list event) : Prop := ∃ a, e = [entry_try ctx i a] ∧ advanced i a.

Definition entry_bad (ctx i : Z) (s : stop) (e : list event) : Prop :=
  s = Returned 1 ∧ ∃ a, e = [entry_try ctx i a] ∧ ¬ advanced i a.

(** The C types do not change the expected entry. *)
Lemma expected_entry i :
  0 ≤ i < 65536 → wraps 32 (wrapu 32 (4 * i + 4) mod LS_SIZE) = (4 * (i + 1)) mod LS_SIZE.
Proof.
  intros Hi. unfold wrapu. rewrite (Z.mod_small (4 * i + 4)) by lia.
  replace (4 * i + 4) with (4 * (i + 1)) by lia.
  pose proof (Z.mod_pos_bound (4 * (i + 1)) LS_SIZE eq_refl). unfold LS_SIZE in *.
  unfold wraps. rewrite Z.mod_small; lia.
Qed.

Lemma wrapu_entry i : wrapu 32 ((4 * (i + 1)) mod LS_SIZE) = (4 * (i + 1)) mod LS_SIZE.
Proof.
  pose proof (Z.mod_pos_bound (4 * (i + 1)) LS_SIZE eq_refl). unfold LS_SIZE in *.
  unfold wrapu. rewrite (Z.mod_small _ (2 ^ 32)); lia.
Qed.

Lemma entry_fails ctx i l a :
  ¬ advanced i a → sweep (entry_good ctx) (entry_bad ctx) (i :: l) (inr (Returned 1)) [entry_try ctx i a].
Proof. intros H. apply sweep_stop. split; [done|]. by exists a. Qed.

(** The entry is 0 again after the last round only. *)
Lemma entry_wraps i : 0 ≤ i < 65536 → (4 * (i + 1)) mod LS_SIZE = 0 ↔ i = 65535.
Proof.
  intros Hi. unfold LS_SIZE. split; [|by intros ->]. intros H.
  destruct (decide (i = 65535)); [done|]. rewrite Z.mod_small in H; lia.
Qed.

Lemma entry_loop_spec kernel strerror ctx k n i w :
  i + Z.of_nat k = 65535 → 0 ≤ i → (k < n)%nat →
  wp (entry_loop kernel strerror n ctx (4 * i)) w
    (λ r e, sweep (entry_good ctx) (entry_bad ctx) (i :: seqZ (i + 1) (Z.of_nat k)) r e).
Proof.
  revert n i w. induction k as [|k IH]; intros n i w Hik Hi Hn; (destruct n as [|n]; [lia|]);
    cbn [entry_loop]; rewrite expected_entry, wrapu_entry by lia; wp_steps; bool_props.
  all: lazymatch goal with
       | H : wraps _ _ < 0 |- _ => apply entry_fails; intros [? _]; lia
       | H : wrapu _ _ ≠ _ mod _ |- _ => by apply entry_fails; intros [_ ?]
       | |- _ => idtac
       end.
  - exfalso. apply H1. rewrite H0. apply entry_wraps; lia.
  - apply (sweep_cons _ _ _ _ _ [_]); [|apply sweep_nil]. exists a. by split.
  - assert (i + 1 < 65536) by lia.
    assert (wrapu 32 (a_npc a) = 4 * (i + 1)) as ->.
    { etrans; [eassumption|]. unfold LS_SIZE. apply Z.mod_small. lia. }
    eapply wp_mono; [apply IH; lia|]. intros r e Hs. cbn beta.
    apply (sweep_cons _ _ _ _ _ [_]); [by exists a|].
    rewrite (seqZ_cons (i + 1)) by lia. by replace (Z.pred (Z.of_nat (S k))) with (Z.of_nat k) by lia.
  - exfalso. assert (i = 65535); [|lia]. apply entry_wraps; [lia|congruence].
Qed.

(** [entry_verdict]: 05-entry ends on every kernel: 65536 rounds of its loop
    are always enough (more change nothing).  Round [i] runs the context from
    [4 * i]; the test passes exactly when every round stops one word further,
    the last one back at 0 where local store ends, and fails at the first round
    that does not. *)
Theorem entry_verdict kernel strerror k w :
  ∃ s evs w', execute (spu_run_05_entry kernel strerror (Z.to_nat 65536 + k)) w = (s, w') ∧
    log w' = rev evs ++ log w ∧
    ∃ c, let start := [(SYS_spu_create (Some (lit "/spu/05-entry")) 0 0x1ED None, c)] in
      (s = Aborted ∧ created c < 0 ∧ evs = start) ∨
      (0 ≤ created c ∧ ∃ r rounds, evs = start ++ rounds ∧
        s = match r with inl _ => Returned 0 | inr s => s end ∧
        sweep (entry_good (created c)) (entry_bad (created c)) (seqZ 0 65536) r rounds).
Proof.
  assert (Z.to_nat 65535 < Z.to_nat 65536 + k)%nat as Hn by lia.
  revert Hn. generalize (Z.to_nat 65536 + k)%nat. intros n Hn.
  apply wp_execute. unfold spu_run_05_entry. wp_open. repeat wp_step; bool_props; try done.
  - apply wp_bind. eapply wp_mono; [apply (entry_loop_spec kernel strerror _ (Z.to_nat 65535) n 0); lia|].
    cbn beta. rewrite Z2Nat.id by lia. change (0 :: seqZ (0 + 1) 65535) with (0 :: seqZ (Z.succ 0) (Z.pred 65536)).
    rewrite <- seqZ_cons by lia. intros [[]|s] e Hs.
    + intros w' _. apply wp_ret. exists a. right. split; [done|]. exists (inl tt), e. by rewrite app_nil_r.
    + exists a. right. split; [done|]. by exists (inr s), e.
  - exists a. left. by split_and!.
Qed.

(** ** 06-context-lifetime *)

(** The gang is there, its last descriptor is closed, and it is not there. *)
Definition gone_on_close (gang : bytes) (fd : Z) (e : list event) : Prop :=
  ∃ st1 cl st2, e = [(c_stat gang, st1); (c_close fd, cl); (c_stat gang, st2)] ∧
    a_rc st1 = 0 ∧ a_rc cl = 0 ∧ a_rc st2 ≠ 0 ∧ a_errno st2 = ENOENT.

(** A run that did not get as far as [gone_on_close], or got a wrong answer. *)
Ltac not_gone := intros (st1 & cl & st2 & E & ?); injection E as ?; subst; intuition congruence.

Lemma check_gang_presence_spec kernel strerror gang fd w :
  wp (check_gang_presence_on_close kernel strerror gang fd) w (λ r e, ∃ rc, r = inl rc ∧
    ((rc = 0 ∧ gone_on_close gang fd e) ∨ (rc = -1 ∧ ¬ gone_on_close gang fd e))).
Proof.
  unfold check_gang_presence_on_close. wp_steps; bool_props; eexists; (split; [done|]).
  1, 2, 3, 4: right; split; [done|not_gone].
  left. split; [done|]. eexists _, _, _. by split_and!.
Qed.

(** Equal logs have equal answers. *)
Ltac log_eq E := unfold naming in E; cbn [app] in E; rewrite ?app_nil_r in E; injection E; clear E; intros; subst.

(** [internal_reference_verdict]: 02-internal-reference passes exactly when
    the gang it creates can be opened by name, survives the [close] of the
    descriptor it was created with, and is gone (ENOENT) once the opened
    descriptor is closed; it makes no other call. *)
Theorem internal_reference_verdict kernel strerror w :
  ∃ s evs w', execute (lifetime_02_internal_reference kernel strerror) w = (s, w') ∧
    log w' = rev evs ++ log w ∧ (s = Returned 0 ∨ s = Returned 1 ∨ s = Aborted) ∧
    (s = Returned 0 ↔ ∃ pid alloc g o cl e,
      let gang := gang_name (a_rc pid) (name_i w) in
      evs = naming gang pid alloc ++ [(SYS_spu_create (Some gang) SPU_CREATE_GANG 0x1C0 None, g);
                                       (c_open gang O_RDONLY, o); (c_close (created g), cl)] ++ e ∧
      a_rc alloc ≠ -1 ∧ 0 ≤ created g ∧ 0 ≤ a_rc o ∧ a_rc cl = 0 ∧ gone_on_close gang (a_rc o) e).
Proof.
  apply wp_execute. apply (wp_naming kernel gang_name). intros pid alloc. cbn zeta.
  set (gang := gang_name _ _). split; intros Ha.
  { split; [tauto|]. split; [done|]. by intros (?&?&?&?&?&?&E&_). }
  intros w1 Hw1. wp_steps; bool_props; try done.
  1, 3, 4: split; [tauto|]; split; [done|]; intros (?&?&?&?&?&?&E&?); log_eq E; intuition (congruence || lia).
  apply wp_bind. eapply wp_mono; [apply check_gang_presence_spec|].
  intros r e (rc & -> & Hrc) w2 _. wp_steps; bool_props.
  - destruct Hrc as [[-> _]|[-> Hg]]; [done|]. split; [tauto|]. split; [done|].
    intros (?&?&?&?&?&?&E&?). log_eq E. tauto.
  - destruct Hrc as [[-> Hg]|[-> _]]; [|done]. split; [tauto|]. split; [|done]. intros _.
    eexists _, _, _, _, _, _. rewrite app_nil_r. by split_and!.
Qed.

(** ** 20-scheduler/02-yield-starvation *)

Definition starved_creates (l : list Z) (cs : list ans) : list event :=
  zip_with (λ x c, (SYS_spu_create (Some (starved_name x)) 0 0x1ED None, c)) l cs.

(** Each run starts where the one before it, of another context, has stopped. *)
Fixpoint starved_runs (entry : Z) (ctxs : list Z) (rs : list ans) : list event :=
  match ctxs, rs with
  | ctx :: ctxs, r :: rs => (SYS_spu_run ctx (Some entry) false, r) :: starved_runs (wrapu 32 (a_npc r)) ctxs rs
  | _, _ => []
  end.

Lemma creates_starved_spec kernel l w :
  wp (creates_starved kernel l) w (λ r e,
    match r with
    | inl ctxs => ∃ cs, length cs = length l ∧ ctxs = map created cs ∧ e = starved_creates l cs ∧ Forall (λ c, 0 ≤ created c) cs
    | inr s => s = Aborted
    end).
Proof.
  revert w. induction l as [|x l IH]; intros w; cbn [creates_starved].
  - apply wp_ret. by exists [].
  - wp_steps; bool_props; try done. apply wp_bind. eapply wp_mono; [apply IH|]. intros [ctxs|s] e; [|done].
    intros (cs & Hl & -> & -> & Hf) w2 _. apply wp_ret. exists (a :: cs). rewrite app_nil_r.
    split_and!; [cbn; lia|done|done|by constructor].
Qed.

Lemma runs_starved_spec kernel strerror ctxs entry w :
  wp (runs_starved kernel strerror ctxs entry) w (λ r e,
    match r with
    | inl _ => ∃ rs, length rs = length ctxs ∧ e = starved_runs entry ctxs rs ∧ Forall (λ r, 0 ≤ wraps 32 (a_rc r)) rs
    | inr s => s = Returned 1
    end).
Proof.
  revert entry w. induction ctxs as [|ctx ctxs IH]; intros entry w; cbn [runs_starved].
  - apply wp_ret. by exists [].
  - wp_steps; bool_props; [done|]. eapply wp_mono; [apply IH|]. intros [[]|s] e; [|done].
    intros (rs & Hl & -> & Hf). exists (a :: rs). split_and!; [cbn; lia|done|by constructor].
Qed.

(** [yield_starvation_verdict]: 02-yield-starvation can only pass when all 200
    contexts could be created and the run of each has ended, one after the other. *)
Theorem yield_starvation_verdict kernel strerror junk w :
  ∃ s evs w', execute (scheduler_02_yield_starvation kernel strerror junk) w = (s, w') ∧ log w' = rev evs ++ log w ∧
    (s = Returned 0 ∨ s = Returned 1 ∨ s = Aborted) ∧
    (s = Returned 0 → ∃ cs rs, length cs = 200%nat ∧ length rs = 200%nat ∧
       evs = starved_creates (seqZ 0 200) cs ++ starved_runs junk (map created cs) rs ∧
       Forall (λ c, 0 ≤ created c) cs ∧ Forall (λ r, 0 ≤ wraps 32 (a_rc r)) rs).
Proof.
  apply wp_execute. unfold scheduler_02_yield_starvation. apply wp_bind. eapply wp_mono; [apply creates_starved_spec|].
  intros [ctxs|s] e; [|by intros ->; split; [tauto|]]. intros (cs & Hl & -> & -> & Hc) w2 _.
  apply wp_bind. eapply wp_mono; [apply runs_starved_spec|]. intros [[]|s] e; [|by intros ->; split; [tauto|]].
  intros (rs & Hr & -> & Hf) w3 _. apply wp_ret. split; [tauto|]. intros _. exists cs, rs. rewrite app_nil_r.
  change (length (seqZ 0 N_CONTEXTS)) with 200%nat in Hl. split_and!; try done. by rewrite Hr, length_map.
Qed.

(** ** The timer of the benchmarks *)

Lemma split_time s u : 0 ≤ u < 1000000 →
  ((s * 1000000 + u) / 1000) / 1000 = s ∧ ((s * 1000000 + u) / 1000) mod 1000 = u / 1000.
Proof.
  intros Hu. replace (s * 1000000 + u) with (u + (s * 1000) * 1000) by lia. rewrite Z.div_add by lia.
  assert (0 ≤ u / 1000 < 1000).
  { split; [by apply Z.div_pos; lia|]. apply Z.div_lt_upper_bound; lia. }
  split; [rewrite Z.div_add by lia; rewrite Z.div_small; lia|].
  rewrite Z.mod_add by lia. by apply Z.mod_small.
Qed.

(** [timer_prints]: [timer_stop_and_print] prints the time since the start in
    seconds with three digits of milliseconds, rounded down, also when the
    microseconds have to borrow from the seconds. *)
Theorem timer_prints kernel start w :
  let a := kernel (log w) c_gettimeofday in
  let ms := ((fst (a_time a) - start.1) * 1000000 + (snd (a_time a) - start.2)) / 1000 in
  0 ≤ start.2 < 1000000 → 0 ≤ snd (a_time a) < 1000000 →
  timer_stop_and_print kernel start w =
    (inl tt, World ((c_gettimeofday, a) :: log w) (a_errno a) (name_i w)
       (printed w ++ [(stdout, fmt_d (ms / 1000) ++ lit "." ++ zero_pad 3 (fmt_d (ms mod 1000)) ++ [newline_c])])).
Proof.
  intros a ms Hs He. unfold timer_stop_and_print, elapsed, sys, mbind, P_bind. fold a.
  subst ms. destruct (a_time a) as [sec usec] eqn:E, start as [s u]. cbn [fst snd] in *.
  unfold fprintf. cbn [log errno name_i printed].
  destruct (Z.ltb_spec usec u) as [Hb|Hb].
  - destruct (split_time (sec - 1 - s) (usec + 1000000 - u)) as [E1 E2]; [lia|].
    replace ((sec - s) * 1000000 + (usec - u)) with ((sec - 1 - s) * 1000000 + (usec + 1000000 - u)) by lia.
    rewrite E1, E2, Z.quot_div_nonneg by lia. done.
  - destruct (split_time (sec - s) (usec - u)) as [E1 E2]; [lia|].
    rewrite E1, E2, Z.quot_div_nonneg by lia. done.
Qed.

(** From 10.9s to 13.1s. *)
Lemma timer_prints_witness :
  timer_stop_and_print (λ _ _, Ans 0 0 0 (Statbuf 0 0 0 0 0) [] (13, 100000) 0 []) (10, 900000) (World [] 0 0 [])
  = (inl tt, World [(c_gettimeofday, Ans 0 0 0 (Statbuf 0 0 0 0 0) [] (13, 100000) 0 [])] 0 0
       [(stdout, lit "2.200" ++ [newline_c])]).
Proof.
  etrans; [apply (timer_prints (λ _ _, Ans 0 0 0 (Statbuf 0 0 0 0 0) [] (13, 100000) 0 []) (10, 900000) (World [] 0 0 []));
    cbn; lia|vm_compute; reflexivity].
Defined.
