(* ===== verification/SpuAppProps.v ===== *)
(** * What the programs that run code on an SPE do

    The local store that the calls and stores of a program build, and when the
    programs pass. *)

From S2P Require Import Prelude CString SysProg SpuTests SpuApps SpuRuns SpuProps.

Local Open Scope Z_scope.

(** ** Local store *)

Definition memory : Type := Z → option ascii.

Definition put (off : Z) (data : bytes) (m : memory) : memory := λ x,
  if (off <=? x) && (x <? off + Z.of_nat (length data)) then data !! Z.to_nat (x - off) else m x.

(** The file "mem" with its offset, the mapping, and the bytes set so far. *)
Record ls := Ls { ls_fd : option Z; ls_pos : Z; ls_map : option Z; ls_mem : memory }.

(** What an event of a program does to the local store of its context. *)
Definition ls_step (s : ls) (e : event) : ls :=
  let rc := a_rc e.2 in
  match e.1 with
  | c_openat _ path _ => if decide (path = lit "mem") then Ls (Some rc) 0 (ls_map s) (ls_mem s) else s
  | c_mmap _ _ _ fd _ => if decide (ls_fd s = Some fd) then Ls (ls_fd s) (ls_pos s) (Some rc) (ls_mem s) else s
  | c_write fd data =>
      if decide (ls_fd s = Some fd) then
        Ls (ls_fd s) (ls_pos s + rc) (ls_map s) (put (ls_pos s) (take (Z.to_nat rc) data) (ls_mem s))
      else s
  | m_store addr data =>
      match ls_map s with
      | Some m => Ls (ls_fd s) (ls_pos s) (ls_map s) (put (addr - m) data (ls_mem s))
      | None => s
      end
  | _ => s
  end.

Definition fresh_ls : ls := Ls None 0 None (λ _, None).

Definition local_store (evs : list event) : memory := ls_mem (fold_left ls_step evs fresh_ls).

Lemma put_app off a b m x :
  put off (a ++ b) m x = put (off + Z.of_nat (length a)) b (put off a m) x.
Proof.
  unfold put. rewrite length_app. repeat case_match; bool_props; try done; try lia.
  all: rewrite ?andb_true_iff, ?andb_false_iff in *; bool_props; try lia.
  - rewrite lookup_app_r by lia. f_equal. lia.
  - rewrite lookup_app_l by lia. done.
Qed.

Lemma put_ext off data m m' x : (∀ x, m x = m' x) → put off data m x = put off data m' x.
Proof. intros H. unfold put. by rewrite H. Qed.

Section image.
Context (word : Z → Z).

(** The image of an array of words. *)
Definition image (x : Z) : ascii := nth (Z.to_nat (x mod 4)) (be_bytes 4 (word (x / 4))) NUL.

(** The first [n] words are set, and nothing else. *)
Definition filled (n : Z) (m : memory) : Prop :=
  ∀ x, m x = if (0 <=? x) && (x <? 4 * n) then Some (image x) else None.

Lemma filled_0 : filled 0 (λ _, None).
Proof. intros x. case_match; [|done]. rewrite andb_true_iff in *. bool_props. lia. Qed.

Lemma filled_ext n m m' : (∀ x, m x = m' x) → filled n m' → filled n m.
Proof. intros E H x. by rewrite E. Qed.

Lemma filled_word n m : 0 ≤ n → filled n m → filled (n + 1) (put (4 * n) (be_bytes 4 (word n)) m).
Proof.
  intros Hn Hm x. unfold put. rewrite length_be_bytes. specialize (Hm x).
  destruct (decide (4 * n ≤ x < 4 * n + 4)) as [Hx|Hx].
  - rewrite (proj2 (Z.leb_le (4 * n) x)), (proj2 (Z.ltb_lt x _)) by lia.
    rewrite (proj2 (Z.leb_le 0 x)), (proj2 (Z.ltb_lt x (4 * (n + 1)))) by lia. cbn [andb]. unfold image.
    assert (x / 4 = n) as -> by (symmetry; apply Z.div_unique with (x - 4 * n); lia).
    assert (x mod 4 = x - 4 * n) as -> by (symmetry; apply Z.mod_unique with n; lia).
    destruct (nth_lookup_or_length (be_bytes 4 (word n)) (Z.to_nat (x - 4 * n)) NUL) as [E|E]; [done|].
    rewrite length_be_bytes in E. lia.
  - assert ((4 * n <=? x) && (x <? 4 * n + Z.of_nat 4) = false) as ->.
    { apply andb_false_iff. bool_props. lia. }
    rewrite Hm. repeat case_match; rewrite ?andb_true_iff, ?andb_false_iff in *; bool_props; try done; lia.
Qed.

Lemma filled_pair n m :
  0 ≤ n → filled n m → filled (n + 2) (put (4 * n) (words [word n; word (n + 1)]) m).
Proof.
  intros Hn Hm. eapply filled_ext.
  - intros x. unfold words. cbn [map concat]. rewrite app_nil_r, put_app, length_be_bytes. done.
  - replace (4 * n + Z.of_nat 4) with (4 * (n + 1)) by lia. replace (n + 2) with (n + 1 + 1) by lia.
    apply filled_word; [lia|]. by apply filled_word.
Qed.
End image.

(** ** 02-ppe-setup-all and 03-ppe-setup-all-mmap *)

(** The words that both programs put into local store. *)
Definition skip_word (j : Z) : Z :=
  if j =? 65535 then 0x00001337 else if j =? 65534 then 0x40200000
  else if Z.even j then 0x32000100 else 0x00000000.

Lemma skip_words i : 0 ≤ i < 32767 → skip_pair = [skip_word (2 * i); skip_word (2 * i + 1)].
Proof.
  intros Hi. unfold skip_word. rewrite !(proj2 (Z.eqb_neq _ _)) by lia.
  rewrite Z.even_add, Z.even_mul. done.
Qed.

Definition write_event (fd : Z) (pair : list Z) (a : ans) : event := (c_write fd (words pair), a).

Definition write_good (fd : Z) (pair : list Z) (e : list event) : Prop :=
  ∃ a, e = [write_event fd pair a] ∧ a_rc a = 4 * Z.of_nat (length pair).

Definition write_bad (fd : Z) (pair : list Z) (s : stop) (e : list event) : Prop :=
  s = Returned 1 ∧ ∃ a, e = [write_event fd pair a] ∧ a_rc a ≠ 4 * Z.of_nat (length pair).

Definition store_event (map i v : Z) : event := (m_store (map + 4 * i) (be_bytes 4 v), no_answer).

Definition store_events (map i : Z) (pair : list Z) : list event :=
  [store_event map i (nth 0 pair 0); store_event map (i + 1) (nth 1 pair 0)].

(** The image so far: [i] pairs, by [write] or by stores. *)
Record writing (fd i : Z) (s : ls) : Prop := {
  wr_fd : ls_fd s = Some fd;
  wr_pos : ls_pos s = 8 * i;
  wr_mem : filled skip_word (2 * i) (ls_mem s);
}.

Record mapping (map i : Z) (s : ls) : Prop := {
  mp_map : ls_map s = Some map;
  mp_mem : filled skip_word (2 * i) (ls_mem s);
}.

Lemma write_pair_step fd i pair a s :
  0 ≤ i → pair = [skip_word (2 * i); skip_word (2 * i + 1)] → a_rc a = 8 →
  writing fd i s → writing fd (i + 1) (ls_step s (write_event fd pair a)).
Proof.
  intros Hi -> Ha [Hf Hp Hm]. unfold ls_step, write_event. cbn [fst snd]. rewrite decide_True by done.
  rewrite Ha, take_ge by (unfold words; cbn [map concat]; rewrite !length_app, !length_be_bytes; cbn; lia).
  split; cbn [ls_fd ls_pos ls_mem]; [done|lia|]. rewrite Hp.
  replace (8 * i) with (4 * (2 * i)) by lia. replace (2 * (i + 1)) with (2 * i + 2) by lia.
  apply filled_pair; [lia|done].
Qed.

Lemma store_pair_step map i pair s :
  0 ≤ i → pair = [skip_word (2 * i); skip_word (2 * i + 1)] →
  mapping map i s → mapping map (i + 1) (fold_left ls_step (store_events map (2 * i) pair) s).
Proof.
  intros Hi -> [Hf Hm]. unfold store_events, store_event. cbn [nth fold_left].
  unfold ls_step. cbn [fst snd]. rewrite Hf. cbn [ls_fd ls_pos ls_mem ls_map].
  split; [done|]. cbn [ls_mem]. replace (2 * (i + 1)) with (2 * i + 1 + 1) by lia.
  replace (map + 4 * (2 * i) - map) with (4 * (2 * i)) by lia.
  replace (map + 4 * (2 * i + 1) - map) with (4 * (2 * i + 1)) by lia.
  apply filled_word; [lia|]. apply filled_word; [lia|done].
Qed.

(** A loop over pairs, each of which takes the image one pair further. *)
Lemma pairs_fill {A} (inv : Z → A → Prop) (step : A → event → A) (good : Z → list event → Prop) n i es s :
  0 ≤ n → (∀ k e s, i ≤ k < i + n → good k e → inv k s → inv (k + 1) (fold_left step e s)) →
  Forall2 good (seqZ i n) es → inv i s → inv (i + n) (fold_left step (concat es) s).
Proof.
  intros Hn. revert i es s. pattern n. apply natlike_ind; [..|exact Hn].
  - intros i es s _ Hes Hs. rewrite seqZ_nil in Hes by done. apply Forall2_nil_inv_l in Hes as ->. by rewrite Z.add_0_r.
  - clear. intros n Hn IH i es s Hstep Hes Hs. rewrite seqZ_cons, Z.pred_succ in Hes by lia.
    apply Forall2_cons_inv_l in Hes as (e & es' & He & Hes & ->).
    cbn [concat]. rewrite fold_left_app. replace (i + Z.succ n) with (Z.succ i + n) by lia.
    apply IH; [intros; apply Hstep; try done; lia|done|]. apply (Hstep i); [lia|done|done].
Qed.

(** ** Runs *)

Lemma wp_store {B} addr data (k : P B) w Q :
  wp k (World ((m_store addr data, no_answer) :: log w) (errno w) (name_i w) (printed w))
    (λ r e, Q r ((m_store addr data, no_answer) :: e)) →
  wp (store_ls addr data;; k) w Q.
Proof.
  intros (r & e & [H1 H2] & HQ). exists r, ((m_store addr data, no_answer) :: e).
  split; [|exact HQ]. split; [exact H1|]. etrans; [exact H2|]. cbn. by rewrite <- app_assoc.
Qed.

Definition is_run (e : event) : Prop := match e.1 with SYS_spu_run _ _ _ => True | _ => False end.

(** No [spu_run] among the events. *)
Definition no_run (evs : list event) : Prop := Forall (λ e, ¬ is_run e) evs.

Ltac no_runs := unfold no_run; repeat (apply List.Forall_cons; [intros []|]); apply List.Forall_nil.

(** Stopped by "stop 0x1337". *)
Definition stopped (a : ans) : Prop :=
  let rc := wraps 32 (a_rc a) in 0 ≤ rc ∧ Z.land rc 2 ≠ 0 ∧ Z.shiftr rc 16 = 0x1337.

Definition run_event (ctx : Z) (a : ans) : event := (SYS_spu_run ctx (Some 0) true, a).

Section specs.
Context (kernel : list event → call → ans) (strerror : Z → bytes).

Lemma write_words_spec fd pair w :
  wp (write_words kernel strerror fd pair) w
    (λ r e, match r with inl _ => write_good fd pair e | inr s => write_bad fd pair s e end).
Proof.
  unfold write_words. wp_open. repeat wp_step; bool_props.
  - split; [done|]. by exists a.
  - by exists a.
Qed.

Lemma store_pair_spec map i pair w :
  wp (store_pair map i pair) w (λ r e, r = inl tt ∧ e = store_events map i pair).
Proof.
  unfold store_pair, set_word. apply wp_store.
  exists (inl tt), [store_event map (i + 1) (nth 1 pair 0)]. split; [by split|done].
Qed.

Lemma run_filled_spec ctx w :
  wp (run_filled kernel strerror ctx) w (λ r e, ∃ a, e = [run_event ctx a] ∧
    match r with inl rc => rc = 0 ∧ stopped a | inr s => s = Returned 1 ∧ ¬ stopped a end).
Proof.
  unfold run_filled, check_stop. wp_open. repeat wp_step; bool_props; exists a; (split; [done|]); (split; [done|]).
  - intros [? _]. lia.
  - by intros (_ & ? & _).
  - by intros (_ & _ & ?).
  - by split_and!.
Qed.
End specs.

(** The program fills local store with the words of [skip_word] and runs it, and
    passes exactly when it stops at the last word; or something fails before. *)
Definition fills (s : stop) (evs : list event) : Prop :=
  ((s = Returned 1 ∨ s = Aborted) ∧ no_run evs) ∨
  ∃ setup ctx a, evs = setup ++ [run_event ctx a] ∧ no_run setup ∧
    filled skip_word 65536 (local_store setup) ∧
    (s = Returned 0 ∧ stopped a ∨ s = Returned 1 ∧ ¬ stopped a).

Definition start_events (name : bytes) (c o : ans) : list event :=
  [(SYS_spu_create (Some name) 0 0x1ED None, c); (c_openat (created c) (lit "mem") O_RDWR, o)].

Lemma start_writing name c o : writing (a_rc o) 0 (fold_left ls_step (start_events name c o) fresh_ls).
Proof. split; [done|done|apply filled_0]. Qed.

Lemma no_run_concat {A} (good : A → list event → Prop) l es :
  (∀ x e, good x e → no_run e) → Forall2 good l es → no_run (concat es).
Proof. intros H. unfold no_run. induction 1; cbn; [constructor|]. apply Forall_app. split; [by eapply H|done]. Qed.

Lemma write_good_no_run fd pair e : write_good fd pair e → no_run e.
Proof. intros (a & -> & _). no_runs. Qed.

Lemma store_no_run map i pair : no_run (store_events map i pair).
Proof. no_runs. Qed.

Lemma fills_image s setup ctx a :
  fills s (setup ++ [run_event ctx a]) → filled skip_word 65536 (local_store setup).
Proof.
  intros [[_ H]|(setup' & ctx' & a' & E & _ & Hf & _)].
  - apply Forall_app in H as [_ H]. apply Forall_cons in H as [H _]. by destruct H.
  - by apply app_inj_tail in E as [-> _].
Qed.

Section fill_specs.
Context (kernel : list event → call → ans) (strerror : Z → bytes).

Lemma run_filled_fills ctx setup w :
  no_run setup → filled skip_word 65536 (local_store setup) →
  wp (run_filled kernel strerror ctx) w
    (λ r e, fills (match r with inl rc => Returned rc | inr s => s end) (setup ++ e)).
Proof.
  intros Hn Hf. eapply wp_mono; [apply run_filled_spec|]. intros r e (a & -> & Hr).
  right. exists setup, ctx, a. split; [done|]. do 2 (split; [done|]).
  destruct r as [rc|s]; [left|by right]. by destruct Hr as [-> ?].
Qed.

Lemma fills_failed evs : no_run evs → fills (Returned 1) evs.
Proof. intros. left. split; [by left|done]. Qed.

Lemma setup_by_write w :
  wp (lsmap_02_ppe_setup_all kernel strerror) w
    (λ r e, fills (match r with inl rc => Returned rc | inr s => s end) e).
Proof.
  unfold lsmap_02_ppe_setup_all, open_ls. wp_open. repeat wp_step; bool_props; try done.
  - apply fills_failed. no_runs.
  - set (start := start_events (lit "/spu/02-ppe-setup-all") a a0).
    apply (wp_for_each _ (λ _ e, write_good (a_rc a0) skip_pair e) (λ _ s e, write_bad (a_rc a0) skip_pair s e)).
    + intros k w' _. apply write_words_spec.
    + intros e (es & -> & Hes) w' _. apply wp_bind. eapply wp_mono; [apply write_words_spec|].
      assert (no_run (start ++ concat es)) as Hn.
      { apply Forall_app. split; [no_runs|]. eapply no_run_concat; [|exact Hes].
        intros ? ?. apply write_good_no_run. }
      intros [[]|s] e He.
      * intros w2 _. eapply wp_mono; [apply (run_filled_fills _ ((start ++ concat es) ++ e))|].
        -- apply Forall_app. split; [done|by eapply write_good_no_run].
        -- unfold local_store. rewrite !fold_left_app. apply (pairs_fill (writing (a_rc a0)) ls_step
             (λ _ e, write_good (a_rc a0) skip_pair e) 32767 0) with (s := fold_left ls_step start fresh_ls) in Hes; [|done|..].
           ++ destruct He as (a1 & -> & Ha). cbn [fold_left]. change 65536 with (2 * (0 + 32767 + 1)).
              eapply wr_mem, write_pair_step; [lia|done|done|exact Hes].
           ++ intros k e' s' Hk (a1 & -> & Ha). apply write_pair_step; [lia|apply skip_words; lia|done].
           ++ apply start_writing.
        -- intros r e'. by rewrite <- !app_assoc.
      * destruct He as (-> & a1 & -> & _). apply fills_failed. change (no_run (start ++ (concat es ++ [write_event (a_rc a0) last_pair a1]))).
        rewrite app_assoc. apply Forall_app. split; [done|]. no_runs.
    + intros s e (l1 & x & l2 & es & e' & _ & Hes & (-> & a1 & -> & _) & ->). apply fills_failed.
      apply (Forall_app _ start). split; [no_runs|]. apply Forall_app.
      split; [|no_runs]. eapply no_run_concat; [|exact Hes]. intros ? ?. apply write_good_no_run.
  - left. split; [by right|]. no_runs.
Qed.

Lemma map_started name c o m :
  mapping (a_rc m) 0 (fold_left ls_step (start_events name c o ++
    [(c_mmap LS_SIZE PROT_READ_WRITE MAP_SHARED (a_rc o) 0, m)]) fresh_ls).
Proof.
  unfold start_events. cbn [fold_left app]. unfold ls_step. cbn [fst snd].
  rewrite decide_True by done. cbn [ls_fd]. rewrite decide_True by done. split; [done|apply filled_0].
Qed.

Lemma setup_by_mmap w :
  wp (lsmap_03_ppe_setup_all_mmap kernel strerror) w
    (λ r e, fills (match r with inl rc => Returned rc | inr s => s end) e).
Proof.
  unfold lsmap_03_ppe_setup_all_mmap, open_ls, map_mem. wp_open. repeat wp_step; bool_props; try done.
  - apply fills_failed. no_runs.
  - apply fills_failed. no_runs.
  - set (start := start_events (lit "/spu/03-ppe-setup-all-mmap") a a0 ++
      [(c_mmap LS_SIZE PROT_READ_WRITE MAP_SHARED (a_rc a0) 0, a1)]).
    apply (wp_for_each _ (λ k e, e = store_events (a_rc a1) (2 * k) skip_pair) (λ _ _ _, False)).
    + intros k w' _. eapply wp_mono; [apply store_pair_spec|]. by intros r e [-> ->].
    + intros e (es & -> & Hes) w' _. apply wp_bind. eapply wp_mono; [apply store_pair_spec|].
      intros r e [-> ->] w2 _.
      eapply wp_mono; [apply (run_filled_fills _ ((start ++ concat es) ++ store_events (a_rc a1) 65534 last_pair))|].
      * repeat (apply Forall_app; split); [no_runs|..|apply store_no_run]; [no_runs|].
        eapply no_run_concat; [|exact Hes]. intros ? ? ->. apply store_no_run.
      * unfold local_store. rewrite !fold_left_app. apply (pairs_fill (mapping (a_rc a1)) ls_step
          (λ k e, e = store_events (a_rc a1) (2 * k) skip_pair) 32767 0)
          with (s := fold_left ls_step start fresh_ls) in Hes; [|done|..].
        -- by apply (mp_mem (a_rc a1) 32768), (store_pair_step (a_rc a1) 32767 last_pair).
        -- intros k e' s' Hk ->. apply store_pair_step; [lia|apply skip_words; lia].
        -- apply map_started.
      * intros r e'. by rewrite <- !app_assoc.
    + by intros s e (l1 & x & l2 & es & e' & _ & _ & [] & _).
  - left. split; [by right|]. no_runs.
Qed.
End fill_specs.

(** [setup_images_agree]: 02-ppe-setup-all, which writes local store through the
    file "mem", and 03-ppe-setup-all-mmap, which stores to a mapping of it, run
    the SPE on the same local store: all 65536 words set, a branch over a stop
    in every pair but the last, a nop and "stop 0x1337" at the end.  Each passes
    exactly when the SPE stops with 0x1337, and otherwise fails. *)
Theorem setup_images_agree kernel strerror kernel' strerror' w w' :
  ∃ s evs w1 s' evs' w1',
    execute (lsmap_02_ppe_setup_all kernel strerror) w = (s, w1) ∧ log w1 = rev evs ++ log w ∧ fills s evs ∧
    execute (lsmap_03_ppe_setup_all_mmap kernel' strerror') w' = (s', w1') ∧ log w1' = rev evs' ++ log w' ∧
    fills s' evs' ∧
    ∀ setup ctx a setup' ctx' a', evs = setup ++ [run_event ctx a] → evs' = setup' ++ [run_event ctx' a'] →
      ∀ x, local_store setup x = local_store setup' x.
Proof.
  destruct (wp_execute _ w _ (setup_by_write kernel strerror w)) as (s & evs & w1 & E & L & F).
  destruct (wp_execute _ w' _ (setup_by_mmap kernel' strerror' w')) as (s' & evs' & w1' & E' & L' & F').
  exists s, evs, w1, s', evs', w1'. do 6 (split; [done|]).
  intros setup ctx a setup' ctx' a' -> -> x.
  rewrite (fills_image _ _ _ _ F x), (fills_image _ _ _ _ F' x). done.
Qed.

(** ** 15-class0 *)

(** The calls of [load_program] with the store of the buffer's address. *)
Definition load_events (ctx : Z) (program : list Z) (address : option Z) (o m : ans) : list event :=
  [(c_openat ctx (lit "mem") O_RDWR, o); (c_mmap LS_SIZE PROT_READ_WRITE MAP_SHARED (a_rc o) 0, m);
   (m_store (a_rc m) (words program), no_answer)]
  ++ match address with Some v => [(m_store (a_rc m) (be_bytes 8 v), no_answer)] | None => [] end.

Definition loaded (o m : ans) : Prop := a_rc o ≠ 0 ∧ a_rc m ≠ MAP_FAILED.

(** Every signal raised during the run is [sig]; one is. *)
Definition only_signal (sig : Z) (r : ans) : Prop :=
  a_signals r ≠ [] ∧ Forall (λ s : spe_siginfo, s.1 = sig) (a_signals r).

(** The whole run of a test of an SPE program that goes wrong: the calls, and
    what is asked of the run [r]; [setup] is what the handler of a signal needs. *)
Definition passes (setup : option Z) (name : bytes) (flags : Z) (program : list Z) (address : option Z)
    (entry : Z) (status : bool) (good : ans → Prop) (s : stop) (evs : list event) : Prop :=
  s = Returned 0 ↔ ∃ sg c o m r,
    evs = match setup with Some sig => [(c_sigaction sig, sg)] | None => [] end
          ++ [(SYS_spu_create (Some name) flags 0x1ED None, c)]
          ++ load_events (created c) program address o m
          ++ [(SYS_spu_run (created c) (Some entry) status, r)] ∧
    (setup ≠ None → a_rc sg = 0) ∧ 0 ≤ created c ∧ loaded o m ∧ good r.

(** An error with SIGBUS, and an event without a signal. *)
Definition bus_error (r : ans) : Prop := wraps 32 (a_rc r) < 0 ∧ only_signal SIGBUS r.

Definition event_of (rc event : Z) (r : ans) : Prop :=
  wraps 32 (a_rc r) = rc ∧ wrapu 32 (a_status r) = event ∧ a_signals r = [].

Definition ill_error (r : ans) : Prop :=
  wraps 32 (a_rc r) < 0 ∧ wrapu 32 (a_npc r) = 0xC ∧ only_signal SIGILL r ∧
  (default (0, 0) (last (a_signals r))).2 = illegal_insn_addr.

Lemma wp_deliver {B} sig signals (k : spe_siginfo → P B) w (Q : B + stop → list event → Prop) :
  (∀ x, Exists (λ s : spe_siginfo, s.1 ≠ sig) signals → Q (inr (Killed x)) []) →
  (Forall (λ s : spe_siginfo, s.1 = sig) signals → wp (k (default (0, 0) (last signals))) w Q) →
  wp (deliver [sig] signals ≫= k) w Q.
Proof.
  intros Hk Hg. unfold deliver. destruct (List.find _ signals) as [s|] eqn:E.
  - apply wp_leave_bind, Hk. apply List.find_some in E as [Hin Hs]. apply negb_true_iff, bool_decide_eq_false in Hs.
    apply Exists_exists. exists s. split; [by apply list_elem_of_In|]. intros Heq. apply Hs. rewrite Heq. by left.
  - apply wp_ret_bind, Hg, Forall_forall. intros s Hs. apply list_elem_of_In, (List.find_none _ _ E), negb_false_iff, bool_decide_eq_true in Hs.
    + by apply list_elem_of_singleton in Hs.
Qed.

Lemma wp_deliver_none {B} signals (k : spe_siginfo → P B) w (Q : B + stop → list event → Prop) :
  (∀ x, signals ≠ [] → Q (inr (Killed x)) []) → (signals = [] → wp (k (0, 0)) w Q) →
  wp (deliver [] signals ≫= k) w Q.
Proof. intros Hk Hg. destruct signals as [|s l]; [by apply Hg|]. by apply wp_leave_bind, Hk. Qed.

Lemma only_signal_last sig r : only_signal sig r → (default (0, 0) (last (a_signals r))).1 = sig.
Proof.
  intros [Hne Hs]. destruct (a_signals r) as [|x l] using rev_ind; [done|]. rewrite last_snoc. cbn.
  apply Forall_app in Hs as [_ Hs]. by apply Forall_cons in Hs as [Hs _].
Qed.

Lemma only_signal_kill sig r : only_signal sig r → ¬ Exists (λ s : spe_siginfo, s.1 ≠ sig) (a_signals r).
Proof. intros [_ Hs] (s & Hin & Hx)%Exists_exists. apply Hx. by eapply Forall_forall in Hs. Qed.

Lemma got_signal sig r :
  sig ≠ 0 → Forall (λ s : spe_siginfo, s.1 = sig) (a_signals r) →
  (default (0, 0) (last (a_signals r))).1 = sig → only_signal sig r.
Proof. intros Hz Hs Hl. split; [|done]. intros E. by rewrite E in Hl. Qed.

Definition stop_of (r : Z + stop) : stop := match r with inl rc => Returned rc | inr s => s end.

Section class0.
Context (kernel : list event → call → ans).

Ltac app_step :=
  first [wp_step
        | progress cbv beta iota
        | apply wp_store; cbn [log errno name_i printed]
        | apply wp_deliver_none; [intros ??|intros ?]
        | apply wp_deliver; [intros ??|intros ?]].

Ltac app_steps := unfold load_program, map_mem, handle_signal, spu_run_signals, expect_spu_run_error,
  expect_rc, expect_event, expect_npc; wp_open; repeat app_step; bool_props; try done.

(** A run that fails is not one of those that pass. *)
Ltac app_fails :=
  split; [discriminate|];
  let E := fresh "E" in let Hs := fresh "Hs" in let Hc := fresh "Hc" in
  let Ho := fresh "Ho" in let Hm := fresh "Hm" in let Hg := fresh "Hg" in
  intros (? & ? & ? & ? & ? & E & Hs & Hc & [Ho Hm] & Hg); unfold load_events in E; log_eq E;
  try specialize (Hs ltac:(discriminate)); unfold created in *; try (lia || congruence).

Lemma dma_signal_spec name program v w :
  wp (dma_signal kernel name (λ ctx, m ← load_program kernel ctx program; store_ls m (be_bytes 8 v);; mret 0x10)) w
    (λ r e, passes (Some SIGBUS) name 0 program (Some v) 0x10 false bus_error (stop_of r) e).
Proof.
  unfold dma_signal. app_steps.
  4: { split; [|done]. intros _. exists a, a0, a1, a2, a3. split; [done|]. do 2 (split; [done|]).
       split; [by split|]. split; [done|]. by apply got_signal. }
  all: app_fails; destruct Hg as [Hg1 Hg2].
  - by apply only_signal_kill in Hg2.
  - lia.
  - by apply only_signal_last in Hg2.
Qed.

Lemma dma_event_spec name program v event w :
  wp (dma_event kernel name (λ ctx, m ← load_program kernel ctx program; store_ls m (be_bytes 8 v);; mret 0x10) event) w
    (λ r e, passes None name SPU_CREATE_EVENTS_ENABLED program (Some v) 0x10 true (event_of 0 event) (stop_of r) e).
Proof.
  unfold dma_event. app_steps.
  4: { split; [|done]. intros _. by exists a, a, a0, a1, a2. }
  all: app_fails; by destruct Hg as (? & ? & ?).
Qed.

Lemma illegal_insn_signal_spec fmt_p w :
  wp (class0_05_illegal_insn_signal kernel fmt_p) w
    (λ r e, passes (Some SIGILL) (lit "/spu/05-illegal-insn-signal") 0 illegal_instruction_program None 0 false
              ill_error (stop_of r) e).
Proof.
  unfold class0_05_illegal_insn_signal, class0_load_illegal_instruction_app. app_steps.
  6: { split; [|done]. intros _. exists a, a0, a1, a2, a3. split; [done|]. do 2 (split; [done|]).
       split; [by split|]. split_and!; try done. by apply got_signal. }
  all: app_fails; destruct Hg as (Hg1 & Hg2 & Hg3 & Hg4).
  - by apply only_signal_kill in Hg3.
  - lia.
  - done.
  - by apply only_signal_last in Hg3.
  - done.
Qed.

Lemma illegal_insn_event_spec w :
  wp (class0_06_illegal_insn_event kernel) w
    (λ r e, passes None (lit "/spu/06-illegal-insn-event") SPU_CREATE_EVENTS_ENABLED illegal_instruction_program None
              0 true (λ a, wrapu 32 (a_npc a) = 0xC ∧ event_of 0x20 SPE_EVENT_SPE_ERROR a) (stop_of r) e).
Proof.
  unfold class0_06_illegal_insn_event, class0_load_illegal_instruction_app. app_steps.
  5: { split; [|done]. intros _. by exists a, a, a0, a1, a2. }
  all: app_fails; by destruct Hg as (? & ? & ? & ?).
Qed.
End class0.

(** [class0_verdicts]: the tests of class 0 interrupts.  A test that waits for a
    signal passes exactly when it could install the handler, create the context
    and map its local store, [spu_run] fails and every signal of the run is the
    expected one; a test that asks for events passes exactly when [spu_run]
    returns, without a signal, the expected status and event.  The code in local
    store is the program of the test, with the address of the buffer, for the
    misaligned transfer one more, in its first two words; for the illegal
    instruction the program counter must be past it, and [si_addr] be its
    address. *)
Theorem class0_verdicts kernel fmt_p buf w :
  let verdict (prog : P Z) (good : stop → list event → Prop) :=
    ∃ s evs w', execute prog w = (s, w') ∧ log w' = rev evs ++ log w ∧ good s evs in
  verdict (class0_01_dma_alignment_signal kernel buf)
    (passes (Some SIGBUS) (lit "/spu/01-dma-alignment-signal") 0 misaligned_dma_program
       (Some (wrapu 64 (buf + 1))) 0x10 false bus_error) ∧
  verdict (class0_02_dma_alignment_event kernel buf)
    (passes None (lit "/spu/02-dma-alignment-event") SPU_CREATE_EVENTS_ENABLED misaligned_dma_program
       (Some (wrapu 64 (buf + 1))) 0x10 true (event_of 0 SPE_EVENT_DMA_ALIGNMENT)) ∧
  verdict (class0_03_invalid_dma_signal kernel buf)
    (passes (Some SIGBUS) (lit "/spu/03-invalid-dma-signal") 0 invalid_dma_program (Some buf) 0x10 false bus_error) ∧
  verdict (class0_04_invalid_dma_event kernel buf)
    (passes None (lit "/spu/04-invalid-dma-event") SPU_CREATE_EVENTS_ENABLED invalid_dma_program
       (Some buf) 0x10 true (event_of 0 SPE_EVENT_INVALID_DMA)) ∧
  verdict (class0_05_illegal_insn_signal kernel fmt_p)
    (passes (Some SIGILL) (lit "/spu/05-illegal-insn-signal") 0 illegal_instruction_program None 0 false ill_error) ∧
  verdict (class0_06_illegal_insn_event kernel)
    (passes None (lit "/spu/06-illegal-insn-event") SPU_CREATE_EVENTS_ENABLED illegal_instruction_program None 0 true
       (λ a, wrapu 32 (a_npc a) = 0xC ∧ event_of 0x20 SPE_EVENT_SPE_ERROR a)).
Proof.
  intros verdict. split_and!; eapply wp_execute.
  - apply dma_signal_spec.
  - apply dma_event_spec.
  - apply dma_signal_spec.
  - apply dma_event_spec.
  - apply illegal_insn_signal_spec.
  - apply illegal_insn_event_spec.
Qed.

(** ** 07-lsmap/01-ppe-setup, 08-reg-file, 12-nosched/03-npc *)

(** [ppe_setup_verdict]: 01-ppe-setup passes exactly when "stop 0x1337" can be
    written to local store and the SPE, run from 0, stops there with the program
    counter at the next word. *)
Theorem ppe_setup_verdict kernel strerror w :
  ∃ s evs w', execute (lsmap_01_ppe_setup kernel strerror) w = (s, w') ∧ log w' = rev evs ++ log w ∧
    (s = Returned 0 ↔ ∃ c o wr a,
       evs = start_events (lit "/spu/01-ppe-setup") c o ++ [write_event (a_rc o) [0x1337] wr; run_event (created c) a] ∧
       0 ≤ created c ∧ 0 ≤ a_rc o ∧ a_rc wr = 4 ∧ stopped a ∧ wrapu 32 (a_npc a) = 4).
Proof.
  apply wp_execute. unfold lsmap_01_ppe_setup, open_ls, write_words, check_stop. wp_steps; bool_props; try done.
  all: try (split; [discriminate|]; intros (? & ? & ? & ? & E & Hc & Ho & Hw & (Ha1 & Ha2 & Ha3) & Hn);
            unfold start_events, write_event, run_event, created in *; log_eq E; (lia || congruence)).
  split; [|done]. intros _. by exists a, a0, a1, a2.
Qed.

(** [npc_verdict]: 03-npc passes exactly when the program can be written and the
    run from the second word does not fail and does not stop at the first one;
    any other stop will do. *)
Theorem npc_verdict kernel strerror w :
  ∃ s evs w', execute (nosched_03_npc kernel strerror) w = (s, w') ∧ log w' = rev evs ++ log w ∧
    (s = Returned 0 ↔ ∃ c o wr a,
       evs = [(SYS_spu_create (Some (lit "/spu/03-npc")) SPU_CREATE_NOSCHED 0x1ED None, c);
              (c_openat (created c) (lit "mem") O_WRONLY, o); write_event (a_rc o) npc_program wr;
              (SYS_spu_run (created c) (Some 4) false, a)] ∧
       0 ≤ created c ∧ 0 ≤ a_rc o ∧ a_rc wr = 8 ∧ 0 ≤ wraps 32 (a_rc a) ∧ wraps 32 (a_rc a) ≠ 0x13360002).
Proof.
  apply wp_execute. unfold nosched_03_npc. wp_steps; bool_props; try done.
  all: try (split; [discriminate|]; intros (? & ? & ? & ? & E & Hc & Ho & Hw & Ha1 & Ha2);
            unfold write_event, created in *; log_eq E; (lia || congruence)).
  split; [|done]. intros _. by exists a, a0, a1, a2.
Qed.

(** [load_immediate_loads]: for every register the word that 01-reg-setup builds
    has the opcode of "il", the number of the register as the immediate and the
    register as the target. *)
Theorem load_immediate_loads :
  Forall (λ reg, let insn := load_immediate_insn reg in
    Z.shiftr insn 23 = 0x81 ∧ Z.land (Z.shiftr insn 7) 0xFFFF = reg ∧ Z.land insn 0x7F = reg) (seqZ 0 nr_regs).
Proof. cbv zeta. apply (bool_decide_unpack _). vm_compute. exact I. Qed.
