(* ===== verification/Syscalls.v ===== *)
(** * System calls of an SPE (tests/10-syscalls)

    The SPE program is "stop 0x2104" followed by the address of a block in local
    store: the kernel takes the stop as a system call, performs what the block
    says, stores the result into its first doubleword and lets the SPE go on
    after the address.  01-getpid is a sequence of calls; in the other two a
    thread waits for the SPE that reads a pipe, while [main] writes to it. *)

From stdpp Require Import relations.
From S2P Require Import Prelude CString SysProg SpuTests SpuApps SpuIsa Threads LsShared SpuDma.

Local Open Scope Z_scope.

(** The program of the three tests. *)
Definition syscall_program : list Z := replicate 16 0x00000000 ++ [0x00002104; 0x00000008; 0x00001337].

(** The numbers of the calls (powerpc). *)
Definition NR_read : Z := 3.
Definition NR_getpid : Z := 20.

(** ** 01-getpid *)

Section getpid.
Context (kernel : list event → call → ans) (strerror : Z → bytes).

#[local] Abbreviation sys_rc := (SysProg.sys_rc kernel).
#[local] Abbreviation perror := (SysProg.perror strerror).

(** The answer of a run holds what [nr_ret] is after it. *)
Definition runs_getpid (ctx : Z) : P (Z * Z) :=
  a ← SysProg.sys kernel (SYS_spu_run ctx (Some (8 * 8)) false); mret (wraps 32 (a_rc a), be_value (a_data a) 0).

(** Up to the run; whether the context was created is left to [openat]. *)
Definition getpid_setup : P (Z * Z) :=
  ctx ← SysProg.spu_create kernel (Some (lit "/spu/01-getpid")) 0 0x1ED None;
  ls_map ← SpuDma.opens_mem kernel ctx;
  store_ls ls_map (words syscall_program);;
  store_ls (ls_map + 0x08) (be_bytes 8 NR_getpid);;
  mret (ctx, ls_map).

Definition syscalls_01_getpid : P Z :=
  '(ctx, ls_map) ← getpid_setup;
  '(rc, nr_ret) ← runs_getpid ctx;
  fail_if strerror (rc <? 0) (lit "spu_run");;
  complain_if (negb (rc =? 0x13370002))
    (lit "spu_run returned unexepected exit code 0x" ++ fmt_base 16 (wrapu 32 rc) ++ [newline_c]);;
  pid ← sys_rc c_getpid;
  complain_if (negb (nr_ret =? wrapu 64 pid))
    (lit "SPE getpid() returned " ++ fmt_d (wraps 64 nr_ret) ++ lit ", but PPE getpid() returned " ++ fmt_d pid ++ [newline_c]);;
  mret EXIT_SUCCESS.
End getpid.

(** ** 02-read and 03-read+schedule *)

(** [in], and the fields of the two structures. *)
Inductive read_var := v_in | v_run_rc | v_entry | v_run.

#[global] Instance read_var_eq_dec : EqDecision read_var.
Proof. solve_decision. Defined.

(** The loops of [main] and of [read_thread_fn] in 03. *)
Inductive read_loop := iterating (i : Z) | descheduling (fd : Z).

Definition read_thread : Type := thread read_var read_loop.

Section read.
(** What [pipe] stores, the address of [in], and the iterations of 03 (10240 in the
    source). *)
Context (strerror : Z → bytes) (fd0 fd1 in_addr NR_ITERATIONS : Z).

(** A doubleword of local store by its two words. *)
Definition dword (i x : Z) : list (Z * Z) := [(i, field 32 32 x); (i + 1, field 0 32 x)].

(** [memcpy], and the block: [nr_ret] and three parameters. *)
Definition program_stores : list (Z * Z) := imap (λ i w, (Z.of_nat i, w)) syscall_program.
Definition block_stores : list (Z * Z) := dword 2 NR_read ++ dword 4 fd0 ++ dword 6 in_addr ++ dword 8 1.

Definition read_ran (a : ans) : read_thread :=
  Put v_entry (wrapu 32 (a_npc a)) (Put v_run_rc (wraps 32 (a_rc a))
    (if wraps 32 (a_rc a) <? 0 then Print (ls_perror strerror (lit "spu_run") a) Done else Done)).

(** [spe_thread] and [spe_thread_fn]. *)
Definition read_spe_thread : read_thread := Get v_entry (λ e, Run 0 e read_ran).

Definition out_byte : Z := 0x13.

(** The checks from the end of [main], with the way on when all is well. *)
Definition checks_in (next : read_thread) : read_thread :=
  Get v_in (λ x,
    if negb (x =? out_byte) then
      fails (lit "wrote 0x" ++ fmt_hex 2 out_byte ++ lit ", but read 0x" ++ fmt_hex 2 x ++ [newline_c])
    else next).

Definition checks_ret_lo (next : read_thread) (hi : Z) : read_thread :=
  Peek 0 12 (λ lo,
    let ret := hi * 2 ^ 32 + lo in
    if negb (ret =? 1) then
      fails (lit "SPE read() returned " ++ fmt_d (wraps 64 ret) ++ lit ", expecting " ++ fmt_d 1 ++ [newline_c])
    else checks_in next).

Definition checks_ret (next : read_thread) : read_thread := Peek 0 8 (checks_ret_lo next).

(** 02 prints the result of [pthread_join], 03 that of [spu_run]. *)
Definition checks_run_rc (shown : Z → Z) (next : read_thread) : read_thread :=
  Get v_run_rc (λ rc,
    if negb (rc =? 0x13370002) then
      fails (lit "spu_run returned unexepected exit code 0x" ++ fmt_base 16 (wrapu 32 (shown rc)) ++ [newline_c])
    else checks_ret next).

(** [n] is the thread that runs the SPE. *)
Definition joins_spe (n : nat) (shown : Z → Z) (next : read_thread) : read_thread :=
  Wait n (checks_run_rc shown next).

(** The result of [write] is not used. *)
Definition writes_out (n : nat) (shown : Z → Z) (next : read_thread) : read_thread :=
  Call (c_write fd1 [byte_of out_byte]) (λ _, joins_spe n shown next).

Definition starts_spe (n : nat) (shown : Z → Z) (next : read_thread) : read_thread :=
  Start read_spe_thread (λ a, asserted (a_rc a =? 0) (writes_out n shown next)).

(** *** 02 *)

Definition read_starts : read_thread := Put v_entry (8 * 8) (starts_spe 1 (λ _, 0) (Return EXIT_SUCCESS)).

Definition fills_block (next : read_thread) : read_thread := pokes (program_stores ++ block_stores) next.

Definition maps_block (fd : Z) (next : read_thread) : read_thread :=
  Call (c_mmap LS_SIZE 3 1 fd 0) (λ a, asserted (negb (a_rc a =? -1)) (fills_block next)).

Definition opens_block (ctx : Z) (next : Z → read_thread) : read_thread :=
  Call (c_openat ctx (lit "mem") O_RDWR) (λ a, asserted (0 <=? a_rc a) (next (a_rc a))).

Definition creates_reading (name : bytes) (next : Z → read_thread) : read_thread :=
  Call (SYS_spu_create (Some name) 0 0x1ED None) (λ a, next (wraps 32 (a_rc a))).

Definition pipes (next : read_thread) : read_thread :=
  Call c_pipe (λ a, asserted (a_rc a =? 0) next).

Definition syscalls_02_read : read_thread :=
  pipes (creates_reading (lit "/spu/01-getpid") (λ ctx, opens_block ctx (λ fd, maps_block fd read_starts))).

(** *** 03 *)

Definition seeks_regs (fd : Z) : read_thread :=
  Call (c_lseek fd 0 0) (λ a, asserted (a_rc a =? 0) (Goto (descheduling fd))).

Definition reads_16 (fd : Z) : read_thread :=
  Call (c_read fd 16) (λ a, asserted (a_rc a =? 16) (seeks_regs fd)).

(** The threads are [main], the one that reads the registers, and one for each
    iteration. *)
Definition iterates (i : Z) : read_thread :=
  Put v_entry (8 * 8) (pokes (dword 2 NR_read) (starts_spe (S (S (Z.to_nat i))) id (Goto (iterating (i + 1))))).

Definition read_code (l : read_loop) : read_thread :=
  match l with
  | iterating i => if i <? NR_ITERATIONS then iterates i else Return EXIT_SUCCESS
  | descheduling fd => Get v_run (λ b, if negb (b =? 0) then reads_16 fd else Done)
  end.

Definition starts_regs (fd : Z) : read_thread :=
  Put v_run 1 (Start (Goto (descheduling fd)) (λ a, asserted (a_rc a =? 0) (Goto (iterating 0)))).

Definition opens_regs_too (ctx fd : Z) : read_thread :=
  Call (c_openat ctx (lit "regs") O_RDWR) (λ a, asserted (0 <=? a_rc a) (maps_block fd (starts_regs (a_rc a)))).

Definition syscalls_03_read_schedule : read_thread :=
  pipes (creates_reading (lit "/spu/03-read+schedule") (λ ctx, opens_block ctx (opens_regs_too ctx))).

(** *** Steps

    The system of Threads.v with the bytes in the pipe. *)

Context {box : Type} `{!Mailbox box} (kernel : request → ans → Prop).

Record reading := Reading { base : sys read_var read_loop box; pipe : list Z }.

Definition read_initial (main : read_thread) (junk : read_var → Z) : reading :=
  Reading (Sys [main] [] junk None) [].

Definition SYSCALL_STOP : Z := 0x2104.

(** A stop that [spu_run] does not report. *)
Definition at_syscall (m : spu) : bool :=
  match spu_step m with Stopped code _ => code =? SYSCALL_STOP | _ => false end.

(** The accesses that are not those of Threads.v: a write, which fills the pipe, and a
    run that the kernel goes on with. *)
Definition special (b : sys read_var read_loop box) (t : read_thread) : bool :=
  match t with
  | Call (c_write _ _) _ => true
  | Run c _ _ =>
      match spes b !! c with
      | Some e => match runner e with Some _ => at_syscall (machine e) | None => false end
      | None => false
      end
  | _ => false
  end.

(** The block [read(fd0, &in, 1)] at the address [a]. *)
Definition dword_at (l : Z → Z) (a : Z) : Z := l a * 2 ^ 32 + l (a + 4).

Definition asks_byte (l : Z → Z) (a : Z) : Prop :=
  dword_at l a = NR_read ∧ dword_at l (a + 8) = wrapu 64 fd0 ∧
  dword_at l (a + 16) = wrapu 64 in_addr ∧ dword_at l (a + 24) = 1.

Definition put_dword (l : Z → Z) (a x : Z) : Z → Z := update (update l a (field 32 32 x)) (a + 4) (field 0 32 x).

(** After the call: the result is stored and the address is skipped. *)
Definition returns (m : spu) (ret : Z) : spu :=
  set_pc (ls_addr (pc m + 4)) (set_ls (put_dword (ls m) (ls m (pc m)) ret) m).

Inductive read_step (s : reading) : reading → Prop :=
| rd_thread i t b :
    ended (base s) = None → threads (base s) !! i = Some t → special (base s) t = false →
    thread_step read_code kernel (base s) i t b → read_step s (Reading b (pipe s))
| rd_write i fd data k a :
    ended (base s) = None → threads (base s) !! i = Some (Call (c_write fd data) k) →
    kernel (r_call (c_write fd data)) a →
    read_step s (Reading (go i (k a) (base s))
      (if fd =? fd1 then pipe s ++ map code (take (Z.to_nat (a_rc a)) data) else pipe s))
| rd_spe c e b :
    ended (base s) = None → spes (base s) !! c = Some e → is_Some (runner e) →
    spe_step (base s) c e b → read_step s (Reading b (pipe s))
| rd_reads c e m a x rest :
    ended (base s) = None → spes (base s) !! c = Some e → is_Some (runner e) →
    spu_step (machine e) = Stopped SYSCALL_STOP m → asks_byte (ls m) (ls m (pc m)) →
    kernel (r_call (c_read fd0 1)) a → a_rc a = 1 → pipe s = x :: rest →
    read_step s (Reading (set_var v_in x (set_spe c (set_machine (returns m 1) e) (base s))) rest)
| rd_fails c e m a :
    ended (base s) = None → spes (base s) !! c = Some e → is_Some (runner e) →
    spu_step (machine e) = Stopped SYSCALL_STOP m → asks_byte (ls m) (ls m (pc m)) →
    kernel (r_call (c_read fd0 1)) a → a_rc a < 0 →
    read_step s (Reading (set_spe c (set_machine (returns m (a_rc a)) e) (base s)) (pipe s)).
End read.
