(* ===== verification/SyscallProps.v ===== *)
(** * The tests of system calls pass

    01-getpid: what it accepts, and that the SPE finds the block.  02-read and
    03-read+schedule: on a kernel that does what the block says the byte comes
    through, whoever moves first and however often the context is taken off its
    SPE. *)

From stdpp Require Import relations.
From S2P Require Import Prelude Runs CString SysProg SpuTests SpuApps SpuRuns SpuProps SpuAppProps SpuIsa SpuCode Threads LsShared LsSharedProps SpuDma DmaProps Syscalls.

Local Open Scope Z_scope.

(** ** Doublewords and the image *)

Lemma field_split x : field 32 32 x * 2 ^ 32 + field 0 32 x = wrapu 64 x.
Proof.
  unfold field, wrapu. rewrite !Z.land_ones, Z.shiftr_0_r, Z.shiftr_div_pow2 by lia.
  change (2 ^ 64) with (2 ^ 32 * 2 ^ 32). rewrite Z.rem_mul_r by lia. lia.
Qed.

Lemma dword_put l a x : dword_at (put_dword l a x) a = wrapu 64 x.
Proof.
  unfold dword_at, put_dword, update. rewrite (proj2 (Z.eqb_neq a (a + 4))), !Z.eqb_refl by lia. apply field_split.
Qed.

(** The code and the address of the block. *)
Definition has_code (l : Z → Z) : Prop := l 64 = 0x2104 ∧ l 68 = 8 ∧ l 72 = 0x1337.

(** The system call, and the stop after it. *)
Lemma syscall_step r l : has_code l → spu_step (Spu r l 64) = Stopped 0x2104 (Spu r l 68).
Proof. intros (H & _). by erewrite step_exec by (rewrite H; reflexivity). Qed.

Lemma last_stop_step r l : has_code l → spu_step (Spu r l 72) = Stopped 0x1337 (Spu r l 76).
Proof. intros (_ & _ & H). by erewrite step_exec by (rewrite H; reflexivity). Qed.

Lemma has_code_update l a x : (a ≠ 64 ∧ a ≠ 68 ∧ a ≠ 72) → has_code l → has_code (update l a x).
Proof. intros (H1 & H2 & H3) (E1 & E2 & E3). unfold has_code, update. by rewrite !(proj2 (Z.eqb_neq _ _)) by done. Qed.

Lemma returns_at r l x : has_code l → returns (Spu r l 68) x = Spu r (put_dword l 8 x) 72.
Proof. intros (_ & H & _). unfold returns. cbn [ls pc]. by rewrite H. Qed.

Lemma has_code_returned l x : has_code l → has_code (put_dword l 8 x).
Proof. intros. unfold put_dword. by do 2 (apply has_code_update; [lia|]). Qed.

(** ** 01-getpid *)

Section getpid.
Context (kernel : list event → call → ans) (strerror : Z → bytes).

(** [getpid_verdict]: 01-getpid passes exactly when local store can be mapped, the
    run of the program with its block ends at "stop 0x1337", and the doubleword that
    the kernel has left in the block is what [getpid] answers to the process. *)
Theorem getpid_verdict w :
  ∃ s evs w', execute (syscalls_01_getpid kernel strerror) w = (s, w') ∧ log w' = rev evs ++ log w ∧
    (s = Returned 0 ↔ ∃ c o m a p,
       evs = [(SYS_spu_create (Some (lit "/spu/01-getpid")) 0 0x1ED None, c); (c_openat (created c) (lit "mem") O_RDWR, o);
              (c_mmap LS_SIZE PROT_READ_WRITE MAP_SHARED (a_rc o) 0, m);
              (m_store (a_rc m) (words syscall_program), no_answer); (m_store (a_rc m + 8) (be_bytes 8 NR_getpid), no_answer);
              (SYS_spu_run (created c) (Some 64) false, a); (c_getpid, p)] ∧
       0 ≤ a_rc o ∧ a_rc m ≠ MAP_FAILED ∧ wraps 32 (a_rc a) = 0x13370002 ∧
       be_value (a_data a) 0 = wrapu 64 (a_rc p)).
Proof.
  apply wp_execute. unfold syscalls_01_getpid, getpid_setup, SpuDma.opens_mem, map_mem, runs_getpid. wp_open.
  repeat first [wp_step|apply wp_assoc, SpuAppProps.wp_store|apply SpuAppProps.wp_store]; bool_props; try done.
  all: try (split; [discriminate|]; intros (? & ? & ? & ? & ? & E & Ho & Hm & Hr & Hd); unfold created in *; log_eq E; (lia || congruence)).
  split; [|done]. intros _. exists a, a0, a1, a2, a3. by split_and!.
Qed.

(** What the calls up to the run have stored. *)
Lemma getpid_setup_memory w ctx base w1 :
  getpid_setup kernel w = (inl (ctx, base), w1) →
  stored (log w1) =
    store_bytes (store_bytes (stored (log w)) base (words syscall_program)) (base + 8) (be_bytes 8 NR_getpid).
Proof.
  unfold getpid_setup. intros (c & wa & Ha & (b & wb & Hb & ([] & wc & Hc & ([] & wd & Hd & [= -> -> <-])%bind_inl)%bind_inl)%bind_inl)%bind_inl.
  apply store_ls_inl in Hc, Hd. apply opens_mem_stores in Hb. rewrite Hd, Hc, Hb. do 2 f_equal.
  revert Ha. unfold SysProg.spu_create. change (negb (Z.land 0 SPU_CREATE_AFFINITY_SPU =? 0)) with false. by intros [= _ <-].
Qed.

(** [getpid_image]: the SPE that starts at 64 in the local store that the test has
    built comes to the system call, where it finds the number of [getpid] in its
    block; when the kernel returns [pid], the block holds it, and the SPE goes on to
    the stop that the test expects. *)
Theorem getpid_image w ctx base w1 r pid :
  getpid_setup kernel w = (inl (ctx, base), w1) →
  let l := mapped (stored (log w1)) base in
  ∃ m, spu_step (Spu r l 64) = Stopped 0x2104 m ∧ dword_at (ls m) (ls m (pc m)) = NR_getpid ∧
    dword_at (ls (returns m pid)) 8 = wrapu 64 pid ∧ ∃ m', spu_step (returns m pid) = Stopped 0x1337 m'.
Proof.
  intros Hs l. assert (Hc : has_code l ∧ dword_at l 8 = NR_getpid).
  { unfold l. rewrite (getpid_setup_memory _ _ _ _ Hs). set (mem := store_bytes _ base _).
    assert (∀ i w, syscall_program !! i = Some w → (16 ≤ i)%nat → 0 ≤ w < 2 ^ 32 →
              mapped (store_bytes mem (base + 8) (be_bytes 8 NR_getpid)) base (4 * Z.of_nat i) = w) as Hp.
    { intros i x Hi Hl Hx. rewrite <- (mapped_program (stored (log w)) base _ _ _ Hi Hx). fold mem. unfold mapped, word_of.
      by rewrite !store_bytes_outside by (rewrite length_be_bytes; lia). }
    split; [split_and!; [apply (Hp 16%nat)|apply (Hp 17%nat)|apply (Hp 18%nat)]; first [reflexivity|lia]|].
    change (mapped _ base) with (λ a, word_of (store_bytes mem (base + 8) (be_bytes 8 NR_getpid)) (base + a)). unfold dword_at. cbv beta.
    replace (base + (8 + 4)) with (base + 8 + 4) by lia. rewrite <- (Z.add_0_r (base + 8)) at 2.
    change (word_of ?m (?b + ?a)) with (mapped m b a).
    rewrite (mapped_word _ _ _ 0 0), (mapped_word _ _ _ 4 NR_getpid); first [done|lia|vm_compute; done]. }
  destruct Hc as [Hc Hg]. exists (Spu r l 68). split; [by apply syscall_step|]. cbn [ls pc].
  rewrite (proj1 (proj2 Hc)), returns_at by done. split; [done|]. split; [apply dword_put|].
  eexists. apply last_stop_step, has_code_returned, Hc.
Qed.
End getpid.

(** ** 02-read and 03-read+schedule *)

Section read.
Context (strerror : Z → bytes) (fd0 fd1 in_addr N : Z) (N_pos : 0 ≤ N) {box : Type} `{!Mailbox box} (sched : bool).

#[local] Abbreviation system := (sys read_var read_loop box).
#[local] Abbreviation rd_code := (read_code strerror fd1 N).
#[local] Abbreviation rd_step := (Syscalls.read_step strerror fd0 fd1 in_addr N answers_ok).
#[local] Abbreviation starts_spe := (Syscalls.starts_spe strerror fd1).
#[local] Abbreviation writes_out := (Syscalls.writes_out fd1).
#[local] Abbreviation spe_thread := (read_spe_thread strerror).

Implicit Types (b : system) (e : spe box) (t w : read_thread) (v : read_var → Z).

(** The block, its number apart. *)
Definition has_params (l : Z → Z) : Prop :=
  dword_at l 16 = wrapu 64 fd0 ∧ dword_at l 24 = wrapu 64 in_addr ∧ dword_at l 32 = 1.

(** The thread of 03 that reads the registers, and threads that have ended. *)
Inductive descheduler : read_thread → Prop :=
| de_goto fd : descheduler (Goto (descheduling fd))
| de_get fd : descheduler (rd_code (descheduling fd))
| de_read fd : descheduler (reads_16 fd)
| de_seek fd : descheduler (seeks_regs fd).

Definition bystander v t : Prop := t = Done ∨ sched = true ∧ v v_run = 1 ∧ descheduler t.

(** What comes after the checks, with the number of the other threads then. *)
Inductive rest_of (k : nat) : read_thread → Z → Prop :=
| rest_return : rest_of k (Return EXIT_SUCCESS) 1
| rest_iter i : 0 ≤ i ≤ N → k = S (Z.to_nat i) → rest_of k (Goto (iterating i)) (100 * (N - i) + 2).

(** [main] without a run, next to [k] threads. *)
Inductive quiet v (k : nat) (l : Z → Z) : read_thread → Z → Prop :=
| q_rest t n : rest_of k t n → quiet v k l t n
| q_iterates i : 0 ≤ i < N → k = S (Z.to_nat i) → quiet v k l (iterates strerror fd1 i) (100 * (N - i) + 1)
| q_number shown next n : v v_entry = 64 → rest_of (S k) next n →
    quiet v k l (pokes (dword 2 NR_read) (starts_spe (S k) shown next)) (n + 50)
| q_number_lo shown next n : v v_entry = 64 → l 8 = 0 → rest_of (S k) next n →
    quiet v k l (Poke 0 12 NR_read (starts_spe (S k) shown next)) (n + 49)
| q_starts shown next n : v v_entry = 64 → dword_at l 8 = NR_read → rest_of (S k) next n →
    quiet v k l (starts_spe (S k) shown next) (n + 48)
| q_rc shown next n : v v_run_rc = 0x13370002 → l 8 = 0 → l 12 = 1 → v v_in = out_byte → rest_of k next n →
    quiet v k l (checks_run_rc shown next) (n + 4)
| q_ret next n : l 8 = 0 → l 12 = 1 → v v_in = out_byte → rest_of k next n → quiet v k l (checks_ret next) (n + 3)
| q_ret_lo next n : l 12 = 1 → v v_in = out_byte → rest_of k next n → quiet v k l (checks_ret_lo next 0) (n + 2)
| q_in next n : v v_in = out_byte → rest_of k next n → quiet v k l (checks_in next) (n + 1).

(** Thread [j], which runs the SPE: before the byte is read and after that. *)
Inductive running (j : nat) v e : bool → read_thread → Z → Prop :=
| w_get : v v_entry = 64 → runner e = None → running j v e false spe_thread 7
| w_run : runner e = None → running j v e false (Run 0 64 (read_ran strerror)) 6
| w_reads : runner e = Some j → pc (machine e) = 64 → running j v e false (Run 0 64 (read_ran strerror)) 5
| w_stops entry : runner e = Some j → pc (machine e) = 72 → running j v e true (Run 0 entry (read_ran strerror)) 4
| w_entry a : runner e = None → wraps 32 (a_rc a) = 0x13370002 → running j v e true (read_ran strerror a) 3
| w_rc : runner e = None → running j v e true (Put v_run_rc 0x13370002 Done) 2
| w_done : runner e = None → v v_run_rc = 0x13370002 → running j v e true Done 0.

(** [main] meanwhile: it writes the byte and waits for thread [j]. *)
Inductive main_at (j : nat) : bool → read_thread → Z → Prop :=
| m_writes shown next n : rest_of j next n → main_at j false (writes_out j shown next) (n + 20)
| m_joins shown next n : rest_of j next n → main_at j true (joins_spe j shown next) (n + 10).

(** The byte on its way. *)
Definition transfer_ok (written served : bool) v (l : Z → Z) (p : list Z) : Prop :=
  if served then written = true ∧ p = [] ∧ l 8 = 0 ∧ l 12 = 1 ∧ v v_in = out_byte
  else dword_at l 8 = NR_read ∧ p = if written then [out_byte] else [].

(** *** Up to the first run *)

Definition read_stores : list (Z * Z) := program_stores ++ block_stores fd0 in_addr.

Inductive tail_of : read_thread → Prop :=
| tl_02 : sched = false → tail_of (read_starts strerror fd1)
| tl_03 fd : sched = true → tail_of (starts_regs fd).

Inductive opener : (Z → read_thread) → Prop :=
| op_02 : sched = false → opener (λ fd, maps_block fd0 in_addr fd (read_starts strerror fd1))
| op_03 ctx : sched = true → opener (opens_regs_too fd0 in_addr ctx).

Definition opens_next (next : Z → read_thread) : Prop := ∀ ctx, ∃ k, next ctx = opens_block ctx k ∧ opener k.

Inductive alone v : read_thread → list (spe box) → Z → Prop :=
| al_pipe name next : opens_next next → alone v (pipes (creates_reading name next)) [] (100 * N + 209)
| al_create name next : opens_next next → alone v (creates_reading name next) [] (100 * N + 208)
| al_open ctx k : opener k → alone v (opens_block ctx k) [spe_with empty_ls] (100 * N + 207)
| al_regs ctx fd : sched = true → alone v (opens_regs_too fd0 in_addr ctx fd) [spe_with empty_ls] (100 * N + 206)
| al_map fd t : tail_of t → alone v (maps_block fd0 in_addr fd t) [spe_with empty_ls] (100 * N + 205)
| al_fill l r t : l ++ r = read_stores → tail_of t →
    alone v (pokes r t) [spe_with (LsSharedProps.filled l)] (100 * N + 100 + Z.of_nat (length r))
| al_start fd : sched = true → v v_run = 1 →
    alone v (Start (Goto (descheduling fd)) (λ a, asserted (a_rc a =? 0) (Goto (iterating 0))))
      [spe_with (LsSharedProps.filled read_stores)] (100 * N + 99).

(** *** The invariant *)

Definition good_ls e : Prop := has_code (ls (machine e)) ∧ has_params (ls (machine e)).

Inductive inv : Z → reading → Prop :=
| inv_alone b t n : threads b = [t] → ended b = None → alone (vars b) t (spes b) n → inv n (Reading b [])
| inv_quiet b t ts e n :
    threads b = t :: ts → spes b = [e] → ended b = None → runner e = None → good_ls e →
    Forall (bystander (vars b)) ts → quiet (vars b) (length ts) (ls (machine e)) t n → inv n (Reading b [])
| inv_round b p t ts w e written served n m :
    threads b = t :: ts ++ [w] → spes b = [e] → ended b = None → good_ls e → Forall (bystander (vars b)) ts →
    main_at (S (length ts)) written t n → running (S (length ts)) (vars b) e served w m →
    transfer_ok written served (vars b) (ls (machine e)) p → inv (n + m) (Reading b p)
| inv_over b p : ended b = Some (Returned EXIT_SUCCESS) → inv 0 (Reading b p).

(** *** Local store *)

Lemma stores_good : has_code (LsSharedProps.filled read_stores) ∧ has_params (LsSharedProps.filled read_stores) ∧
  dword_at (LsSharedProps.filled read_stores) 8 = NR_read.
Proof.
  split; [by split_and!|]. split; [|done].
  split_and!; [apply (field_split fd0)|apply (field_split in_addr)|done].
Qed.

Lemma bystanders_keep v v' ts : v' v_run = v v_run → Forall (bystander v) ts → Forall (bystander v') ts.
Proof. intros E H. eapply Forall_impl; [exact H|]. intros t [->|Hd]; [by left|right]. by rewrite E. Qed.

(** *** Steps of [main] *)

Lemma quiet_goes b t ts t' e' v' n n' :
  threads b = t :: ts → ended b = None → runner e' = None → good_ls e' → v' v_run = vars b v_run →
  Forall (bystander (vars b)) ts → quiet v' (length ts) (ls (machine e')) t' n' → n' < n →
  ∃ m, m < n ∧ inv m (Reading (Sys (<[0%nat:=t']> (threads b)) [e'] v' (ended b)) []).
Proof.
  intros Ht He Hr Hg Hv Hb Hq Hn. exists n'. split; [done|].
  eapply (inv_quiet _ t' ts e'); cbn [threads spes vars ended]; [by rewrite Ht|done|done|done|done| |done].
  by eapply bystanders_keep.
Qed.

Ltac quiet_goes := eapply quiet_goes; [eassumption|eassumption|eassumption|try eassumption|try done|eassumption|..].

Lemma number_goes b t ts e k v n m :
  threads b = t :: ts → spes b = [e] → ended b = None → runner e = None → good_ls e →
  Forall (bystander (vars b)) ts → v = vars b → m < n →
  (∀ l, l = update (ls (machine e)) 8 0 → quiet v (length ts) l k m) →
  ∃ m, m < n ∧ inv m (Reading (go 0 k (set_spe 0 (set_machine (set_ls (update (ls (machine e)) 8 0) (machine e)) e) b)) []).
Proof.
  intros Ht Hs He Hr Hg Hb -> Hlt Hq. unfold go, set_spe. cbn [threads spes vars ended]. rewrite Hs.
  eapply quiet_goes; try eassumption; [done|by apply Hq].
Qed.

Lemma spe_starts b ts e shown next n :
  threads b = starts_spe (S (length ts)) shown next :: ts → spes b = [e] → ended b = None → runner e = None → good_ls e →
  Forall (bystander (vars b)) ts → vars b v_entry = 64 → dword_at (ls (machine e)) 8 = NR_read →
  rest_of (S (length ts)) next n →
  inv (n + 20 + 7) (Reading (spawn spe_thread (go 0 (writes_out (S (length ts)) shown next) b)) []).
Proof.
  intros Ht Hs He Hr Hg Hb Hv Hd Hn.
  eapply (inv_round _ _ _ ts spe_thread e false false); cbn [spawn go threads spes vars ended]; try done.
  - by rewrite Ht.
  - by constructor.
  - by constructor.
Qed.

(** A step of [main] when no thread runs the SPE. *)
Lemma quiet_step b b' t ts e n :
  threads b = t :: ts → spes b = [e] → ended b = None → runner e = None → good_ls e →
  Forall (bystander (vars b)) ts → quiet (vars b) (length ts) (ls (machine e)) t n →
  thread_step rd_code answers_ok b 0 t b' → ∃ m, m < n ∧ inv m (Reading b' []).
Proof.
  intros Ht Hs He Hr Hg Hb Hq Hst.
  destruct Hq as [t n [|i Hi Hk]|i Hi Hk|shown next n Hv Hn|shown next n Hv Hl Hn|shown next n Hv Hd Hn
    |shown next n Hv Hl Hl' Hin Hn|next n Hl Hl' Hin Hn|next n Hl' Hin Hn|next n Hin Hn].
  - apply return_step in Hst as ->. exists 0. split; [done|by apply inv_over].
  - apply goto_step in Hst as ->. unfold go. rewrite Hs. cbn [read_code]. destruct (Z.ltb_spec i N).
    + quiet_goes; [by apply q_iterates; [lia|]|lia].
    + quiet_goes; [apply q_rest, rest_return|lia].
  - apply put_step in Hst as ->. unfold go, set_var. cbn [threads spes vars ended]. rewrite Hs, <- Hk.
    quiet_goes; [apply q_number; [done|]|].
    + apply (rest_iter _ (i + 1)); lia.
    + lia.
  - apply poke_step in Hst as (e' & Hc & ->). rewrite Hs in Hc. injection Hc as <-.
    eapply number_goes; try eassumption; [done| |].
    2: { intros l ->. by eapply (q_number_lo _ _ _ _ _ n). }
    lia.
  - apply poke_step in Hst as (e' & Hc & ->). rewrite Hs in Hc. injection Hc as <-.
    unfold go, set_spe. cbn [threads spes vars ended]. rewrite Hs.
    eapply quiet_goes; try eassumption; [done| |].
    + eapply (q_starts _ _ _ _ _ n); [done| |done]. cbn [set_machine machine set_ls ls]. unfold dword_at, update.
      change (8 =? 12) with false. change (8 + 4 =? 12) with true. by rewrite Hl.
    + lia.
  - apply start_step in Hst as (a & Hk & [[Hc ->]|[Hc _]]); [|done]. rewrite Hc. change (0 =? 0) with true. cbn [asserted].
    exists (n + 20 + 7). split; [lia|]. by eapply spe_starts.
  - apply get_step in Hst as ->. rewrite Hv. unfold go. rewrite Hs. quiet_goes; [by apply q_ret|lia].
  - apply peek_step in Hst as (e' & Hc & ->). rewrite Hs in Hc. injection Hc as <-. rewrite Hl.
    unfold go. rewrite Hs. quiet_goes; [by apply q_ret_lo|lia].
  - apply peek_step in Hst as (e' & Hc & ->). rewrite Hs in Hc. injection Hc as <-. rewrite Hl'. change (negb _) with false. cbv iota zeta.
    unfold go. rewrite Hs. quiet_goes; [by apply q_in|lia].
  - apply get_step in Hst as ->. rewrite Hin. unfold go. rewrite Hs. quiet_goes; [by apply q_rest|lia].
Qed.

(** *** [main] alone *)

Lemma read_alone_goes b t t' es' v' n n' :
  threads b = [t] → ended b = None → alone v' t' es' n' → n' < n →
  ∃ m, m < n ∧ inv m (Reading (Sys (<[0%nat:=t']> (threads b)) es' v' (ended b)) []).
Proof. intros Ht He Ha Hn. exists n'. split; [done|]. eapply inv_alone; cbn [threads spes vars ended]; [by rewrite Ht|done|done]. Qed.

Lemma read_spe_good : good_ls (spe_with (box := box) (LsSharedProps.filled read_stores)).
Proof. split; apply stores_good. Qed.

(** The first access after local store is filled. *)
Lemma tail_step b b' t :
  threads b = [t] → spes b = [spe_with (LsSharedProps.filled read_stores)] → ended b = None → tail_of t →
  thread_step rd_code answers_ok b 0 t b' → ∃ m, m < 100 * N + 100 ∧ inv m (Reading b' []).
Proof.
  intros Ht Hs He Htl Hst; destruct Htl as [Hc|fd Hc]; apply put_step in Hst as ->; unfold go, set_var; cbn [threads spes vars ended]; rewrite Hs.
  - eapply (quiet_goes b (read_starts strerror fd1) []); try eassumption; [done|apply read_spe_good|done|by apply List.Forall_nil|..].
    + apply (q_starts _ 0 _ (λ _, 0) (Return EXIT_SUCCESS) 1); [done|apply stores_good|constructor].
    + lia.
  - eapply read_alone_goes; [done|done|by apply al_start|lia].
Qed.

Lemma read_alone_step b b' t n :
  threads b = [t] → ended b = None → alone (vars b) t (spes b) n → thread_step rd_code answers_ok b 0 t b' →
  ∃ m, m < n ∧ inv m (Reading b' []).
Proof.
  intros Ht He Ha Hst. remember (spes b) as es eqn:Es. symmetry in Es.
  destruct Ha as [name next Hx|name next Hx|ctx k Hk|ctx fd Hc|fd t Htl|l r t Hl Htl|fd Hc Hv].
  - apply call_step in Hst as (a & Hk & ->). cbn [answers_ok] in Hk. rewrite Hk. unfold go. cbn [effect]. rewrite Es.
    eapply read_alone_goes; [done|done|by apply al_create|lia].
  - apply call_step in Hst as (a & Hk & ->). cbn [answers_ok] in Hk. cbn [effect]. rewrite (proj2 (Z.leb_le _ _) Hk).
    unfold go. cbn [threads spes vars ended]. rewrite Es. destruct (Hx (wraps 32 (a_rc a))) as (k & -> & Ho).
    eapply read_alone_goes; [done|done|by apply al_open|lia].
  - apply call_step in Hst as (a & Ha & ->). cbn [answers_ok] in Ha. rewrite (proj2 (Z.leb_le _ _)) by lia. unfold go. cbn [effect]. rewrite Es.
    destruct Hk as [Hc|ctx' Hc].
    + eapply read_alone_goes; [done|done|by apply al_map, tl_02|lia].
    + eapply read_alone_goes; [done|done|by apply al_regs|lia].
  - apply call_step in Hst as (a & Ha & ->). cbn [answers_ok] in Ha. rewrite (proj2 (Z.leb_le _ _)) by lia. unfold go. cbn [effect]. rewrite Es.
    eapply read_alone_goes; [done|done|by apply al_map, tl_03|lia].
  - apply call_step in Hst as (a & Ha & ->). cbn [answers_ok] in Ha. rewrite (proj2 (Z.eqb_neq _ _) Ha). unfold go. cbn [effect]. rewrite Es.
    eapply read_alone_goes; [done|done|by apply (al_fill _ [] read_stores)|]. change (length read_stores) with 27%nat. lia.
  - destruct r as [|[i x] r]; cbn [pokes] in Hst.
    + rewrite app_nil_r in Hl. subst l. rewrite Z.add_0_r. by eapply tail_step.
    + apply poke_step in Hst as (e & He' & ->). rewrite Es in He'. injection He' as <-.
      unfold go, set_spe. cbn [threads spes vars ended]. rewrite Es. eapply read_alone_goes; [done|done| |].
      * cbn [list_insert insert]. replace (set_machine _ _) with (spe_with (box := box) (LsSharedProps.filled (l ++ [(i, x)]))) by (by rewrite filled_snoc).
        apply (al_fill _ (l ++ [(i, x)]) r); [by rewrite <- app_assoc|done].
      * cbn [length]. lia.
  - apply start_step in Hst as (a & Hk & [[Hz ->]|[Hz _]]); [|done]. rewrite Hz. change (0 =? 0) with true. cbn [asserted].
    exists (100 * (N - 0) + 2). split; [lia|].
    eapply (inv_quiet _ _ [Goto (descheduling fd)]); cbn [spawn go threads spes vars ended]; [by rewrite Ht|exact Es|done|done|apply read_spe_good| |].
    + apply List.Forall_cons; [right; by split_and!; [..|constructor]|done].
    + apply q_rest, rest_iter; [lia|done].
Qed.

(** *** The thread that runs the SPE *)

Lemma insert_last {A} (t : A) (ts : list A) (w w' : A) : <[S (length ts) := w']> (t :: ts ++ [w]) = t :: ts ++ [w'].
Proof. change (t :: ts ++ ?x) with ((t :: ts) ++ x). by rewrite insert_app_r_alt, Nat.sub_diag by done. Qed.

Lemma round_goes b p t ts w w' e e' written served' v' n m m' :
  threads b = t :: ts ++ [w] → spes b = [e] → ended b = None → good_ls e' → v' v_run = vars b v_run →
  Forall (bystander (vars b)) ts → main_at (S (length ts)) written t n →
  running (S (length ts)) v' e' served' w' m' → transfer_ok written served' v' (ls (machine e')) p → m' < m →
  ∃ k, k < n + m ∧ inv k (Reading (Sys (<[S (length ts):=w']> (threads b)) [e'] v' (ended b)) p).
Proof.
  intros Ht Hs He Hg Hv Hb Hm Hr Htr Hlt. exists (n + m'). split; [lia|].
  eapply (inv_round _ p t ts w' e'); cbn [threads spes vars ended]; [|done|done|done|by eapply bystanders_keep|done|done|done].
  by rewrite Ht, insert_last.
Qed.

Lemma runner_step b b' p t ts w e written served n m :
  threads b = t :: ts ++ [w] → spes b = [e] → ended b = None → good_ls e → Forall (bystander (vars b)) ts →
  main_at (S (length ts)) written t n → running (S (length ts)) (vars b) e served w m →
  transfer_ok written served (vars b) (ls (machine e)) p → special b w = false →
  thread_step rd_code answers_ok b (S (length ts)) w b' → ∃ k, k < n + m ∧ inv k (Reading b' p).
Proof.
  intros Ht Hs He Hg Hb Hm Hr Htr Hsp Hst. pose proof Hr as Hr0.
  destruct Hr as [Hv Hn|Hn|Hn Hp|entry Hn Hp|a Hn Ha|Hn|Hn Hv].
  - apply get_step in Hst as ->. rewrite Hv. unfold go. rewrite Hs. eapply round_goes; try eassumption; [done|by apply w_run|lia].
  - apply run_step in Hst as (e' & Hc & [[_ [->|(a & Hk & Ha & _)]]|[Hn' _]]); rewrite Hs in Hc; injection Hc as <-; [| |congruence].
    + unfold set_spe. rewrite Hs. replace (threads b) with (<[S (length ts) := Run 0 64 (read_ran strerror)]> (threads b)).
      2: by rewrite Ht, insert_last.
      eapply round_goes; try eassumption; [done|by apply w_reads|lia].
    + cbn in Hk. lia.
  - exfalso. cbn [special] in Hsp. rewrite Hs in Hsp. cbn in Hsp. rewrite Hn in Hsp. unfold at_syscall in Hsp.
    destruct Hg as [Hc _]. destruct (machine e) as [r l p']. cbn [pc ls] in *. subst p'. by rewrite syscall_step in Hsp.
  - apply run_step in Hst as (e' & Hc & [[Hn' _]|(_ & code & m' & a & Hst & _ & Ha & _ & ->)]); rewrite Hs in Hc; injection Hc as <-; [congruence|].
    destruct e as [[r l p'] run bx sn gt]. cbn [pc machine runner] in *. subst p'. rewrite last_stop_step in Hst by apply Hg. injection Hst as <- <-.
    unfold go, set_spe. cbn [threads spes vars ended]. rewrite Hs.
    eapply round_goes; try eassumption; [done|by apply w_entry; [|rewrite Ha]|lia].
  - apply put_step in Hst as ->. rewrite Ha. unfold go, set_var. cbn [threads spes vars ended]. rewrite Hs.
    eapply round_goes; try eassumption; [done|by apply w_rc|exact Htr|lia].
  - apply put_step in Hst as ->. unfold go, set_var. cbn [threads spes vars ended]. rewrite Hs.
    eapply round_goes; try eassumption; [done|by apply w_done|exact Htr|lia].
  - by inversion Hst.
Qed.

(** *** The byte *)

Lemma lookup_last {A} (t : A) (ts : list A) (w : A) : (t :: ts ++ [w]) !! S (length ts) = Some w.
Proof. cbn. by apply list_lookup_middle. Qed.

(** [main] has written it. *)
Lemma write_step b p t ts w e written served n m fd data k a :
  threads b = t :: ts ++ [w] → spes b = [e] → ended b = None → good_ls e → Forall (bystander (vars b)) ts →
  main_at (S (length ts)) written t n → running (S (length ts)) (vars b) e served w m →
  transfer_ok written served (vars b) (ls (machine e)) p → t = Call (c_write fd data) k →
  answers_ok (r_call (c_write fd data)) a →
  ∃ j, j < n + m ∧ inv j (Reading (go 0 (k a) b) (if fd =? fd1 then p ++ map code (take (Z.to_nat (a_rc a)) data) else p)).
Proof.
  intros Ht Hs He Hg Hb Hm Hr Htr E Ha. destruct Hm as [shown next n Hn|shown next n Hn]; [|done].
  injection E as <- <- <-. cbn [answers_ok] in Ha. rewrite Ha, Z.eqb_refl. change (map code _) with [out_byte].
  destruct served; [by destruct Htr|]. destruct Htr as [Hd ->].
  exists (n + 10 + m). split; [lia|].
  eapply (inv_round _ _ (joins_spe (S (length ts)) shown next) ts w e true false); cbn [go threads spes vars ended]; try done.
  - by rewrite Ht.
  - by constructor.
Qed.

(** [main] waits until the other thread has ended. *)
Lemma join_step b b' p t ts w e written served n m :
  threads b = t :: ts ++ [w] → spes b = [e] → ended b = None → good_ls e → Forall (bystander (vars b)) ts →
  main_at (S (length ts)) written t n → running (S (length ts)) (vars b) e served w m →
  transfer_ok written served (vars b) (ls (machine e)) p → special b t = false →
  thread_step rd_code answers_ok b 0 t b' → ∃ k, k < n + m ∧ inv k (Reading b' p).
Proof.
  intros Ht Hs He Hg Hb Hm Hr Htr Hsp Hst. destruct Hm as [shown next n Hn|shown next n Hn]; [done|].
  apply wait_step in Hst as [Hd ->]. rewrite Ht, lookup_last in Hd. injection Hd as ->.
  inversion Hr as [| | | | | |Hrun Hv Es Ew Em]; subst. destruct Htr as (_ & -> & Hl & Hl' & Hi).
  exists (n + 4). split; [lia|].
  eapply (inv_quiet _ (checks_run_rc shown next) (ts ++ [Done]) e); cbn [go threads spes vars ended]; try done.
  - by rewrite Ht.
  - apply Forall_app. split; [done|]. apply List.Forall_cons; [by left|done].
  - rewrite length_app, Nat.add_1_r. by apply q_rc.
Qed.

(** The kernel performs the call of the SPE. *)
Lemma service_step b p t ts w e written served n m mc x rest :
  threads b = t :: ts ++ [w] → spes b = [e] → ended b = None → good_ls e → Forall (bystander (vars b)) ts →
  main_at (S (length ts)) written t n → running (S (length ts)) (vars b) e served w m →
  transfer_ok written served (vars b) (ls (machine e)) p → is_Some (runner e) →
  spu_step (machine e) = Stopped SYSCALL_STOP mc → p = x :: rest →
  ∃ k, k < n + m ∧ inv k (Reading (set_var v_in x (set_spe 0 (set_machine (returns mc 1) e) b)) rest).
Proof.
  intros Ht Hs He [Hc Hp] Hb Hm Hr Htr [j Hj] Hst ->. destruct e as [[r l pc'] run bx sn gt]. cbn [machine runner ls] in *.
  inversion Hr as [? E1|E1|E1 E2|? E1 E2|? E1|E1|E1]; subst; cbn [machine runner pc] in *; try congruence.
  2: { subst pc'. by rewrite last_stop_step in Hst. }
  subst pc'. rewrite syscall_step in Hst by done. injection Hst as <-. rewrite returns_at by done.
  cbn in Htr. destruct Htr as [Hd Hx]. destruct written; [|done]. injection Hx as -> ->.
  exists (n + 4). split; [lia|]. unfold set_var, set_spe. cbn [threads spes vars ended]. rewrite Hs.
  eapply (inv_round _ [] t ts (Run 0 64 (read_ran strerror)) _ true true); cbn [threads spes vars ended]; try done.
  by apply w_stops.
Qed.

(** *** Any step *)

(** The thread of 03 goes on for ever and never fails. *)
Lemma descheduler_step b b' i t :
  descheduler t → vars b v_run = 1 → thread_step rd_code answers_ok b i t b' → ∃ t', descheduler t' ∧ b' = go i t' b.
Proof.
  intros [fd|fd|fd|fd] Hv Hs.
  - apply goto_step in Hs as ->. eexists. split; [apply de_get|done].
  - apply get_step in Hs as ->. rewrite Hv. eexists. split; [apply de_read|done].
  - apply call_step in Hs as (a & Hk & ->). cbn [answers_ok] in Hk. rewrite Hk. eexists. split; [apply de_seek|done].
  - apply call_step in Hs as (a & Hk & ->). cbn [answers_ok] in Hk. rewrite Hk. eexists. split; [apply de_goto|done].
Qed.

Lemma bystander_step b b' i t :
  bystander (vars b) t → thread_step rd_code answers_ok b i t b' →
  sched = true ∧ ∃ t', bystander (vars b) t' ∧ b' = go i t' b.
Proof.
  intros [->|(Hc & Hv & Hd)] Hs; [by inversion Hs|]. split; [done|].
  destruct (descheduler_step _ _ _ _ Hd Hv Hs) as (t' & Ht' & ->). exists t'. split; [by right|done].
Qed.

Lemma bystander_writes v t fd data k : bystander v t → t ≠ Call (c_write fd data) k.
Proof. intros [->|(_ & _ & [])]; discriminate. Qed.

Lemma running_writes j v e sv w m fd data k : running j v e sv w m → w ≠ Call (c_write fd data) k.
Proof. destruct 1; discriminate. Qed.

Lemma quiet_writes v k l t n fd data f : quiet v k l t n → t ≠ Call (c_write fd data) f.
Proof. destruct 1 as [t n []| | | | | | | |]; discriminate. Qed.

Lemma alone_writes v t es n fd data f : alone v t es n → t ≠ Call (c_write fd data) f.
Proof. destruct 1 as [| | | | |l [|[]] t _ []|]; discriminate. Qed.

Lemma alone_no_run v t es n c e : alone v t es n → es !! c = Some e → ¬ is_Some (runner e).
Proof. intros Ha Hc [j Hj]. destruct Ha; destruct c; try done; cbn in Hc; simplify_eq. Qed.

(** An SPE that runs is at one of its stops. *)
Lemma running_stops j v e sv w m :
  running j v e sv w m → good_ls e → is_Some (runner e) → ∃ code mc, spu_step (machine e) = Stopped code mc.
Proof.
  intros Hr [Hc _] [i Hi]. destruct e as [[r l p] run bx sn gt]. destruct Hr; cbn in *; try congruence; subst p; eexists _, _.
  - by apply syscall_step.
  - by apply last_stop_step.
Qed.

(** The measure goes down, or the thread of 03 has made a step. *)
Definition goes_down (M : Z) (s : reading) : Prop := ∃ M', inv M' s ∧ (M' < M ∨ sched = true).

Lemma down_of M s : (∃ m, m < M ∧ inv m s) → goes_down M s.
Proof. intros (m & Hlt & H). exists m. split; [done|by left]. Qed.

Lemma alone_inv_step b t n s' :
  threads b = [t] → ended b = None → alone (vars b) t (spes b) n → rd_step (Reading b []) s' → goes_down n s'.
Proof.
  intros Ht He Ha Hst. apply down_of. destruct Hst as [i u b' _ Hi _ Hs|i fd data k a _ Hi _|c e b' _ Hc Hr _|c e m a x p _ Hc Hr|c e m a _ Hc Hr];
    cbn [base pipe] in *; try by apply (alone_no_run _ _ _ _ _ _ Ha Hc) in Hr.
  - rewrite Ht in Hi. destruct i; [|done]. injection Hi as <-. by eapply read_alone_step.
  - rewrite Ht in Hi. destruct i; [|done]. injection Hi as ->. by destruct (alone_writes _ _ _ _ _ _ _ Ha eq_refl).
Qed.

Lemma quiet_inv_step b t ts e n s' :
  threads b = t :: ts → spes b = [e] → ended b = None → runner e = None → good_ls e →
  Forall (bystander (vars b)) ts → quiet (vars b) (length ts) (ls (machine e)) t n →
  rd_step (Reading b []) s' → goes_down n s'.
Proof.
  intros Ht Hs He Hr Hg Hb Hq Hst.
  assert (Hrun : ∀ c e', spes b !! c = Some e' → ¬ is_Some (runner e')).
  { intros c e'. rewrite Hs. destruct c; [|done]. intros [= <-]. rewrite Hr. by intros [? ?]. }
  destruct Hst as [i u b' _ Hi _ Hst|i fd data k a _ Hi _|c e' b' _ Hc Hx _|c e' m a x p _ Hc Hx|c e' m a _ Hc Hx];
    cbn [base pipe] in *; try by apply (Hrun _ _ Hc) in Hx.
  - rewrite Ht in Hi. destruct i as [|i]; cbn in Hi.
    + injection Hi as <-. apply down_of. by eapply quiet_step.
    + pose proof (proj1 (Forall_lookup _ _) Hb _ _ Hi) as Hu. destruct (bystander_step _ _ _ _ Hu Hst) as (Hc & u' & Hu' & ->).
      exists n. split; [|by right]. eapply (inv_quiet _ t (<[i:=u']> ts) e); cbn [go threads spes vars ended]; [by rewrite Ht|done..| |].
      * by apply Forall_insert.
      * by rewrite length_insert.
  - rewrite Ht in Hi. destruct i as [|i]; cbn in Hi.
    + injection Hi as ->. by destruct (quiet_writes _ _ _ _ _ _ _ _ Hq eq_refl).
    + pose proof (proj1 (Forall_lookup _ _) Hb _ _ Hi) as Hu. by destruct (bystander_writes _ _ _ _ _ Hu eq_refl).
Qed.

(** Where a thread is during a round. *)
Lemma round_lookup {A} (t w : A) (ts : list A) i (u : A) :
  (t :: ts ++ [w]) !! i = Some u → i = 0%nat ∧ u = t ∨ i = S (length ts) ∧ u = w ∨ ∃ k, i = S k ∧ (k < length ts)%nat ∧ ts !! k = Some u.
Proof.
  destruct i as [|k]; cbn; [intros [= <-]; by left|]. intros [H|[Hl H]]%lookup_app_Some.
  - right. right. exists k. split_and!; [done|by eapply lookup_lt_Some|done].
  - right. left. apply list_lookup_singleton_Some in H as [Hk <-]. split; [lia|done].
Qed.

Lemma round_bystander b b' p t ts w e written served n m k u :
  threads b = t :: ts ++ [w] → spes b = [e] → ended b = None → good_ls e → Forall (bystander (vars b)) ts →
  main_at (S (length ts)) written t n → running (S (length ts)) (vars b) e served w m →
  transfer_ok written served (vars b) (ls (machine e)) p → ts !! k = Some u →
  thread_step rd_code answers_ok b (S k) u b' → goes_down (n + m) (Reading b' p).
Proof.
  intros Ht Hs He Hg Hb Hm Hr Htr Hk Hst. pose proof (proj1 (Forall_lookup _ _) Hb _ _ Hk) as Hu.
  destruct (bystander_step _ _ _ _ Hu Hst) as (Hc & u' & Hu' & ->). exists (n + m). split; [|by right].
  pose proof (lookup_lt_Some _ _ _ Hk) as Hlt.
  eapply (inv_round _ _ t (<[k:=u']> ts) w e written served); cbn [go threads spes vars ended]; rewrite ?length_insert; try done.
  - rewrite Ht. cbn [insert list_insert]. f_equal. by apply insert_app_l.
  - by apply Forall_insert.
Qed.

Lemma round_inv_step b p t ts w e written served n m s' :
  threads b = t :: ts ++ [w] → spes b = [e] → ended b = None → good_ls e → Forall (bystander (vars b)) ts →
  main_at (S (length ts)) written t n → running (S (length ts)) (vars b) e served w m →
  transfer_ok written served (vars b) (ls (machine e)) p → rd_step (Reading b p) s' → goes_down (n + m) s'.
Proof.
  intros Ht Hs He Hg Hb Hm Hr Htr Hst.
  destruct Hst as [i u b' _ Hi Hsp Hst|i fd data k a _ Hi Hk|c e' b' _ Hc Hx Hst|c e' mc a x r _ Hc Hx Hst _ _ _ Hp|c e' mc a _ Hc _ _ _ Hk Ha];
    cbn [base pipe] in *.
  - rewrite Ht in Hi. apply round_lookup in Hi as [[-> ->]|[[-> ->]|(k & -> & _ & Hk)]].
    + apply down_of. by eapply join_step.
    + apply down_of. by eapply runner_step.
    + by eapply round_bystander.
  - rewrite Ht in Hi. apply round_lookup in Hi as [[-> Hu]|[[-> Hu]|(j & -> & _ & Hj)]].
    + apply down_of. by eapply write_step.
    + by destruct (running_writes _ _ _ _ _ _ _ _ _ Hr (eq_sym Hu)).
    + pose proof (proj1 (Forall_lookup _ _) Hb _ _ Hj) as Hu. by destruct (bystander_writes _ _ _ _ _ Hu eq_refl).
  - rewrite Hs in Hc. destruct c; [|done]. injection Hc as <-.
    destruct (running_stops _ _ _ _ _ _ Hr Hg Hx) as (code & mc & Hmc). destruct Hst; congruence.
  - rewrite Hs in Hc. destruct c; [|done]. injection Hc as <-. apply down_of. by eapply service_step.
  - cbn [answers_ok] in Hk. lia.
Qed.

Lemma read_inv_step M s s' : inv M s → rd_step s s' → goes_down M s'.
Proof.
  intros Hi Hst. destruct Hi as [b t n Ht He Ha|b t ts e n Ht Hs He Hr Hg Hb Hq|b p t ts w e wr sv n m Ht Hs He Hg Hb Hm Hr Htr|b p He].
  - by eapply alone_inv_step.
  - by eapply quiet_inv_step.
  - by eapply round_inv_step.
  - destruct Hst; cbn [base] in *; congruence.
Qed.

(** *** Somebody can always move *)

Lemma quiet_can b t k e n :
  spes b = [e] → quiet (vars b) k (ls (machine e)) t n → special b t = false ∧ ∃ b', thread_step rd_code answers_ok b 0 t b'.
Proof.
  intros Hs Hq. assert (H0 : spes b !! 0%nat = Some e) by by rewrite Hs.
  destruct Hq as [t n []| | | | | | | |]; (split; [done|]); eexists.
  - apply t_return.
  - apply t_goto.
  - apply t_put.
  - by eapply t_poke.
  - by eapply t_poke.
  - by apply (t_start _ _ _ _ _ _ (answer 0 0)).
  - apply t_get.
  - by eapply t_peek.
  - by eapply t_peek.
  - apply t_get.
Qed.

Lemma alone_can b t n :
  alone (vars b) t (spes b) n → special b t = false ∧ ∃ b', thread_step rd_code answers_ok b 0 t b'.
Proof.
  intros Ha. remember (spes b) as es eqn:Es. symmetry in Es.
  destruct Ha as [name next Hx|name next Hx|ctx k Hk|ctx fd Hc|fd t Htl|l [|[i x] r] t Hl Htl|fd Hc Hv].
  6: destruct Htl.
  all: split; [done|]; eexists.
  all: try by apply (t_call _ _ _ _ _ _ (answer 0 0)).
  all: try by apply (t_call _ _ _ _ _ _ (answer 4 0)).
  - apply t_put.
  - apply t_put.
  - eapply t_poke. by rewrite Es.
  - by apply (t_start _ _ _ _ _ _ (answer 0 0)).
Qed.

(** A step that takes the test further. *)
Definition advances (M : Z) (s : reading) : Prop := ∃ s', rd_step s s' ∧ ∃ m, m < M ∧ inv m s'.

Lemma advances_by_thread M b p i t :
  ended b = None → threads b !! i = Some t → special b t = false → (∃ b', thread_step rd_code answers_ok b i t b') →
  (∀ b', thread_step rd_code answers_ok b i t b' → ∃ m, m < M ∧ inv m (Reading b' p)) → advances M (Reading b p).
Proof. intros He Hi Hsp [b' Hst] H. exists (Reading b' p). split; [by eapply rd_thread|by apply H]. Qed.

(** The thread that runs the SPE, *)
Lemma runner_can b (ts : list read_thread) w e served m :
  spes b = [e] → good_ls e → running (S (length ts)) (vars b) e served w m → m = 0 ∧ w = Done ∨ m = 5 ∨
  special b w = false ∧ ∃ b', thread_step rd_code answers_ok b (S (length ts)) w b'.
Proof.
  intros Hs Hg Hr. assert (H0 : spes b !! 0%nat = Some e) by by rewrite Hs.
  destruct Hr as [Hv Hn|Hn|Hn Hp|entry Hn Hp|a Hn Ha|Hn|]; [| |by right; left| | | |by left]; right; right.
  - split; [done|]. eexists. apply t_get.
  - split; [cbn [special]; by rewrite H0, Hn|]. eexists. by apply (t_run _ _ _ _ _ _ _ e).
  - destruct e as [[r l p'] run bx sn gt]. cbn [machine runner pc ls] in *. subst p'.
    pose proof (last_stop_step r l (proj1 Hg)) as Hst. split.
    + cbn [special]. rewrite H0, Hn. unfold at_syscall. cbn [machine]. by rewrite Hst.
    + eexists. by eapply (t_run_stops _ _ _ _ _ _ _ _ 0x1337 (Spu r l 76) (answer (stop_status 0x1337) 76)).
  - split; [done|]. eexists. apply t_put.
  - split; [done|]. eexists. apply t_put.
Qed.

(** the kernel for the SPE, or [main]. *)
Lemma service_can b p t ts w e served n :
  threads b = t :: ts ++ [w] → spes b = [e] → ended b = None → good_ls e → Forall (bystander (vars b)) ts →
  main_at (S (length ts)) true t n → running (S (length ts)) (vars b) e served w 5 →
  transfer_ok true served (vars b) (ls (machine e)) p → advances (n + 5) (Reading b p).
Proof.
  intros Ht Hs He Hg Hb Hm Hr Htr. pose proof Hr as Hr0. inversion Hr as [| |Hn Hp E1 E2| | | |]; subst.
  destruct Htr as [Hd ->]. pose proof Hg as [Hc (Hp1 & Hp2 & Hp3)]. pose proof (syscall_step (regs (machine e)) (ls (machine e)) Hc) as Hst.
  rewrite <- Hp in Hst at 1. replace (Spu _ _ (pc (machine e))) with (machine e) in Hst by by destruct (machine e).
  eexists. split.
  - eapply (rd_reads _ _ _ _ _ _ _ 0 e _ (answer 1 0)); [done|cbn [base]; by rewrite Hs|by rewrite Hn|exact Hst| |done|done|done].
    cbn [ls pc]. destruct Hc as (_ & -> & _). by split_and!.
  - by eapply service_step.
Qed.

Lemma round_can b p t ts w e written served n m :
  threads b = t :: ts ++ [w] → spes b = [e] → ended b = None → good_ls e → Forall (bystander (vars b)) ts →
  main_at (S (length ts)) written t n → running (S (length ts)) (vars b) e served w m →
  transfer_ok written served (vars b) (ls (machine e)) p → advances (n + m) (Reading b p).
Proof.
  intros Ht Hs He Hg Hb Hm Hr Htr. assert (H0 : threads b !! 0%nat = Some t) by by rewrite Ht.
  destruct written.
  2: { pose proof Hm as Hm0. inversion Hm; subst. eexists.
       split; [by eapply (rd_write _ _ _ _ _ _ _ 0 _ _ _ (answer 1 0))|]. by eapply write_step. }
  destruct (runner_can _ _ _ _ _ _ Hs Hg Hr) as [[-> ->]|[->|[Hsp Hst]]].
  - assert (special b t = false) as Hsp by by inversion Hm.
    eapply advances_by_thread; [done|exact H0|done| |intros b' Hst; by eapply join_step].
    inversion Hm; subst. eexists. apply t_join. by rewrite Ht, lookup_last.
  - by eapply service_can.
  - eapply advances_by_thread; [done|by rewrite Ht, lookup_last|done|done|]. intros b' Hb'. by eapply runner_step.
Qed.

Definition succeeded (s : reading (box := box)) : Prop := ended (base s) = Some (Returned EXIT_SUCCESS).

Lemma read_progress M s : inv M s → succeeded s ∨ advances M s.
Proof.
  destruct 1 as [b t n Ht He Ha|b t ts e n Ht Hs He Hr Hg Hb Hq|b p t ts w e wr sv n m Ht Hs He Hg Hb Hm Hr Htr|b p He]; [right..|by left].
  - destruct (alone_can _ _ _ Ha) as [Hsp Hst]. eapply (advances_by_thread _ _ _ 0 t); [done|by rewrite Ht|done|done|].
    intros b' Hb'. by eapply read_alone_step.
  - destruct (quiet_can _ _ _ _ _ Hs Hq) as [Hsp Hst]. eapply (advances_by_thread _ _ _ 0 t); [done|by rewrite Ht|done|done|].
    intros b' Hb'. by eapply quiet_step.
  - by eapply round_can.
Qed.

Lemma inv_ended_ok M s r : inv M s → ended (base s) = Some r → r = Returned EXIT_SUCCESS.
Proof. destruct 1; cbn [base]; congruence. Qed.

Lemma inv_positive M s : inv M s → 0 ≤ M.
Proof.
  assert (Hrest : ∀ k t n, rest_of k t n → 0 ≤ n) by (intros k t n []; lia).
  destruct 1 as [b t n Ht He Ha|b t ts e n Ht Hs He Hr Hg Hb Hq|b p t ts w e wr sv n m Ht Hs He Hg Hb Hm Hr Htr|b p He]; [| | |done].
  - destruct Ha; lia.
  - destruct Hq as [? ? H| |? ? ? ? H|? ? ? ? ? H|? ? ? ? ? H|? ? ? ? ? ? ? H|? ? ? ? ? H|? ? ? ? H|? ? ? H]; try apply Hrest in H; lia.
  - destruct Hm as [? ? ? H|? ? ? H]; apply Hrest in H; destruct Hr; lia.
Qed.

Lemma first_inv junk :
  inv (100 * N + 209)
    (read_initial (if sched then syscalls_03_read_schedule fd0 in_addr else syscalls_02_read strerror fd0 fd1 in_addr) junk).
Proof.
  assert (∃ name next, (if sched then syscalls_03_read_schedule fd0 in_addr else syscalls_02_read strerror fd0 fd1 in_addr) =
            pipes (creates_reading name next) ∧ opens_next next) as (name & next & -> & Hx).
  { destruct sched eqn:E; eexists _, _; (split; [reflexivity|]); intros ctx; eexists; (split; [reflexivity|]).
    - by apply op_03.
    - by apply op_02. }
  eapply inv_alone; cbn [threads spes vars ended]; [done|done|by apply al_pipe].
Qed.
End read.

(** *** Runs *)

Section turns.
Context (strerror : Z → bytes) (fd0 fd1 in_addr N : Z).

#[local] Abbreviation system := (reading (box := list Z)).
#[local] Abbreviation rd_step := (@Syscalls.read_step strerror fd0 fd1 in_addr N (list Z) (queue_mailbox 4) answers_ok).
#[local] Abbreviation allows := (λ r a, bool_decide (answers_ok r a)).

#[local] Instance asks_byte_dec l a : Decision (asks_byte fd0 in_addr l a).
Proof. unfold asks_byte. apply _. Defined.

(** [inl i]: the next access of thread [i], [inr c]: the kernel performs the call of
    context [c]; who cannot move leaves its turn out. *)
Definition read_turn_thread (i : nat) (t : read_thread) (s : system) : option system :=
  match t with
  | Call (c_write fd data) k =>
      let a := answer (Z.of_nat (length data)) 0 in
      Some (Reading (go i (k a) (base s))
        (if fd =? fd1 then pipe s ++ map code (take (Z.to_nat (a_rc a)) data) else pipe s))
  | _ =>
      if special (base s) t then None
      else b ← @advance_thread _ _ _ _ (queue_mailbox 4) (read_code strerror fd1 N) (λ _ _, None) allows i
                 (reply granted (base s) t) t (base s);
           Some (Reading b (pipe s))
  end.

Definition read_turn_spe (c : nat) (e : spe (list Z)) (s : system) : option system :=
  match runner e, spu_step (machine e), pipe s with
  | Some _, Stopped code m, x :: rest =>
      if decide (code = SYSCALL_STOP ∧ asks_byte fd0 in_addr (ls m) (ls m (pc m))) then
        Some (Reading (set_var v_in x (set_spe c (set_machine (returns m 1) e) (base s))) rest)
      else None
  | _, _, _ => None
  end.

Definition read_turn (s : system) (t : nat + nat) : system :=
  match ended (base s) with
  | Some _ => s
  | None =>
      default s match t with
      | inl i => u ← threads (base s) !! i; read_turn_thread i u s
      | inr c => e ← spes (base s) !! c; read_turn_spe c e s
      end
  end.

Lemma read_turn_ok s t : rtc rd_step s (read_turn s t).
Proof.
  unfold read_turn. destruct (ended (base s)) eqn:He; [done|].
  destruct t as [i|c]; [destruct (threads (base s) !! i) as [u|] eqn:Hu|destruct (spes (base s) !! c) as [e|] eqn:Hc]; try done; cbn.
  - destruct (read_turn_thread i u s) as [s'|] eqn:Ht; [|done]. apply rtc_once. destruct s as [b p]. cbn [base pipe] in *.
    assert (special b u = false → (∃ b', @advance_thread _ _ _ _ (queue_mailbox 4) (read_code strerror fd1 N) (λ _ _, None) allows i (reply granted b u) u b = Some b' ∧ s' = Reading b' p) →
            rd_step (Reading b p) s') as Hplain.
    { intros Hsp (b' & Ha & ->). eapply rd_thread; [done|exact Hu|done|].
      eapply (@advance_thread_step _ _ _ _ (queue_mailbox 4)); [..|exact Ha]; [done|].
      intros r a. cbv beta. by rewrite bool_decide_spec. }
    destruct u as [| | | | |c k| | | | | | | | | |]; cbn [read_turn_thread base] in Ht.
    all: try (destruct (special b _) eqn:Hsp; [done|]; apply bind_Some in Ht as (b' & Ha & [= <-]); apply Hplain; [done|by exists b']).
    destruct c; try (destruct (special b _) eqn:Hsp; [done|]; apply bind_Some in Ht as (b' & Ha & [= <-]); apply Hplain; [done|by exists b']).
    injection Ht as <-. by apply (rd_write _ _ _ _ _ _ (Reading b p)).
  - destruct (read_turn_spe c e s) as [s'|] eqn:Ht; [|done]. apply rtc_once. unfold read_turn_spe in Ht.
    destruct (runner e) eqn:Hr; [|done]. destruct (spu_step (machine e)) as [|code m| | |] eqn:Hst; try done.
    destruct (pipe s) as [|x rest] eqn:Hp; [done|]. case_decide as Hd; [|done]. destruct Hd as [-> Hask]. injection Ht as <-.
    by apply (rd_reads _ _ _ _ _ _ s c e m (answer 1 0)).
Qed.

Definition read_turns (ts : list (nat + nat)) (s : system) : system := fold_left read_turn ts s.

Lemma read_turns_reachable ts s : rtc rd_step s (read_turns ts s).
Proof.
  unfold read_turns. revert s. induction ts as [|t ts IH]; intros s; cbn [fold_left]; [done|].
  etrans; [apply read_turn_ok|apply IH].
Qed.
End turns.

(** C35 [read_tests_end]: on a kernel that does what it is asked, and that performs the
    block of a system call that an SPE stops at, 02-read ([sched] is false) and
    03-read+schedule can only end with success, from every state of a run the rest
    of it can be made, and 02-read ends in every run. *)
Theorem read_tests_end {box} `{!Mailbox box} (sched : bool) strerror fd0 fd1 in_addr N junk (s : reading (box := box)) :
  0 ≤ N →
  let main := if sched then syscalls_03_read_schedule fd0 in_addr else syscalls_02_read strerror fd0 fd1 in_addr in
  let step := Syscalls.read_step strerror fd0 fd1 in_addr N answers_ok in
  let success s := ended (base s) = Some (Returned EXIT_SUCCESS) in
  rtc step (read_initial main junk) s →
  (∀ r, ended (base s) = Some r → r = Returned EXIT_SUCCESS) ∧
  (∃ s', rtc step s s' ∧ success s') ∧
  (sched = false → inevitably step success s).
Proof.
  intros HN main step success Hr.
  assert (∃ M, inv strerror fd0 fd1 in_addr N sched M s) as [M Hi].
  { eapply (reachable_measured step); [by apply first_inv| |exact Hr].
    intros n s1 s2 H1 H2. destruct (read_inv_step _ _ _ _ _ HN _ _ _ _ H1 H2) as (M' & H & _). by exists M'. }
  split; [intros r; by eapply inv_ended_ok|]. split.
  - eapply (possibly_measure step (inv strerror fd0 fd1 in_addr N sched)); [|exact Hi]. intros n s1 H1. split; [by eapply inv_positive|].
    destruct (read_progress _ _ _ _ _ HN _ _ _ H1) as [|(s2 & H2 & m & Hlt & Hm)]; [by left|]. right. by exists s2, m.
  - intros ->. eapply (inevitably_measure step (inv strerror fd0 fd1 in_addr N false)); [|exact Hi]. intros n s1 H1. split; [by eapply inv_positive|].
    destruct (read_progress _ _ _ _ _ HN _ _ _ H1) as [|(s2 & H2 & _)]; [by left|]. right. split; [by exists s2|].
    intros s3 H3. destruct (read_inv_step _ _ _ _ _ HN _ _ _ _ H1 H3) as (M' & H & [Hlt|]); [|done]. by exists M'.
Qed.

(** 03 with two iterations, and reads of the registers in between. *)
Definition schedule_run : reading (box := list Z) :=
  read_turns (λ _, []) 5 6 0x7ffffff0 2
    (replicate 36 (inl 0%nat) ++ mjoin (replicate 30 [inl 1%nat; inl 0%nat; inl 2%nat; inl 3%nat; inr 0%nat]))
    (read_initial (syscalls_03_read_schedule 5 0x7ffffff0) (λ _, 99)).

Lemma read_tests_end_witness :
  ended (base schedule_run) = Some (Returned EXIT_SUCCESS) ∧
  ∀ r, ended (base schedule_run) = Some r → r = Returned EXIT_SUCCESS.
Proof.
  split; [vm_compute; reflexivity|].
  apply (@read_tests_end _ (queue_mailbox 4) true (λ _, []) 5 6 0x7ffffff0 2 (λ _, 99)); [lia|].
  apply read_turns_reachable.
Defined.
