(* ===== verification/SyscallBench.v ===== *)
(** * The benchmark of system calls (benchmarks/02-spu-syscall/01-syscalls.c)

    The SPE program asks for as many system calls as the first word of its image
    says; [main] measures the time of the run.  The kernel performs each call, with
    any result, and lets the SPE go on. *)

From stdpp Require Import relations.
From S2P Require Import Prelude Runs CString SysProg SpuTests SpuApps SpuRuns SpuProps SpuAppProps SpuIsa SpuCode Threads Syscalls SyscallProps.

Local Open Scope Z_scope.

(** The first word is the number of iterations. *)
Definition bench_program (n : Z) : list Z :=
  [n; 0; 0; 0; 0; NR_getpid] ++ replicate 14 0 ++ [
  0x30800000; 0x40800001; 0x30800202;
  0x20800202; 0x00002104; 0x00000010; 0x1c004081; 0x78004003; 0x207ffd83; 0x00001337
].

Definition bench_entry : Z := 0x50.

Section program.
Context (kernel : list event → call → ans) (strerror : Z → bytes) (ITERATIONS : Z).

(** The result of [write] is not used. *)
Definition benchmark_02_syscalls : P Z :=
  ctx ← SysProg.spu_create kernel (Some (lit "/spu/01-syscalls")) 0 0x1ED None; assert (0 <=? ctx);;
  ls_fd ← sys_rc kernel (c_openat ctx (lit "mem") O_RDWR); assert (0 <=? ls_fd);;
  _ ← SysProg.sys kernel (c_write ls_fd (words (bench_program ITERATIONS)));
  tv ← timer_start kernel;
  '(rc, _) ← SysProg.spu_run kernel ctx (Some bench_entry) false;
  if negb (rc =? 0x13370002) then
    SysProg.perror strerror (lit "spu_run");;
    fprintf stdout (lit "rc: " ++ fmt_base 16 (wrapu 32 rc) ++ [newline_c]);;
    mret EXIT_FAILURE
  else timer_stop_and_print kernel tv;; mret EXIT_SUCCESS.
End program.

(** ** The run *)

(** The SPE, and the numbers of the system calls it has made. *)
Record bench := Bench { b_spu : spu; calls : list Z }.

Inductive bench_step : bench → bench → Prop :=
| b_next m m' c : spu_step m = Next m' → bench_step (Bench m c) (Bench m' c)
| b_call m m' c ret :
    spu_step m = Stopped SYSCALL_STOP m' →
    bench_step (Bench m c) (Bench (returns m' ret) (c ++ [dword_at (ls m') (ls m' (pc m'))])).

(** *** The program *)

Definition bench_listing : list insn := [
  lqa 0 0; il 1 0; lqa 2 0x10;
  stqa 2 0x10; stop 0x2104; stop 0x10; ai 1 1 1; ceq 3 0 1; brz 3 (-20); stop 0x1337
].

Definition bench_code (l : Z → Z) : Prop := listed l 0x50 bench_listing ∧ l 0x64 = 0x10.

Lemma bench_code_load s n : bench_code (load s 0 (bench_program n)).
Proof.
  split; [|reflexivity].
  change (load s 0 (bench_program n)) with (load (load s 0 (take 20 (bench_program n))) 0x50 (drop 20 (bench_program n))).
  by apply listed_load.
Qed.

Lemma bench_code_put l v : bench_code l → bench_code (put_quad l 0x10 v).
Proof. intros [H E]. split; [by apply listed_put_quad|exact E]. Qed.

Lemma bench_code_returned l x : bench_code l → bench_code (put_dword l 0x10 x).
Proof.
  intros [H E]. split; [|exact E]. intros i y Hi. rewrite <- (H i y Hi). f_equal. unfold put_dword, update.
  by rewrite !(proj2 (Z.eqb_neq _ _)) by lia.
Qed.

Section run.
Context (Q : bench → Prop).

#[local] Abbreviation ends := (inevitably bench_step Q).

Lemma bench_next m m1 c : spu_step m = Next m1 → ends (Bench m1 c) → ends (Bench m c).
Proof. intros Hs H. apply in_later; [eexists; by apply b_next|]. intros s' Hst. inversion Hst; subst; congruence. Qed.

Lemma bench_call m m1 c nr :
  spu_step m = Stopped SYSCALL_STOP m1 → dword_at (ls m1) (ls m1 (pc m1)) = nr →
  (∀ ret, ends (Bench (returns m1 ret) (c ++ [nr]))) → ends (Bench m c).
Proof.
  intros Hs <- H. apply in_later; [eexists; by apply (b_call m m1 c 0)|]. intros s' Hst.
  inversion Hst; subst; [congruence|]. rewrite Hs in *. simplify_eq. apply H.
Qed.

Ltac bench_addresses :=
  match goal with
  | |- inevitably bench_step ?Q (Bench ?m ?c) =>
      let m' := eval cbv [next_pc target set_reg set_pc set_ls regs ls pc] in m in change (inevitably bench_step Q (Bench m' c))
  end;
  repeat match goal with
  | |- context [ls_addr ?a] => let v := eval vm_compute in (ls_addr a) in change (ls_addr a) with v
  end.

Ltac bench_exec H :=
  erewrite step_exec by spu_decode H;
  cbv [exec goes_on set_reg set_pc set_ls regs ls pc]; spu_registers; reflexivity.

Lemma bench_brz r l p rt off c :
  decode (l p) = Some (brz rt off) →
  (q0 (r rt) = 0 → ends (Bench (Spu r l (ls_addr (p + off))) c)) →
  (q0 (r rt) ≠ 0 → ends (Bench (Spu r l (ls_addr (p + 4))) c)) → ends (Bench (Spu r l p) c).
Proof.
  intros Hd H1 H2. destruct (Z.eqb_spec (q0 (r rt)) 0) as [E|E].
  - eapply bench_next; [|by apply H1]. erewrite step_exec by exact Hd. cbn. by rewrite (proj2 (Z.eqb_eq _ _) E).
  - eapply bench_next; [|by apply H2]. erewrite step_exec by exact Hd. cbn. by rewrite (proj2 (Z.eqb_neq _ _) E).
Qed.

Context (n : Z) (n_ok : 1 ≤ n < 2 ^ 32).

(** The registers after [k] calls. *)
Definition bench_regs (k : Z) (r : Z → quad) : Prop := q0 (r 0) = n ∧ r 1 = splat k ∧ r 2 = Quad 0 NR_getpid 0 0.

(** One turn: the block is set again, the call is made. *)
Lemma bench_turn k r l c :
  bench_code l → bench_regs k r → 0 ≤ k < n →
  (∀ r' l', bench_code l' → bench_regs (k + 1) r' →
     ends (Bench (Spu r' l' (if decide (k + 1 = n) then 0x74 else 0x5c)) (c ++ [NR_getpid]))) →
  ends (Bench (Spu r l 0x5c) c).
Proof.
  intros [H Hp] (H0 & H1 & H2) Hk Hnext. eapply bench_next; [bench_exec H|bench_addresses]. rewrite H2.
  pose proof (bench_code_put l (Quad 0 NR_getpid 0 0) (conj H Hp)) as [Hl' Hp'].
  assert (dword_at (put_quad l 0x10 (Quad 0 NR_getpid 0 0)) 0x10 = NR_getpid) as Hnr by reflexivity.
  revert Hl' Hp' Hnr. generalize (put_quad l 0x10 (Quad 0 NR_getpid 0 0)). clear l H Hp. intros l H Hp Hnr.
  eapply (bench_call _ _ _ NR_getpid); [bench_exec H| |].
  - cbv [next_pc set_pc regs ls pc]. change (ls_addr (0x60 + 4)) with 0x64. by rewrite Hp.
  - intros ret. cbv [next_pc set_pc regs ls pc]. change (ls_addr (0x60 + 4)) with 0x64.
    unfold returns. cbn [ls pc]. rewrite Hp. cbv [set_ls set_pc regs ls pc]. change (ls_addr (0x64 + 4)) with 0x68.
    destruct (bench_code_returned l ret (conj H Hp)) as [Hl' Hp'].
    eapply bench_next; [bench_exec Hl'|bench_addresses]. rewrite H1.
    change (qmap _ (splat k)) with (splat (wrapu 32 (k + 1))). rewrite wrapu_small by lia.
    eapply bench_next; [bench_exec Hl'|bench_addresses].
    eapply bench_brz; [spu_decode Hl'|..]; spu_registers; rewrite mask_zero; intros Hb; bench_addresses;
      match goal with |- ends (Bench (Spu ?r' ?l' _) _) => specialize (Hnext r' l') end; rewrite H0 in *.
    + rewrite decide_False in Hnext by (intros <-; by rewrite Z.eqb_refl in Hb).
      apply Hnext; [by split|]. split_and!; spu_registers; done.
    + rewrite decide_True in Hnext by (destruct (Z.eqb_spec n (k + 1)); done).
      apply Hnext; [by split|]. split_and!; spu_registers; done.
Qed.

Lemma bench_turns (HQ : ∀ r l, bench_code l → Q (Bench (Spu r l 0x74) (replicate (Z.to_nat n) NR_getpid))) j :
  0 ≤ j → ∀ k r l, bench_code l → bench_regs k r → 0 ≤ k → k + j + 1 = n →
  ends (Bench (Spu r l 0x5c) (replicate (Z.to_nat k) NR_getpid)).
Proof.
  intros Hj. pattern j. apply natlike_ind; [..|exact Hj]; clear j Hj.
  - intros k r l Hl Hr Hk E. eapply bench_turn; [done..|lia|]. intros r' l' Hl' _. rewrite decide_True by lia.
    rewrite <- replicate_S_end. replace (S (Z.to_nat k)) with (Z.to_nat n) by lia. by apply in_now, HQ.
  - intros j Hj IH k r l Hl Hr Hk E. eapply bench_turn; [done..|lia|]. intros r' l' Hl' Hr'. rewrite decide_False by lia.
    rewrite <- replicate_S_end. replace (S (Z.to_nat k)) with (Z.to_nat (k + 1)) by lia. apply IH; [done|done|lia|lia].
Qed.

Lemma bench_ends (HQ : ∀ r l, bench_code l → Q (Bench (Spu r l 0x74) (replicate (Z.to_nat n) NR_getpid))) r l :
  bench_code l → q0 (quad_at l 0) = n → quad_at l 0x10 = Quad 0 NR_getpid 0 0 → ends (Bench (Spu r l bench_entry) []).
Proof.
  intros Hl Hn Hb. unfold bench_entry. pose proof Hl as [H _].
  do 3 (eapply bench_next; [bench_exec H|bench_addresses]).
  apply (bench_turns HQ (n - 1) ltac:(lia) 0); [done| |lia|lia]. split_and!; spu_registers; done.
Qed.
End run.

(** ** [main] *)

(** [syscall_bench_verdict]: the benchmark succeeds exactly when its context can be
    created and [mem] opened and the run of the program that it writes there ends at
    "stop 0x1337"; a short write goes unnoticed. *)
Theorem syscall_bench_verdict kernel strerror n w :
  ∃ s evs w', execute (benchmark_02_syscalls kernel strerror n) w = (s, w') ∧ log w' = rev evs ++ log w ∧
    (s = Returned 0 ↔ ∃ c o x t a u,
       evs = [(SYS_spu_create (Some (lit "/spu/01-syscalls")) 0 0x1ED None, c); (c_openat (created c) (lit "mem") O_RDWR, o);
              (c_write (a_rc o) (words (bench_program n)), x); (c_gettimeofday, t);
              (SYS_spu_run (created c) (Some bench_entry) false, a); (c_gettimeofday, u)] ∧
       0 ≤ created c ∧ 0 ≤ a_rc o ∧ wraps 32 (a_rc a) = stop_status 0x1337).
Proof.
  apply wp_execute. unfold benchmark_02_syscalls, timer_start, timer_stop_and_print, SysProg.spu_run. wp_open.
  repeat wp_step; bool_props; try done.
  all: try (split; [discriminate|]; intros (? & ? & ? & ? & ? & ? & E & Hc & Ho & Hr); unfold created in *; log_eq E; (lia || congruence)).
  split; [|done]. intros _. exists a, a0, a1, a2, a3, a4. by split_and!.
Qed.

(** [syscall_bench_counts]: the SPE of the benchmark, in the local store that [main]
    has written, makes ITERATIONS system calls, all of them [getpid], whatever they
    return, and stops then as [main] expects. *)
Theorem syscall_bench_counts n r :
  1 ≤ n < 2 ^ 32 →
  inevitably bench_step (λ s, stops 0x1337 (b_spu s) ∧ calls s = replicate (Z.to_nat n) NR_getpid)
    (Bench (Spu r (load empty_ls 0 (bench_program n)) bench_entry) []).
Proof.
  intros Hn. apply (bench_ends _ n Hn); [|apply bench_code_load|done..].
  intros r' l' [H _]. split; [|done]. eexists. cbn [b_spu]. by erewrite step_exec by spu_decode H.
Qed.

Lemma syscall_bench_counts_witness :
  1 ≤ 1000000 < 2 ^ 32 ∧
  inevitably bench_step (λ s, stops 0x1337 (b_spu s) ∧ calls s = replicate (Z.to_nat 1000000) NR_getpid)
    (Bench (Spu (λ _, splat 0) (load empty_ls 0 (bench_program 1000000)) bench_entry) []).
Proof. split; [lia|]. apply (syscall_bench_counts 1000000 (λ _, splat 0)). lia. Defined.
