(* ===== verification/DmaFault.v ===== *)
(** * A reschedule during a page fault (tests/14-dma/05-schedule-during-fault.c)

    The SPE gets a page of a file of the slow file system, whose fault takes two
    seconds, and [main] takes the context off its SPE meanwhile.  The program mounts
    the file system itself, so that it runs over the log of its calls and over the
    heap of talloc. *)

From S2P Require Import Prelude CString Talloc TallocHeap TallocTree TallocProps TallocWalk TallocFree Slowfs SysProg SpuTests SpuApps SpuRuns SpuProps SpuAppProps SpuDma.

Local Open Scope Z_scope.

Definition SLOWFS_DIR : bytes := lit "mnt".
Definition SLOWFS_FILE : bytes := lit "mnt/slowfs".
Definition PROT_READ : Z := 1.

(** The talloc heap and the calls to libfuse and its thread. *)
Record mounts := Mounts { m_heap : heap; m_calls : list fuse_call }.

Section program.
Context (kernel : list event → call → ans) (strerror : Z → bytes).
Context (wb : Z) (malloc : heap → Z → option loc) (junk : nat → bytes) (user_dtor : nat → loc → M Z).
Context (sizeof_slowfs : Z) (fuel : nat) (e : fuse_env) (fuse_loop : Z → Z).

#[local] Abbreviation sys_rc := (SysProg.sys_rc kernel).
#[local] Abbreviation perror := (SysProg.perror strerror).
#[local] Abbreviation close_ := (SpuTests.close_ kernel).

Definition on_heap {A} (m : M (A * list fuse_call)) (f : mounts) : P (A * mounts) :=
  match m (m_heap f) with
  | Ok (a, c, h) => mret (a, Mounts h (m_calls f ++ c))
  | UB => leave Undefined
  | OutOfFuel => leave Cut
  end.

Definition mounts_slowfs : mounts → P (option slowfs * mounts) :=
  on_heap (slowfs_mount wb malloc junk user_dtor sizeof_slowfs fuel e SLOWFS_DIR).

(** The thread of the file system has run. *)
Definition unmounts_slowfs (fs : slowfs) (f : mounts) : P mounts :=
  '(_, f) ← on_heap (c ← slowfs_unmount user_dtor fuel (slowfs_fn fuse_loop fs); mret (tt, c)) f; mret f.

(** [err_close] and [err_umount]. *)
Definition err_umount (fs : slowfs) (rc : Z) (f : mounts) : P ((Z + Z * Z * slowfs) * mounts) :=
  f ← unmounts_slowfs fs f; mret (inl rc, f).
Definition err_close (fd : Z) (fs : slowfs) (rc : Z) (f : mounts) : P ((Z + Z * Z * slowfs) * mounts) :=
  close_ fd;; err_umount fs rc f.

(** An error code, or the mapping, its length and the file system. *)
Definition map_slowfs_file (f : mounts) : P ((Z + Z * Z * slowfs) * mounts) :=
  rc ← sys_rc (c_mkdir SLOWFS_DIR 0x1ED);
  if negb (rc =? 0) then perror (lit "mkdir");; mret (inl rc, f)
  else
    '(fs, f) ← mounts_slowfs f;
    match fs with
    | None =>
        fprintf stderr (lit "failed to mount slowfs on " ++ SLOWFS_DIR ++ [newline_c]);; mret (inl (-1), f)
    | Some fs =>
        fd ← sys_rc (c_open SLOWFS_FILE O_RDONLY);
        if fd <? 0 then perror (lit "open");; err_umount fs fd f
        else
          a ← sys kernel (c_fstat fd);
          if negb (a_rc a =? 0) then perror (lit "fstat");; err_close fd fs (a_rc a) f
          else
            let size := st_size (a_stat a) in
            map ← sys_rc (c_mmap size PROT_READ MAP_SHARED fd 0);
            if map =? MAP_FAILED then perror (lit "mmap");; rc ← get_errno; err_close fd fs rc f
            else close_ fd;; mret (inr (map, wraps 32 size, fs), f)
    end.

Definition unmap_slow_file (map len : Z) (fs : slowfs) (f : mounts) : P mounts :=
  (if negb (map =? MAP_FAILED) then _ ← sys_rc (c_munmap map (wrapu 64 len)); mret tt else mret tt);;
  f ← unmounts_slowfs fs f;
  _ ← sys_rc (c_rmdir SLOWFS_DIR);
  mret f.

(** A thread has an [errno] of its own. *)
Definition in_thread {A} (m : P A) : P A := λ w,
  let '(r, w') := m w in (r, World (log w') (errno w) (name_i w') (printed w')).

Definition fault_spe_thread (ctx : Z) : P Z :=
  in_thread ('(run_rc, _) ← SysProg.spu_run kernel ctx (Some 0x10) false;
    (if run_rc <? 0 then perror (lit "spu_run") else mret tt);; mret run_rc).

(** The thread makes its call before [main] reads, or after that. *)
Definition runs_and_reads (early : bool) (ctx regs_fd : Z) : P (Z * Z) :=
  if early then
    run_rc ← fault_spe_thread ctx; rc ← sys_rc (c_read regs_fd 1); mret (run_rc, wraps 32 rc)
  else rc ← sys_rc (c_read regs_fd 1); run_rc ← fault_spe_thread ctx; mret (run_rc, wraps 32 rc).

(** After [pthread_create]; [rc] is the result of [pthread_join] from there on. *)
Definition joins_fault (early : bool) (ctx regs_fd : Z) : P Z :=
  '(run_rc, rc) ← runs_and_reads early ctx regs_fd;
  assert (rc =? 1);;
  rc ← sys_rc c_pthread_join;
  if negb (rc =? 0) then perror (lit "pthread_join");; mret rc
  else if negb (run_rc =? 0x13370002) then
    fprintf stderr (lit "spu_run return code 0x" ++ fmt_hex 8 (wrapu 32 run_rc) ++ lit ", expectng 0x" ++
      fmt_hex 8 0x1337002 ++ [newline_c]);;
    mret rc
  else mret 0.

Definition starts_fault (early : bool) (ctx regs_fd : Z) : P Z :=
  rc ← sys_rc c_pthread_create;
  if negb (rc =? 0) then perror (lit "pthread_create");; mret rc else joins_fault early ctx regs_fd.

Definition fault_setup : P (Z * Z * Z) :=
  ctx ← SysProg.spu_create kernel (Some (lit "/spu/15-schedule-during-fault")) 0 0x1ED None;
  assert (0 <=? ctx);;
  ls_fd ← sys_rc (c_openat ctx (lit "mem") O_RDWR); assert (0 <=? ls_fd);;
  regs_fd ← sys_rc (c_openat ctx (lit "regs") O_RDWR); assert (0 <=? regs_fd);;
  ls_map ← map_mem kernel ls_fd; assert (negb (ls_map =? MAP_FAILED));;
  store_ls ls_map (words spe_get_program);;
  mret (ctx, regs_fd, ls_map).

(** An error with [errno] 0 would make [main] go on with a file system that is
    unmounted. *)
Definition dma_05_schedule_during_fault (early : bool) (f : mounts) : P (Z * mounts) :=
  '(ctx, regs_fd, ls_map) ← fault_setup;
  '(r, f) ← map_slowfs_file f;
  match r with
  | inl rc => if negb (rc =? 0) then mret (EXIT_FAILURE, f) else leave Undefined
  | inr (map, len, fs) =>
      store_ls ls_map (be_bytes 8 map);;
      rc ← starts_fault early ctx regs_fd;
      f ← unmap_slow_file map len fs f;
      mret (rc, f)
  end.
End program.

(** ** The verdict *)

Section verdict.
Context (kernel : list event → call → ans) (strerror : Z → bytes).
Context (wb : Z) (malloc : heap → Z → option loc) (junk : nat → bytes) (user_dtor : nat → loc → M Z).
Context (sizeof_slowfs : Z) (fuel : nat) (e : fuse_env) (fuse_loop : Z → Z).
Context (malloc_fresh : ∀ h n p, malloc h n = Some p → mem h !! p = None) (junk_length : ∀ n, length (junk n) = n).
Context (malloc_some : ∀ h n, is_Some (malloc h n)) (size_ok : sizeof_slowfs < MAX_TALLOC_SIZE) (fuel_ok : (2 < fuel)%nat).
Context (h : heap) (K : children) (h_ok : heap_ok h K).

#[local] Abbreviation unmounts := (unmounts_slowfs user_dtor fuel fuse_loop).
#[local] Abbreviation maps_file := (map_slowfs_file kernel strerror wb malloc junk user_dtor sizeof_slowfs fuel e fuse_loop).

(** The heap is as it was. *)
Definition heap_kept (f : mounts) : Prop := heap_ok (m_heap f) K ∧ same_but_links (mem h) (mem (m_heap f)).

Definition fs_mounted (f : mounts) (fs : slowfs) : Prop :=
  mounted junk sizeof_slowfs h (m_heap f) K (sl_chunk fs) (sl_mountpoint fs) SLOWFS_DIR.

Lemma dir_nul_free : nul_free SLOWFS_DIR.
Proof. nul_free_lit. Qed.

Lemma mounts_outcome c :
  ∃ r f, mounts_slowfs wb malloc junk user_dtor sizeof_slowfs fuel e (Mounts h c) = mret (r, f) ∧
    match r with Some fs => all_succeed e = true ∧ fs_mounted f fs | None => all_succeed e = false ∧ heap_kept f end.
Proof.
  destruct (slowfs_mount_spec wb malloc junk user_dtor sizeof_slowfs fuel malloc_fresh junk_length h K e SLOWFS_DIR h_ok size_ok
    ltac:(vm_compute; done) dir_nul_free malloc_some fuel_ok) as ([[r cs] h'] & E & Ho & _ & Hr). cbn in Hr, Ho.
  exists r, (Mounts h' (c ++ cs)). split; [unfold mounts_slowfs, on_heap; cbn [m_heap m_calls]; by rewrite E|].
  destruct r as [fs|]; [by rewrite bool_decide_true in Hr by done|]. rewrite bool_decide_false in Hr by (intros H; by apply H).
  split; [done|]. split; apply Ho.
Qed.

Lemma unmounts_outcome f fs : fs_mounted f fs → ∃ f', unmounts fs f = mret f' ∧ heap_kept f'.
Proof.
  intros Hm.
  destruct (slowfs_unmount_spec junk user_dtor sizeof_slowfs fuel h (m_heap f) K (slowfs_fn fuse_loop fs) SLOWFS_DIR h_ok Hm dir_nul_free fuel_ok)
    as (m' & E & Hok & Hs).
  exists (Mounts (set_mem m' h) (m_calls f ++ [fuse_exit; fuse_unmount SLOWFS_DIR; pthread_join])). split; [|by split].
  unfold unmounts_slowfs, on_heap. rewrite (M_bind_ok _ _ _ _ _ E). reflexivity.
Qed.

(** The thread and the read, in one order or the other. *)
Definition run_and_read (early : bool) (ctx : Z) (regs_fd : Z) (x r : ans) : list event :=
  if early then [(SYS_spu_run ctx (Some 0x10) false, x); (c_read regs_fd 1, r)]
  else [(c_read regs_fd 1, r); (SYS_spu_run ctx (Some 0x10) false, x)].

Definition passes_with (early : bool) (evs : list event) : Prop :=
  ∃ c o g m d p t y z n x r j u v,
    evs = [(SYS_spu_create (Some (lit "/spu/15-schedule-during-fault")) 0 0x1ED None, c);
           (c_openat (created c) (lit "mem") O_RDWR, o); (c_openat (created c) (lit "regs") O_RDWR, g);
           (c_mmap LS_SIZE PROT_READ_WRITE MAP_SHARED (a_rc o) 0, m); (m_store (a_rc m) (words spe_get_program), no_answer);
           (c_mkdir SLOWFS_DIR 0x1ED, d); (c_open SLOWFS_FILE O_RDONLY, p); (c_fstat (a_rc p), t);
           (c_mmap (st_size (a_stat t)) PROT_READ MAP_SHARED (a_rc p) 0, y); (c_close (a_rc p), z);
           (m_store (a_rc m) (be_bytes 8 (a_rc y)), no_answer); (c_pthread_create, n)] ++
          run_and_read early (created c) (a_rc g) x r ++
          [(c_pthread_join, j); (c_munmap (a_rc y) (wrapu 64 (wraps 32 (st_size (a_stat t)))), u); (c_rmdir SLOWFS_DIR, v)] ∧
    0 ≤ created c ∧ 0 ≤ a_rc o ∧ 0 ≤ a_rc g ∧ a_rc m ≠ MAP_FAILED ∧ a_rc d = 0 ∧ 0 ≤ a_rc p ∧ a_rc t = 0 ∧
    a_rc y ≠ MAP_FAILED ∧ a_rc n = 0 ∧ wraps 32 (a_rc r) = 1 ∧ a_rc j = 0.

Definition fault_post (early : bool) (r : Z * mounts + stop) (evs : list event) : Prop :=
  match r with
  | inl (rc, f) => heap_kept f ∧ (rc = 0 ↔ all_succeed e = true ∧ passes_with early evs)
  | inr s => s = Aborted ∨ s = Undefined
  end.

Lemma wp_in_thread {A B} (m : P A) (k : A → P B) w Q :
  wp m w (λ r e, match r with
                 | inl a => ∀ w', log w' = rev e ++ log w → wp (k a) w' (λ r' e', Q r' (e ++ e'))
                 | inr s => Q (inr s) e
                 end) → wp (in_thread m ≫= k) w Q.
Proof.
  intros (r & ev & [H1 H2] & HQ). apply wp_bind. exists r, ev. split; [|exact HQ].
  unfold runs, in_thread in *. by destruct (m w) as [r' w'].
Qed.

(** The call of the thread. *)
Lemma wp_fault_thread {B} ctx (k : Z → P B) w Q :
  (∀ a w', log w' = (SYS_spu_run ctx (Some 0x10) false, a) :: log w →
     wp (k (wraps 32 (a_rc a))) w' (λ r ev, Q r ((SYS_spu_run ctx (Some 0x10) false, a) :: ev))) →
  wp (fault_spe_thread kernel strerror ctx ≫= k) w Q.
Proof.
  intros H. unfold fault_spe_thread. apply wp_in_thread. unfold SysProg.spu_run, SysProg.perror.
  repeat wp_step; by intros w' Hw'; apply H.
Qed.

Lemma runs_and_reads_post {B} early ctx regs_fd (k : Z * Z → P B) w Q :
  (∀ x r w', log w' = rev (run_and_read early ctx regs_fd x r) ++ log w →
     wp (k (wraps 32 (a_rc x), wraps 32 (a_rc r))) w' (λ r' ev, Q r' (run_and_read early ctx regs_fd x r ++ ev))) →
  wp (runs_and_reads kernel strerror early ctx regs_fd ≫= k) w Q.
Proof.
  intros H. unfold runs_and_reads, SysProg.sys_rc. destruct early.
  - apply wp_assoc, wp_fault_thread. intros a w' Hw'. repeat wp_step. apply (H a a0). cbn. by rewrite Hw'.
  - repeat wp_step. apply wp_fault_thread. intros x w' Hw'. repeat wp_step. apply (H x a). by rewrite Hw'.
Qed.

#[local] Abbreviation test := (dma_05_schedule_during_fault kernel strerror wb malloc junk user_dtor sizeof_slowfs fuel e fuse_loop).

Lemma wp_pure {A B} (m : P A) (a : A) (k : A → P B) w Q : m = mret a → wp (k a) w Q → wp (m ≫= k) w Q.
Proof. by intros ->. Qed.

(** The end of [main], with the file system mounted. *)
Lemma unmap_post f fs map len rc w (Q : Z * mounts + SysProg.stop → list event → Prop) :
  fs_mounted f fs →
  (∀ u v f', heap_kept f' → map ≠ MAP_FAILED → Q (inl (rc, f')) [(c_munmap map (wrapu 64 len), u); (c_rmdir SLOWFS_DIR, v)]) →
  (∀ v f', heap_kept f' → map = MAP_FAILED → Q (inl (rc, f')) [(c_rmdir SLOWFS_DIR, v)]) →
  wp (f ← unmap_slow_file kernel user_dtor fuel fuse_loop map len fs f; mret (rc, f)) w Q.
Proof.
  intros Hm H1 H2. destruct (unmounts_outcome f fs Hm) as (f' & E & Hk). unfold unmap_slow_file, SysProg.sys_rc.
  repeat wp_step; bool_props; (eapply wp_pure; [exact E|]); repeat wp_step; auto.
Qed.

(** A run that does not pass. *)
Ltac fault_fails early :=
  split; [try done|split; [intros ?; first [done|lia]|]];
  intros [? (? & ? & ? & ? & ? & ? & ? & ? & ? & ? & ? & ? & ? & ? & ? & Hev & Hcs)];
  exfalso; unfold run_and_read in Hev;
  first
    [ apply (f_equal length) in Hev; destruct early; discriminate Hev
    | apply (f_equal (lookup 14%nat)) in Hev; destruct_and?; destruct early; cbn in Hev; congruence ].

Lemma fault_test_post early c w :
  wp (test early (Mounts h c)) w (fault_post early).
Proof.
  unfold dma_05_schedule_during_fault, fault_setup, map_slowfs_file, err_close, err_umount, starts_fault, joins_fault, map_mem,
    SpuTests.close_, SysProg.spu_create, SysProg.perror, SysProg.sys_rc.
  repeat first [wp_step|apply wp_assoc, SpuAppProps.wp_store|apply SpuAppProps.wp_store]; bool_props.
  all: try by left.
  { fault_fails early. }
  destruct (mounts_outcome c) as (r & f & E & Hr). eapply wp_pure; [exact E|]. cbn beta iota.
  destruct r as [fs|]; destruct Hr as [Hs Hm]; cbn beta iota.
  2: { repeat wp_step; [fault_fails early|by right]. }
  destruct (unmounts_outcome f fs Hm) as (f' & Eu & Hk).
  repeat first [wp_step|apply wp_assoc, SpuAppProps.wp_store|apply SpuAppProps.wp_store|eapply wp_pure; [exact Eu|]; cbn beta iota]; bool_props.
  all: try by right.
  1-3: fault_fails early.
  { eapply unmap_post; [exact Hm|intros u v f2 Hf Hmap; fault_fails early|done]. }
  apply runs_and_reads_post. intros x r w' Hw'.
  repeat wp_step; bool_props; try by left.
  all: apply (unmap_post f fs); [exact Hm|intros u v f2 Hf Hmap|done].
  { fault_fails early. }
  all: split; [exact Hf|]; split; [intros _|done]; split; [done|].
  all: eexists a, a0, a1, a2, a3, a4, a5, a6, a7, a8, x, r, _, u, v; unfold created; split; [|by split_and!].
  all: destruct early; reflexivity.
Qed.

End verdict.

(** C18 [schedule_during_fault_verdict]: the test leaves the heap of talloc as it was, on
    every way out of [main], and it passes exactly when the file system can be mounted
    and its file mapped, the thread started and joined and the registers read.  What
    [spu_run] has answered to the thread does not matter.  [malloc] is taken to
    succeed. *)
Theorem schedule_during_fault_verdict kernel strerror wb malloc junk user_dtor sizeof_slowfs fuel e fuse_loop h K c early w :
  (∀ h n p, malloc h n = Some p → mem h !! p = None) → (∀ n, length (junk n) = n) → (∀ h n, is_Some (malloc h n)) →
  sizeof_slowfs < MAX_TALLOC_SIZE → (2 < fuel)%nat → heap_ok h K →
  ∃ r evs w', dma_05_schedule_during_fault kernel strerror wb malloc junk user_dtor sizeof_slowfs fuel e fuse_loop early (Mounts h c) w = (r, w') ∧
    log w' = rev evs ++ log w ∧ fault_post e h K early r evs.
Proof.
  intros Hm Hj Hs Hz Hf Hok.
  destruct (fault_test_post kernel strerror wb malloc junk user_dtor sizeof_slowfs fuel e fuse_loop Hm Hj Hs Hz Hf h K Hok early c w)
    as (r & evs & [E1 E2] & HQ).
  eexists _, evs, _. split; [apply surjective_pairing|]. split; [exact E2|]. by rewrite E1.
Qed.
