(* ===== verification/Ring.v ===== *)
(** * A ring of SPEs (benchmarks/04-gang-sched/01-dual-ring.c)

    Each gang of the benchmark is a ring: an SPE waits for a word in its signal
    notification register, adds one and has its MFC send the word to the register of
    the next SPE, through the problem state area of that SPE.  [main] starts a ring
    with the word 0.  [main] is a sequence of calls; the SPEs of a ring, their MFCs
    and the first signal take steps in any order. *)

From S2P Require Import Prelude CString SysProg SpuIsa SpuTests SpuApps SpuDma.

Local Open Scope Z_scope.

(** test/hw.h *)
Definition PSMAP_SIZE : Z := 0x20000.
Definition PSMAP_SIGNAL1_OFFSET : Z := 0x1400c.

Definition dual_ring_program : list Z := replicate 12 0x00000000 ++ [
  0x30800001; 0x3fe10082; 0x30800203; 0x40801604; 0x40800005; 0x40800206; 0x40805007;
  0x40800088; 0x40800089; 0x4281018b;
  0x01a0018a; 0x1c00450a; 0xb142850b; 0x2080040a;
  0x21a00804; 0x21a00881; 0x21a00902; 0x21a00986; 0x21a00a05; 0x21a00a87;
  0x21a00b08; 0x21a00b89; 0x01a00c0c; 0x1cffc183; 0x217ff903; 0x00001337
].

Definition dual_ring_entry : Z := 0x30.

Definition NR_GANGS : Z := 2.

(** ** [main] *)

Record spe_thread := SpeThread { ctx : Z; psmap : Z; lsmap : Z }.
Record spe_gang := SpeGang { fd : Z; nr_spes : Z; threads : list spe_thread }.

Definition SIZEOF_SPE_THREAD : Z := 32.

Section programs.
Context (kernel : list event → call → ans) (strerror : Z → bytes) (ITERATIONS : Z).

#[local] Abbreviation sys_rc := (SysProg.sys_rc kernel).
#[local] Abbreviation perror := (SysProg.perror strerror).
#[local] Abbreviation fail_if := (SpuTests.fail_if strerror).

(** What a thread does until it ends; the result of [spu_run] goes no further. *)
Definition spe_thread_fn (t : spe_thread) : P unit :=
  '(rc, _) ← SysProg.spu_run kernel (ctx t) (Some dual_ring_entry) false;
  if negb (rc =? 0x13370002) then perror (lit "spu_run") else mret tt.

(** An element of the array; there is none when [calloc] has failed. *)
Definition thread_at (ts : list spe_thread) (i : Z) : P spe_thread :=
  if i <? 0 then leave Undefined
  else match ts !! Z.to_nat i with Some t => mret t | None => leave Undefined end.

Definition set_thread (ts : list spe_thread) (i : Z) (f : spe_thread → spe_thread) : P (list spe_thread) :=
  t ← thread_at ts i; mret (<[Z.to_nat i := f t]> ts).

Definition set_ctx (x : Z) (t : spe_thread) : spe_thread := SpeThread x (psmap t) (lsmap t).
Definition set_psmap (x : Z) (t : spe_thread) : spe_thread := SpeThread (ctx t) x (lsmap t).
Definition set_lsmap (x : Z) (t : spe_thread) : spe_thread := SpeThread (ctx t) (psmap t) x.

(** [sprintf] into [char name[40]]. *)
Definition sprintf_40 (s : bytes) : P bytes := if Z.of_nat (length s) + 1 <=? 40 then mret s else leave Undefined.

Definition maps_file (ctx : Z) (file : bytes) (size : Z) : P (Z * Z) :=
  fd ← sys_rc (c_openat ctx file O_RDWR); assert (0 <=? fd);;
  map ← sys_rc (c_mmap size PROT_READ_WRITE MAP_SHARED fd 0); mret (fd, map).

(** One turn of the first loop.  The check of the second map looks at the element
    with the number 1. *)
Definition setup_thread (gang_name : bytes) (ts : list spe_thread) (i : Z) : P (list spe_thread) :=
  name ← sprintf_40 (gang_name ++ lit "/01-dual-ring." ++ fmt_d i);
  rc ← SysProg.spu_create kernel (Some name) 0 0x1ED None;
  ts ← set_thread ts i (set_ctx rc);
  fail_if (rc <? 0) (lit "spu_create");;
  '(psmap_fd, map) ← maps_file rc (lit "psmap") PSMAP_SIZE;
  ts ← set_thread ts i (set_psmap map);
  fail_if (map =? MAP_FAILED) (lit "mmap(psmap)");;
  close_ kernel psmap_fd;;
  '(ls_fd, map) ← maps_file rc (lit "mem") LS_SIZE;
  ts ← set_thread ts i (set_lsmap map);
  one ← thread_at ts 1;
  fail_if (lsmap one =? MAP_FAILED) (lit "mmap(mem)");;
  close_ kernel ls_fd;;
  mret ts.

Fixpoint setup_threads (gang_name : bytes) (ts : list spe_thread) (l : list Z) : P (list spe_thread) :=
  match l with [] => mret ts | i :: l => ts ← setup_thread gang_name ts i; setup_threads gang_name ts l end.

(** One turn of the second loop. *)
Definition fill_ls (ts : list spe_thread) (nr_spes i : Z) : P unit :=
  t ← thread_at ts i; next ← thread_at ts (Z.rem (i + 1) nr_spes);
  let next_psmap := wrapu 64 (psmap next + PSMAP_SIGNAL1_OFFSET) in
  store_ls (lsmap t) (words dual_ring_program);;
  store_ls (lsmap t) (be_bytes 4 (Z.shiftr next_psmap 32));;
  store_ls (lsmap t + 4) (be_bytes 4 (Z.land next_psmap 0xffffffff));;
  store_ls (lsmap t + 16) (be_bytes 4 ITERATIONS).

(** One turn of the third. *)
Definition start_thread : P unit :=
  rc ← sys_rc c_pthread_create; fail_if (negb (rc =? 0)) (lit "pthread_create").

(** A return of EXIT_FAILURE makes [main] return it. *)
Definition create_gang (gang_name : bytes) (nr_spes : Z) : P spe_gang :=
  a ← sys kernel (c_calloc (wrapu 64 nr_spes) SIZEOF_SPE_THREAD);
  let ts := if a_rc a =? 0 then [] else replicate (Z.to_nat nr_spes) (SpeThread 0 0 0) in
  fd ← SysProg.spu_create kernel (Some gang_name) SPU_CREATE_GANG 0x1ED None;
  fail_if (fd <? 0) (lit "spu_create(SPU_CREATE_GANG)");;
  ts ← setup_threads gang_name ts (seqZ 0 nr_spes);
  for_each (seqZ 0 nr_spes) (fill_ls ts nr_spes);;
  for_each (seqZ 0 nr_spes) (λ _, start_thread);;
  mret (SpeGang fd nr_spes ts).

Definition run_gang (g : spe_gang) : P unit :=
  t ← thread_at (threads g) 0; store_ls (psmap t + PSMAP_SIGNAL1_OFFSET) (be_bytes 4 0).

(** Up to the first [pthread_join] that fails; [main] does not use the result. *)
Fixpoint join_threads (n : nat) : P Z :=
  match n with
  | O => mret EXIT_SUCCESS
  | S n => rc ← sys_rc c_pthread_join; if negb (rc =? 0) then mret EXIT_FAILURE else join_threads n
  end.

Definition wait_for_gang_completion (g : spe_gang) : P Z := join_threads (Z.to_nat (nr_spes g)).

Fixpoint create_gangs (nr_spes : Z) (l : list Z) : P (list spe_gang) :=
  match l with
  | [] => mret []
  | i :: l =>
      name ← sprintf_40 (lit "/spu/01-dual-ring." ++ fmt_d i);
      g ← create_gang name nr_spes; gs ← create_gangs nr_spes l; mret (g :: gs)
  end.

Definition dual_ring : P Z :=
  nr_spes ← count_spes kernel;
  gangs ← create_gangs nr_spes (seqZ 0 NR_GANGS);
  tv ← timer_start kernel;
  for_each gangs run_gang;;
  for_each gangs (λ g, _ ← wait_for_gang_completion g; mret tt);;
  timer_stop_and_print kernel tv;;
  mret EXIT_SUCCESS.
End programs.

(** ** The SPEs of a ring *)

Definition SPU_RdSigNotify1 : Z := 3.
Definition MFC_SNDSIG_CMD : Z := 0xA0.

(** A command that sends a word: its addresses agree in their last four bits. *)
Definition valid_sndsig (c : command) : bool :=
  (c_op c =? MFC_SNDSIG_CMD) && (c_size c =? 4) && (c_lsa c mod 4 =? 0) && (c_lsa c mod 16 =? c_ea c mod 16) &&
  (0 <=? c_lsa c) && (c_lsa c + 4 <=? LS_SIZE) && (0 <=? c_tag c) && (c_tag c <? 32).

Inductive run_state := Asleep | Awake | Ended (code : Z).

(** An SPE with its MFC, its signal notification register, which is empty or holds a
    word, and whether its thread has called [spu_run]. *)
Record node := Node { n_spu : spu; n_mfc : mfc; n_sig : option Z; n_state : run_state }.

Definition set_spu (m : spu) (n : node) : node := Node m (n_mfc n) (n_sig n) (n_state n).
Definition set_mfc (s : mfc) (n : node) : node := Node (n_spu n) s (n_sig n) (n_state n).
Definition set_sig (x : option Z) (n : node) : node := Node (n_spu n) (n_mfc n) x (n_state n).
Definition set_state (r : run_state) (n : node) : node := Node (n_spu n) (n_mfc n) (n_sig n) r.

(** [kicked]: the first signal has been sent. *)
Record ring := Ring { nodes : list node; kicked : bool }.

Section ring.
(** The addresses of the signal notification registers; the first signal, a word to
    an address. *)
Context (sig_addr : nat → Z) (kick_addr kick_word : Z).

(** What an SPE does alone: its thread starts it, an instruction, a stop. *)
Inductive node_step (n : node) : node → Prop :=
| n_starts : n_state n = Asleep → node_step n (set_state Awake (set_spu (set_pc dual_ring_entry (n_spu n)) n))
| n_next m : n_state n = Awake → spu_step (n_spu n) = Next m → node_step n (set_spu m n)
| n_write ch x m s :
    n_state n = Awake → spu_step (n_spu n) = Writes ch x m → write_channel ch x (n_mfc n) = Some s →
    node_step n (set_mfc s (set_spu m n))
| n_tag f u :
    n_state n = Awake → spu_step (n_spu n) = Reads MFC_RdTagStat f → update_when (n_mfc n) = Some u →
    updated u (n_mfc n) = true →
    node_step n (set_mfc (no_update (n_mfc n)) (set_spu (f (tag_status (n_mfc n))) n))
| n_stops code m : n_state n = Awake → spu_step (n_spu n) = Stopped code m → node_step n (set_state (Ended code) (set_spu m n)).

(** It takes the word from its register. *)
Inductive node_reads (n : node) : Z → node → Prop :=
| n_signal f x :
    n_state n = Awake → spu_step (n_spu n) = Reads SPU_RdSigNotify1 f → n_sig n = Some x →
    node_reads n x (set_sig None (set_spu (f x) n)).

(** Its MFC performs a command: a word goes to an address. *)
Inductive node_sends (n : node) : Z → Z → node → Prop :=
| n_sends q1 c q2 :
    pending (n_mfc n) = q1 ++ c :: q2 → valid_sndsig c = true →
    node_sends n (c_ea c) (ls (n_spu n) (c_lsa c)) (set_mfc (set_pending (q1 ++ q2) (n_mfc n)) n).

(** A word that arrives takes the place of one that is there. *)
Definition arrives (x : Z) (l : list node) (j : nat) : list node := alter (set_sig (Some x)) j l.

Inductive ring_step (s : ring) : ring → Prop :=
| g_node i n n' : nodes s !! i = Some n → node_step n n' → ring_step s (Ring (<[i:=n']> (nodes s)) (kicked s))
| g_reads i n x n' : nodes s !! i = Some n → node_reads n x n' → ring_step s (Ring (<[i:=n']> (nodes s)) (kicked s))
| g_sends i n ea x n' j :
    nodes s !! i = Some n → node_sends n ea x n' → (j < length (nodes s))%nat → sig_addr j = ea →
    ring_step s (Ring (arrives x (<[i:=n']> (nodes s)) j) (kicked s))
| g_kick j :
    kicked s = false → (j < length (nodes s))%nat → sig_addr j = kick_addr →
    ring_step s (Ring (arrives kick_word (nodes s) j) true).

(** The contexts before their threads run: registers of any contents. *)
Definition sleeping (l : Z → Z) (n : node) : Prop :=
  ls (n_spu n) = l ∧ n_mfc n = idle_mfc ∧ n_sig n = None ∧ n_state n = Asleep.

Definition all_ended (code : Z) (s : ring) : Prop := Forall (λ n, n_state n = Ended code) (nodes s).
End ring.
