(* ===== verification/RingProps.v ===== *)
(** * The rings of the benchmark come to their end

    One word goes round a ring: each SPE gets it as often as ITERATIONS says and
    stops, whatever the order in which the SPEs and their MFCs move. *)

From stdpp Require Import relations.
From S2P Require Import Prelude Runs CString SysProg SpuIsa SpuCode SpuTests SpuApps SpuDma DmaProps Ring.

Local Open Scope Z_scope.

(** ** The SPE program *)

Definition ring_listing : list insn := [
  lqa 1 0; shlqbyi 2 1 4; lqa 3 0x10; il 4 0x2c; il 5 0; il 6 4; il 7 0xa0; il 8 1; il 9 1; ila 11 0x10203;
  rdch 10 3; ai 10 10 1; shufb 10 10 10 11; stqa 10 0x20;
  wrch 4 16; wrch 1 17; wrch 2 18; wrch 6 19; wrch 5 20; wrch 7 21;
  wrch 8 22; wrch 9 23; rdch 12 24; ai 3 3 (-1); brnz 3 (-56); stop 0x1337
].

Lemma ring_listed s : listed (load s 0 dual_ring_program) 0x30 ring_listing.
Proof.
  change (load s 0 dual_ring_program) with (load (load s 0 (take 12 dual_ring_program)) 0x30 (drop 12 dual_ring_program)).
  by apply listed_load.
Qed.

Lemma bytes_word x : 0 ≤ x < 2 ^ 32 → fold_left (λ acc c, 256 * acc + c) (word_bytes x) 0 = x.
Proof.
  intros H. unfold word_bytes, field. cbn [fold_left]. rewrite !Z.land_ones, !Z.shiftr_div_pow2 by lia.
  repeat match goal with |- context [2 ^ ?e] => let v := eval vm_compute in (2 ^ e) in change (2 ^ e) with v end.
  change (2 ^ 32) with 4294967296 in H. Z.to_euclidean_division_equations; lia.
Qed.

(** The pattern of the program copies the first word to all four. *)
Lemma shuffle_first a b : 0 ≤ q0 a < 2 ^ 32 → shuffle a b (splat 0x10203) = splat (q0 a).
Proof.
  intros H. unfold shuffle, qmap, splat. cbn [q0 q1 q2 q3].
  assert (shuffle_word (quad_bytes a ++ quad_bytes b) 0x10203 = q0 a) as ->; [|done].
  trans (fold_left (λ acc c, 256 * acc + c) (word_bytes (q0 a)) 0); [reflexivity|by apply bytes_word].
Qed.

(** Where the program settles: the registers of the loop with the turns that are left,
    and the address of the next register. *)
Record loop_regs (ea c : Z) (r : Z → quad) : Prop := {
  lr_1 : q0 (r 1) = ea / 2 ^ 32; lr_2 : q0 (r 2) = ea mod 2 ^ 32; lr_3 : q0 (r 3) = c;
  lr_4 : r 4 = splat 0x2c; lr_5 : r 5 = splat 0; lr_6 : r 6 = splat 4; lr_7 : r 7 = splat 0xa0;
  lr_8 : r 8 = splat 1; lr_9 : r 9 = splat 1; lr_11 : r 11 = splat 0x10203;
}.

Definition at_pc (p ea c : Z) (m : spu) : Prop :=
  ∃ r l, m = Spu r l p ∧ listed l 0x30 ring_listing ∧ loop_regs ea c r.

Definition waiting (ea c : Z) (m : spu) : Prop := at_pc 0x58 ea c m.

(** The word is in the buffer. *)
Definition loaded (p ea c x : Z) (m : spu) : Prop := at_pc p ea c m ∧ ls m 0x2c = x.

(** Local store before the run. *)
Definition ring_image (ea c : Z) (l : Z → Z) : Prop :=
  listed l 0x30 ring_listing ∧ quad_at l 0 = Quad (ea / 2 ^ 32) (ea mod 2 ^ 32) 0 0 ∧ q0 (quad_at l 0x10) = c.

Lemma ring_start ea c r l :
  0 ≤ ea < 2 ^ 64 → ring_image ea c l → reach 10 (Spu r l dual_ring_entry) (waiting ea c).
Proof.
  intros He (H & Hq & Hc). unfold dual_ring_entry. pose proof (Z.mod_pos_bound ea (2 ^ 32) ltac:(lia)).
  do 10 spu_next H. apply reach_done.
  - intros m'. by erewrite step_exec by spu_decode H.
  - eexists _, _. split; [done|]. split; [done|]. split; spu_registers; try reflexivity.
    + by rewrite Hq.
    + rewrite Hq. by rewrite shift_word by (cbn [q1 q2 q3]; lia).
    + done.
Qed.

Lemma waiting_reads ea c m :
  waiting ea c m → ∃ f, spu_step m = Reads SPU_RdSigNotify1 f ∧
  ∀ x, 0 ≤ x < 2 ^ 32 → reach 3 (f x) (loaded 0x68 ea c (wrapu 32 (x + 1))).
Proof.
  intros (r & l & -> & H & Hr). eexists. split; [by erewrite step_exec by spu_decode H|]. intros x Hx.
  cbv [next_pc set_reg set_pc regs ls pc]. change (ls_addr (0x58 + 4)) with 0x5c. spu_next H. spu_next H.
  rewrite (lr_11 _ _ _ Hr), shuffle_first by (cbn [qmap q0]; unfold wrapu; apply Z.mod_pos_bound; lia).
  spu_next H. assert (listed (put_quad l 0x20 (splat (wrapu 32 (x + 1)))) 0x30 ring_listing) as H' by by apply listed_put_quad.
  apply reach_done.
  - intros m'. by erewrite step_exec by spu_decode H'.
  - split; [|done]. eexists _, _. split; [done|]. split; [done|]. destruct Hr. by split; spu_registers.
Qed.

(** The channels in order, with what is written. *)
Definition ring_writes (ea : Z) : list (Z * Z) :=
  [(16, 0x2c); (17, ea / 2 ^ 32); (18, ea mod 2 ^ 32); (19, 4); (20, 0); (21, 0xa0); (22, 1); (23, 1)].

Definition write_addr (i : nat) : Z := 0x68 + 4 * Z.of_nat i.

Lemma loaded_writes i ea c x m ch v :
  loaded (write_addr i) ea c x m → ring_writes ea !! i = Some (ch, v) →
  ∃ m', spu_step m = Writes ch v m' ∧ loaded (write_addr (S i)) ea c x m'.
Proof.
  intros [(r & l & -> & H & Hr) Hx] Hi. exists (Spu r l (write_addr (S i))). split.
  - destruct Hr as [R1 R2 _ R4 R5 R6 R7 R8 R9 _]. unfold write_addr. do 8 (destruct i as [|i];
      [injection Hi as <- <-; erewrite step_exec by spu_decode H; cbv [exec regs];
       rewrite ?R1, ?R2, ?R4, ?R5, ?R6, ?R7, ?R8, ?R9; reflexivity|]).
    done.
  - split; [|done]. by exists r, l.
Qed.

(** The end of a turn. *)
Definition turn_over (ea c : Z) (m : spu) : Prop := if decide (c = 0) then stops 0x1337 m else waiting ea c m.

Lemma loaded_waits ea c x m :
  loaded 0x88 ea c x m → 1 ≤ c < 2 ^ 32 →
  ∃ f, spu_step m = Reads MFC_RdTagStat f ∧ ∀ t, reach 2 (f t) (turn_over ea (c - 1)).
Proof.
  intros [(r & l & -> & H & Hr) _] Hc. eexists. split; [by erewrite step_exec by spu_decode H|]. intros t.
  cbv [next_pc set_reg set_pc regs ls pc]. change (ls_addr (0x88 + 4)) with 0x8c. spu_next H.
  spu_branch reach_brnz H; rewrite (lr_3 _ _ _ Hr), wrapu_small in * by lia.
  - apply reach_done.
    + intros m'. by erewrite step_exec by spu_decode H.
    + unfold turn_over. rewrite decide_False by lia. eexists _, _. split; [done|]. split; [done|]. destruct Hr. split; spu_registers; try done. rewrite wrapu_small by lia. lia.
  - eapply reach_stops; [spu_decode H|]. unfold turn_over. by rewrite decide_True by lia.
Qed.

(** ** One SPE of a ring *)

Section node.
Context (ea N : Z) (ea_ok : 0 ≤ ea < 2 ^ 64) (ea_low : ea mod 16 = 0xc) (N_ok : 1 ≤ N < 2 ^ 32).

(** The command of the program. *)
Definition send_word : command := Command MFC_SNDSIG_CMD 0x2c ea 4 0.

Lemma send_valid : valid_sndsig send_word = true.
Proof. unfold valid_sndsig. cbn [c_op c_lsa c_ea c_size c_tag send_word]. by rewrite ea_low. Qed.

(** The parameters of the command, of which [i] are written. *)
Definition params (i : nat) (s : mfc) : Prop :=
  pending s = [] ∧ ((0 < i)%nat → p_lsa s = 0x2c) ∧ ((1 < i)%nat → p_eah s = ea / 2 ^ 32) ∧
  ((2 < i)%nat → p_eal s = ea mod 2 ^ 32) ∧ ((3 < i)%nat → p_size s = 4) ∧ ((4 < i)%nat → p_tag s = 0).

Lemma params_write i s ch v :
  (i < 5)%nat → ring_writes ea !! i = Some (ch, v) → params i s → ∃ s', write_channel ch v s = Some s' ∧ params (S i) s'.
Proof.
  intros Hi Hw (Hp & P0 & P1 & P2 & P3 & P4). destruct s as [a1 a2 a3 a4 a5 q m u]. cbn in *.
  do 5 (destruct i as [|i];
    [injection Hw as <- <-; eexists; split; [reflexivity|];
     repeat split; cbn; intros; first [done|lia|by apply P0; lia|by apply P1; lia|by apply P2; lia|by apply P3; lia]|]). lia.
Qed.

Lemma params_command s :
  params 5 s → ∃ s', write_channel MFC_Cmd 0xa0 s = Some s' ∧ pending s' = [send_word].
Proof.
  intros (Hp & P0 & P1 & P2 & P3 & P4). destruct s as [a1 a2 a3 a4 a5 q m u]. cbn in *. eexists. split; [reflexivity|]. cbn.
  rewrite Hp, P0, P1, P2, P3, P4 by lia. unfold send_word, MFC_SNDSIG_CMD. cbn [app]. do 2 f_equal.
  pose proof (Z.div_mod ea (2 ^ 32)). lia.
Qed.

(** The command is performed or not, the tag is asked for or not. *)
Definition commanded (i : nat) (q : list command) (s : mfc) : Prop :=
  pending s = q ∧ ((6 < i)%nat → tag_mask s = 1) ∧ ((7 < i)%nat → update_when s = Some 1).

Definition held (q : list command) (x : Z) (tok : option Z) : Prop :=
  q = [send_word] ∧ tok = Some x ∨ q = [] ∧ tok = None.

(** Where an SPE is: the words that it has read, the word that it has and has not sent
    on, and a bound of the steps that it has before it. *)
Inductive node_at : Z → option Z → Z → node → Prop :=
| at_asleep nd :
    n_state nd = Asleep → n_mfc nd = idle_mfc → ring_image ea N (ls (n_spu nd)) → node_at 0 None (40 * N + 30) nd
| at_waiting k j m nd :
    n_state nd = Awake → pending (n_mfc nd) = [] → settles_in j (n_spu nd) m → waiting ea (N - k) m →
    0 ≤ k < N → (j ≤ 10)%nat → node_at k None (40 * (N - k) + Z.of_nat j + 1) nd
| at_sending k x i j m nd :
    n_state nd = Awake → params i (n_mfc nd) → settles_in j (n_spu nd) m → loaded (write_addr i) ea (N - k + 1) x m →
    1 ≤ k ≤ N → (j ≤ 3)%nat → (i ≤ 5)%nat → node_at k (Some x) (40 * (N - k) + 25 + Z.of_nat j - Z.of_nat i) nd
| at_command k x i q tok nd :
    n_state nd = Awake → commanded i q (n_mfc nd) → loaded (write_addr i) ea (N - k + 1) x (n_spu nd) → held q x tok →
    1 ≤ k ≤ N → (6 ≤ i ≤ 8)%nat → node_at k tok (40 * (N - k) + 15 - Z.of_nat i + Z.of_nat (length q)) nd
| at_end j m nd :
    n_state nd = Awake → pending (n_mfc nd) = [] → settles_in j (n_spu nd) m → stops 0x1337 m →
    node_at N None (Z.of_nat j + 1) nd
| at_ended nd : n_state nd = Ended 0x1337 → pending (n_mfc nd) = [] → node_at N None 0 nd.

Lemma node_bounds k tok μ nd : node_at k tok μ nd → 0 ≤ μ ∧ 0 ≤ k ≤ N.
Proof. destruct 1; try lia; (split; [|lia]); lia. Qed.

Lemma node_sig k tok μ nd x : node_at k tok μ nd → node_at k tok μ (set_sig x nd).
Proof. destruct 1; by econstructor. Qed.

(** What the settled states do next. *)
Lemma loaded_step i c x m :
  loaded (write_addr i) ea c x m → (i < 8)%nat →
  ∃ ch v m', ring_writes ea !! i = Some (ch, v) ∧ spu_step m = Writes ch v m' ∧ loaded (write_addr (S i)) ea c x m'.
Proof.
  intros H Hi. destruct (lookup_lt_is_Some_2 (ring_writes ea) i) as [[ch v] Hw]; [done|].
  destruct (loaded_writes _ _ _ _ _ _ _ H Hw) as (m' & Hs & Hl). by exists ch, v, m'.
Qed.

Lemma loaded_settled i c x m : loaded (write_addr i) ea c x m → (i ≤ 8)%nat → ∀ m1, spu_step m ≠ Next m1.
Proof.
  intros [(r & l & -> & H & _) _] Hi m1. unfold write_addr.
  do 9 (destruct i as [|i]; [by erewrite step_exec by spu_decode H|]). lia.
Qed.

(** After a turn. *)
Lemma turn_over_at k n m nd :
  n_state nd = Awake → pending (n_mfc nd) = [] → n_spu nd = m → 1 ≤ k ≤ N → (n ≤ 3)%nat → reach n m (turn_over ea (N - k)) →
  ∃ μ, μ ≤ 40 * (N - k) + 1 + Z.of_nat n ∧ node_at k None μ nd.
Proof.
  intros Ha Hp Hm Hk Hn (j & m' & Hs & Hj & Ht). unfold turn_over in Ht. rewrite <- Hm in Hs. case_decide.
  - exists (Z.of_nat j + 1). split; [lia|]. replace k with N by lia. by eapply at_end.
  - exists (40 * (N - k) + Z.of_nat j + 1). split; [lia|]. eapply at_waiting; first [done|lia].
Qed.

(** A machine that is about to settle takes an instruction, or has settled. *)
Lemma settles_cases j m m' :
  settles_in j m m' → (∃ i m1, j = S i ∧ spu_step m = Next m1 ∧ settles_in i m1 m') ∨ j = 0%nat ∧ m' = m ∧ ∀ m1, spu_step m ≠ Next m1.
Proof. destruct 1 as [m H|i m m1 m' Hs H]; [right; by split_and!|left; by exists i, m1]. Qed.

(** *** It goes on alone *)

Definition goes (k : Z) (tok : option Z) (μ : Z) (nd nd' : node) : Prop :=
  n_sig nd' = n_sig nd ∧ ∃ μ', μ' < μ ∧ node_at k tok μ' nd'.

Lemma asleep_goes nd nd' :
  n_state nd = Asleep → n_mfc nd = idle_mfc → ring_image ea N (ls (n_spu nd)) → node_step nd nd' → goes 0 None (40 * N + 30) nd nd'.
Proof.
  intros Hs Hm Hi Hst. destruct Hst; try congruence. split; [done|].
  destruct nd as [[r l p] s sg st]. cbn in *. destruct (ring_start ea N r l ea_ok Hi) as (j & m' & Hj & Hle & Hw).
  exists (40 * (N - 0) + Z.of_nat j + 1). split; [lia|]. eapply at_waiting; cbn; rewrite ?Z.sub_0_r; try done; [by rewrite Hm|lia].
Qed.

Lemma waiting_goes k j m nd nd' :
  n_state nd = Awake → pending (n_mfc nd) = [] → settles_in j (n_spu nd) m → waiting ea (N - k) m → 0 ≤ k < N → (j ≤ 10)%nat →
  node_step nd nd' → goes k None (40 * (N - k) + Z.of_nat j + 1) nd nd'.
Proof.
  intros Ha Hp Hs Hw Hk Hj Hst. destruct (settles_cases _ _ _ Hs) as [(i & m1 & -> & Hn & Hs1)|(-> & -> & Hn)].
  - destruct Hst; try congruence. split; [done|]. exists (40 * (N - k) + Z.of_nat i + 1). split; [lia|].
    eapply at_waiting; cbn; try done; [congruence|lia].
  - destruct (waiting_reads _ _ _ Hw) as (f & Hf & _). destruct Hst; try congruence.
    rewrite Hf in *. discriminate.
Qed.

Lemma sending_goes k x i j m nd nd' :
  n_state nd = Awake → params i (n_mfc nd) → settles_in j (n_spu nd) m → loaded (write_addr i) ea (N - k + 1) x m →
  1 ≤ k ≤ N → (j ≤ 3)%nat → (i ≤ 5)%nat → node_step nd nd' →
  goes k (Some x) (40 * (N - k) + 25 + Z.of_nat j - Z.of_nat i) nd nd'.
Proof.
  intros Ha Hp Hs Hw Hk Hj Hi Hst. destruct (settles_cases _ _ _ Hs) as [(j' & m1 & -> & Hn & Hs1)|(-> & -> & Hn)].
  - destruct Hst; try congruence. split; [done|]. exists (40 * (N - k) + 25 + Z.of_nat j' - Z.of_nat i). split; [lia|].
    eapply at_sending; cbn; try done; [congruence|lia].
  - destruct (loaded_step _ _ _ _ Hw ltac:(lia)) as (ch & v & m' & Hch & Hf & Hl).
    destruct Hst as [|m1 _ H|ch' v' m1 s1 _ H Hwr|f u _ H|c m1 _ H]; try congruence. rewrite Hf in H. injection H as <- <- <-.
    split; [done|]. destruct (decide (i = 5%nat)) as [->|].
    + injection Hch as <- <-. destruct (params_command _ Hp) as (s2 & Hs2 & Hq). pose proof (eq_trans (eq_sym Hs2) Hwr) as E; injection E as <-.
      exists (40 * (N - k) + 15 - Z.of_nat 6 + Z.of_nat (length [send_word])). split; [cbn; lia|].
      eapply at_command; cbn; try done; [split_and!; [done|lia|lia]|by left|lia].
    + destruct (params_write i _ _ _ ltac:(lia) Hch Hp) as (s2 & Hs2 & Hq). rewrite Hs2 in Hwr. injection Hwr as <-.
      exists (40 * (N - k) + 25 + Z.of_nat 0 - Z.of_nat (S i)). split; [lia|].
      eapply at_sending; cbn; try done; try lia. constructor. apply (loaded_settled _ _ _ _ Hl). lia.
Qed.

(** The tag is reported once the command is performed. *)
Lemma command_tag q s tok x :
  commanded 8 q s → held q x tok → updated 1 s = true → q = [] ∧ tok = None.
Proof.
  intros (Hp & Hm & _) [[-> ->]|[-> ->]]; [|done]. unfold updated, tag_status. rewrite Hp, Hm by lia. done.
Qed.

Lemma command_goes k x i q tok nd nd' :
  n_state nd = Awake → commanded i q (n_mfc nd) → loaded (write_addr i) ea (N - k + 1) x (n_spu nd) → held q x tok →
  1 ≤ k ≤ N → (6 ≤ i ≤ 8)%nat → node_step nd nd' →
  goes k tok (40 * (N - k) + 15 - Z.of_nat i + Z.of_nat (length q)) nd nd'.
Proof.
  intros Ha Hc Hl Hh Hk Hi Hst. destruct (decide (i = 8%nat)) as [->|].
  - destruct (loaded_waits _ _ _ _ Hl ltac:(lia)) as (f & Hf & Hr).
    destruct Hst as [|m1 _ H|ch' v' m1 s1 _ H Hwr|f' u _ H Hu Hup|c m1 _ H]; try congruence. rewrite Hf in H. injection H as <-.
    pose proof Hc as (Hp & _ & Hw). rewrite Hw in Hu by lia. injection Hu as <-.
    destruct (command_tag _ _ _ _ Hc Hh Hup) as [-> ->]. split; [done|].
    replace (N - k + 1 - 1) with (N - k) in Hr by lia.
    destruct (turn_over_at k 2 (f (tag_status (n_mfc nd))) (set_mfc (no_update (n_mfc nd)) (set_spu (f (tag_status (n_mfc nd))) nd)))
      as (μ & Hμ & Hat); [done|done|reflexivity|done|lia|apply Hr|]. exists μ. split; [cbn [length]; lia|done].
  - destruct (loaded_step _ _ _ _ Hl ltac:(lia)) as (ch & v & m' & Hch & Hf & Hl').
    destruct Hst as [|m1 _ H|ch' v' m1 s1 _ H Hwr|f u _ H|c m1 _ H]; try congruence. rewrite Hf in H. injection H as <- <- <-.
    split; [done|]. exists (40 * (N - k) + 15 - Z.of_nat (S i) + Z.of_nat (length q)). split; [lia|].
    eapply at_command; cbn; try done; [|lia]. destruct Hc as (Hp & Hm & Hu). destruct (n_mfc nd) as [a1 a2 a3 a4 a5 q' mk u]. cbn in *.
    assert (i = 6 ∨ i = 7)%nat as [-> | ->] by lia; injection Hch as <- <-; injection Hwr as <-; (split; [done|]); split; cbn; intros;
      first [done|lia|apply Hm; lia].
Qed.

Lemma end_goes j m nd nd' :
  n_state nd = Awake → pending (n_mfc nd) = [] → settles_in j (n_spu nd) m → stops 0x1337 m → node_step nd nd' →
  goes N None (Z.of_nat j + 1) nd nd'.
Proof.
  intros Ha Hp Hs [m2 Hm2] Hst. destruct (settles_cases _ _ _ Hs) as [(i & m1 & -> & Hn & Hs1)|(-> & -> & Hn)].
  - destruct Hst; try congruence. split; [done|]. exists (Z.of_nat i + 1). split; [lia|].
    apply (at_end _ m); cbn; try done; [congruence|by eexists].
  - destruct Hst as [|m1 _ H|ch' v' m1 s1 _ H Hwr|f u _ H|c m1 _ H]; try congruence. rewrite Hm2 in H. injection H as <- <-.
    split; [done|]. exists 0. split; [lia|]. by apply at_ended.
Qed.

Lemma node_goes k tok μ nd nd' : node_at k tok μ nd → node_step nd nd' → goes k tok μ nd nd'.
Proof.
  destruct 1.
  - by apply asleep_goes.
  - by eapply waiting_goes.
  - by eapply sending_goes.
  - by eapply command_goes.
  - by eapply end_goes.
  - by destruct 1; congruence.
Qed.

(** *** It reads, or its MFC sends *)

Lemma node_reads_at k tok μ nd x nd' :
  node_at k tok μ nd → node_reads nd x nd' → 0 ≤ x < 2 ^ 32 →
  k < N ∧ tok = None ∧ n_sig nd' = None ∧ ∃ μ', μ' < μ ∧ node_at (k + 1) (Some (wrapu 32 (x + 1))) μ' nd'.
Proof.
  intros H [f y Ha Hf Hy] Hx.
  destruct H as [nd Hs|k j m nd _ Hp Hs Hw Hk Hj|k z i j m nd _ Hp Hs Hl Hk Hj Hi|k z i q tok nd _ Hc Hl Hh Hk Hi|j m nd _ Hp Hs [m2 Hm2]|nd Hs]; try congruence.
  - destruct (settles_not_next _ _ _ Hs ltac:(by rewrite Hf)) as [-> ->].
    destruct (waiting_reads _ _ _ Hw) as (f' & Hf' & Hr). rewrite Hf in Hf'. injection Hf' as <-.
    destruct (Hr y Hx) as (j & m' & Hs' & Hle & Hl). split_and!; [lia|done..|].
    exists (40 * (N - (k + 1)) + 25 + Z.of_nat j - Z.of_nat 0). split; [lia|].
    eapply (at_sending _ _ 0); cbn; try done; [by repeat split; cbn; try lia|by replace (N - (k + 1) + 1) with (N - k) by lia|lia..].
  - destruct (settles_not_next _ _ _ Hs ltac:(by rewrite Hf)) as [-> ->].
    destruct (loaded_step _ _ _ _ Hl ltac:(lia)) as (ch & v & m' & _ & Hf' & _). congruence.
  - destruct (decide (i = 8%nat)) as [->|].
    + destruct (loaded_waits _ _ _ _ Hl ltac:(lia)) as (f' & Hf' & _). rewrite Hf in Hf'. discriminate.
    + destruct (loaded_step _ _ _ _ Hl ltac:(lia)) as (ch & v & m' & _ & Hf' & _). congruence.
  - destruct (settles_not_next _ _ _ Hs ltac:(by rewrite Hf)) as [-> ->]. congruence.
Qed.

Lemma node_sends_at k tok μ nd a x nd' :
  node_at k tok μ nd → node_sends nd a x nd' →
  a = ea ∧ tok = Some x ∧ n_sig nd' = n_sig nd ∧ ∃ μ', μ' < μ ∧ node_at k None μ' nd'.
Proof.
  intros H [q1 c q2 Hq Hv].
  destruct H as [nd Hs Hm|k j m nd _ Hp|k z i j m nd _ (Hp & _)|k z i q tok nd Ha Hc Hl Hh Hk Hi|j m nd _ Hp|nd Hs Hp]; cbn in Hq;
    try (rewrite ?Hm, ?Hp in Hq; by destruct q1).
  pose proof Hc as (Hp & Hm & Hu). rewrite Hp in Hq. destruct Hh as [[-> ->]|[-> ->]]; [|by destruct q1].
  destruct q1 as [|? [|]]; try done. injection Hq as <- <-. cbn [c_ea c_lsa send_word app].
  destruct Hl as [Hl <-]. split_and!; [done..|]. exists (40 * (N - k) + 15 - Z.of_nat i + Z.of_nat (length (@nil command))). split; [cbn; lia|].
  eapply at_command; cbn; try done; [by right].
Qed.

(** *** It can move, unless it waits for a word or has ended *)

Definition moves (nd : node) : Prop :=
  (∃ nd', node_step nd nd') ∨ (∃ x nd', node_reads nd x nd') ∨ (∃ x nd', node_sends nd ea x nd').

Lemma settling_moves j nd m :
  n_state nd = Awake → settles_in j (n_spu nd) m → (n_spu nd = m → moves nd) → moves nd.
Proof.
  intros Ha Hs Hm. destruct (settles_cases _ _ _ Hs) as [(i & m1 & -> & Hn & Hs1)|(-> & -> & Hn)]; [|by apply Hm].
  left. eexists. by eapply n_next.
Qed.

Lemma node_can k tok μ nd :
  node_at k tok μ nd → tok ≠ None ∨ k = N ∨ n_sig nd ≠ None → n_state nd = Ended 0x1337 ∧ k = N ∨ moves nd.
Proof.
  intros H Hor.
  destruct H as [nd Hs|k j m nd Ha Hp Hs Hw Hk Hj|k z i j m nd Ha Hp Hs Hl Hk Hj Hi|k z i q tok nd Ha Hc Hl Hh Hk Hi|j m nd Ha Hp Hs [m2 Hm2]|nd Hs];
    [right..|by left].
  - left. eexists. by apply n_starts.
  - eapply settling_moves; [done..|]. intros <-. destruct (waiting_reads _ _ _ Hw) as (f & Hf & _).
    destruct (n_sig nd) as [x|] eqn:Hx; [|exfalso; destruct Hor as [?|[?|?]]; [done|lia|done]]. right; left. eexists _, _. by eapply n_signal.
  - eapply settling_moves; [done..|]. intros <-. destruct (loaded_step _ _ _ _ Hl ltac:(lia)) as (ch & v & m' & Hch & Hf & _).
    left. destruct (decide (i = 5%nat)) as [->|].
    + injection Hch as <- <-. destruct (params_command _ Hp) as (s2 & Hs2 & _). eexists. by eapply n_write.
    + destruct (params_write i _ _ _ ltac:(lia) Hch Hp) as (s2 & Hs2 & _). eexists. by eapply n_write.
  - destruct Hh as [[-> ->]|[-> ->]].
    + right; right. eexists _, _. pose proof (n_sends nd [] send_word [] (proj1 Hc) send_valid) as H. exact H.
    + left. destruct (decide (i = 8%nat)) as [->|].
      * destruct (loaded_waits _ _ _ _ Hl ltac:(lia)) as (f & Hf & _). destruct Hc as (Hp & Hm & Hu).
        eexists. eapply n_tag; [done..|by apply Hu; lia|]. unfold updated, tag_status. rewrite Hp, Hm by lia. done.
      * destruct (loaded_step _ _ _ _ Hl ltac:(lia)) as (ch & v & m' & Hch & Hf & _).
        assert (∃ s', write_channel ch v (n_mfc nd) = Some s') as [s' Hs'].
        { destruct (n_mfc nd). assert (i = 6 ∨ i = 7)%nat as [-> | ->] by lia; injection Hch as <- <-; by eexists. }
        eexists. by eapply n_write.
  - eapply settling_moves; [done..|]. intros <-. left. eexists. by eapply n_stops.
Qed.
End node.

(** ** The ring *)

(** How often the word has come to SPE [i] after [h] hops, of [n] SPEs. *)
Definition reads (n h i : nat) : nat := h / n + (if decide (i < h mod n)%nat then 1 else 0).

Lemma reads_S n h i : (i < n)%nat → reads n (S h) i = (reads n h i + if decide (i = h mod n)%nat then 1 else 0)%nat.
Proof.
  intros Hi. unfold reads. pose proof (Nat.div_mod_eq h n) as Hd. pose proof (Nat.mod_upper_bound h n ltac:(lia)) as Hm.
  assert (S h / n = h / n + (if decide (S (h mod n) = n) then 1 else 0) ∧
          S h mod n = if decide (S (h mod n) = n) then 0 else S (h mod n))%nat as [-> ->].
  { destruct (decide (S (h mod n) = n)) as [E|E].
    - assert (S h = n * (h / n + 1) + 0)%nat as Hs by lia. split; symmetry; [by eapply Nat.div_unique; [|exact Hs]; lia|].
      by eapply Nat.mod_unique; [|exact Hs]; lia.
    - assert (S h = n * (h / n) + S (h mod n))%nat as Hs by lia. rewrite Nat.add_0_r.
      split; symmetry; [by eapply Nat.div_unique; [|exact Hs]; lia|]. by eapply Nat.mod_unique; [|exact Hs]; lia. }
  repeat case_decide; lia.
Qed.

(** Where the word is: not yet sent, in a register, or with an SPE, after so many hops. *)
Inductive token := Unkicked | Flying (h : nat) | Inside (h : nat).

Section ring.
Context (sig_addr : nat → Z) (N : Z) (n : nat).
Context (N_ok : 1 ≤ N < 2 ^ 32) (n_pos : (0 < n)%nat).
Context (addr_inj : ∀ i j, (i < n)%nat → (j < n)%nat → sig_addr i = sig_addr j → i = j).
Context (addr_ok : ∀ i, (i < n)%nat → 0 ≤ sig_addr i < 2 ^ 64 ∧ sig_addr i mod 16 = 0xc).

#[local] Abbreviation step := (ring_step sig_addr (sig_addr 0%nat) 0).

(** The register that SPE [i] sends to. *)
Definition next (i : nat) : nat := (S i mod n)%nat.
Definition target_addr (i : nat) : Z := sig_addr (next i).

Definition words_read (t : token) (i : nat) : Z :=
  match t with Unkicked => 0 | Flying h => Z.of_nat (reads n h i) | Inside h => Z.of_nat (reads n (S h) i) end.

Definition hop (h : nat) : Z := wrapu 32 (Z.of_nat h).

Definition in_register (t : token) (i : nat) : option Z :=
  match t with Flying h => if decide (i = h mod n)%nat then Some (hop h) else None | _ => None end.
Definition holding (t : token) (i : nat) : option Z :=
  match t with Inside h => if decide (i = h mod n)%nat then Some (hop (S h)) else None | _ => None end.

Definition sent_first (t : token) : bool := match t with Unkicked => false | _ => true end.

Definition in_place (t : token) (i : nat) (nd : node) (μ : Z) : Prop :=
  n_sig nd = in_register t i ∧ node_at (target_addr i) N (words_read t i) (holding t i) μ nd.

Record ring_inv (M : Z) (t : token) (μs : list Z) (s : ring) : Prop := {
  ri_kicked : kicked s = sent_first t;
  ri_length : length (nodes s) = n;
  ri_measures : length μs = n;
  ri_nodes : ∀ i nd μ, nodes s !! i = Some nd → μs !! i = Some μ → in_place t i nd μ;
  ri_sum : M = zsum μs + (if sent_first t then 0 else 1);
}.

Lemma next_lt i : (next i < n)%nat.
Proof. apply Nat.mod_upper_bound. lia. Qed.

Lemma target_ok i : 0 ≤ target_addr i < 2 ^ 64 ∧ target_addr i mod 16 = 0xc.
Proof. apply addr_ok, next_lt. Qed.

Lemma next_hop h : next (h mod n) = (S h mod n)%nat.
Proof. unfold next. rewrite <- (Nat.add_1_r h), <- (Nat.add_1_r (h mod n)), Nat.add_mod_idemp_l by lia. done. Qed.

Lemma hop_S h : wrapu 32 (hop h + 1) = hop (S h).
Proof. unfold hop, wrapu. rewrite Zplus_mod_idemp_l. f_equal. lia. Qed.

Lemma hop_word h : 0 ≤ hop h < 2 ^ 32.
Proof. apply Z.mod_pos_bound. lia. Qed.

(** The SPE with a smaller measure takes its place again, and the others keep theirs. *)
Lemma ring_moves M t t' μs s i nd' μ μ' l' :
  ring_inv M t μs s → μs !! i = Some μ → μ' < μ → sent_first t' = sent_first t → length l' = n →
  (∀ j nd, j ≠ i → l' !! j = Some nd → ∃ nd0, nodes s !! j = Some nd0 ∧ (∀ m, in_place t j nd0 m → in_place t' j nd m)) →
  (∀ nd, l' !! i = Some nd → nd = nd') → in_place t' i nd' μ' →
  ∃ M' t' μs', M' < M ∧ ring_inv M' t' μs' (Ring l' (kicked s)).
Proof.
  intros [Hk Hl Hm Hn ->] Hi Hlt Ht Hl' Ho Hn' Hp.
  exists (zsum (<[i:=μ']> μs) + (if sent_first t' then 0 else 1)), t', (<[i:=μ']> μs). rewrite Ht. split.
  - rewrite (zsum_insert _ _ μ) by done. lia.
  - split; cbn [nodes kicked]; [by rewrite Ht|done|by rewrite length_insert| |by rewrite Ht].
    intros j nd m Hj Hmj. destruct (decide (j = i)) as [->|Hji].
    + rewrite (Hn' _ Hj). rewrite list_lookup_insert_eq in Hmj by (by eapply lookup_lt_Some). by injection Hmj as <-.
    + rewrite list_lookup_insert_ne in Hmj by done. destruct (Ho j nd Hji Hj) as (nd0 & H0 & Hin). apply Hin. by eapply Hn.
Qed.

Lemma node_place M t μs s i nd :
  ring_inv M t μs s → nodes s !! i = Some nd → (i < n)%nat ∧ ∃ μ, μs !! i = Some μ ∧ in_place t i nd μ.
Proof.
  intros [Hk Hl Hm Hn _] Hi. pose proof (lookup_lt_Some _ _ _ Hi). split; [lia|].
  destruct (lookup_lt_is_Some_2 μs i ltac:(lia)) as [μ Hμ]. eauto.
Qed.

Lemma ring_node_step M t μs s i nd nd' :
  ring_inv M t μs s → nodes s !! i = Some nd → node_step nd nd' →
  ∃ M' t' μs', M' < M ∧ ring_inv M' t' μs' (Ring (<[i:=nd']> (nodes s)) (kicked s)).
Proof.
  intros Hinv Hi Hst. destruct (node_place _ _ _ _ _ _ Hinv Hi) as (Hlt & μ & Hμ & Hs & Hat).
  destruct (node_goes _ _ (proj1 (target_ok i)) N_ok _ _ _ _ _ Hat Hst) as (Hs' & μ' & Hlt' & Hat').
  eapply (ring_moves _ t t _ _ i nd' _ μ'); [done..| | | |].
  - rewrite length_insert. apply Hinv.
  - intros j nd0 Hj. rewrite list_lookup_insert_ne by done. intros H. by exists nd0.
  - intros nd0. rewrite list_lookup_insert_eq by (by eapply lookup_lt_Some). congruence.
  - split; [congruence|done].
Qed.

Lemma ring_reads_step M t μs s i nd x nd' :
  ring_inv M t μs s → nodes s !! i = Some nd → node_reads nd x nd' →
  ∃ M' t' μs', M' < M ∧ ring_inv M' t' μs' (Ring (<[i:=nd']> (nodes s)) (kicked s)).
Proof.
  intros Hinv Hi Hst. destruct (node_place _ _ _ _ _ _ Hinv Hi) as (Hlt & μ & Hμ & Hs & Hat).
  assert (n_sig nd = Some x) as Hx by by destruct Hst. rewrite Hx in Hs. destruct t as [|h|h]; try done.
  cbn [in_register] in Hs. case_decide as Hih; [|done]. injection Hs as ->.
  destruct (node_reads_at _ _ N_ok _ _ _ _ _ _ Hat Hst (hop_word h)) as (_ & _ & Hs' & μ' & Hlt' & Hat').
  eapply (ring_moves _ (Flying h) (Inside h) _ _ i nd' _ μ'); [done..| | | |].
  - rewrite length_insert. apply Hinv.
  - intros j nd0 Hj. rewrite list_lookup_insert_ne by done. intros H. exists nd0. split; [done|].
    assert (j < n)%nat by (rewrite <- (ri_length _ _ _ _ Hinv); by eapply lookup_lt_Some).
    intros m. unfold in_place. cbn [in_register words_read holding]. rewrite reads_S, !decide_False by congruence || done.
    by rewrite Nat.add_0_r.
  - intros nd0. rewrite list_lookup_insert_eq by (by eapply lookup_lt_Some). congruence.
  - split; [done|]. cbn [words_read holding] in *. rewrite reads_S, !decide_True by done. rewrite <- hop_S.
    by rewrite Nat2Z.inj_add.
Qed.

Lemma ring_sends_step M t μs s i nd ea x nd' j :
  ring_inv M t μs s → nodes s !! i = Some nd → node_sends nd ea x nd' → (j < length (nodes s))%nat → sig_addr j = ea →
  ∃ M' t' μs', M' < M ∧ ring_inv M' t' μs' (Ring (arrives x (<[i:=nd']> (nodes s)) j) (kicked s)).
Proof.
  intros Hinv Hi Hst Hj Hea. destruct (node_place _ _ _ _ _ _ Hinv Hi) as (Hlt & μ & Hμ & Hs & Hat).
  destruct (node_sends_at _ _ _ _ _ _ _ _ _ Hat Hst) as (-> & Hx & Hs' & μ' & Hlt' & Hat').
  pose proof (ri_length _ _ _ _ Hinv) as Hlen. destruct t as [|h|h]; try done.
  cbn [holding] in Hx. case_decide as Hih; [|done]. injection Hx as <-.
  apply addr_inj in Hea; [|lia|apply next_lt]. rewrite Hih, next_hop in Hea. subst j.
  set (j := (S h mod n)%nat) in *.
  eapply (ring_moves _ (Inside h) (Flying (S h)) _ _ i (if decide (i = j) then set_sig (Some (hop (S h))) nd' else nd') _ μ');
    [done..| | | |].
  - unfold arrives. by rewrite length_alter, length_insert.
  - intros k nd0 Hk H. unfold arrives in H. destruct (decide (k = j)) as [->|Hkj].
    + rewrite list_lookup_alter_eq, list_lookup_insert_ne in H by done. apply fmap_Some in H as (nd1 & H1 & ->). exists nd1. split; [done|].
      intros m [_ Hin]. split; [cbn [in_register]; by rewrite decide_True|]. apply node_sig. cbn [holding words_read] in *.
      by rewrite decide_False in Hin by congruence.
    + rewrite list_lookup_alter_ne, list_lookup_insert_ne in H by done. exists nd0. split; [done|].
      intros m [Hr Hin]. split; [cbn [in_register] in *; by rewrite decide_False|]. cbn [holding words_read] in *.
      by rewrite decide_False in Hin by congruence.
  - intros nd0. unfold arrives. destruct (decide (i = j)) as [<-|Hij].
    + rewrite list_lookup_alter_eq, list_lookup_insert_eq by lia. cbn. congruence.
    + rewrite list_lookup_alter_ne, list_lookup_insert_eq by done || lia. congruence.
  - destruct (decide (i = j)).
    + split; [cbn [in_register]; by rewrite decide_True|by apply node_sig].
    + split; [cbn [in_register]; by rewrite decide_False; [rewrite Hs', Hs|]|done].
Qed.

Lemma ring_kick_step M t μs s :
  ring_inv M t μs s → kicked s = false → ∃ M' t' μs', M' < M ∧ ring_inv M' t' μs' (Ring (arrives 0 (nodes s) 0) true).
Proof.
  intros [Hk Hl Hm Hn ->] Hf. destruct t; cbn in Hk; try congruence. exists (zsum μs + 0), (Flying 0), μs. split; [cbn; lia|].
  split; cbn [nodes kicked sent_first]; try done; [by unfold arrives; rewrite length_alter|].
  intros i nd μ Hi Hμ. pose proof (lookup_lt_Some _ _ _ Hμ) as Hlt. unfold arrives in Hi.
  assert (Hz : (0 mod n = 0)%nat) by (by apply Nat.mod_0_l; lia).
  assert (Hr : words_read (Flying 0) i = 0).
  { cbn [words_read]. unfold reads. rewrite Hz, decide_False, Nat.div_0_l by lia. done. }
  unfold in_place. rewrite Hr. cbn [in_register holding]. rewrite Hz. destruct (decide (i = 0%nat)) as [->|Hi0].
  - rewrite list_lookup_alter_eq in Hi. apply fmap_Some in Hi as (nd0 & H0 & ->). split; [done|].
    apply node_sig, (Hn _ _ _ H0 Hμ).
  - rewrite list_lookup_alter_ne in Hi by done. apply (Hn _ _ _ Hi Hμ).
Qed.

Lemma ring_steps M t μs s s' :
  ring_inv M t μs s → step s s' → ∃ M' t' μs', M' < M ∧ ring_inv M' t' μs' s'.
Proof.
  intros Hinv. destruct 1; [by eapply ring_node_step|by eapply ring_reads_step|by eapply ring_sends_step|].
  assert (j = 0%nat) as ->; [|by eapply ring_kick_step].
  apply addr_inj; [|lia|done]. by rewrite <- (ri_length _ _ _ _ Hinv).
Qed.

(** *** The start and the end *)

Lemma ring_inv_start images s :
  kicked s = false → length (nodes s) = n →
  (∀ i nd, nodes s !! i = Some nd → sleeping (images i) nd ∧ ring_image (target_addr i) N (images i)) →
  ∃ M, ring_inv M Unkicked (replicate n (40 * N + 30)) s.
Proof.
  intros Hk Hl Hn. eexists. split; [done|done|by rewrite length_replicate| |reflexivity].
  intros i nd μ Hi [-> _]%lookup_replicate. destruct (Hn _ _ Hi) as [(Hls & Hm & Hs & Ha) Him]. split; [done|].
  apply at_asleep; [done..|]. by rewrite Hls.
Qed.

Lemma node_ended ea k tok μ nd c : node_at ea N k tok μ nd → n_state nd = Ended c → tok = None ∧ k = N.
Proof. destruct 1; intros; congruence || done. Qed.

(** The words that came to the SPEs add up. *)
Lemma reads_all h : (∀ i, (i < n)%nat → Z.of_nat (reads n h i) = N) → Z.of_nat h = Z.of_nat n * N.
Proof.
  intros H. pose proof (Nat.div_mod_eq h n) as Hd. pose proof (Nat.mod_upper_bound h n ltac:(lia)) as Hm.
  pose proof (H 0%nat n_pos) as H0. pose proof (H (n - 1)%nat ltac:(lia)) as H1. unfold reads in H0, H1.
  rewrite decide_False in H1 by lia. case_decide; [lia|]. assert (h mod n = 0)%nat as Hz by lia.
  assert (Z.of_nat (h / n) = N) as <- by lia. lia.
Qed.

Definition ring_over s : Prop :=
  all_ended 0x1337 s ∧ ∃ nd, nodes s !! 0%nat = Some nd ∧ n_sig nd = Some (wrapu 32 (Z.of_nat n * N)).

Lemma ring_ended M t μs s : ring_inv M t μs s → all_ended 0x1337 s → ring_over s.
Proof.
  intros Hinv He. split; [done|]. pose proof (ri_length _ _ _ _ Hinv) as Hlen.
  assert (Hr : ∀ i, (i < n)%nat → holding t i = None ∧ words_read t i = N).
  { intros i Hi. destruct (lookup_lt_is_Some_2 (nodes s) i ltac:(lia)) as [nd Hnd].
    destruct (node_place _ _ _ _ _ _ Hinv Hnd) as (_ & μ & _ & _ & Hat). eapply node_ended; [exact Hat|].
    exact (proj1 (Forall_lookup _ _) He _ _ Hnd). }
  destruct (lookup_lt_is_Some_2 (nodes s) 0%nat ltac:(lia)) as [nd Hnd]. exists nd. split; [done|].
  destruct (node_place _ _ _ _ _ _ Hinv Hnd) as (_ & μ & _ & -> & _). destruct t as [|h|h].
  - destruct (Hr 0%nat n_pos) as [_ H]. cbn in H. lia.
  - assert (Z.of_nat h = Z.of_nat n * N) as Hh by (apply reads_all; intros i Hi; by apply Hr).
    cbn [in_register]. unfold hop. rewrite Hh, decide_True; [done|]. symmetry. apply Nat.Div0.mod_divides. exists (Z.to_nat N). lia.
  - destruct (Hr (h mod n)%nat ltac:(apply Nat.mod_upper_bound; lia)) as [H _]. cbn [holding] in H. by rewrite decide_True in H.
Qed.

(** *** Some SPE can move *)

Lemma moves_step M t μs s i nd :
  ring_inv M t μs s → nodes s !! i = Some nd → moves (target_addr i) nd → ∃ s', step s s'.
Proof.
  intros Hinv Hi [[nd' H]|[(x & nd' & H)|(x & nd' & H)]].
  - eexists. by eapply g_node.
  - eexists. by eapply g_reads.
  - eexists. eapply g_sends; [done..| |reflexivity]. rewrite (ri_length _ _ _ _ Hinv). apply next_lt.
Qed.

Lemma Forall_or {A} (P : A → Prop) (Q : Prop) l : (∀ i x, l !! i = Some x → P x ∨ Q) → Forall P l ∨ Q.
Proof.
  induction l as [|x l IH]; intros H; [by left|]. destruct (H 0%nat x eq_refl) as [Hx|]; [|by right].
  destruct IH as [Hl|]; [intros i y Hy; by apply (H (S i))|by left; apply List.Forall_cons|by right].
Qed.

Lemma ring_progress M t μs s : ring_inv M t μs s → all_ended 0x1337 s ∨ ∃ s', step s s'.
Proof.
  intros Hinv. pose proof (ri_length _ _ _ _ Hinv) as Hlen.
  assert (Hnode : ∀ i nd, nodes s !! i = Some nd → holding t i ≠ None ∨ words_read t i = N ∨ in_register t i ≠ None →
    n_state nd = Ended 0x1337 ∧ words_read t i = N ∨ ∃ s', step s s').
  { intros i nd Hi Hor. destruct (node_place _ _ _ _ _ _ Hinv Hi) as (_ & μ & _ & Hs & Hat).
    destruct (node_can _ _ (proj2 (target_ok i)) N_ok _ _ _ _ Hat) as [H|H]; [by rewrite Hs|by left|right; by eapply moves_step]. }
  assert (Hat : ∀ h, is_Some (nodes s !! (h mod n)%nat)).
  { intros h. apply lookup_lt_is_Some_2. rewrite Hlen. apply Nat.mod_upper_bound. lia. }
  destruct t as [|h|h].
  - right. eexists. apply (g_kick _ _ _ _ 0%nat); [by rewrite (ri_kicked _ _ _ _ Hinv)|lia|done].
  - destruct (Hat h) as [nd Hnd]. destruct (Hnode _ _ Hnd) as [[_ Hk]|]; [|clear Hnd|by right].
    { right; right. cbn [in_register]. by rewrite decide_True. }
    cbn [words_read] in Hk. unfold reads in Hk. rewrite decide_False in Hk by lia.
    apply Forall_or. intros i nd' Hi. destruct (node_place _ _ _ _ _ _ Hinv Hi) as (Hlt & μ & _ & _ & Hat').
    destruct (Hnode _ _ Hi) as [[H _]|]; [|by left|by right]. right; left.
    apply node_bounds in Hat'; [|done]. cbn [words_read] in *. unfold reads in *. case_decide; lia.
  - destruct (Hat h) as [nd Hnd]. destruct (node_place _ _ _ _ _ _ Hinv Hnd) as (_ & μ & _ & _ & Hat').
    destruct (Hnode _ _ Hnd) as [[He _]|]; [left; cbn [holding]; by rewrite decide_True| |by right].
    destruct (node_ended _ _ _ _ _ _ Hat' He) as [H _]. cbn [holding] in H. by rewrite decide_True in H.
Qed.

Lemma ring_ends M t μs s : ring_inv M t μs s → inevitably step ring_over s.
Proof.
  intros Hinv. apply (inevitably_measure _ (λ M s, ∃ t μs, ring_inv M t μs s)) with M; [|by exists t, μs].
  clear Hinv M t μs s. intros M s (t & μs & Hinv). split.
  - rewrite (ri_sum _ _ _ _ Hinv). assert (0 ≤ zsum μs); [|by destruct (sent_first t); lia]. apply zsum_nonneg.
    apply Forall_lookup_2. intros i μ Hμ. pose proof (lookup_lt_Some _ _ _ Hμ) as Hlt. rewrite (ri_measures _ _ _ _ Hinv) in Hlt.
    destruct (lookup_lt_is_Some_2 (nodes s) i) as [nd Hnd]; [by rewrite (ri_length _ _ _ _ Hinv)|].
    destruct (ri_nodes _ _ _ _ Hinv _ _ _ Hnd Hμ) as [_ Hat]. apply node_bounds in Hat; [lia|done].
  - destruct (ring_progress _ _ _ _ Hinv) as [He|Hs]; [left; by eapply ring_ended|right]. split; [done|].
    intros s' Hst. destruct (ring_steps _ _ _ _ _ Hinv Hst) as (M' & t' & μs' & Hlt & H'). exists M'. eauto.
Qed.
End ring.

