(* ===== verification/RingMain.v ===== *)
(** * From [main] of the benchmark to its rings

    What [create_gang] has stored into the local stores is what the rings need, so
    that they come to their end. *)

From stdpp Require Import relations.
From S2P Require Import Prelude Runs CString SysProg SpuIsa SpuTests SpuApps SpuDma DmaProps Ring RingProps.

Local Open Scope Z_scope.

(** ** Programs that store nothing *)

Definition keeps {A} (m : P A) : Prop := ∀ w a w1, m w = (inl a, w1) → stored (log w1) = stored (log w).

Lemma keeps_ret {A} (a : A) : keeps (mret a).
Proof. by intros w b w1 [= _ <-]. Qed.

Lemma keeps_leave {A} s : keeps (@leave A s).
Proof. by intros w b w1 [=]. Qed.

Lemma keeps_bind {A B} (m : P A) (f : A → P B) : keeps m → (∀ a, keeps (f a)) → keeps (m ≫= f).
Proof. intros Hm Hf w b w2 (a & w1 & H1 & H2)%bind_inl. by rewrite (Hf _ _ _ _ H2), (Hm _ _ _ H1). Qed.

Lemma keeps_sys kernel c : (∀ addr data, c ≠ m_store addr data) → keeps (sys kernel c).
Proof. intros Hc w a w1 [= _ <-]. cbn [log stored]. by destruct c; try done; destruct (Hc addr data). Qed.

Lemma keeps_fprintf f s : keeps (fprintf f s).
Proof. by intros w a w1 [= _ <-]. Qed.

Lemma keeps_errno : keeps get_errno.
Proof. by intros w a w1 [= _ <-]. Qed.

Create HintDb keeps.
#[export] Hint Resolve keeps_ret keeps_leave keeps_fprintf keeps_errno : keeps.

Ltac keeps_tac :=
  repeat first [progress eauto with keeps | apply keeps_bind; [|intros ?] | apply keeps_sys; done | progress case_match].

Section start.
Context (kernel : list event → call → ans) (strerror : Z → bytes) (N : Z).

Lemma keeps_fail_if b s : keeps (fail_if strerror b s).
Proof. unfold fail_if, perror, return_main. keeps_tac. Qed.

Lemma keeps_assert b : keeps (assert b).
Proof. unfold assert. keeps_tac. Qed.

Lemma keeps_spu_create name flags mode : keeps (spu_create kernel name flags mode None).
Proof. unfold spu_create, sys_rc. keeps_tac. Qed.

Lemma keeps_thread_at ts i : keeps (thread_at ts i).
Proof. unfold thread_at. keeps_tac. Qed.

#[local] Hint Resolve keeps_fail_if keeps_assert keeps_spu_create keeps_thread_at : keeps.

Lemma keeps_setup_thread g ts i : keeps (setup_thread kernel strerror g ts i).
Proof. unfold setup_thread, sprintf_40, set_thread, maps_file, close_, sys_rc. keeps_tac. Qed.

Lemma keeps_start_thread : keeps (start_thread kernel strerror).
Proof. unfold start_thread, sys_rc. keeps_tac. Qed.

#[local] Hint Resolve keeps_setup_thread keeps_start_thread : keeps.

Lemma keeps_setup_threads g ts l : keeps (setup_threads kernel strerror g ts l).
Proof. revert ts. induction l as [|i l IH]; intros ts; cbn [setup_threads]; keeps_tac. Qed.

Lemma keeps_for_each {A} (l : list A) f : (∀ x, keeps (f x)) → keeps (for_each l f).
Proof. intros Hf. induction l as [|x l IH]; cbn [for_each]; keeps_tac. Qed.

(** ** The array *)

Lemma thread_at_inl ts i t w w1 :
  thread_at ts i w = (inl t, w1) → 0 ≤ i ∧ ts !! Z.to_nat i = Some t ∧ w1 = w.
Proof.
  unfold thread_at. destruct (Z.ltb_spec i 0); [done|]. destruct (ts !! Z.to_nat i); [|done]. by intros [= -> ->].
Qed.

Lemma setup_thread_length g ts i ts' w w1 :
  setup_thread kernel strerror g ts i w = (inl ts', w1) → length ts' = length ts ∧ (1 < length ts)%nat.
Proof.
  unfold setup_thread. intros (? & ? & _ & H)%bind_inl. apply bind_inl in H as (? & ? & _ & H).
  apply bind_inl in H as (ts1 & ? & H1 & H). apply bind_inl in H as (? & ? & _ & H).
  apply bind_inl in H as ([fd map] & ? & _ & H). apply bind_inl in H as (ts2 & ? & H2 & H).
  apply bind_inl in H as (? & ? & _ & H). apply bind_inl in H as (? & ? & _ & H).
  apply bind_inl in H as ([fd' map'] & ? & _ & H). apply bind_inl in H as (ts3 & ? & H3 & H).
  apply bind_inl in H as (one & ? & (_ & Ho & _)%thread_at_inl & H). apply bind_inl in H as (? & ? & _ & H).
  apply bind_inl in H as (? & ? & _ & [= <- _]).
  assert (∀ a i f b w w', set_thread a i f w = (inl b, w') → length b = length a) as Hl.
  { clear. intros a i f b w w' (t & w1 & _ & [= <- _])%bind_inl. by rewrite length_insert. }
  apply Hl in H1, H2, H3. apply lookup_lt_Some in Ho. change (Z.to_nat 1) with 1%nat in Ho. split; lia.
Qed.

Lemma setup_threads_length g ts l ts' w w1 :
  setup_threads kernel strerror g ts l w = (inl ts', w1) → length ts' = length ts ∧ (l ≠ [] → (1 < length ts)%nat).
Proof.
  revert ts w. induction l as [|i l IH]; intros ts w; cbn [setup_threads]; [by intros [= <- _]|].
  intros (ts1 & w2 & H1 & H2)%bind_inl. apply setup_thread_length in H1 as [E H1]. apply IH in H2 as [E2 _]. split; [congruence|done].
Qed.

(** ** What is stored into a local store *)

(** The stores of one turn of the second loop, for the address [ea] of the next
    register. *)
Definition fill_mem (mem : Z → Z) (base ea : Z) : Z → Z :=
  store_bytes (store_bytes (store_bytes (store_bytes mem base (words dual_ring_program))
    base (be_bytes 4 (Z.shiftr ea 32))) (base + 4) (be_bytes 4 (Z.land ea 0xffffffff))) (base + 16) (be_bytes 4 N).

Definition FILL_SIZE : Z := 4 * Z.of_nat (length dual_ring_program).

Lemma mapped_other mem base data b a :
  b + a + 4 ≤ base ∨ base + Z.of_nat (length data) ≤ b + a → mapped (store_bytes mem base data) b a = mapped mem b a.
Proof. intros H. unfold mapped, word_of. by rewrite !store_bytes_outside by lia. Qed.

Lemma mapped_here mem base off x : 0 ≤ x < 2 ^ 32 → mapped (store_bytes mem (base + off) (be_bytes 4 x)) base off = x.
Proof.
  intros Hx. trans (mapped (store_bytes mem (base + off) (be_bytes 4 x)) (base + off) 0); [unfold mapped; f_equal; lia|].
  by apply mapped_word.
Qed.

Lemma length_be_4 x : Z.of_nat (length (be_bytes 4 x)) = 4.
Proof. done. Qed.

(** The words after it. *)
Lemma fill_mapped mem base ea i w :
  0 ≤ N < 2 ^ 32 → 0 ≤ ea < 2 ^ 64 → dual_ring_program !! i = Some w → 0 ≤ w < 2 ^ 32 →
  mapped (fill_mem mem base ea) base (4 * Z.of_nat i) =
    if decide (i = 0)%nat then ea / 2 ^ 32 else if decide (i = 1)%nat then ea mod 2 ^ 32
    else if decide (i = 4)%nat then N else w.
Proof.
  intros HN He Hi Hw. unfold fill_mem. pose proof (Z.mod_pos_bound ea (2 ^ 32) ltac:(lia)) as Hlo.
  change 0xffffffff with (Z.ones 32). rewrite Z.land_ones, Z.shiftr_div_pow2 by lia. change (2 ^ 64) with (2 ^ 32 * 2 ^ 32) in He.
  pose proof (Z.div_pos ea (2 ^ 32) ltac:(lia) ltac:(lia)). pose proof (Z.div_lt_upper_bound ea (2 ^ 32) (2 ^ 32) ltac:(lia) ltac:(lia)).
  repeat case_decide; subst.
  - rewrite !(mapped_other _ (base + _)) by (rewrite length_be_4; lia). rewrite <- (Z.add_0_r base) at 2. by rewrite mapped_here by lia.
  - rewrite (mapped_other _ (base + 16)) by (rewrite length_be_4; lia). by apply mapped_here.
  - by apply mapped_here.
  - rewrite !mapped_other by (rewrite length_be_4; lia). by apply mapped_program.
Qed.

Lemma program_words : Forall (λ w, 0 ≤ w < 2 ^ 32) dual_ring_program.
Proof. by apply (bool_decide_unpack _); vm_compute. Qed.

Lemma program_at i x : ring_listing !! i = Some x → ∃ w, dual_ring_program !! (12 + i)%nat = Some w ∧ decode w = Some x.
Proof.
  intros Hi. assert (map decode (drop 12 dual_ring_program) = map Some ring_listing) as E by reflexivity.
  assert (map Some ring_listing !! i = Some (Some x)) as H by by rewrite list_lookup_fmap, Hi.
  rewrite <- E, list_lookup_fmap, lookup_drop in H. apply fmap_Some in H as (w & Hw & Hd). by exists w.
Qed.

(** It is what a run needs, *)
Lemma fill_image mem base ea : 0 ≤ N < 2 ^ 32 → 0 ≤ ea < 2 ^ 64 → ring_image ea N (mapped (fill_mem mem base ea) base).
Proof.
  intros HN He.
  assert (H : ∀ i w, dual_ring_program !! i = Some w → (5 ≤ i)%nat ∨ i = 2%nat ∨ i = 3%nat →
    mapped (fill_mem mem base ea) base (4 * Z.of_nat i) = w).
  { intros i w Hi Hr. rewrite (fill_mapped _ _ _ i w); [|done..|exact (proj1 (Forall_lookup _ _) program_words _ _ Hi)].
    by rewrite !decide_False by lia. }
  split_and!.
  - intros i x Hi. destruct (program_at _ _ Hi) as (w & Hw & Hd). replace (0x30 + 4 * Z.of_nat i) with (4 * Z.of_nat (12 + i)) by lia.
    by rewrite (H _ _ Hw) by lia.
  - pose proof (fill_mapped mem base ea 0 0 HN He eq_refl ltac:(lia)) as H0. pose proof (fill_mapped mem base ea 1 0 HN He eq_refl ltac:(lia)) as H1.
    pose proof (H 2%nat 0 eq_refl ltac:(lia)) as H2. pose proof (H 3%nat 0 eq_refl ltac:(lia)) as H3.
    change (quad_at ?l 0) with (Quad (l (4 * Z.of_nat 0)) (l (4 * Z.of_nat 1)) (l (4 * Z.of_nat 2)) (l (4 * Z.of_nat 3))).
    by rewrite H0, H1, H2, H3.
  - exact (fill_mapped mem base ea 4 0 HN He eq_refl ltac:(lia)).
Qed.

(** and stays so when another local store is filled. *)
Lemma fill_other mem base ea b a :
  b + a + 4 ≤ base ∨ base + FILL_SIZE ≤ b + a → mapped (fill_mem mem base ea) b a = mapped mem b a.
Proof.
  intros H. unfold fill_mem. assert (Hf : Z.of_nat (length (words dual_ring_program)) = FILL_SIZE) by done. unfold FILL_SIZE in *.
  rewrite !mapped_other; [done|rewrite Hf; lia|rewrite length_be_4; cbn in H; lia..].
Qed.

Lemma image_other ea mem base ea' b :
  b + FILL_SIZE ≤ base ∨ base + FILL_SIZE ≤ b → ring_image ea N (mapped mem b) → ring_image ea N (mapped (fill_mem mem base ea') b).
Proof.
  intros Hd (Hl & Hq & Hc).
  assert (H : ∀ a, 0 ≤ a → a + 4 ≤ FILL_SIZE → mapped (fill_mem mem base ea') b a = mapped mem b a) by (intros; apply fill_other; lia).
  change FILL_SIZE with 152 in *. split_and!.
  - intros i x Hi. rewrite H; [by apply Hl|lia|]. apply lookup_lt_Some in Hi. cbn in Hi. lia.
  - rewrite <- Hq. unfold quad_at. by rewrite !H by (vm_compute; done).
  - rewrite <- Hc. cbn. by rewrite !H by (vm_compute; done).
Qed.

(** ** All local stores *)

(** The signal notification register of context [i]. *)
Definition signal_addr (ts : list spe_thread) (i : nat) : Z := from_option psmap 0 (ts !! i) + PSMAP_SIGNAL1_OFFSET.

(** What [mmap] gives: areas of 64 bit addresses that do not overlap, on page
    boundaries. *)
Record well_mapped (ts : list spe_thread) : Prop := {
  wm_psmap : ∀ i t, ts !! i = Some t → 0 ≤ psmap t ∧ psmap t + PSMAP_SIZE ≤ 2 ^ 64 ∧ psmap t mod 4096 = 0;
  wm_psmaps : ∀ i j t u, ts !! i = Some t → ts !! j = Some u → i ≠ j → psmap t ≠ psmap u;
  wm_lsmaps : ∀ i j t u, ts !! i = Some t → ts !! j = Some u → i ≠ j →
    lsmap t + LS_SIZE ≤ lsmap u ∨ lsmap u + LS_SIZE ≤ lsmap t;
}.

Definition filled_ls (ts : list spe_thread) (mem : Z → Z) (i : nat) : Prop :=
  ∀ t, ts !! i = Some t → ring_image (signal_addr ts (S i mod length ts)) N (mapped mem (lsmap t)).

Lemma fill_ls_inl ts n i w u w1 :
  fill_ls N ts n i w = (inl u, w1) → ∃ t next, ts !! Z.to_nat i = Some t ∧ 0 ≤ i ∧ ts !! Z.to_nat (Z.rem (i + 1) n) = Some next ∧
    stored (log w1) = fill_mem (stored (log w)) (lsmap t) (wrapu 64 (psmap next + PSMAP_SIGNAL1_OFFSET)).
Proof.
  unfold fill_ls. intros (t & ? & (Hi & Ht & ->)%thread_at_inl & H)%bind_inl.
  apply bind_inl in H as (next & ? & (_ & Hn & ->)%thread_at_inl & H). exists t, next. split_and!; [done..|].
  apply bind_inl in H as ([] & ? & H1%store_ls_inl & H). apply bind_inl in H as ([] & ? & H2%store_ls_inl & H).
  apply bind_inl in H as ([] & ? & H3%store_ls_inl & H4%store_ls_inl). unfold fill_mem. by rewrite H4, H3, H2, H1.
Qed.

Lemma rem_next n i : (i < n)%nat → Z.to_nat (Z.rem (Z.of_nat i + 1) (Z.of_nat n)) = (S i mod n)%nat.
Proof.
  intros H. rewrite Z.rem_mod_nonneg by lia. replace (Z.of_nat i + 1) with (Z.of_nat (S i)) by lia.
  by rewrite <- Nat2Z.inj_mod, Nat2Z.id.
Qed.

Lemma fill_all ts l w u w1 :
  0 ≤ N < 2 ^ 32 → well_mapped ts → Forall (λ i, 0 ≤ i < Z.of_nat (length ts)) l →
  for_each l (fill_ls N ts (Z.of_nat (length ts))) w = (inl u, w1) →
  ∀ i, filled_ls ts (stored (log w)) i ∨ Z.of_nat i ∈ l → filled_ls ts (stored (log w1)) i.
Proof.
  intros HN Hwm Hl. revert w. induction Hl as [|x l Hx Hl IH]; intros w; cbn [for_each].
  - intros [= _ <-] i [H|H]; [done|by apply elem_of_nil in H].
  - intros ([] & w2 & H1 & H2)%bind_inl i Hi. apply (IH _ H2 i).
    apply fill_ls_inl in H1 as (t & next & Ht & _ & Hn & Hst). rewrite <- (Z2Nat.id x), rem_next in Hn by lia.
    destruct (decide (Z.to_nat x = i)) as [<-|Hne].
    + left. intros t' Ht'. rewrite Ht in Ht'. injection Ht' as <-. rewrite Hst.
      destruct (wm_psmap _ Hwm _ _ Hn) as (H0 & Hsz & _). unfold PSMAP_SIZE in Hsz. unfold signal_addr. rewrite Hn. cbn [from_option].
      rewrite wrapu_small by (unfold PSMAP_SIGNAL1_OFFSET; lia). apply fill_image; [done|]. unfold PSMAP_SIGNAL1_OFFSET. lia.
    + destruct Hi as [Hi|Hi]; [left|right; by apply elem_of_cons in Hi as [Hi|Hi]; [lia|]].
      intros t' Ht'. rewrite Hst. apply image_other; [|by apply Hi].
      destruct (wm_lsmaps _ Hwm _ _ _ _ Ht Ht' Hne) as [H|H]; change FILL_SIZE with 152; unfold LS_SIZE in H; lia.
Qed.

(** [create_gang] up to its success. *)
Lemma create_gang_filled name n w g w1 :
  create_gang kernel strerror N name (Z.of_nat n) w = (inl g, w1) → (0 < n)%nat → 0 ≤ N < 2 ^ 32 → well_mapped (threads g) →
  length (threads g) = n ∧ (1 < n)%nat ∧ ∀ i, (i < n)%nat → filled_ls (threads g) (stored (log w1)) i.
Proof.
  intros H Hn HN Hwm. unfold create_gang in H. apply bind_inl in H as (a & w2 & H1 & H).
  apply bind_inl in H as (fd & w3 & H2 & H). apply bind_inl in H as ([] & w4 & H3 & H).
  apply bind_inl in H as (ts & w5 & H4 & H). apply bind_inl in H as ([] & w6 & H5 & H).
  apply bind_inl in H as ([] & w7 & H6 & [= <- <-]). cbn [threads] in *.
  apply setup_threads_length in H4 as [Hl H1l].
  assert (Hne : seqZ 0 (Z.of_nat n) ≠ []) by (intros E; apply (f_equal length) in E; rewrite length_seqZ in E; cbn in E; lia).
  specialize (H1l Hne). destruct (a_rc a =? 0); [cbn in H1l; lia|]. rewrite length_replicate, Nat2Z.id in *.
  split; [done|]. split; [done|]. intros i Hi.
  erewrite (keeps_for_each _ _ (λ _, keeps_start_thread)) by exact H6. rewrite <- Hl in H5.
  eapply fill_all; [done|done| |exact H5|].
  - rewrite Hl. apply Forall_forall. intros x Hx%elem_of_seqZ. lia.
  - right. apply elem_of_seqZ. lia.
Qed.
End start.

(** ** The rings *)

(** The SPEs of a gang before their threads run, when the process has stored [mem]. *)
Definition gang_start (mem : Z → Z) (g : spe_gang) (s : ring) : Prop :=
  kicked s = false ∧ length (nodes s) = length (threads g) ∧
  ∀ i t nd, threads g !! i = Some t → nodes s !! i = Some nd → sleeping (mapped mem (lsmap t)) nd.

Definition ring_done (word : Z) (s : ring) : Prop :=
  all_ended 0x1337 s ∧ ∃ nd, nodes s !! 0%nat = Some nd ∧ n_sig nd = Some (wrapu 32 word).

(** C17 [dual_ring_circulates]: once [create_gang] has succeeded, [run_gang] stores one
    word, and whatever the order in which the threads, the SPEs, their MFCs and that
    first signal move, every run of the ring comes to an end: all SPEs stop as their
    threads expect, and the word that is left has been incremented ITERATIONS times
    by each. *)
Theorem dual_ring_circulates kernel strerror N name n w g w1 s :
  create_gang kernel strerror N name (Z.of_nat n) w = (inl g, w1) → (0 < n)%nat → 1 ≤ N < 2 ^ 32 →
  well_mapped (threads g) → gang_start (stored (log w1)) g s →
  ∃ w2 addr word, run_gang g w1 = (inl tt, w2) ∧ log w2 = (m_store addr (be_bytes 4 word), no_answer) :: log w1 ∧
    inevitably (ring_step (signal_addr (threads g)) addr word) (ring_done (Z.of_nat n * N)) s.
Proof.
  intros Hg Hn HN Hwm (Hk & Hl & Hs). destruct (create_gang_filled _ _ _ _ _ _ _ _ Hg Hn ltac:(lia) Hwm) as (Hlen & _ & Hf).
  assert (Hat : ∀ i, (i < n)%nat → ∃ t, threads g !! i = Some t ∧ signal_addr (threads g) i = psmap t + PSMAP_SIGNAL1_OFFSET).
  { intros i Hi. destruct (lookup_lt_is_Some_2 (threads g) i ltac:(lia)) as [t Ht]. exists t. split; [done|]. unfold signal_addr. by rewrite Ht. }
  assert (Hinj : ∀ i j, (i < n)%nat → (j < n)%nat → signal_addr (threads g) i = signal_addr (threads g) j → i = j).
  { intros i j Hi Hj E. destruct (Hat i Hi) as (t & Ht & Et), (Hat j Hj) as (u & Hu & Eu). destruct (decide (i = j)); [done|].
    destruct (wm_psmaps _ Hwm _ _ _ _ Ht Hu); [done|lia]. }
  assert (Hok : ∀ i, (i < n)%nat → 0 ≤ signal_addr (threads g) i < 2 ^ 64 ∧ signal_addr (threads g) i mod 16 = 0xc).
  { intros i Hi. destruct (Hat i Hi) as (t & Ht & ->). destruct (wm_psmap _ Hwm _ _ Ht) as (H0 & Hsz & Hp).
    unfold PSMAP_SIZE, PSMAP_SIGNAL1_OFFSET in *. split; [lia|]. Z.to_euclidean_division_equations. lia. }
  destruct (ring_inv_start (signal_addr (threads g)) N n (λ i, mapped (stored (log w1)) (from_option lsmap 0 (threads g !! i))) s)
    as [M HM]; [done|lia| |].
  - intros i nd Hi. pose proof (lookup_lt_Some _ _ _ Hi). destruct (Hat i ltac:(lia)) as (t & Ht & _). rewrite Ht. cbn [from_option].
    split; [by eapply Hs|]. unfold target_addr, next. rewrite <- Hlen. by apply Hf; [lia|].
  - destruct (Hat 0%nat Hn) as (t & Ht & Et). eexists _, (signal_addr (threads g) 0), 0. split; [|split].
    + assert (thread_at (threads g) 0 = mret t) as E.
      { unfold thread_at. change (Z.to_nat 0) with 0%nat. by rewrite Ht. }
      unfold run_gang. rewrite E. reflexivity.
    + by rewrite Et.
    + by eapply (ring_ends (signal_addr (threads g)) N n HN Hn Hinj Hok), HM.
Qed.

(** *** A kernel with two SPEs *)

(** Each map has its own address: the files of the contexts are numbered by the log. *)
Definition gang_kernel (l : list event) (c : call) : ans :=
  match c with
  | c_mmap _ _ _ _ _ => dma_answer (0x20000000 + 0x100000 * Z.of_nat (length l)) []
  | c_pthread_create => dma_answer 0 []
  | _ => dma_answer 3 []
  end.

Definition gang_run : (spe_gang + SysProg.stop) * world :=
  create_gang gang_kernel (λ _, []) 0x1000000 (lit "/spu/01-dual-ring.0") (Z.of_nat 2) (World [] 0 0 []).

Definition gang_of : spe_gang := match gang_run.1 with inl g => g | inr _ => SpeGang 0 0 [] end.

Lemma gang_run_eq :
  create_gang gang_kernel (λ _, []) 0x1000000 (lit "/spu/01-dual-ring.0") (Z.of_nat 2) (World [] 0 0 []) = (inl gang_of, gang_run.2).
Proof. vm_compute. reflexivity. Qed.

Lemma two_threads : threads gang_of = [SpeThread 3 0x20400000 0x20700000; SpeThread 3 0x20B00000 0x20E00000].
Proof. vm_compute. reflexivity. Qed.

Lemma gang_mapped : well_mapped (threads gang_of).
Proof.
  rewrite two_threads. split.
  - intros [|[|i]] t H; [injection H as <-..|done]; by vm_compute.
  - intros [|[|i]] [|[|j]] t u Ht Hu Hij; try done; injection Ht as <-; injection Hu as <-; by vm_compute.
  - intros [|[|i]] [|[|j]] t u Ht Hu Hij; try done; injection Ht as <-; injection Hu as <-; unfold LS_SIZE; cbn [lsmap]; lia.
Qed.

(** The contexts of a gang with clear registers. *)
Definition asleep_ring (mem : Z → Z) (g : spe_gang) : ring :=
  Ring (map (λ t, Node (reset (mapped mem (lsmap t)) 0) idle_mfc None Asleep) (threads g)) false.

Lemma asleep_ring_start mem g : gang_start mem g (asleep_ring mem g).
Proof.
  split; [done|]. split; [apply length_map|]. intros i t nd Ht Hn.
  cbn [asleep_ring nodes] in Hn. rewrite list_lookup_fmap, Ht in Hn. by injection Hn as <-.
Qed.

Lemma dual_ring_circulates_witness :
  create_gang gang_kernel (λ _, []) 0x1000000 (lit "/spu/01-dual-ring.0") (Z.of_nat 2) (World [] 0 0 []) = (inl gang_of, gang_run.2) ∧
  ∃ w2 addr word, run_gang gang_of gang_run.2 = (inl tt, w2) ∧
    log w2 = (m_store addr (be_bytes 4 word), no_answer) :: log gang_run.2 ∧
    inevitably (ring_step (signal_addr (threads gang_of)) addr word) (ring_done (Z.of_nat 2 * 0x1000000))
      (asleep_ring (stored (log gang_run.2)) gang_of).
Proof.
  split; [exact gang_run_eq|].
  apply (dual_ring_circulates gang_kernel (λ _, []) 0x1000000 (lit "/spu/01-dual-ring.0") 2 (World [] 0 0 []) gang_of gang_run.2);
    [exact gang_run_eq|lia|lia|exact gang_mapped|apply asleep_ring_start].
Defined.

(** ** How many SPEs there must be *)

Section two.
Context (kernel : list event → call → ans) (strerror : Z → bytes) (N : Z).

(** Programs that do not return success from [main]. *)
Definition unsuccessful {A} (m : P A) : Prop := ∀ w w1, m w ≠ (inr (Returned EXIT_SUCCESS), w1).

Lemma unsuccessful_ret {A} (a : A) : unsuccessful (mret a).
Proof. by intros w w1 [=]. Qed.

Lemma unsuccessful_leave {A} s : s ≠ Returned EXIT_SUCCESS → unsuccessful (@leave A s).
Proof. intros Hs w w1 [= -> _]. by destruct Hs. Qed.

Lemma unsuccessful_bind {A B} (m : P A) (f : A → P B) : unsuccessful m → (∀ a, unsuccessful (f a)) → unsuccessful (m ≫= f).
Proof.
  intros Hm Hf w w1. unfold mbind, P_bind. destruct (m w) as [[a|s] w2] eqn:E; [apply Hf|]. intros [= -> ->]. by apply Hm in E.
Qed.

Lemma unsuccessful_total {A} (m : P A) : (∀ w, ∃ a w1, m w = (inl a, w1)) → unsuccessful m.
Proof. intros H w w1 E. destruct (H w) as (a & w2 & Ha). congruence. Qed.

Ltac unsuccessful_tac :=
  repeat lazymatch goal with
  | |- unsuccessful (mbind _ _) => apply unsuccessful_bind; [|intros ?]
  | |- unsuccessful (mret _) => apply unsuccessful_ret
  | |- unsuccessful (leave _) => apply unsuccessful_leave; discriminate
  | |- unsuccessful (match ?x with _ => _ end) => destruct x
  | |- _ => apply unsuccessful_total; intros ?; by eexists _, _
  end.

Lemma fail_if_unsuccessful b s : unsuccessful (fail_if strerror b s).
Proof. unfold fail_if, perror, return_main. unsuccessful_tac. Qed.

Lemma thread_at_unsuccessful ts i : unsuccessful (thread_at ts i).
Proof. unfold thread_at. unsuccessful_tac. Qed.

Lemma sprintf_unsuccessful s : unsuccessful (sprintf_40 s).
Proof. unfold sprintf_40. unsuccessful_tac. Qed.

Lemma assert_unsuccessful b : unsuccessful (assert b).
Proof. unfold assert. unsuccessful_tac. Qed.

Lemma for_each_unsuccessful {A} (l : list A) f : (∀ x, unsuccessful (f x)) → unsuccessful (for_each l f).
Proof. intros Hf. induction l as [|x l IH]; cbn [for_each]; unsuccessful_tac; [apply Hf|apply IH]. Qed.

Lemma setup_thread_unsuccessful g ts i : unsuccessful (setup_thread kernel strerror g ts i).
Proof.
  unfold setup_thread, set_thread, maps_file.
  repeat first [apply fail_if_unsuccessful|apply thread_at_unsuccessful|apply sprintf_unsuccessful|apply assert_unsuccessful|progress unsuccessful_tac].
Qed.

Lemma setup_threads_unsuccessful g ts l : unsuccessful (setup_threads kernel strerror g ts l).
Proof.
  revert ts. induction l as [|i l IH]; intros ts; cbn [setup_threads]; unsuccessful_tac; [apply setup_thread_unsuccessful|apply IH].
Qed.

Lemma create_gang_unsuccessful name n : unsuccessful (create_gang kernel strerror N name n).
Proof.
  unfold create_gang, fill_ls, start_thread.
  repeat first [apply fail_if_unsuccessful|apply thread_at_unsuccessful|apply setup_threads_unsuccessful
    |apply for_each_unsuccessful; intros ?|progress unsuccessful_tac].
Qed.

Lemma create_gangs_unsuccessful n l : unsuccessful (create_gangs kernel strerror N n l).
Proof.
  induction l as [|i l IH]; cbn [create_gangs]; unsuccessful_tac; [apply sprintf_unsuccessful|apply create_gang_unsuccessful|apply IH].
Qed.

(** A gang that has been created has at least two threads, or none. *)
Lemma create_gang_threads name n w g w1 :
  create_gang kernel strerror N name n w = (inl g, w1) → 2 ≤ n ∨ threads g = [].
Proof.
  intros H. destruct (Z.le_gt_cases n 0) as [Hn|Hn].
  - right. unfold create_gang in H. apply bind_inl in H as (a & w2 & H1 & H).
    apply bind_inl in H as (fd & w3 & H2 & H). apply bind_inl in H as ([] & w4 & H3 & H).
    apply bind_inl in H as (ts & w5 & H4 & H). apply bind_inl in H as ([] & w6 & H5 & H).
    apply bind_inl in H as ([] & w7 & H6 & [= <- <-]). cbn [threads]. rewrite seqZ_nil in H4 by lia. injection H4 as <- _.
    replace (Z.to_nat n) with 0%nat by lia. by destruct (a_rc a =? 0).
  - left. unfold create_gang in H. apply bind_inl in H as (a & w2 & H1 & H).
    apply bind_inl in H as (fd & w3 & H2 & H). apply bind_inl in H as ([] & w4 & H3 & H).
    apply bind_inl in H as (ts & w5 & H4 & H). apply setup_threads_length in H4 as [_ Hl].
    destruct (a_rc a =? 0); [cbn [length] in Hl; rewrite seqZ_cons in Hl by done; by specialize (Hl ltac:(done)); lia|].
    rewrite length_replicate, seqZ_cons in Hl by done. specialize (Hl ltac:(done)). lia.
Qed.

(** [dual_ring_two_spes]: the benchmark can only succeed where there are at least two
    SPEs: with one the check of the second map reads past the array, and with none
    the first signal does. *)
Theorem dual_ring_two_spes w w1 :
  execute (dual_ring kernel strerror N) w = (Returned EXIT_SUCCESS, w1) →
  2 ≤ wraps 32 (st_nlink (a_stat (kernel (log w) (c_stat (lit "/sys/devices/system/spu")))) - 2).
Proof.
  intros H. unfold execute in H. destruct (dual_ring kernel strerror N w) as [[rc|st] w2] eqn:E.
  - unfold dual_ring in E. apply bind_inl in E as (n & w3 & H1 & E). apply bind_inl in E as (gs & w4 & H2 & E).
    unfold count_spes in H1. apply bind_inl in H1 as (a & w5 & [= <- <-] & H1). apply bind_inl in H1 as ([] & w6 & _ & [= <- _]).
    apply bind_inl in E as (tv & w7 & _ & E). apply bind_inl in E as ([] & w8 & E & _).
    change (seqZ 0 NR_GANGS) with [0; 1] in H2. cbn [create_gangs] in H2. apply bind_inl in H2 as (name & w9 & _ & H2).
    apply bind_inl in H2 as (g & w10 & Hg & H2). apply bind_inl in H2 as (gs' & w11 & _ & [= <- _]).
    apply create_gang_threads in Hg as [?|Hg]; [done|]. cbn [for_each] in E. unfold run_gang in E.
    apply bind_inl in E as ([] & w12 & E & _). apply bind_inl in E as (t & w13 & (_ & Ht & _)%thread_at_inl & _). by rewrite Hg in Ht.
  - injection H as -> ->. exfalso. revert E. unfold dual_ring. assert (Hc : ∀ l : list spe_gang, unsuccessful (for_each l run_gang)).
    { intros l. apply for_each_unsuccessful. intros g. unfold run_gang. unsuccessful_tac. apply thread_at_unsuccessful. }
    assert (Hj : ∀ k, unsuccessful (join_threads kernel k)) by (intros k; induction k; cbn [join_threads]; unsuccessful_tac; done).
    assert (Hw : ∀ l : list spe_gang, unsuccessful (for_each l (λ g, _ ← wait_for_gang_completion kernel g; mret tt))).
    { intros l. apply for_each_unsuccessful. intros g. unsuccessful_tac. apply Hj. }
    match goal with |- ?m w = _ → _ => cut (unsuccessful m); [intros Hu E; by apply Hu in E|] end.
    unfold count_spes. repeat first [apply Hc|apply Hw|apply create_gangs_unsuccessful|apply assert_unsuccessful|progress unsuccessful_tac].
Qed.
End two.
