(* ===== verification/ConsumeAll.v ===== *)
(** * Two processes on all SPEs (tests/04-context)

    01-create and 02-create-destroy call libspe2, whose answers are given.  In
    03-consume-all a process and its child create a context for each SPE and run a
    loop on it until they write a word into its local store; the child begins when
    the parent has started its contexts.  The two share a pipe and nothing else:
    each is the program below, with its own answer to [fork]. *)

From stdpp Require Import relations.
From S2P Require Import Prelude Runs CString SysProg SpuTests SpuIsa SpuCode Threads.

Local Open Scope Z_scope.

(** ** 01 and 02 *)

Section libspe2.
Context (kernel : list event → call → ans) (strerror : Z → bytes).

#[local] Abbreviation sys_rc := (SysProg.sys_rc kernel).
#[local] Abbreviation fail_if := (SpuTests.fail_if strerror).

(** The contexts of libspe2 by their addresses; 0 is NULL. *)
Definition context_01_create : P Z :=
  ctx ← sys_rc (c_spe_context_create 0);
  fail_if (ctx =? 0) (lit "spe_context_create");; mret EXIT_SUCCESS.

Definition context_02_create_destroy : P Z :=
  ctx ← sys_rc (c_spe_context_create 0);
  fail_if (ctx =? 0) (lit "spe_context_create");;
  rc ← sys_rc (c_spe_context_destroy ctx);
  fail_if (negb (rc =? 0)) (lit "spe_context_destroy");; mret EXIT_SUCCESS.
End libspe2.

(** ** 03 *)

Definition consume_program : list Z := [0; 0; 0; 0; 0x30800000; 0x7c000000; 0x217fff00; 0x00001337].

Inductive consume_var := consume_run_rc (i : Z).

#[global] Instance consume_var_eq_dec : EqDecision consume_var.
Proof. solve_decision. Defined.

(** The two loops of [main]: the array, the number of contexts, the result of
    [fork]. *)
Inductive consume_loop := starting (threads n pid i : Z) | stopping (n i : Z).

Definition consume_thread : Type := thread consume_var consume_loop.

Definition SIZEOF_INFO : Z := 24.

Section consume.
Context (strerror : Z → bytes) (fd0 fd1 : Z).

(** Words of the local store of context [c]. *)
Fixpoint pokes_at (c : nat) (stores : list (Z * Z)) (k : consume_thread) : consume_thread :=
  match stores with [] => k | (i, v) :: r => Poke c (4 * i) v (pokes_at c r k) end.

Definition consume_ran (i : Z) (a : ans) : consume_thread :=
  let rc := wraps 32 (a_rc a) in
  Put (consume_run_rc i) rc
    (if rc <? 0 then Print (lit "spu_run: " ++ strerror (a_errno a) ++ [newline_c]) Done else Done).

Definition consume_spe_thread (i : Z) : consume_thread := Run (Z.to_nat i) 0x10 (consume_ran i).

Section loop.
Context (arr n pid : Z).

Definition starts_consumer (i : Z) : consume_thread :=
  Start (consume_spe_thread i) (λ a, asserted (a_rc a =? 0) (Goto (starting arr n pid (i + 1)))).

Definition consume_stores : list (Z * Z) := imap (λ i w, (Z.of_nat i, w)) consume_program.

Definition fills_consumer (i : Z) : consume_thread := pokes_at (Z.to_nat i) consume_stores (starts_consumer i).

Definition closes_consumer (fd i : Z) : consume_thread := Call (c_close fd) (λ _, fills_consumer i).

Definition maps_consumer (fd i : Z) : consume_thread :=
  Call (c_mmap LS_SIZE 3 1 fd 0) (λ a, asserted (negb (a_rc a =? -1)) (closes_consumer fd i)).

Definition opens_consumer (ctx i : Z) : consume_thread :=
  Call (c_openat ctx (lit "mem") O_RDWR) (λ a, asserted (0 <=? a_rc a) (maps_consumer (a_rc a) i)).

Definition consumer_name (i : Z) : bytes := lit "/spu/ctx-" ++ fmt_d pid ++ lit "-" ++ fmt_d i.

(** [sprintf] into [char name[32]]; the array is not checked for NULL. *)
Definition creates_consumer (i : Z) : consume_thread :=
  if negb (Z.of_nat (length (consumer_name i)) + 1 <=? 32) then Undef
  else Call (SYS_spu_create (Some (consumer_name i)) 0 0x1ED None) (λ a,
    let ctx := wraps 32 (a_rc a) in
    if arr =? 0 then Undef else asserted (0 <=? ctx) (opens_consumer ctx i)).

(** The parent lets the child begin. *)
Definition lets_child : consume_thread :=
  if negb (pid =? 0) then Call (c_write fd1 (lit "a")) (λ _, Goto (stopping n 0)) else Goto (stopping n 0).
End loop.

Definition joins_consumer (n i : Z) : consume_thread := Wait (S (Z.to_nat i)) (Goto (stopping n (i + 1))).

(** [memset(threads[i].ls_map, 0xff, 0x10)] *)
Definition ones_stores : list (Z * Z) := map (λ i, (i, 0xFFFFFFFF)) [0; 1; 2; 3].

Definition frees_consumer (n i : Z) : consume_thread := pokes_at (Z.to_nat i) ones_stores (joins_consumer n i).

Definition consume_code (l : consume_loop) : consume_thread :=
  match l with
  | starting arr n pid i => if i <? n then creates_consumer arr n pid i else lets_child n pid
  | stopping n i => if i <? n then frees_consumer n i else Return EXIT_SUCCESS
  end.

(** After [fork], in both processes. *)
Definition forked (arr n pid : Z) : consume_thread :=
  asserted (0 <=? pid)
    (if pid =? 0 then Call (c_read fd0 1) (λ _, Goto (starting arr n pid 0)) else Goto (starting arr n pid 0)).

Definition forks_consumer (arr n : Z) : consume_thread := Call c_fork (λ a, forked arr n (wraps 32 (a_rc a))).
Definition pipes_consumer (arr n : Z) : consume_thread := Call c_pipe (λ a, asserted (a_rc a =? 0) (forks_consumer arr n)).
Definition allocs_consumer (n : Z) : consume_thread :=
  Call (c_calloc (wrapu 64 n) SIZEOF_INFO) (λ a, pipes_consumer (a_rc a) n).

Definition context_03_consume_all : consume_thread :=
  Call (c_stat (lit "/sys/devices/system/spu")) (λ a,
    asserted (a_rc a =? 0) (allocs_consumer (wraps 32 (st_nlink (a_stat a) - 2)))).
End consume.

(** A kernel that does what it is asked, apart from the runs, which may fail. *)
Definition consume_answers (r : request) (a : ans) : Prop :=
  match r with
  | r_call (c_stat _) => a_rc a = 0
  | r_call (c_calloc _ _) => a_rc a ≠ 0
  | r_call c_fork => 0 ≤ wraps 32 (a_rc a)
  | r_call (c_read _ _) => True
  | r_run => True
  | _ => answers_ok r a
  end.

#[global] Instance consume_answers_dec r a : Decision (consume_answers r a).
Proof. destruct r as [c| | | |]; [destruct c|..]; cbn [consume_answers]; apply _. Defined.

(** *** The loop of the SPE *)

Definition consume_listing : list insn := [lqa 0 0; ceqi 0 0 0; brnz 0 (-8); stop 0x1337].

(** Somewhere in the loop; how far from the stop when the first word is not 0. *)
Definition looping (m : spu) : Prop :=
  listed (ls m) 0x10 consume_listing ∧ (pc m = 0x10 ∨ pc m = 0x14 ∨ pc m = 0x18 ∨ pc m = 0x1c).

Definition distance (m : spu) : Z :=
  if pc m =? 0x10 then 4
  else if pc m =? 0x14 then (if q0 (regs m 0) =? 0 then 6 else 3)
  else if pc m =? 0x18 then (if q0 (regs m 0) =? 0 then 2 else 5)
  else 1.

Lemma looping_step m :
  looping m →
  (∃ m', spu_step m = Next m' ∧ looping m' ∧ ls m' = ls m ∧ (ls m 0 ≠ 0 → distance m' < distance m)) ∨
  (∃ m', spu_step m = Stopped 0x1337 m' ∧ ls m' = ls m).
Proof.
  destruct m as [r l p]. unfold looping, distance. cbn [regs ls pc]. intros [H [-> |[-> |[-> | ->]]]].
  - left. eexists. split; [erewrite step_exec by spu_decode H; reflexivity|]. cbn. split; [by auto|]. split; [done|].
    intros Hl. unfold update. cbn. change (ls_quad 0) with 0. by rewrite (proj2 (Z.eqb_neq _ _) Hl).
  - left. eexists. split; [erewrite step_exec by spu_decode H; reflexivity|]. cbn. split; [by auto|]. split; [done|].
    intros _. unfold update. cbn. change (wrapu 32 0) with 0. by destruct (q0 (r 0) =? 0).
  - left. destruct (q0 (r 0) =? 0) eqn:E; (eexists; split;
      [erewrite step_exec by spu_decode H; cbv [exec regs]; rewrite E; reflexivity|]);
      cbn; (split; [by auto|]); by split.
  - right. eexists. split; [by erewrite step_exec by spu_decode H|done].
Qed.

Lemma looping_ls m l : looping m → (∀ a, 0x10 ≤ a → l a = ls m a) → looping (set_ls l m).
Proof.
  intros [H Hp] Hl. split; [|exact Hp]. intros i x Hi. cbn [set_ls ls]. rewrite Hl by lia. by apply H.
Qed.

Lemma distance_bounds m : 1 ≤ distance m ≤ 6.
Proof. unfold distance. repeat case_match; lia. Qed.

(** *** Every process can come to its end *)

Section ends.
Context (strerror : Z → bytes) (fd0 fd1 : Z) {box : Type} `{!Mailbox box}.

#[local] Abbreviation system := (sys consume_var consume_loop box).
#[local] Abbreviation code := (consume_code strerror fd1).
#[local] Abbreviation step := (Threads.step code consume_answers).

Implicit Types (s : system) (e : spe box) (t w : consume_thread).

(** A thread with its context, and how much it has before it when its word is
    written. *)
Inductive worker_at e (c : nat) : consume_thread → Z → Prop :=
| k_runs : runner e = None → looping (set_pc 0x10 (machine e)) →
    worker_at e c (consume_spe_thread strerror (Z.of_nat c)) 20
| k_running : runner e = Some (S c) → looping (machine e) →
    worker_at e c (consume_spe_thread strerror (Z.of_nat c)) (10 + distance (machine e))
| k_ran a : runner e = None → worker_at e c (consume_ran strerror (Z.of_nat c) a) 3
| k_prints u : runner e = None → worker_at e c (Print u Done) 2
| k_done : runner e = None → worker_at e c Done 0.

Definition fill_ls (j : nat) : Z → Z :=
  fold_left (λ l (x : Z * Z), update l (4 * x.1) x.2) (take j consume_stores) empty_ls.

(** A context whose program has [j] words. *)
Definition filling (j : nat) e : Prop := runner e = None ∧ ls (machine e) = fill_ls j.

Section main.
(** What the calls before the loops have answered. *)
Context (arr n pid : Z) (arr_ok : arr ≠ 0) (n_ok : n < 2 ^ 31) (pid_ok : 0 ≤ pid < 2 ^ 31).

#[local] Abbreviation N := (Z.to_nat n).
#[local] Abbreviation starts := (starts_consumer strerror arr n pid).

Definition left_at (k : nat) : Z := 20 * (Z.of_nat N - Z.of_nat k) + 40 * Z.of_nat N.
Definition left_to_join (z : nat) : Z := 40 * (Z.of_nat N - Z.of_nat z).

(** [main] with [k] threads, the contexts, how many have their word, which thread it
    waits for, and what is left. *)
Inductive main_at : consume_thread → list (spe box) → nat → nat → option nat → Z → Prop :=
| q_pipes : main_at (pipes_consumer fd0 arr n) [] 0 0 None (left_at 0 + 15)
| q_forks : main_at (forks_consumer fd0 arr n) [] 0 0 None (left_at 0 + 14)
| q_child : main_at (Call (c_read fd0 1) (λ _, Goto (starting arr n pid 0))) [] 0 0 None (left_at 0 + 13)
| q_starting k es : length es = k → (k ≤ N)%nat → main_at (Goto (starting arr n pid (Z.of_nat k))) es k 0 None (left_at k + 10)
| q_creates k es : length es = k → (k < N)%nat →
    main_at (creates_consumer strerror arr n pid (Z.of_nat k)) es k 0 None (left_at k + 9)
| q_opens k ctx es e : length es = S k → (k < N)%nat → es !! k = Some e → filling 0 e →
    main_at (opens_consumer strerror arr n pid ctx (Z.of_nat k)) es k 0 None (left_at k + 8)
| q_maps k fd es e : length es = S k → (k < N)%nat → es !! k = Some e → filling 0 e →
    main_at (maps_consumer strerror arr n pid fd (Z.of_nat k)) es k 0 None (left_at k + 7)
| q_closes k fd es e : length es = S k → (k < N)%nat → es !! k = Some e → filling 0 e →
    main_at (closes_consumer strerror arr n pid fd (Z.of_nat k)) es k 0 None (left_at k + 6)
| q_fills k j es e : length es = S k → (k < N)%nat → es !! k = Some e → filling j e → (j < 8)%nat →
    main_at (pokes_at k (drop j consume_stores) (starts (Z.of_nat k))) es k 0 None (left_at k + 5 - Z.of_nat j)
| q_starts k es e : length es = S k → (k < N)%nat → es !! k = Some e → filling 8 e →
    main_at (starts (Z.of_nat k)) es k 0 None (left_at k - 3)
| q_lets es : pid ≠ 0 → length es = N → main_at (lets_child fd1 n pid) es N 0 None (left_to_join 0 + 9)
| q_stopping z es : length es = N → (z ≤ N)%nat → main_at (Goto (stopping n (Z.of_nat z))) es N z None (left_to_join z + 8)
| q_frees z j es : length es = N → (z < N)%nat → (j < 4)%nat →
    main_at (pokes_at z (drop j ones_stores) (joins_consumer n (Z.of_nat z))) es N (if decide (j = 0%nat) then z else S z) None
      (left_to_join z + 7 - Z.of_nat j)
| q_joins z es : length es = N → (z < N)%nat → main_at (joins_consumer n (Z.of_nat z)) es N (S z) (Some z) (left_to_join z - 27)
| q_return es : length es = N → main_at (Return EXIT_SUCCESS) es N N None 1.

Lemma main_at_left t es k q wt μ : main_at t es k q wt μ → 0 ≤ μ.
Proof. destruct 1; unfold left_at, left_to_join; lia. Qed.
End main.

(** How much is left, with the thread that [main] waits for. *)
Definition measure (ws : list consume_thread) (es : list (spe box)) (wt : option nat) (μ M : Z) : Prop :=
  match wt with
  | None => M = μ
  | Some c => ∃ w e m, ws !! c = Some w ∧ es !! c = Some e ∧ worker_at e c w m ∧ M = μ + m
  end.

Record working (arr n pid : Z) s t ws (k q : nat) (wt : option nat) (μ M : Z) : Prop := {
  wk_threads : threads s = t :: ws;
  wk_ended : ended s = None;
  wk_started : length ws = k;
  wk_main : main_at arr n pid t (spes s) k q wt μ;
  wk_workers c w : ws !! c = Some w → ∃ e m, spes s !! c = Some e ∧ worker_at e c w m;
  wk_freed c e : (c < q)%nat → spes s !! c = Some e → ls (machine e) 0 ≠ 0;
  wk_idle c e : (k ≤ c)%nat → spes s !! c = Some e → runner e = None;
  wk_measure : measure ws (spes s) wt μ M;
}.

Inductive inv : Z → system → Prop :=
| inv_stat s : threads s = [context_03_consume_all fd0] → ended s = None → spes s = [] → inv (100 * 2 ^ 31) s
| inv_allocs s n : threads s = [allocs_consumer fd0 n] → ended s = None → spes s = [] → n < 2 ^ 31 →
    inv (left_at n 0 + 16) s
| inv_working s arr n pid t ws k q wt μ M : arr ≠ 0 → n < 2 ^ 31 → 0 ≤ pid < 2 ^ 31 → working arr n pid s t ws k q wt μ M → inv M s
| inv_over s : ended s = Some (Returned EXIT_SUCCESS) → inv 0 s.

Section run.
Context (arr n pid : Z) (arr_ok : arr ≠ 0) (n_ok : n < 2 ^ 31) (pid_ok : 0 ≤ pid < 2 ^ 31).

#[local] Abbreviation working := (working arr n pid).
#[local] Abbreviation main_at := (main_at arr n pid).
#[local] Abbreviation N := (Z.to_nat n).

(** *** [main] moves *)

Lemma main_goes s t ws k q wt μ M t' es' q' wt' μ' M' vs :
  working s t ws k q wt μ M → main_at t' es' k q' wt' μ' →
  (∀ c e, (c < k)%nat → spes s !! c = Some e → ∃ e', es' !! c = Some e' ∧ ∀ w m, worker_at e c w m → worker_at e' c w m) →
  (∀ c e, (c < q')%nat → es' !! c = Some e → ls (machine e) 0 ≠ 0) →
  (∀ c e, (k ≤ c)%nat → es' !! c = Some e → runner e = None) → measure ws es' wt' μ' M' →
  inv M' (Sys (<[0%nat:=t']> (threads s)) es' vs (ended s)).
Proof.
  intros [Ht He Hk Hm Hw Hf Hi _] Hm' Hes Hf' Hi' HM. apply (inv_working _ arr n pid t' ws k q' wt' μ'); [done..|].
  split; cbn [threads spes ended]; try done; [by rewrite Ht|].
  intros c w Hc. destruct (Hw c w Hc) as (e & m & Hce & Hwe).
  destruct (Hes c e ltac:(rewrite <- Hk; by eapply lookup_lt_Some) Hce) as (e' & He' & Hkeep). eauto.
Qed.

(** The contexts stay. *)
Lemma main_moves s t ws k q wt μ M t' q' μ' vs :
  working s t ws k q wt μ M → main_at t' (spes s) k q' None μ' → (q' ≤ q)%nat → μ' < M →
  ∃ M', M' < M ∧ inv M' (Sys (<[0%nat:=t']> (threads s)) (spes s) vs (ended s)).
Proof.
  intros H Hm Hq Hlt. exists μ'. split; [done|]. eapply main_goes; [exact H|exact Hm| | | |done].
  - intros c e _ Hc. by exists e.
  - intros c e Hc. apply (wk_freed _ _ _ _ _ _ _ _ _ _ _ H). lia.
  - apply H.
Qed.

(** A word of a context that has no thread, *)
Lemma main_fills s t ws q wt μ M t' k e l μ' :
  working s t ws k q wt μ M → q = 0%nat → spes s !! k = Some e →
  main_at t' (<[k:=set_machine (set_ls l (machine e)) e]> (spes s)) k 0 None μ' → μ' < M →
  ∃ M', M' < M ∧ inv M' (go 0 t' (set_spe k (set_machine (set_ls l (machine e)) e) s)).
Proof.
  intros H -> Hk Hm Hlt. exists μ'. split; [done|]. unfold go, set_spe. cbn [threads spes vars ended].
  eapply main_goes; [exact H|exact Hm| |lia| |done].
  - intros c e' Hc Hce. exists e'. rewrite list_lookup_insert_ne by lia. by split.
  - intros c e' Hc [(-> & <- & _)|[_ Hce]]%list_lookup_insert_Some; [exact (wk_idle _ _ _ _ _ _ _ _ _ _ _ H _ _ Hc Hk)|].
    by apply (wk_idle _ _ _ _ _ _ _ _ _ _ _ H _ _ Hc).
Qed.

Lemma worker_poked e c a x w m :
  a < 0x10 → worker_at e c w m → worker_at (set_machine (set_ls (update (ls (machine e)) a x) (machine e)) e) c w m.
Proof.
  intros Ha Hw. assert (∀ b, 0x10 ≤ b → update (ls (machine e)) a x b = ls (machine e) b) as Hl.
  { intros b Hb. unfold update. by rewrite (proj2 (Z.eqb_neq _ _)) by lia. }
  destruct Hw as [Hr Hl'|Hr Hl'|b Hr|u Hr|Hr].
  - apply k_runs; [done|]. by apply (looping_ls (set_pc 0x10 (machine e))).
  - refine (k_running (set_machine (set_ls (update (ls (machine e)) a x) (machine e)) e) c Hr _). by apply looping_ls.
  - by apply k_ran.
  - by apply k_prints.
  - by apply k_done.
Qed.

(** or of one whose thread runs. *)
Lemma main_frees s t ws k wt μ M t' z j e wt' μ' M' :
  working s t ws k (if decide (j = 0%nat) then z else S z) wt μ M → spes s !! z = Some e → (z < k)%nat → (j < 4)%nat →
  main_at t' (<[z:=set_machine (set_ls (update (ls (machine e)) (4 * Z.of_nat j) 0xFFFFFFFF) (machine e)) e]> (spes s)) k (S z) wt' μ' →
  measure ws (<[z:=set_machine (set_ls (update (ls (machine e)) (4 * Z.of_nat j) 0xFFFFFFFF) (machine e)) e]> (spes s)) wt' μ' M' →
  inv M' (go 0 t' (set_spe z (set_machine (set_ls (update (ls (machine e)) (4 * Z.of_nat j) 0xFFFFFFFF) (machine e)) e) s)).
Proof.
  intros H Hz Hlt Hj Hm HM. unfold go, set_spe. cbn [threads spes vars ended].
  eapply main_goes; [exact H|exact Hm| | | |exact HM].
  - intros c e' Hc Hce. destruct (decide (c = z)) as [->|].
    + rewrite Hz in Hce. injection Hce as <-. eexists. split; [apply list_lookup_insert_eq; by eapply lookup_lt_Some|].
      intros w m. apply worker_poked. lia.
    + exists e'. by rewrite list_lookup_insert_ne by done.
  - intros c e' Hc [(-> & <- & _)|[Hne Hce]]%list_lookup_insert_Some.
    + cbn. unfold update. destruct (Z.eqb_spec 0 (4 * Z.of_nat j)); [done|].
      apply (wk_freed _ _ _ _ _ _ _ _ _ _ _ H c e); [rewrite decide_False by lia; lia|done].
    + apply (wk_freed _ _ _ _ _ _ _ _ _ _ _ H c e'); [case_decide; lia|done].
  - intros c e' Hc [(<- & _)|[_ Hce]]%list_lookup_insert_Some; [lia|]. by apply (wk_idle _ _ _ _ _ _ _ _ _ _ _ H _ _ Hc).
Qed.

Lemma name_fits k : (k < N)%nat → Z.of_nat (length (consumer_name pid (Z.of_nat k))) + 1 <= 32.
Proof.
  intros Hk. unfold consumer_name. rewrite !length_app.
  pose proof (length_fmt_d pid pid_ok). pose proof (length_fmt_d (Z.of_nat k) ltac:(lia)). cbn [length lit]. change (length (lit "/spu/ctx-")) with 9%nat.
  change (length (lit "-")) with 1%nat. lia.
Qed.

Lemma drop_store j :
  (j < 8)%nat → ∃ x, drop j consume_stores = (Z.of_nat j, x) :: drop (S j) consume_stores ∧
    fill_ls (S j) = update (fill_ls j) (4 * Z.of_nat j) x.
Proof.
  intros Hj. destruct (lookup_lt_is_Some_2 consume_stores j) as [[i x] Hw]; [done|]. exists x.
  assert (i = Z.of_nat j) as -> by (do 8 (destruct j as [|j]; [by injection Hw as <- _|]); lia).
  split; [by apply drop_S|]. unfold fill_ls. by rewrite (take_S_r _ _ _ Hw), fold_left_app.
Qed.

Lemma drop_one j : (j < 4)%nat → drop j ones_stores = (Z.of_nat j, 0xFFFFFFFF) :: drop (S j) ones_stores.
Proof. intros Hj. do 4 (destruct j as [|j]; [reflexivity|]). lia. Qed.

(** Before the loops, and where one ends. *)
Ltac moves H := eapply (main_moves _ _ _ _ _ _ _ _ _ _ _ _ H).

(** A context is created. *)
Lemma creates_goes s t ws k q wt μ M ctx :
  working s t ws k q wt μ M → q = 0%nat → length (spes s) = k → (k < N)%nat → left_at n k + 8 < M →
  ∃ M', M' < M ∧ inv M' (Sys (<[0%nat:=opens_consumer strerror arr n pid ctx (Z.of_nat k)]> (threads s)) (spes s ++ [new_spe]) (vars s) (ended s)).
Proof.
  intros H -> Hk Hlt HM. exists (left_at n k + 8). split; [done|]. eapply (main_goes _ _ _ _ _ _ _ _ _ _ 0 None (left_at n k + 8)); [exact H| | |lia| |done].
  - apply (q_opens _ _ _ k ctx _ new_spe); [rewrite length_app; cbn; lia|done| |by split].
    rewrite lookup_app_r by lia. by rewrite Hk, Nat.sub_diag.
  - intros c e Hc Hce. exists e. split; [by apply lookup_app_l_Some|done].
  - intros c e Hc [Hce|[_ Hce]]%lookup_app_Some; [by apply (wk_idle _ _ _ _ _ _ _ _ _ _ _ H _ _ Hc)|].
    by apply list_lookup_singleton_Some in Hce as [_ <-].
Qed.

(** A word of its program is stored. *)
Lemma fills_goes s ws k j wt μ M s' e :
  working s (pokes_at k (drop j consume_stores) (starts_consumer strerror arr n pid (Z.of_nat k))) ws k 0 wt μ M →
  length (spes s) = S k → (k < N)%nat → spes s !! k = Some e → filling j e → (j < 8)%nat → left_at n k + 4 - Z.of_nat j < M →
  thread_step code consume_answers s 0 (pokes_at k (drop j consume_stores) (starts_consumer strerror arr n pid (Z.of_nat k))) s' →
  ∃ M', M' < M ∧ inv M' s'.
Proof.
  intros H Hl Hk He [Hr Hls] Hj HM Hs. destruct (drop_store j Hj) as (w & Hd & Hf). rewrite Hd in H, Hs. cbn [pokes_at] in H, Hs.
  apply poke_step in Hs as (e' & He' & ->). rewrite He in He'. injection He' as <-. rewrite Hls, <- Hf.
  assert (He' : <[k:=set_machine (set_ls (fill_ls (S j)) (machine e)) e]> (spes s) !! k = Some (set_machine (set_ls (fill_ls (S j)) (machine e)) e))
    by (apply list_lookup_insert_eq; by eapply lookup_lt_Some).
  assert (filling (S j) (set_machine (set_ls (fill_ls (S j)) (machine e)) e)) by by split.
  destruct (decide (j = 7%nat)) as [->|].
  - eapply (main_fills _ _ _ _ _ _ _ _ _ _ _ (left_at n k - 3) H); [done|done| |lia].
    eapply q_starts; [by rewrite length_insert|done|exact He'|done].
  - eapply (main_fills _ _ _ _ _ _ _ _ _ _ _ (left_at n k + 5 - Z.of_nat (S j)) H); [done|done| |lia].
    eapply q_fills; [by rewrite length_insert|done|exact He'|done|lia].
Qed.

(** Its thread is started. *)
Lemma starts_goes s ws k wt μ M s' e :
  working s (starts_consumer strerror arr n pid (Z.of_nat k)) ws k 0 wt μ M →
  length (spes s) = S k → (k < N)%nat → spes s !! k = Some e → filling 8 e → M = left_at n k - 3 →
  thread_step code consume_answers s 0 (starts_consumer strerror arr n pid (Z.of_nat k)) s' → ∃ M', M' < M ∧ inv M' s'.
Proof.
  intros H Hl Hk He [Hr Hls] -> Hs. apply start_step in Hs as (a & Hka & [[Ha ->]|[Ha _]]); [|done].
  rewrite Ha. cbn [asserted Z.eqb]. replace (Z.of_nat k + 1) with (Z.of_nat (S k)) by lia.
  destruct H as [Ht Hen Hst Hm Hw Hf Hi _]. exists (left_at n (S k) + 10). split; [unfold left_at; lia|].
  apply (inv_working _ arr n pid (Goto (starting arr n pid (Z.of_nat (S k)))) (ws ++ [consume_spe_thread strerror (Z.of_nat k)])
    (S k) 0 None (left_at n (S k) + 10)); [done..|].
  split; cbn [spawn go threads spes vars ended]; try done.
  - by rewrite Ht.
  - rewrite length_app. cbn. lia.
  - apply q_starting; [done|lia].
  - intros c w [Hc|[Hge Hc]]%lookup_app_Some; [by apply Hw|]. apply list_lookup_singleton_Some in Hc as [Hc <-].
    assert (c = k) as -> by lia. exists e, 20. split; [done|]. apply k_runs; [done|].
    split; [|by left]. cbn [set_pc ls]. rewrite Hls. intros i x Hx. do 4 (destruct i as [|i]; [injection Hx as <-; reflexivity|]). done.
  - intros c e' Hc Hce. apply lookup_lt_Some in Hce. lia.
Qed.

(** A word is written for the SPE. *)
Lemma frees_goes s ws z j wt μ M s' :
  working s (pokes_at z (drop j ones_stores) (joins_consumer n (Z.of_nat z))) ws N (if decide (j = 0%nat) then z else S z) wt μ M →
  length (spes s) = N → (z < N)%nat → (j < 4)%nat → M = left_to_join n z + 7 - Z.of_nat j →
  thread_step code consume_answers s 0 (pokes_at z (drop j ones_stores) (joins_consumer n (Z.of_nat z))) s' →
  ∃ M', M' < M ∧ inv M' s'.
Proof.
  intros H Hl Hz Hj -> Hs. rewrite (drop_one j Hj) in H, Hs. cbn [pokes_at] in H, Hs.
  apply poke_step in Hs as (e & He & ->). destruct (decide (j = 3%nat)) as [->|].
  - destruct (lookup_lt_is_Some_2 ws z) as [w Hw]; [by rewrite (wk_started _ _ _ _ _ _ _ _ _ _ _ H)|].
    destruct (wk_workers _ _ _ _ _ _ _ _ _ _ _ H z w Hw) as (e' & m & He' & Hwk). rewrite He in He'. injection He' as <-.
    pose proof (worker_poked e z (4 * Z.of_nat 3) 0xFFFFFFFF w m ltac:(lia) Hwk) as Hwk'.
    exists (left_to_join n z - 27 + m). split.
    { assert (m ≤ 20); [|lia]. clear -Hwk. destruct Hwk; try lia. pose proof (distance_bounds (machine e)). lia. }
    eapply (main_frees _ _ _ _ _ _ _ _ z 3 e (Some z) _ _ H); [done|lia|lia|apply q_joins; [by rewrite length_insert|done]|].
    eexists w, _, m. split; [done|]. split; [apply list_lookup_insert_eq; by eapply lookup_lt_Some|]. by split.
  - exists (left_to_join n z + 7 - Z.of_nat (S j)). split; [lia|].
    eapply (main_frees _ _ _ _ _ _ _ _ z j e None _ _ H); [done|lia|lia| |reflexivity].
    pose proof (q_frees arr n pid z (S j) (<[z:=set_machine (set_ls (update (ls (machine e)) (4 * Z.of_nat j) 0xFFFFFFFF) (machine e)) e]> (spes s)))
      as Hq. cbn [decide] in Hq. apply Hq; [by rewrite length_insert|done|lia].
Qed.

(** [main] with contexts that stay: the state after a call that is answered. *)
Lemma call_goes s ws k q wt μ M c f s' :
  working s (Call c f) ws k q wt μ M → (∀ a (st : system), effect c a st = st) →
  (∀ a, consume_answers (r_call c) a → ∃ q' μ', main_at (f a) (spes s) k q' None μ' ∧ (q' ≤ q)%nat ∧ μ' < M) →
  thread_step code consume_answers s 0 (Call c f) s' → ∃ M', M' < M ∧ inv M' s'.
Proof.
  intros H He HP Hs. apply call_step in Hs as (a & Hk & ->). rewrite He.
  destruct (HP a Hk) as (q' & μ' & Hm & Hq & Hlt). by eapply main_moves.
Qed.

(** The two processes after [fork]. *)
Lemma forks_goes s ws wt μ M s' :
  working s (forks_consumer fd0 arr n) ws 0 0 wt μ M → spes s = [] → left_at n 0 + 13 < M →
  thread_step code consume_answers s 0 (forks_consumer fd0 arr n) s' → ∃ M', M' < M ∧ inv M' s'.
Proof.
  intros [Ht He Hk _ _ _ _ _] Es HM Hs. apply call_step in Hs as (a & Hka & ->). cbn in Hka. destruct ws; [|done].
  set (pid' := wraps 32 (a_rc a)) in *. pose proof (wraps_range 32 (a_rc a) ltac:(lia)) as Hr. fold pid' in Hr. cbn in Hr.
  unfold forked, go. cbn [effect]. rewrite (proj2 (Z.leb_le _ _) Hka), Ht, Es. cbn [asserted].
  destruct (Z.eqb_spec pid' 0) as [E|E].
  - exists (left_at n 0 + 13). split; [done|]. apply (inv_working _ arr n pid' (Call (c_read fd0 1) (λ _, Goto (starting arr n pid' 0))) [] 0 0 None (left_at n 0 + 13)); [done|done|lia|].
    split; try done. by apply q_child.
  - exists (left_at n 0 + 10). split; [lia|]. apply (inv_working _ arr n pid' (Goto (starting arr n pid' 0)) [] 0 0 None (left_at n 0 + 10)); [done|done|lia|].
    split; try done. apply (q_starting arr n pid' 0); [done|lia].
Qed.

(** Before a loop, and at its head. *)
Lemma heads_go s l ws k q wt μ M s' :
  working s (Goto l) ws k q wt μ M →
  (∃ q' μ', main_at (code l) (spes s) k q' None μ' ∧ (q' ≤ q)%nat ∧ μ' < M) →
  thread_step code consume_answers s 0 (Goto l) s' → ∃ M', M' < M ∧ inv M' s'.
Proof. intros H (q' & μ' & Hm & Hq & Hlt) Hs. apply goto_step in Hs as ->. by eapply main_moves. Qed.

Ltac calls H Hs := eapply (call_goes _ _ _ _ _ _ _ _ _ _ H); [done| |exact Hs]; intros a Hka; cbn in Hka.
Ltac heads H Hs := eapply (heads_go _ _ _ _ _ _ _ _ _ H); [|exact Hs]; cbn [consume_code].
Ltac lands q' μ' := exists q', μ'; split; [cbn [asserted negb]; econstructor; eauto|split; [lia|]].

Lemma main_step s t ws k q wt μ M s' :
  working s t ws k q wt μ M → thread_step code consume_answers s 0 t s' → ∃ M', M' < M ∧ inv M' s'.
Proof.
  intros H Hs. pose proof (wk_main _ _ _ _ _ _ _ _ _ _ _ H) as Hm. pose proof (wk_measure _ _ _ _ _ _ _ _ _ _ _ H) as HM.
  remember (spes s) as es. destruct Hm as [| | |k es Hl Hk|k es Hl Hk|k ctx es e Hl Hk He Hf|k fd es e Hl Hk He Hf|k fd es e Hl Hk He Hf
    |k j es e Hl Hk He Hf Hj|k es e Hl Hk He Hf|es Hp Hl|z es Hl Hz|z j es Hl Hz Hj|z es Hl Hz|es Hl]; cbn [measure] in HM; subst.
  - calls H Hs. rewrite Hka, <- Heqes. exists 0%nat, (left_at n 0 + 14). split; [apply q_forks|lia].
  - eapply forks_goes; [exact H|done|lia|done].
  - calls H Hs. rewrite <- Heqes. exists 0%nat, (left_at n 0 + 10). split; [apply (q_starting arr n pid 0); [done|lia]|lia].
  - heads H Hs. destruct (Z.ltb_spec (Z.of_nat (length (spes s))) n).
    + exists 0%nat, (left_at n (length (spes s)) + 9). split; [apply q_creates; [done|lia]|lia].
    + assert (length (spes s) = N) as HN by lia. rewrite HN. destruct (decide (pid = 0)) as [Ep|Ep].
      * exists 0%nat, (left_to_join n 0 + 8). unfold lets_child. rewrite Ep at 2. cbn [negb Z.eqb].
        split; [apply (q_stopping arr n pid 0); [done|lia]|]. unfold left_at, left_to_join. lia.
      * exists 0%nat, (left_to_join n 0 + 9). split; [by apply q_lets|]. unfold left_at, left_to_join. lia.
  - unfold creates_consumer in H, Hs. rewrite (proj2 (Z.leb_le _ _) (name_fits _ Hk)) in H, Hs. cbn [negb] in H, Hs.
    apply call_step in Hs as (a & Hka & ->). cbn in Hka. cbn [effect]. rewrite (proj2 (Z.eqb_neq _ _) arr_ok), (proj2 (Z.leb_le _ _) Hka).
    cbn [asserted]. unfold go. cbn [threads spes vars ended]. eapply creates_goes; [exact H|done..|lia].
  - calls H Hs. rewrite (proj2 (Z.leb_le _ _)) by lia. lands 0%nat (left_at n k + 7). lia.
  - calls H Hs. rewrite (proj2 (Z.eqb_neq _ _) Hka). lands 0%nat (left_at n k + 6). lia.
  - calls H Hs. exists 0%nat, (left_at n k + 5). split; [|lia].
    replace (left_at n k + 5) with (left_at n k + 5 - Z.of_nat 0) by lia. unfold fills_consumer. rewrite Nat2Z.id.
    eapply (q_fills arr n pid k 0); eauto. lia.
  - eapply fills_goes; [exact H|done|done|done|done|done|lia|done].
  - eapply starts_goes; [exact H|done|done|done|done|done|done].
  - unfold lets_child in H, Hs. rewrite (proj2 (Z.eqb_neq _ _) Hp) in H, Hs. cbn [negb] in H, Hs.
    calls H Hs. exists 0%nat, (left_to_join n 0 + 8). split; [apply (q_stopping arr n pid 0); [done|lia]|lia].
  - heads H Hs. destruct (Z.ltb_spec (Z.of_nat z) n).
    + exists z, (left_to_join n z + 7). split; [|lia]. unfold frees_consumer. rewrite Nat2Z.id.
      replace (left_to_join n z + 7) with (left_to_join n z + 7 - Z.of_nat 0) by lia.
      apply (q_frees arr n pid z 0 (spes s)); [done|lia|lia].
    + assert (z = N) as -> by lia. exists N, 1. split; [by apply q_return|]. unfold left_to_join. lia.
  - eapply frees_goes; [exact H|done..].
  - destruct HM as (w & e & m & Hw & _ & Hwk & ->). unfold joins_consumer in H, Hs. apply wait_step in Hs as [Hd ->].
    rewrite (wk_threads _ _ _ _ _ _ _ _ _ _ _ H) in Hd. rewrite Nat2Z.id in Hd. assert (Some w = Some Done) as [= ->] by (rewrite <- Hw; exact Hd).
    assert (m = 0) as -> by (inversion Hwk; lia). unfold go.
    moves H; [|done|].
    + replace (Z.of_nat z + 1) with (Z.of_nat (S z)) by lia. apply q_stopping; [done|lia].
    + unfold left_to_join. lia.
  - apply return_step in Hs as ->. exists 0. split; [lia|by apply inv_over].
Qed.

(** *** A thread or its SPE moves *)

Lemma worker_left e c w m m' : worker_at e c w m → worker_at e c w m' → m = m'.
Proof. destruct 1; inversion 1; simplify_eq; congruence. Qed.

Lemma main_at_insert t es k q wt μ c e : main_at t es k q wt μ → (c < k)%nat → main_at t (<[c:=e]> es) k q wt μ.
Proof.
  intros Hm Hc. destruct Hm; try lia; try (econstructor; by rewrite ?length_insert); try (econstructor; eauto; by rewrite ?length_insert);
    econstructor; rewrite ?length_insert, ?list_lookup_insert_ne by lia; eauto.
Qed.

Lemma consumer_goes s t ws k q wt μ M c w e m w' e' m' vs :
  working s t ws k q wt μ M → ws !! c = Some w → spes s !! c = Some e → worker_at e c w m →
  worker_at e' c w' m' → ls (machine e') 0 = ls (machine e) 0 →
  ∃ M', inv M' (Sys (<[S c:=w']> (threads s)) (<[c:=e']> (spes s)) vs (ended s)) ∧ (wt = Some c → m' < m → M' < M).
Proof.
  intros [Ht He Hk Hm Hw Hf Hi HM] Hc Hce Hwk Hwk' Hls.
  pose proof (lookup_lt_Some _ _ _ Hc) as Hlt. pose proof (lookup_lt_Some _ _ _ Hce) as Hlt'.
  assert (∃ M', measure (<[c:=w']> ws) (<[c:=e']> (spes s)) wt μ M' ∧ (wt = Some c → m' < m → M' < M)) as (M' & HM' & HMlt).
  { destruct wt as [z|]; cbn [measure] in *; [|exists μ; by split]. destruct HM as (w0 & e0 & m0 & Hw0 & He0 & Hwk0 & ->).
    destruct (decide (z = c)) as [->|Hz].
    - rewrite Hc in Hw0. rewrite Hce in He0. injection Hw0 as <-. injection He0 as <-.
      rewrite (worker_left _ _ _ _ _ Hwk0 Hwk). exists (μ + m'). split; [|lia]. exists w', e', m'.
      split; [by apply list_lookup_insert_eq|]. split; [by apply list_lookup_insert_eq|done].
    - exists (μ + m0). split; [|congruence]. exists w0, e0, m0. rewrite !list_lookup_insert_ne by done. done. }
  exists M'. split; [|done]. apply (inv_working _ arr n pid t (<[c:=w']> ws) k q wt μ); [done..|].
  split; cbn [threads spes vars ended]; try done.
  - by rewrite Ht.
  - by rewrite length_insert.
  - apply main_at_insert; [done|lia].
  - intros d w0 [(<- & <- & _)|[Hne Hd]]%list_lookup_insert_Some.
    + exists e', m'. split; [by apply list_lookup_insert_eq|done].
    + rewrite list_lookup_insert_ne by done. by apply Hw.
  - intros d e0 Hd [(<- & <- & _)|[Hne Hd']]%list_lookup_insert_Some; [rewrite Hls; by eapply Hf|by eapply Hf].
  - intros d e0 Hd [(<- & _)|[Hne Hd']]%list_lookup_insert_Some; [lia|by eapply Hi].
Qed.

(** A thread without its SPE. *)
Lemma worker_moves s t ws k q wt μ M c w e m w' m' vs :
  working s t ws k q wt μ M → ws !! c = Some w → spes s !! c = Some e → worker_at e c w m → worker_at e c w' m' →
  ∃ M', inv M' (Sys (<[S c:=w']> (threads s)) (spes s) vs (ended s)) ∧ (wt = Some c → m' < m → M' < M).
Proof.
  intros H Hc He Hw Hw'. rewrite <- (list_insert_id (spes s) c e He). by eapply consumer_goes.
Qed.

Lemma worker_step s t ws k q wt μ M c w s' :
  working s t ws k q wt μ M → ws !! c = Some w → thread_step code consume_answers s (S c) w s' →
  ∃ M', inv M' s' ∧ (wt = Some c → M' < M).
Proof.
  intros H Hc Hs. destruct (wk_workers _ _ _ _ _ _ _ _ _ _ _ H c w Hc) as (e & m & He & Hw).
  assert (∀ s1 m', m' < m → (∃ M', inv M' s1 ∧ (wt = Some c → m' < m → M' < M)) → ∃ M', inv M' s1 ∧ (wt = Some c → M' < M)) as Hlt
    by (intros s1 m' Hm (M' & Hi & HM'); exists M'; auto).
  destruct Hw as [Hr Hl|Hr Hl|a Hr|u Hr|Hr].
  - unfold consume_spe_thread in Hs. rewrite Nat2Z.id in Hs. apply run_step in Hs as (e1 & He1 & Hs).
    rewrite He in He1. injection He1 as <-. destruct Hs as [[_ [->|(a & _ & _ & ->)]]|(Hx & _)]; [| |congruence].
    + assert (worker_at (set_runner (Some (S c)) (set_machine (set_pc 0x10 (machine e)) e)) c
        (consume_spe_thread strerror (Z.of_nat c)) (10 + distance (set_pc 0x10 (machine e)))) as Hw' by (by apply k_running).
      apply (Hlt _ (10 + distance (set_pc 0x10 (machine e)))); [unfold distance; cbn; lia|].
      unfold set_spe. rewrite <- (list_insert_id (threads s) (S c) (consume_spe_thread strerror (Z.of_nat c)))
        by (by rewrite (wk_threads _ _ _ _ _ _ _ _ _ _ _ H)).
      eapply consumer_goes; [exact H|exact Hc|exact He|by apply k_runs|exact Hw'|done].
    + apply (Hlt _ 3); [lia|]. eapply worker_moves; [exact H|exact Hc|exact He|by apply k_runs|by apply k_ran].
  - pose proof (distance_bounds (machine e)). unfold consume_spe_thread in Hs. rewrite Nat2Z.id in Hs. apply run_step in Hs as (e1 & He1 & Hs).
    rewrite He in He1. injection He1 as <-. destruct Hs as [[Hx _]|(_ & cd & m1 & a & Hst & _ & _ & _ & ->)]; [congruence|].
    apply (Hlt _ 3); [lia|]. destruct (looping_step _ Hl) as [(m2 & Hm2 & _)|(m2 & Hm2 & Hls)]; [congruence|].
    rewrite Hm2 in Hst. injection Hst as <- <-. unfold go, set_spe. cbn [threads spes vars ended].
    eapply consumer_goes; [exact H|exact Hc|exact He|by apply k_running|by apply k_ran|cbn; by rewrite Hls].
  - unfold consume_ran in Hs. apply put_step in Hs as ->. unfold go, set_var. cbn [threads spes vars ended].
    destruct (_ <? 0).
    + apply (Hlt _ 2); [lia|]. eapply worker_moves; [exact H|exact Hc|exact He|by apply k_ran|by apply k_prints].
    + apply (Hlt _ 0); [lia|]. eapply worker_moves; [exact H|exact Hc|exact He|by apply k_ran|by apply k_done].
  - apply print_step in Hs as ->. unfold go. apply (Hlt _ 0); [lia|].
    eapply worker_moves; [exact H|exact Hc|exact He|by apply k_prints|by apply k_done].
  - inversion Hs.
Qed.

(** The SPE of a thread: after its word was written it comes nearer to its stop. *)
Lemma consumer_moves s t ws k q wt μ M c e s' :
  working s t ws k q wt μ M → spes s !! c = Some e → is_Some (runner e) → spe_step s c e s' →
  ∃ M', inv M' s' ∧ (wt = Some c → (c < q)%nat → M' < M).
Proof.
  intros H He Hr Hs.
  assert (c < length ws)%nat as Hc.
  { rewrite (wk_started _ _ _ _ _ _ _ _ _ _ _ H). apply Nat.nle_gt. intros Hge.
    rewrite (wk_idle _ _ _ _ _ _ _ _ _ _ _ H c e Hge He) in Hr. by destruct Hr. }
  destruct (lookup_lt_is_Some_2 ws c Hc) as [w Hw].
  destruct (wk_workers _ _ _ _ _ _ _ _ _ _ _ H c w Hw) as (e0 & m & He0 & Hwk). rewrite He in He0. injection He0 as <-.
  destruct Hwk as [Hn Hl|Hn Hl|a Hn|u Hn|Hn]; try (rewrite Hn in Hr; by destruct Hr).
  destruct (looping_step _ Hl) as [(m' & Hm' & Hl' & Hls & Hd)|(m' & Hm' & _)]; [|destruct Hs; congruence].
  destruct Hs as [m1 Hm1|f x b Hm1]; [|congruence]. rewrite Hm' in Hm1. injection Hm1 as <-. unfold set_spe.
  assert (worker_at (set_machine m' e) c (consume_spe_thread strerror (Z.of_nat c)) (10 + distance m')) as Hwk' by by apply k_running.
  rewrite <- (list_insert_id (threads s) (S c) (consume_spe_thread strerror (Z.of_nat c)))
    by (by rewrite (wk_threads _ _ _ _ _ _ _ _ _ _ _ H)).
  destruct (consumer_goes _ _ _ _ _ _ _ _ _ _ _ _ (consume_spe_thread strerror (Z.of_nat c)) (set_machine m' e) _ (vars s)
    H Hw He (k_running e c Hn Hl) Hwk' ltac:(cbn; by rewrite Hls)) as (M' & Hi & HM').
  exists M'. split; [done|]. intros Hwt Hq. apply HM'; [done|].
  pose proof (wk_freed _ _ _ _ _ _ _ _ _ _ _ H c e Hq He). specialize (Hd ltac:(done)). lia.
Qed.

(** *** and can move *)

Lemma answered s c f : (∃ a, consume_answers (r_call c) a) → ∃ s', thread_step code consume_answers s 0 (Call c f) s'.
Proof. intros [a Ha]. eexists. by apply t_call. Qed.

Ltac by_answer a := apply answered; exists a; vm_compute; by auto.

Lemma consume_main_can s t ws k q μ M : working s t ws k q None μ M → ∃ s', thread_step code consume_answers s 0 t s'.
Proof.
  intros H. pose proof (wk_main _ _ _ _ _ _ _ _ _ _ _ H) as Hm. remember (spes s) as es eqn:Es. remember None as wt eqn:Ewt.
  destruct Hm as [| | |k es Hl Hk|k es Hl Hk|k ctx es e Hl Hk He Hf|k fd es e Hl Hk He Hf|k fd es e Hl Hk He Hf
    |k j es e Hl Hk He Hf Hj|k es e Hl Hk He Hf|es Hp Hl|z es Hl Hz|z j es Hl Hz Hj|z es Hl Hz|es Hl]; try discriminate Ewt.
  - by_answer (answer 0 0).
  - by_answer (answer 3 0).
  - by_answer (answer 1 0).
  - eexists. apply t_goto.
  - unfold creates_consumer. rewrite (proj2 (Z.leb_le _ _) (name_fits _ Hk)). by_answer (answer 3 0).
  - by_answer (answer 4 0).
  - by_answer (answer 5 0).
  - by_answer (answer 0 0).
  - destruct (drop_store j Hj) as (x & -> & _). eexists. eapply t_poke. by rewrite <- Es.
  - eexists. by apply (t_start _ _ _ _ _ _ (answer 0 0)).
  - unfold lets_child. rewrite (proj2 (Z.eqb_neq _ _) Hp). by_answer (answer 1 0).
  - eexists. apply t_goto.
  - rewrite (drop_one j Hj). destruct (lookup_lt_is_Some_2 (spes s) z) as [e He]; [rewrite <- Es; lia|]. eexists. by eapply t_poke.
  - eexists. apply t_return.
Qed.

(** The thread that is waited for, or its SPE, or [main] when it is there no more. *)
Lemma waited_can s t ws k q c μ M : working s t ws k q (Some c) μ M → ∃ s' M', step s s' ∧ M' < M ∧ inv M' s'.
Proof.
  intros H. pose proof (wk_main _ _ _ _ _ _ _ _ _ _ _ H) as Hm. pose proof (wk_measure _ _ _ _ _ _ _ _ _ _ _ H) as (w & e & m & Hw & He & Hwk & _).
  pose proof (wk_ended _ _ _ _ _ _ _ _ _ _ _ H) as Hen. pose proof (wk_threads _ _ _ _ _ _ _ _ _ _ _ H) as Ht.
  assert (∀ s', thread_step code consume_answers s (S c) w s' → ∃ s' M', step s s' ∧ M' < M ∧ inv M' s') as Hgo.
  { intros s' Hs. destruct (worker_step _ _ _ _ _ _ _ _ _ _ _ H Hw Hs) as (M' & Hi & HM'). exists s', M'.
    split; [|by split; [apply HM'|]]. apply (step_thread _ _ s (S c) w); [done|by rewrite Ht|done]. }
  destruct Hwk as [Hn Hl|Hn Hl|a Hn|u Hn|Hn].
  - eapply Hgo. unfold consume_spe_thread. rewrite Nat2Z.id. by apply (t_run _ _ _ _ _ _ _ e).
  - destruct (looping_step _ Hl) as [(m' & Hm' & _)|(m' & Hm' & _)].
    + assert (Hq : (c < q)%nat) by (inversion Hm; lia).
      destruct (consumer_moves _ _ _ _ _ _ _ _ _ _ _ H He ltac:(by rewrite Hn) (e_next _ _ _ _ Hm')) as (M' & Hi & HM').
      eexists _, M'. split; [|by split; [apply HM'|]]. apply (step_spe _ _ s c e); [done|done|by rewrite Hn|by constructor].
    + eapply Hgo. unfold consume_spe_thread. rewrite Nat2Z.id.
      by apply (t_run_stops _ _ _ _ _ _ _ e 0x1337 m' (answer (stop_status 0x1337) (pc m'))).
  - eapply Hgo. apply t_put.
  - eapply Hgo. apply t_print.
  - assert (∃ s', thread_step code consume_answers s 0 t s') as [s' Hs].
    { inversion Hm. simplify_eq. eexists. unfold joins_consumer. apply t_join. rewrite Nat2Z.id, Ht. exact Hw. }
    destruct (main_step _ _ _ _ _ _ _ _ _ H Hs) as (M' & Hlt & Hi). exists s', M'.
    split; [|done]. apply (step_thread _ _ s 0 t); [done|by rewrite Ht|done].
Qed.
End run.

(** *** The whole run *)

(** The two calls before [pipe]. *)
Lemma begins_goes s c f s' M :
  threads s = [Call c f] → ended s = None → spes s = [] → (∀ a (st : system), effect c a st = st) →
  (∀ a, consume_answers (r_call c) a → ∃ M', M' < M ∧ ∀ vs, inv M' (Sys [f a] [] vs None)) →
  step s s' → ∃ M', M' < M ∧ inv M' s'.
Proof.
  intros Ht He Hs Hef Hf Hst. destruct Hst as [i t' s' _ Hi Hst|i e s' _ Hi]; [|by rewrite Hs in Hi].
  rewrite Ht in Hi. destruct i; [|done]. injection Hi as <-. apply call_step in Hst as (a & Hk & ->). rewrite Hef.
  destruct (Hf a Hk) as (M' & Hlt & Hi). exists M'. split; [done|]. unfold go. rewrite Ht, Hs, He. apply Hi.
Qed.

Lemma stat_goes s s' :
  threads s = [context_03_consume_all fd0] → ended s = None → spes s = [] → step s s' → ∃ M', M' < 100 * 2 ^ 31 ∧ inv M' s'.
Proof.
  intros Ht He Hs. eapply begins_goes; [exact Ht|done..|]. intros a Ha. cbn in Ha. cbn beta. rewrite Ha. cbn [asserted Z.eqb].
  pose proof (wraps_range 32 (st_nlink (a_stat a) - 2) ltac:(lia)) as Hr. cbn in Hr.
  eexists. split; [|intros vs; apply inv_allocs; [done..|apply Hr]]. unfold left_at. lia.
Qed.

Lemma allocs_goes s n s' :
  threads s = [allocs_consumer fd0 n] → ended s = None → spes s = [] → n < 2 ^ 31 → step s s' →
  ∃ M', M' < left_at n 0 + 16 ∧ inv M' s'.
Proof.
  intros Ht He Hs Hn. eapply begins_goes; [exact Ht|done..|]. intros a Ha. cbn in Ha. exists (left_at n 0 + 15). split; [lia|].
  intros vs. apply (inv_working _ (a_rc a) n 0 (pipes_consumer fd0 (a_rc a) n) [] 0 0 None (left_at n 0 + 15)); [done|done|lia|].
  split; try done. apply q_pipes.
Qed.

Lemma consume_inv_step M s s' : inv M s → step s s' → ∃ M', inv M' s'.
Proof.
  intros Hi Hst. pose proof (step_running _ _ _ _ Hst) as Hn.
  destruct Hi as [s Ht He Hs|s n Ht He Hs Hn'|s arr n pid t ws k q wt μ M Ha Hn' Hp H|s He]; [| | |congruence].
  - destruct (stat_goes _ _ Ht He Hs Hst) as (M' & _ & Hi). eauto.
  - destruct (allocs_goes _ _ _ Ht He Hs Hn' Hst) as (M' & _ & Hi). eauto.
  - destruct Hst as [i t' s' _ Hi Hs|c e s' _ Hc Hr Hs].
    + rewrite (wk_threads _ _ _ _ _ _ _ _ _ _ _ H) in Hi. destruct i as [|c].
      * injection Hi as <-. destruct (main_step arr n pid Ha Hn' Hp _ _ _ _ _ _ _ _ _ H Hs) as (M' & _ & Hi). eauto.
      * destruct (worker_step arr n pid Ha Hn' Hp _ _ _ _ _ _ _ _ _ _ _ H Hi Hs) as (M' & Hi' & _). eauto.
    + destruct (consumer_moves arr n pid Ha Hn' Hp _ _ _ _ _ _ _ _ _ _ _ H Hc Hr Hs) as (M' & Hi & _). eauto.
Qed.

Lemma consume_progress M s :
  inv M s → 0 ≤ M ∧ (ended s = Some (Returned EXIT_SUCCESS) ∨ ∃ s' M', step s s' ∧ M' < M ∧ inv M' s').
Proof.
  destruct 1 as [s Ht He Hs|s n Ht He Hs Hn|s arr n pid t ws k q wt μ M Ha Hn Hp H|s He]; [| | |by split; [|left]].
  - split; [lia|]. right. assert (∃ s', step s s') as [s' Hst].
    { eexists. eapply (step_thread _ _ s 0); [done|by rewrite Ht|]. by apply (t_call _ _ s 0 _ _ (answer 0 0)). }
    destruct (stat_goes _ _ Ht He Hs Hst) as (M' & Hlt & Hi). eauto.
  - split; [unfold left_at; lia|]. right. assert (∃ s', step s s') as [s' Hst].
    { eexists. eapply (step_thread _ _ s 0); [done|by rewrite Ht|]. by apply (t_call _ _ s 0 _ _ (answer 7 0)). }
    destruct (allocs_goes _ _ _ Ht He Hs Hn Hst) as (M' & Hlt & Hi). eauto.
  - pose proof (wk_measure _ _ _ _ _ _ _ _ _ _ _ H) as HM. pose proof (wk_main _ _ _ _ _ _ _ _ _ _ _ H) as Hm.
    destruct wt as [c|]; cbn [measure] in HM.
    + split; [|right; by eapply (waited_can arr n pid)]. destruct HM as (w & e & m & _ & _ & Hw & ->).
      assert (0 ≤ μ) by by eapply main_at_left. pose proof (distance_bounds (machine e)). destruct Hw; lia.
    + subst M. split; [by eapply main_at_left|]. right.
      destruct (consume_main_can arr n pid Hn Hp _ _ _ _ _ _ _ H) as [s' Hs].
      destruct (main_step arr n pid Ha Hn Hp _ _ _ _ _ _ _ _ _ H Hs) as (M' & Hlt & Hi). exists s', M'. split; [|done].
      apply (step_thread _ _ s 0 t); [apply H|by rewrite (wk_threads _ _ _ _ _ _ _ _ _ _ _ H)|done].
Qed.
End ends.

Definition consume_initial {box} (fd0 : Z) (junk : consume_var → Z) : sys consume_var consume_loop box :=
  Sys [context_03_consume_all fd0] [] junk None.

(** The parent on two SPEs: both run their loops before [main] goes on. *)
Definition two_spes (c : call) : ans :=
  match c with c_stat _ => Ans 0 0 0 (Statbuf 0 0 0 0 4) [] (0, 0) 0 [] | _ => granted c end.

Definition consume_run : sys consume_var consume_loop (list Z) :=
  @drive _ _ _ (list Z) (queue_mailbox 4) (consume_code (λ _, []) 6) (λ _ _, None) (λ _, None)
    (λ r a, bool_decide (consume_answers r a)) two_spes 100
    (@take_turns _ _ _ (list Z) (queue_mailbox 4) (consume_code (λ _, []) 6) (λ _ _, None) (λ _, None)
      (λ r a, bool_decide (consume_answers r a)) two_spes
      (replicate 34 (inl 0%nat) ++ [inl 1%nat; inl 2%nat] ++ mjoin (replicate 7 [inr 0%nat; inr 1%nat; inr 1%nat]))
      (@consume_initial _ 5 (λ _, 99))).

Lemma consume_run_reachable :
  rtc (@step _ _ _ _ (queue_mailbox 4) (consume_code (λ _, []) 6) consume_answers) (@consume_initial _ 5 (λ _, 99)) consume_run.
Proof.
  etrans; [apply take_turns_reachable|apply drive_reachable]; try done; intros r a; by rewrite bool_decide_spec.
Qed.

Section theorem.
Context (strerror : Z → bytes) (fd0 fd1 : Z) {box : Type} `{!Mailbox box}.

(** C20 [consume_all_ends]: on a kernel that creates the contexts, 03-consume-all can
    only end with success, in the parent and in the child alike, whatever the runs of
    its contexts have returned; and from every state of a run, whatever the SPEs have
    done, it can still come to its end: no context is waited for whose loop goes on. *)
Theorem consume_all_ends junk (s : sys consume_var consume_loop box) :
  rtc (step (consume_code strerror fd1) consume_answers) (consume_initial fd0 junk) s →
  (∀ r, ended s = Some r → r = Returned EXIT_SUCCESS) ∧
  ∃ s', rtc (step (consume_code strerror fd1) consume_answers) s s' ∧ ended s' = Some (Returned EXIT_SUCCESS).
Proof.
  intros Hr.
  destruct (reachable_measured _ (inv strerror fd0 fd1) (100 * 2 ^ 31) _ s (inv_stat _ _ _ (consume_initial fd0 junk) eq_refl eq_refl eq_refl)
    (consume_inv_step strerror fd0 fd1) Hr) as [M Hi].
  split; [|exact (possibly_measure _ _ _ (consume_progress strerror fd0 fd1) M s Hi)].
  intros r He. destruct (consume_progress _ _ _ _ _ Hi) as [_ [He'|(s1 & M1 & Hs & _)]]; [congruence|].
  apply step_running in Hs. congruence.
Qed.
End theorem.

Lemma consume_all_ends_witness :
  (length (spes consume_run) = 2%nat ∧ ended consume_run = Some (Returned EXIT_SUCCESS)) ∧
  ((∀ r, ended consume_run = Some r → r = Returned EXIT_SUCCESS) ∧
   ∃ s', rtc (@step _ _ _ _ (queue_mailbox 4) (consume_code (λ _, []) 6) consume_answers) consume_run s' ∧
     ended s' = Some (Returned EXIT_SUCCESS)).
Proof.
  split; [vm_compute; by split|].
  exact (@consume_all_ends (λ _, []) 5 6 (list Z) (queue_mailbox 4) (λ _, 99) consume_run consume_run_reachable).
Defined.
