(* ===== verification/Crash.v ===== *)
(** * Programs that crash (tests/11-coredump)

    The scripts of 11-coredump look at the core files of three programs: each
    prints the process that the script looks for and stores to NULL.  With
    SIGSEGV at its default, the store kills the process. *)

From S2P Require Import Prelude CString SysProg SpuRuns.

Local Open Scope Z_scope.

Definition SIGSEGV : Z := 11.

Section programs.
Context (kernel : list event → call → ans).

#[local] Abbreviation sys_rc := (SysProg.sys_rc kernel).
#[local] Abbreviation spu_create := (SysProg.spu_create kernel).

(** [*(int * )NULL = 1] *)
Definition crash {A} : P A := leave (Killed SIGSEGV).

Definition coredump : P Z :=
  pid ← sys_rc c_getpid; fprintf stdout (fmt_d pid ++ [newline_c]);; crash.

(** [snprintf(name, 256, "/spu/coredump-%d-%d", getpid(), i)] *)
Definition dumped_name (pid i : Z) : bytes :=
  take 255 (lit "/spu/coredump-" ++ fmt_d pid ++ lit "-" ++ fmt_d i).

Definition creates_dumped (i : Z) : P unit :=
  pid ← sys_rc c_getpid;
  ctx ← spu_create (Some (dumped_name pid i)) 0 0x1ED None;
  assert (0 <=? ctx);; mret tt.

Definition spu_coredump : P Z := for_each (seqZ 0 16) creates_dumped;; coredump.

(** [ctx] is not checked. *)
Definition spu_coredump_context_fd : P Z :=
  ctx ← spu_create (Some (lit "/spu/coredump+context-fd")) 0 0x1ED None;
  pid ← sys_rc c_getpid;
  fprintf stdout (fmt_d ctx ++ lit " " ++ fmt_d pid ++ [newline_c]);; crash.
End programs.

(** ** What the core file of spu-coredump has *)

Definition dumps (i : Z) (e : list event) : Prop :=
  ∃ pid c, e = [(c_getpid, pid); (SYS_spu_create (Some (dumped_name (a_rc pid) i)) 0 0x1ED None, c)] ∧ 0 ≤ wraps 32 (a_rc c).

Definition no_dump (i : Z) (s : stop) (e : list event) : Prop :=
  s = Aborted ∧ ∃ pid c, e = [(c_getpid, pid); (SYS_spu_create (Some (dumped_name (a_rc pid) i)) 0 0x1ED None, c)] ∧ wraps 32 (a_rc c) < 0.

Lemma creates_dumped_spec kernel i w :
  wp (creates_dumped kernel i) w (λ r e, match r with inl _ => dumps i e | inr s => no_dump i s e end).
Proof.
  unfold creates_dumped. unfold spu_create, sys_rc. repeat wp_step; try done.
  - exists a, a0. by split; [|apply Z.leb_le].
  - split; [done|]. exists a, a0. by split; [|apply Z.leb_gt].
Qed.

(** [spu_coredump_verdict]: spu-coredump never returns.  It crashes exactly when all
    16 contexts are created, with no call after the [getpid] of what it prints, so
    that all of them are in the core file; it aborts at the first that is not. *)
Theorem spu_coredump_verdict kernel w :
  ∃ s evs w', execute (spu_coredump kernel) w = (s, w') ∧ log w' = rev evs ++ log w ∧
    ∃ r tries, sweep dumps no_dump (seqZ 0 16) r tries ∧
      match r with
      | inl _ => s = Killed SIGSEGV ∧ ∃ pid, evs = tries ++ [(c_getpid, pid)]
      | inr s' => s = s' ∧ s = Aborted ∧ evs = tries
      end.
Proof.
  apply wp_execute. unfold spu_coredump. eapply wp_for_each.
  - intros i w2 _. apply creates_dumped_spec.
  - intros e He w2 _. unfold coredump, crash, sys_rc. repeat wp_step. exists (inl tt), e. split; [done|]. split; [done|]. by exists a.
  - intros s e He. exists (inr s), e. split; [done|]. split; [done|]. split; [|done].
    by destruct He as (l1 & x & l2 & es & e' & _ & _ & [-> _] & _).
Qed.
