(* ===== verification/Processes.v ===== *)
(** * Programs of many processes (tests/02-spu_create/07-destroy-vs-readdir-race.c,
    08-gang-destroy-vs-readdir-race.c, benchmarks/01-spu_create/02-multiprocess.c)

    A process is a tree of its calls with labels for its loops; a system of them
    takes steps in any order.  A signal is delivered at any time after [kill].  The
    kernel is a relation between calls and answers. *)

From stdpp Require Import relations.
From S2P Require Import Prelude CString SysProg.

Local Open Scope Z_scope.

(** ** Processes *)

Section processes.
Context {L : Type}.

(** [Exited] has the status that [waitpid] gives, [Undef] is undefined behaviour. *)
Inductive process :=
| Exited (status : Z)
| Undef
| Goto (l : L)
| Call (c : call) (k : ans → process)
| Print (s : bytes) (k : process)
| Fork (child : process) (k : Z → process)
| Kill (pid sig : Z) (k : process)
| Wait (pid : Z) (k : Z → process).

Definition exit (rc : Z) : process := Exited (256 * Z.land rc 255).
Definition aborted : process := Exited 6.
Definition asserted (b : bool) (k : process) : process := if b then k else aborted.

Definition alive (x : process) : Prop := match x with Exited _ | Undef => False | _ => True end.

(** The processes by pid (the first is 0), the signals that are to be delivered, and
    the calls with the process that made them, the newest first. *)
Record system := System {
  procs : list process; signals : nat → option Z; history : list (nat * event);
}.

Definition set_signal (p : nat) (x : option Z) (f : nat → option Z) : nat → option Z :=
  λ q, if decide (q = p) then x else f q.

Definition go (p : nat) (x : process) (s : system) : system :=
  System (<[p:=x]> (procs s)) (signals s) (history s).

Context (code : L → process) (kernel : call → ans → Prop).

Inductive step (s : system) : system → Prop :=
| st_goto p l : procs s !! p = Some (Goto l) → step s (go p (code l) s)
| st_call p c k a :
    procs s !! p = Some (Call c k) → kernel c a →
    step s (System (<[p:=k a]> (procs s)) (signals s) ((p, (c, a)) :: history s))
| st_print p t k : procs s !! p = Some (Print t k) → step s (go p k s)
| st_fork p child k :
    procs s !! p = Some (Fork child k) →
    step s (System (<[p:=k (Z.of_nat (length (procs s)))]> (procs s) ++ [child]) (signals s) (history s))
| st_fork_fails p child k : procs s !! p = Some (Fork child k) → step s (go p (k (-1)) s)
| st_kill p pid sig k :
    procs s !! p = Some (Kill pid sig k) →
    step s (System (<[p:=k]> (procs s)) (set_signal (Z.to_nat pid) (Some sig) (signals s)) (history s))
| st_dies p sig x :
    procs s !! p = Some x → alive x → signals s p = Some sig →
    step s (System (<[p:=Exited sig]> (procs s)) (set_signal p None (signals s)) (history s))
| st_wait p pid k st :
    procs s !! p = Some (Wait pid k) → procs s !! Z.to_nat pid = Some (Exited st) →
    step s (go p (k st) s).
End processes.

Arguments process : clear implicits.
Arguments system : clear implicits.

(** ** The programs *)

(** The loops: of [do_creates] and [do_readdirs], and those of [main], with its
    variables; [tv] is the start of the timer. *)
Inductive many_loop :=
| creating (name : bytes) (i : Z)
| reading_dir (dir : Z)
| naming (n i : Z) (names : list bytes)
| forking (n i : Z) (names : list bytes) (pids : list Z) (tv : Z * Z)
| reaping (n i : Z) (pids : list Z) (tv : Z * Z).

Abbreviation many := (process many_loop).

(** How the three programs differ: the names of the contexts, the size of the block
    for a name, the flags, the iterations, what a child does, how [main] waits for
    one, and the timer. *)
Record variant := Variant {
  prefix : bytes; block : Z; create_flags : Z; iterations : Z;
  child_of : Z → bytes → many; waits_for : Z → Z → many → many; timed : bool;
}.

(** The sizes of the array of ten [struct dirent], of a pointer and of a pid (64 bit). *)
Definition DIRENTS_SIZE : Z := 2800.
Definition PTR_SIZE : Z := 8.
Definition PID_SIZE : Z := 4.

Definition do_creates (name : bytes) : many := Goto (creating name 0).

Definition closes_next (name : bytes) (i rc : Z) : many := Call (c_close rc) (λ _, Goto (creating name (i + 1))).

Definition creates_next (flags : Z) (name : bytes) (i : Z) : many :=
  Call (SYS_spu_create (Some name) flags 0 None) (λ a,
    let rc := wraps 32 (a_rc a) in asserted (0 <=? rc) (closes_next name i rc)).

(** [getdents], and [lseek] at the end of the directory. *)
Definition rewinds (dir : Z) : many :=
  Call (c_lseek dir 0 0) (λ a, asserted (0 <=? wraps 32 (a_rc a)) (Goto (reading_dir dir))).

Definition gets_dirents (dir : Z) : many :=
  Call (c_getdents dir DIRENTS_SIZE) (λ a,
    let rc := wraps 32 (a_rc a) in
    if rc =? 0 then rewinds dir else asserted (0 <=? rc) (Goto (reading_dir dir))).

Definition do_readdirs : many :=
  Call (c_open (lit "/spu") O_RDONLY) (λ a,
    let dir := wraps 32 (a_rc a) in asserted (0 <=? dir) (Goto (reading_dir dir))).

(** [sprintf(names[i], fmt, i)] into a block of [size] bytes; the block is not
    checked for NULL. *)
Definition name_of (v : variant) (i : Z) : bytes := prefix v ++ fmt_d i.

Definition sprints (size : Z) (a : ans) (text : bytes) (k : many) : many :=
  if (a_rc a =? 0) || negb (Z.of_nat (length text) + 1 <=? size) then Undef else k.

Section code.
Context (v : variant).

Definition names_next (n i : Z) (names : list bytes) : many :=
  Call (c_malloc (block v)) (λ a, sprints (block v) a (name_of v i) (Goto (naming n (i + 1) (names ++ [name_of v i])))).

(** After the names, the timer. *)
Definition starts (n : Z) (names : list bytes) : many :=
  if timed v then Call c_gettimeofday (λ a, Goto (forking n 0 names [] (a_time a)))
  else Goto (forking n 0 names [] (0, 0)).

Definition forks_next (n i : Z) (names : list bytes) (pids : list Z) (tv : Z * Z) : many :=
  Fork (child_of v i (nth (Z.to_nat i) names [])) (λ pid,
    asserted (0 <=? pid) (Goto (forking n (i + 1) names (pids ++ [pid]) tv))).

Definition finishes (tv : Z * Z) : many :=
  if timed v then Call c_gettimeofday (λ a, Print (elapsed tv (a_time a)) (exit EXIT_SUCCESS)) else exit EXIT_SUCCESS.

Definition many_code (l : many_loop) : many :=
  match l with
  | creating name i => if i <? iterations v then creates_next (create_flags v) name i else exit EXIT_SUCCESS
  | reading_dir dir => gets_dirents dir
  | naming n i names => if i <? n then names_next n i names else starts n names
  | forking n i names pids tv => if i <? n then forks_next n i names pids tv else Goto (reaping n 0 pids tv)
  | reaping n i pids tv =>
      if i <? n then waits_for v i (nth (Z.to_nat i) pids 0) (Goto (reaping n (i + 1) pids tv)) else finishes tv
  end.

(** [main]: [sysconf], the two arrays, their checks, and the loops. *)
Definition allocs_pids (n : Z) (names : ans) : many :=
  Call (c_calloc n PID_SIZE) (λ pids,
    asserted (negb (a_rc names =? 0)) (asserted (negb (a_rc pids =? 0)) (Goto (naming n 0 [])))).

Definition allocs_names (n : Z) : many := Call (c_calloc n PTR_SIZE) (allocs_pids n).

Definition many_main : many := Call c_sysconf (λ a, allocs_names (wraps 32 (a_rc a))).
End code.

(** In the race tests odd children read the directory until they are killed, and the
    status of a child is not looked at. *)
Definition race_child (i : Z) (name : bytes) : many := if negb (Z.rem i 2 =? 0) then do_readdirs else do_creates name.

Definition race_waits (i pid : Z) (k : many) : many :=
  if negb (Z.rem i 2 =? 0) then Kill pid SIGTERM (Wait pid (λ _, k)) else Wait pid (λ _, k).

(** ITERATIONS is 4096 in the tests and 16384 in the benchmark. *)
Section variants.
Context (ITERATIONS : Z).

Definition race_07 : variant :=
  Variant (lit "/spu/07-destroy-vs-readdir-race-") 30 0 ITERATIONS race_child race_waits false.

Definition race_08 : variant :=
  let prefix := lit "/spu/08-gang-destroy-vs-readdir-race-" in
  Variant prefix (Z.of_nat (length (prefix ++ lit "%d")) + 20) SPU_CREATE_GANG ITERATIONS race_child race_waits false.

(** The benchmark looks at the statuses. *)
Definition multi_child (i : Z) (name : bytes) : many := do_creates name.

Definition multi_waits (i pid : Z) (k : many) : many := Wait pid (λ st, asserted (st =? 0) k).

Definition multiprocess : variant :=
  Variant (lit "/spu/02-multiprocess-") 30 0 ITERATIONS multi_child multi_waits true.
End variants.

Definition many_initial : system many_loop := System [many_main] (λ _, None) [].
