(* ===== verification/ProcessProps.v ===== *)
(** * What the programs of many processes show

    07-destroy-vs-readdir-race writes past its blocks before it forks; 08 passes
    whatever its children see; the benchmark counts what every child has done. *)

From stdpp Require Import relations.
From S2P Require Import Prelude Runs CString SysProg Processes.

Local Open Scope Z_scope.

(** ** A single process *)

Section solo.
Context (v : variant) (kernel : call → ans → Prop).

#[local] Abbreviation system := (Processes.system many_loop).
#[local] Abbreviation step := (Processes.step (many_code v) kernel).

Implicit Types (s : system) (x : many).

Definition solo (x : many) s : Prop := procs s = [x] ∧ ∀ p, signals s p = None.

Lemma solo_step s s' x :
  solo x s → step s s' →
  match x with
  | Goto l => solo (many_code v l) s'
  | Call c k => ∃ a, kernel c a ∧ solo (k a) s'
  | Print _ k => solo k s'
  | Exited _ | Undef => False
  | _ => True
  end.
Proof.
  intros [Hp Hs] Hst.
  destruct Hst as [p l H|p c k a H Ha|p t k H|p ch k H|p ch k H|p pid sig k H|p sig y H Hy Hsig|p pid k st H Hw];
    try congruence; rewrite Hp in H; (destruct p as [|p]; [|done]); injection H as ->; try done.
  - split; cbn; [by rewrite Hp|done].
  - exists a. split; [done|]. split; cbn; [by rewrite Hp|done].
  - split; cbn; [by rewrite Hp|done].
Qed.

(** On the way through a call or to a loop. *)
Lemma solo_call P s c k :
  solo (Call c k) s → (∃ a, kernel c a) → (∀ a s', kernel c a → solo (k a) s' → inevitably step P s') → inevitably step P s.
Proof.
  intros Hs [a Ha] H. apply in_later.
  - eexists. eapply (st_call _ _ s 0%nat); [by rewrite (proj1 Hs)|exact Ha].
  - intros s' Hst. destruct (solo_step _ _ _ Hs Hst) as (b & Hb & Hs'). by eapply H.
Qed.

Lemma solo_goto P s l :
  solo (Goto l) s → (∀ s', solo (many_code v l) s' → inevitably step P s') → inevitably step P s.
Proof.
  intros Hs H. apply in_later.
  - eexists. apply (st_goto _ _ s 0%nat). by rewrite (proj1 Hs).
  - intros s' Hst. by apply H, (solo_step _ _ _ Hs Hst).
Qed.
End solo.

(** ** 02-spu_create/07 *)

(** [race_07_overflows]: 07-destroy-vs-readdir-race, on any kernel and for any number
    of processors, either fails to allocate its arrays or runs into undefined
    behaviour before its first [fork]: the first name has 34 bytes with its end, the
    block for it 30. *)
Theorem race_07_overflows iters kernel :
  (∀ c, ∃ a, kernel c a) → (∀ a, kernel c_sysconf a → 0 < wraps 32 (a_rc a)) →
  inevitably (Processes.step (many_code (race_07 iters)) kernel) (λ s, procs s = [aborted] ∨ procs s = [Undef]) many_initial.
Proof.
  intros Hk Hn. eapply (solo_call (race_07 iters)); [by split|apply Hk|]. intros a s1 Ha H1. apply Hn in Ha.
  eapply solo_call; [exact H1|apply Hk|]. intros b s2 _ H2.
  eapply solo_call; [exact H2|apply Hk|]. intros c s3 _ H3.
  destruct (a_rc b =? 0); [apply in_now; left; apply H3|]. destruct (a_rc c =? 0); [apply in_now; left; apply H3|].
  eapply solo_goto; [exact H3|]. intros s4 H4. cbn [many_code] in H4. rewrite (proj2 (Z.ltb_lt _ _) Ha) in H4.
  eapply solo_call; [exact H4|apply Hk|]. intros d s5 _ H5. apply in_now. right.
  unfold sprints in H5. replace (negb _) with true in H5 by by vm_compute. by rewrite orb_true_r in H5; apply H5.
Qed.

Definition many_answer (rc : Z) : ans := Ans rc 0 0 (Statbuf 0 0 0 0 0) [] (0, 0) 0 [].

Lemma race_07_overflows_witness :
  inevitably (Processes.step (many_code (race_07 4096)) (λ c a, a = many_answer 2))
    (λ s, procs s = [aborted] ∨ procs s = [Undef]) many_initial.
Proof. apply (race_07_overflows 4096); [intros c; by exists (many_answer 2)|by intros a ->]. Defined.

(** ** What a child of the benchmark has done *)

Section creates.
Context (flags iters : Z).

(** A context is created and its descriptor closed, so many times. *)
Definition round (name : bytes) (e : list event) : Prop :=
  ∃ a b, e = [(SYS_spu_create (Some name) flags 0 None, a); (c_close (wraps 32 (a_rc a)), b)] ∧ 0 ≤ wraps 32 (a_rc a).

Definition made (name : bytes) (n : Z) (e : list event) : Prop :=
  ∃ es, e = concat es ∧ Z.of_nat (length es) = n ∧ Forall (round name) es.

Lemma made_0 name : made name 0 [].
Proof. by exists []. Qed.

Lemma made_S name n e e1 : made name n e → round name e1 → made name (n + 1) (e ++ e1).
Proof.
  intros (es & -> & Hl & Hf) H. exists (es ++ [e1]). rewrite concat_app, length_app. cbn. rewrite app_nil_r.
  split; [done|]. split; [lia|]. apply Forall_app. split; [done|]. by apply List.Forall_cons.
Qed.

(** Where a child is, with its calls so far. *)
Inductive creator (name : bytes) : many → list event → Prop :=
| cr_goto i e : 0 ≤ i ≤ iters → made name i e → creator name (Goto (creating name i)) e
| cr_create i e : 0 ≤ i < iters → made name i e → creator name (creates_next flags name i) e
| cr_close i e a : 0 ≤ i < iters → made name i e → 0 ≤ wraps 32 (a_rc a) →
    creator name (closes_next name i (wraps 32 (a_rc a))) (e ++ [(SYS_spu_create (Some name) flags 0 None, a)])
| cr_done e : made name iters e → creator name (exit EXIT_SUCCESS) e
| cr_failed st e : st ≠ 0 → creator name (Exited st) e.

Lemma creator_success name e : creator name (exit EXIT_SUCCESS) e → made name iters e.
Proof. inversion 1 as [| | |? Hm|st ? Hst]; [done|]. by destruct Hst. Qed.
End creates.

(** It makes its call, whatever the answer, or moves on. *)
Lemma creator_moves (v : variant) (kernel : call → ans → Prop) y name e :
  0 ≤ iterations v → creator (create_flags v) (iterations v) name y e →
  match y with
  | Goto l => creator (create_flags v) (iterations v) name (many_code v l) e
  | Call c k => ∀ a, kernel c a → creator (create_flags v) (iterations v) name (k a) (e ++ [(c, a)])
  | Exited _ => True
  | _ => False
  end.
Proof.
  intros Hv. destruct 1 as [i e Hi Hm|i e Hi Hm|i e a Hi Hm Ha|e Hm|st e Hst]; try done.
  - cbn [many_code]. destruct (Z.ltb_spec i (iterations v)); [by apply cr_create; [lia|]|].
    apply cr_done. by replace (iterations v) with i by lia.
  - intros a _. cbn zeta. destruct (Z.leb_spec 0 (wraps 32 (a_rc a))); [by apply cr_close|by apply cr_failed].
  - intros b _. apply cr_goto; [lia|]. rewrite <- app_assoc. apply made_S; [done|]. by exists a, b.
Qed.

(** ** 02-multiprocess *)

Section multiprocess.
Context (iters : Z) (iters_pos : 0 ≤ iters) (kernel : call → ans → Prop).

#[local] Abbreviation system := (Processes.system many_loop).
#[local] Abbreviation v := (multiprocess iters).
#[local] Abbreviation step := (Processes.step (many_code v) kernel).
#[local] Abbreviation child := (creator (create_flags v) (iterations v)).

Implicit Types (s : system) (x : many).

Definition first_names (n : Z) : list bytes := map (name_of v) (seqZ 0 n).

Lemma first_names_snoc n : 0 ≤ n → first_names (n + 1) = first_names n ++ [name_of v n].
Proof. intros H. unfold first_names. rewrite (seqZ_app 0 n 1) by lia. by rewrite map_app. Qed.

Lemma first_names_nth n i : 0 ≤ i < n → nth (Z.to_nat i) (first_names n) [] = name_of v i.
Proof.
  intros H. erewrite nth_lookup_Some; [done|]. unfold first_names. rewrite list_lookup_fmap, lookup_seqZ_lt by lia.
  by rewrite Z2Nat.id, Z.add_0_l by lia.
Qed.

(** [main] with [k] children, of which the first [r] have ended well; [n] is what
    [sysconf] has answered. *)
Inductive multi_at (n : Z) : many → nat → nat → Prop :=
| mu_names : multi_at n (allocs_names n) 0 0
| mu_pids a : multi_at n (allocs_pids n a) 0 0
| mu_naming i : 0 ≤ i → multi_at n (Goto (naming n i (first_names i))) 0 0
| mu_name i : 0 ≤ i < n → multi_at n (names_next v n i (first_names i)) 0 0
| mu_starts i : n ≤ i → multi_at n (starts v n (first_names i)) 0 0
| mu_forking i names tv : 0 ≤ i → (∀ k, 0 ≤ k < n → nth (Z.to_nat k) names [] = name_of v k) → i ≤ n ∨ i = 0 →
    multi_at n (Goto (forking n i names (seqZ 1 i) tv)) (Z.to_nat i) 0
| mu_fork i names tv : 0 ≤ i < n → (∀ k, 0 ≤ k < n → nth (Z.to_nat k) names [] = name_of v k) →
    multi_at n (forks_next v n i names (seqZ 1 i) tv) (Z.to_nat i) 0
| mu_reaping i tv : 0 ≤ i → i ≤ n ∨ i = 0 → multi_at n (Goto (reaping n i (seqZ 1 n) tv)) (Z.to_nat n) (Z.to_nat i)
| mu_wait i tv : 0 ≤ i < n →
    multi_at n (multi_waits i (i + 1) (Goto (reaping n (i + 1) (seqZ 1 n) tv))) (Z.to_nat n) (Z.to_nat i)
| mu_time tv : multi_at n (finishes v tv) (Z.to_nat n) (Z.to_nat n)
| mu_print t : multi_at n (Print t (exit EXIT_SUCCESS)) (Z.to_nat n) (Z.to_nat n)
| mu_done : multi_at n (exit EXIT_SUCCESS) (Z.to_nat n) (Z.to_nat n)
| mu_undef : multi_at n Undef 0 0
| mu_failed st k r : st ≠ 0 → multi_at n (Exited st) k r.

Definition asked (n : Z) (h : list (nat * event)) : Prop := ∃ a, (0%nat, (c_sysconf, a)) ∈ h ∧ wraps 32 (a_rc a) = n.

Record multi_inv s x (cs : list many) (n : Z) (r : nat) : Prop := {
  mi_procs : procs s = x :: cs;
  mi_main : multi_at n x (length cs) r;
  mi_asked : asked n (history s);
  mi_signals : ∀ p, signals s p = None;
  mi_children : ∀ k y, cs !! k = Some y → child (name_of v (Z.of_nat k)) y (events_of (S k) (history s));
  mi_reaped : ∀ k, (k < r)%nat → cs !! k = Some (exit EXIT_SUCCESS);
  mi_none : ∀ p, (length cs < p)%nat → events_of p (history s) = [];
}.

Lemma events_of_main p e h : events_of (S p) ((0%nat, e) :: h) = events_of (S p) h.
Proof. rewrite events_of_cons, decide_False by done. by rewrite app_nil_r. Qed.

Lemma asked_cons n e h : asked n h → asked n (e :: h).
Proof. intros (a & Ha & Hn). exists a. split; [by right|done]. Qed.

(** [main] moves on, with a call or without. *)
Lemma multi_goes s x cs n r x' r' h :
  multi_inv s x cs n r → multi_at n x' (length cs) r' → (∀ k, (k < r')%nat → cs !! k = Some (exit EXIT_SUCCESS)) →
  h = history s ∨ (∃ e, h = (0%nat, e) :: history s) →
  multi_inv (System (<[0%nat:=x']> (procs s)) (signals s) h) x' cs n r'.
Proof.
  intros [Hp Hm Ha Hs Hc Hr Hn] Hx Hr' Hh. split; cbn [procs signals history]; try done.
  - by rewrite Hp.
  - destruct Hh as [->|[e ->]]; [done|by apply asked_cons].
  - intros k y Hk. destruct Hh as [->|[e ->]]; [by apply Hc|]. rewrite events_of_main. by apply Hc.
  - intros p Hlt. destruct p as [|p]; [lia|]. destruct Hh as [->|[e ->]]; [by apply Hn|]. rewrite events_of_main. by apply Hn.
Qed.

(** A child moves on. *)
Lemma multi_child_goes s x cs n r k y' h :
  multi_inv s x cs n r → (k < length cs)%nat → cs !! k ≠ Some (exit EXIT_SUCCESS) →
  h = history s ∨ (∃ e, h = (S k, e) :: history s) →
  child (name_of v (Z.of_nat k)) y' (events_of (S k) h) →
  multi_inv (System (<[S k:=y']> (procs s)) (signals s) h) x (<[k:=y']> cs) n r.
Proof.
  intros [Hp Hm Ha Hs Hc Hr Hn] Hk Hne Hh Hy.
  assert (He : ∀ p, p ≠ S k → events_of p h = events_of p (history s)).
  { intros p Hpk. destruct Hh as [->|[e ->]]; [done|]. rewrite events_of_cons, decide_False by done. by rewrite app_nil_r. }
  split; cbn [procs signals history]; try done.
  - by rewrite Hp.
  - by rewrite length_insert.
  - destruct Hh as [->|[e ->]]; [done|by apply asked_cons].
  - intros j y Hj. destruct (decide (j = k)) as [->|Hjk].
    + rewrite list_lookup_insert_eq in Hj by done. by injection Hj as <-.
    + rewrite list_lookup_insert_ne in Hj by done. rewrite He by congruence. by apply Hc.
  - intros j Hj. rewrite list_lookup_insert_ne; [by apply Hr|]. intros ->. by apply Hne, Hr.
  - intros p Hp'. rewrite length_insert in Hp'. rewrite He by lia. by apply Hn.
Qed.

(** *** Steps *)

Lemma pids_nth n i : 0 ≤ i < n → nth (Z.to_nat i) (seqZ 1 n) 0 = i + 1.
Proof.
  intros H. erewrite nth_lookup_Some; [done|]. rewrite lookup_seqZ_lt, Z2Nat.id by lia. f_equal. lia.
Qed.

Lemma pids_snoc i : 0 ≤ i → seqZ 1 (i + 1) = seqZ 1 i ++ [i + 1].
Proof. intros H. rewrite (seqZ_app 1 i 1) by lia. f_equal. change (seqZ (1 + i) 1) with [Z.of_nat 0 + (1 + i)]. f_equal. lia. Qed.

Lemma main_loops n l k r : multi_at n (Goto l) k r → multi_at n (many_code v l) k r.
Proof.
  inversion 1 as [| |i Hi E| | |i names tv Hi Hn Hb E| |i tv Hi Hb E| | | | | |]; subst; cbn [many_code].
  - destruct (Z.ltb_spec i n); [by apply mu_name|by apply mu_starts].
  - destruct (Z.ltb_spec i n); [by apply mu_fork|].
    assert (seqZ 1 i = seqZ 1 n ∧ Z.to_nat i = Z.to_nat n) as [-> ->].
    { destruct (decide (i = n)) as [->|]; [done|]. assert (i = 0) as -> by lia. rewrite (seqZ_nil 1 n) by lia. split; [done|lia]. }
    apply (mu_reaping n 0); [done|by right].
  - destruct (Z.ltb_spec i n).
    + rewrite pids_nth by lia. apply mu_wait. lia.
    + replace (Z.to_nat i) with (Z.to_nat n) by lia. apply mu_time.
Qed.

Lemma main_calls n c f k r : multi_at n (Call c f) k r → ∀ a, multi_at n (f a) k r.
Proof.
  inversion 1 as [E|a0 E| |i Hi E|i Hi E| | | | |tv E| | | |]; subst; intros a.
  - apply mu_pids.
  - destruct (a_rc a0 =? 0); [by apply mu_failed|]. destruct (a_rc a =? 0); [by apply mu_failed|]. by apply (mu_naming n 0).
  - unfold sprints. destruct (_ || _); [apply mu_undef|]. rewrite <- first_names_snoc by lia. apply mu_naming. lia.
  - apply (mu_forking n 0); [done| |by right]. intros q Hq. apply first_names_nth. lia.
  - apply mu_print.
Qed.

(** A fork: the new child is at its start. *)
Lemma main_forks n ch f k r :
  multi_at n (Fork ch f) k r →
  r = 0%nat ∧ child (name_of v (Z.of_nat k)) ch [] ∧ multi_at n (f (Z.of_nat (S k))) (S k) 0 ∧ multi_at n (f (-1)) k 0.
Proof.
  inversion 1 as [| | | | | |i names tv Hi Hn E| | | | | | |]; subst. split; [done|]. rewrite Z2Nat.id by lia. split.
  - rewrite Hn by lia. apply cr_goto; [cbn; lia|apply made_0].
  - split; [|by apply mu_failed]. rewrite (proj2 (Z.leb_le _ _)) by lia. cbn [asserted].
    replace (Z.of_nat (S (Z.to_nat i))) with (i + 1) by lia. rewrite <- pids_snoc by lia.
    replace (S (Z.to_nat i)) with (Z.to_nat (i + 1)) by lia. apply mu_forking; [lia|done|lia].
Qed.

(** A wait is for the next child. *)
Lemma main_waits n pid f k r st :
  multi_at n (Wait pid f) k r → Z.to_nat pid = S r ∧
    (st = 0 ∧ multi_at n (f st) k (S r) ∨ multi_at n (f st) k r).
Proof.
  inversion 1 as [| | | | | | | |i tv Hi E| | | | |]; subst. split; [lia|]. destruct (Z.eqb_spec st 0) as [->|Hst].
  - left. split; [done|]. cbn [asserted]. replace (S (Z.to_nat i)) with (Z.to_nat (i + 1)) by lia. apply mu_reaping; lia.
  - right. by apply mu_failed.
Qed.

(** The child that a wait is for has ended well when its status is 0. *)
Lemma multi_step s s' x cs n r : multi_inv s x cs n r → step s s' → ∃ x' cs' r', multi_inv s' x' cs' n r'.
Proof.
  intros Hi Hst. pose proof Hi as [Hp Hm Ha Hs Hc Hr Hn].
  assert (Hlt : ∀ k y, cs !! k = Some y → (k < length cs)%nat) by (intros; by eapply lookup_lt_Some).
  destruct Hst as [p l H|p c k a H Hk|p t k H|p ch k H|p ch k H|p pid sig k H|p sig y H Hy Hsig|p pid k st H Hw];
    try congruence; rewrite Hp in H; destruct p as [|p]; cbn in H.
  - injection H as ->. eexists _, cs, r. eapply multi_goes; eauto. by apply main_loops.
  - pose proof (creator_moves v kernel _ _ _ iters_pos (Hc _ _ H)) as Hy. eexists x, _, r.
    eapply (multi_child_goes _ _ _ _ _ _ _ _ Hi); [by eapply Hlt|intros E; pose proof (eq_trans (eq_sym H) E); discriminate|by left|exact Hy].
  - injection H as ->. eexists _, cs, r. apply (multi_goes _ _ _ _ _ _ _ _ Hi); eauto. by eapply main_calls.
  - pose proof (creator_moves v kernel _ _ _ iters_pos (Hc _ _ H) a Hk) as Hy. eexists x, _, r.
    eapply (multi_child_goes _ _ _ _ _ _ _ _ Hi); [by eapply Hlt|intros E; pose proof (eq_trans (eq_sym H) E); discriminate|right; by eexists|].
    by rewrite events_of_cons, decide_True.
  - injection H as ->. eexists _, cs, r. eapply multi_goes; eauto. inversion Hm; subst. by apply mu_done.
  - by pose proof (creator_moves v kernel _ _ _ iters_pos (Hc _ _ H)).
  - injection H as ->. apply main_forks in Hm as (-> & Hch & Hm & _). eexists _, (cs ++ [ch]), 0%nat.
    rewrite Hp. cbn [length]. split; cbn [procs signals history]; try done.
    + by rewrite length_app, Nat.add_1_r.
    + intros j y [Hj|[Hj Hy]]%lookup_app_Some; [by apply Hc|]. apply list_lookup_singleton_Some in Hy as [Hj' <-].
      replace j with (length cs) by lia. by rewrite Hn by lia.
    + lia.
    + intros q. rewrite length_app. cbn. intros Hq. apply Hn. lia.
  - by pose proof (creator_moves v kernel _ _ _ iters_pos (Hc _ _ H)).
  - injection H as ->. apply main_forks in Hm as (-> & _ & _ & Hm). eexists _, cs, 0%nat. eapply multi_goes; eauto.
  - by pose proof (creator_moves v kernel _ _ _ iters_pos (Hc _ _ H)).
  - injection H as ->. by inversion Hm.
  - by pose proof (creator_moves v kernel _ _ _ iters_pos (Hc _ _ H)).
  - injection H as ->. destruct (main_waits _ _ _ _ _ st Hm) as [Hpid [[-> Hm']|Hm']].
    + eexists _, cs, (S r). eapply multi_goes; eauto. intros k' Hk'. destruct (decide (k' = r)) as [->|]; [|apply Hr; lia].
      rewrite Hpid, Hp in Hw. exact Hw.
    + eexists _, cs, r. eapply multi_goes; eauto.
  - by pose proof (creator_moves v kernel _ _ _ iters_pos (Hc _ _ H)).
Qed.

(** Before [sysconf] has answered. *)
Lemma multi_first s : step many_initial s → ∃ x cs n r, multi_inv s x cs n r.
Proof.
  intros Hst. destruct Hst as [p l H|p c k a H Hk|p t k H|p ch k H|p ch k H|p pid sig k H|p sig y H Hy Hsig|p pid k st H Hw];
    try done; destruct p; try done; injection H as <- <-.
  eexists _, [], (wraps 32 (a_rc a)), 0%nat. split; cbn [procs signals history many_initial]; try done.
  - apply mu_names.
  - exists a. split; [by left|done].
  - lia.
  - intros p Hp. by rewrite events_of_cons, decide_False by lia.
Qed.
End multiprocess.

(** C19 [multiprocess_counts]: in whatever order the processes run and whatever the kernel
    answers, when 02-multiprocess returns success it has started one child for each
    processor, and each has ended well after it has created its own context, and
    closed the descriptor, as often as ITERATIONS says. *)
Theorem multiprocess_counts iters kernel s :
  0 ≤ iters → rtc (Processes.step (many_code (multiprocess iters)) kernel) many_initial s → procs s !! 0%nat = Some (exit EXIT_SUCCESS) →
  ∃ a, (0%nat, (c_sysconf, a)) ∈ history s ∧
    let n := Z.to_nat (wraps 32 (a_rc a)) in
    length (procs s) = S n ∧
    ∀ k, (k < n)%nat → procs s !! S k = Some (exit EXIT_SUCCESS) ∧
      made 0 (lit "/spu/02-multiprocess-" ++ fmt_d (Z.of_nat k)) iters (events_of (S k) (history s)).
Proof.
  intros Hit Hr H0. inversion Hr as [|? s1 ? H1 Hr']; subst; [done|].
  assert (∃ x cs n r, multi_inv iters s x cs n r) as (x & cs & n & r & [Hp Hm (a & Ha & <-) Hs Hc Hrd Hn]).
  { eapply (reachable_invariant _ (λ s, ∃ x cs n r, multi_inv iters s x cs n r)); [by eapply multi_first| |exact Hr'].
    intros s2 s3 (x & cs & n & r & Hi) Hst. destruct (multi_step iters Hit _ _ _ _ _ _ _ Hi Hst) as (x' & cs' & r' & H). by exists x', cs', n, r'. }
  exists a. split; [done|]. rewrite Hp in H0. injection H0 as ->. inversion Hm as [| | | | | | | | | | | | |? ? ? Hne]; subst; [|by destruct Hne].
  cbv zeta. split; [by rewrite Hp; cbn; f_equal|]. intros k Hk. rewrite Hp. split; [by apply Hrd|].
  eapply creator_success, (Hc k), Hrd, Hk.
Qed.

(** *** Runs *)

Section turns.
Context (v : variant) (replies : call → ans).

#[local] Abbreviation system := (Processes.system many_loop).
#[local] Abbreviation step := (Processes.step (many_code v) (λ c a, a = replies c)).

(** The next step of process [p]; forks succeed. *)
Definition turn (s : system) (p : nat) : system :=
  match procs s !! p with
  | Some (Goto l) => go p (many_code v l) s
  | Some (Call c k) =>
      System (<[p:=k (replies c)]> (procs s)) (signals s) ((p, (c, replies c)) :: history s)
  | Some (Print _ k) => go p k s
  | Some (Fork child k) =>
      System (<[p:=k (Z.of_nat (length (procs s)))]> (procs s) ++ [child]) (signals s) (history s)
  | Some (Kill pid sig k) =>
      System (<[p:=k]> (procs s)) (set_signal (Z.to_nat pid) (Some sig) (signals s)) (history s)
  | Some (Wait pid k) =>
      match procs s !! Z.to_nat pid with Some (Exited st) => go p (k st) s | _ => s end
  | _ => s
  end.

(** A turn, or the delivery of a signal. *)
Definition turn_or_die (s : system) (p : nat) : system :=
  match signals s p, procs s !! p with
  | Some sig, Some (Exited _ | Undef) => s
  | Some sig, Some _ => System (<[p:=Exited sig]> (procs s)) (set_signal p None (signals s)) (history s)
  | _, _ => turn s p
  end.

Definition turns (ps : list nat) (s : system) : system := fold_left turn_or_die ps s.

Lemma turn_ok s p : rtc step s (turn s p).
Proof.
  unfold turn. destruct (procs s !! p) as [[st| |l|c k|t k|ch k|pid sig k|pid k]|] eqn:E; try done.
  - apply rtc_once. by apply st_goto.
  - apply rtc_once. by apply st_call.
  - apply rtc_once. by eapply st_print.
  - apply rtc_once. by apply st_fork.
  - apply rtc_once. by apply st_kill.
  - destruct (procs s !! Z.to_nat pid) as [[st| | | | | | |]|] eqn:Ew; try done. apply rtc_once. by eapply st_wait.
Qed.

Lemma turn_or_die_ok s p : rtc step s (turn_or_die s p).
Proof.
  unfold turn_or_die. destruct (signals s p) as [sig|] eqn:Es; [|apply turn_ok].
  destruct (procs s !! p) as [x|] eqn:E; [|apply turn_ok]. destruct x; try done; apply rtc_once; by eapply st_dies.
Qed.

Lemma turns_reachable ps s : rtc step s (turns ps s).
Proof.
  unfold turns. revert s. induction ps as [|p ps IH]; intros s; cbn [fold_left]; [done|].
  etrans; [apply turn_or_die_ok|apply IH].
Qed.
End turns.

(** Two processors, two iterations. *)
Definition multi_run : Processes.system many_loop :=
  turns (multiprocess 2) (λ _, many_answer 2) (replicate 14 0%nat ++ mjoin (replicate 16 [1; 2; 0]%nat)) many_initial.

Lemma multiprocess_counts_witness :
  procs multi_run !! 0%nat = Some (exit EXIT_SUCCESS) ∧
  ∃ a, (0%nat, (c_sysconf, a)) ∈ history multi_run ∧
    let n := Z.to_nat (wraps 32 (a_rc a)) in
    length (procs multi_run) = S n ∧
    ∀ k, (k < n)%nat → procs multi_run !! S k = Some (exit EXIT_SUCCESS) ∧
      made 0 (lit "/spu/02-multiprocess-" ++ fmt_d (Z.of_nat k)) 2 (events_of (S k) (history multi_run)).
Proof.
  split; [vm_compute; reflexivity|].
  apply (multiprocess_counts 2 (λ c a, a = many_answer 2)); [lia|apply turns_reachable|vm_compute; reflexivity].
Defined.
