(* ===== verification/Debug.v ===== *)
(** * Single steps of an SPE (tests/16-debug/01-single-step.c)

    A process runs an SPE program and is traced by its parent, which asks for a
    single step each time the child is in [spu_run].  The two are one system: the
    requests of the parent say how the child goes on, a child that runs on stops at
    its system calls, a child that single-steps has its [spu_run] interrupted, and
    its exit status is what [waitpid] tells the parent. *)

From stdpp Require Import relations.
From S2P Require Import Prelude Runs CString SysProg SpuIsa SpuCode SpuTests SpuApps SpuDma DmaProps Processes.

Local Open Scope Z_scope.

Definition single_step_program : list Z := [0x40200000; 0x40200000; 0x40200000; 0x40200000; 0x00001337].

Definition PTRACE_TRACEME : Z := 0.
Definition PTRACE_SINGLESTEP : Z := 9.
Definition PTRACE_GETREGS : Z := 12.
Definition PTRACE_SYSCALL : Z := 24.
Definition ERESTARTSYS : Z := 512.
Definition SIGTRAP : Z := 5.

(** The number of [spu_run] (powerpc). *)
Definition NR_spu_run : Z := 278.

Definition WIFEXITED (status : Z) : bool := Z.land status 0x7f =? 0.
Definition WEXITSTATUS (status : Z) : Z := Z.land (Z.shiftr status 8) 0xff.

(** ** The two processes *)

(** The loops of [check_spu_run] and of [ptrace_singlestep_spu_run], with their
    variables. *)
Inductive debug_loop :=
| checking (ctx entry : Z) (stopped : bool)
| tracing (pid status : Z).

Abbreviation debug := (process debug_loop).

Section programs.
Context (strerror : Z → bytes).

Definition debug_perror (s : bytes) (a : ans) : bytes := s ++ lit ": " ++ strerror (a_errno a) ++ [newline_c].

(** [%nd] of a number that is not negative. *)
Definition pad_left (n : nat) (s : bytes) : bytes := replicate (n - length s) " "%char ++ s.

(** *** The child *)

Definition wrong_status (rc : Z) : bytes :=
  lit "spu_run exited with unexpected 0x" ++ fmt_hex 8 (wrapu 32 rc) ++ [newline_c].

Definition status_line (rc errno entry : Z) : bytes :=
  lit "status 0x" ++ fmt_hex 8 (wrapu 32 rc) ++ lit ", errno " ++ pad_left 3 (fmt_d errno) ++
  lit " entry: 0x" ++ fmt_hex 8 entry ++ [newline_c].

(** After [spu_run]; [errno] was cleared before, and only a failure sets it. *)
Definition check_status (ctx : Z) (stopped : bool) (a : ans) : debug :=
  let rc := wraps 32 (a_rc a) in
  let errno := if rc =? -1 then a_errno a else 0 in
  let entry := wrapu 32 (a_npc a) in
  Print (status_line rc errno entry)
    (if rc =? -1 then
       if negb (errno =? ERESTARTSYS) then Print (debug_perror (lit "spu_run") a) (exit (-1))
       else Goto (checking ctx entry true)
     else if rc =? 0x13370002 then exit (if stopped then 0 else -1)
     else Print (wrong_status rc) (exit (-1))).

(** [raise] stops the process. *)
Definition check_raise (ctx : Z) : debug := Call (c_raise SIGTRAP) (λ _, Goto (checking ctx 0 false)).

Definition check_spu_run (ctx : Z) : debug :=
  Call (c_ptrace PTRACE_TRACEME 0) (λ a, asserted (a_rc a =? 0) (check_raise ctx)).

(** *** The parent *)

(** The status stays as it was when [waitpid] fails. *)
Definition waits (pid status : Z) (k : Z → debug) : debug :=
  Call (c_waitpid pid) (λ a, k (if a_rc a <? 0 then status else a_status a)).

Definition waits_step (pid status : Z) : debug := waits pid status (λ status, Goto (tracing pid status)).

Definition single_steps (pid status : Z) : debug :=
  Call (c_ptrace PTRACE_SINGLESTEP pid) (λ a,
    if a_rc a <? 0 then Print (debug_perror (lit "ptrace: SINGLESTEP") a) (exit (-1)) else waits_step pid status).

(** The answer of PTRACE_GETREGS holds register 0. *)
Definition gets_regs (pid status : Z) : debug :=
  Call (c_ptrace PTRACE_GETREGS pid) (λ a, asserted (a_rc a =? 0)
    (if a_status a =? NR_spu_run then single_steps pid status else Goto (tracing pid status))).

Definition waits_syscall (pid status : Z) : debug :=
  waits pid status (λ status, if WIFEXITED status then exit (WEXITSTATUS status) else gets_regs pid status).

Definition debug_code (l : debug_loop) : debug :=
  match l with
  | checking ctx entry stopped => Call (SYS_spu_run ctx (Some entry) false) (check_status ctx stopped)
  | tracing pid status => Call (c_ptrace PTRACE_SYSCALL pid) (λ a, asserted (a_rc a =? 0) (waits_syscall pid status))
  end.

(** [junk] is what [status] holds at the start. *)
Definition ptrace_singlestep_spu_run (pid junk : Z) : debug := waits_step pid junk.

(** *** [main], from its end *)

Definition debug_forks (ctx junk : Z) : debug :=
  Fork (check_spu_run ctx) (λ pid, asserted (0 <=? pid) (ptrace_singlestep_spu_run pid junk)).

Definition debug_stores (ctx junk ls_map : Z) : debug :=
  Call (m_store ls_map (words single_step_program)) (λ _, debug_forks ctx junk).

Definition debug_maps (ctx junk ls_fd : Z) : debug :=
  Call (c_mmap LS_SIZE PROT_READ_WRITE MAP_SHARED ls_fd 0) (λ a,
    asserted (negb (a_rc a =? MAP_FAILED)) (debug_stores ctx junk (a_rc a))).

Definition debug_opens (ctx junk : Z) : debug :=
  Call (c_openat ctx (lit "mem") O_RDWR) (λ a,
    let ls_fd := wraps 32 (a_rc a) in asserted (0 <=? ls_fd) (debug_maps ctx junk ls_fd)).

Definition debug_01_single_step (junk : Z) : debug :=
  Call (SYS_spu_create (Some (lit "/spu/06-single-step")) 0 0x1ED None) (λ a,
    let ctx := wraps 32 (a_rc a) in asserted (0 <=? ctx) (debug_opens ctx junk)).
End programs.

(** ** The system *)

(** How a process goes on: not traced, traced but not asked for anything, to its
    next stop at a system call, or by single steps. *)
Inductive mode := Free | Traced | ToSyscall | Stepping.

(** A process with a tracer: it runs, it has stopped ([seen]: the parent knows; [nr]
    is its register 0), or it has ended.  [entered]: it has stopped at the entry of
    the system call that it is at, and not yet made it. *)
Inductive tracee :=
| Runs (how : mode) (x : debug) (entered : bool)
| Stops (seen : bool) (nr : Z) (x : debug) (entered : bool)
| Ends (status : Z).

(** The parent, its child and the SPE of the context. *)
Record traced := System { parent : debug; child : option tracee; machine : spu }.

(** [stopped c]: [ptrace] can reach it. *)
Definition stopped (c : option tracee) : bool := match c with Some (Stops _ _ _ _) => true | _ => false end.

(** The status of a stop by SIGTRAP. *)
Definition trap_status : Z := Z.lor (Z.shiftl SIGTRAP 8) 0x7f.

Definition NR_other (nr : Z) : Prop := nr ≠ NR_spu_run.

Definition restarts (request : Z) : option mode :=
  if request =? PTRACE_SYSCALL then Some ToSyscall else if request =? PTRACE_SINGLESTEP then Some Stepping else None.

Definition spu_next (m m' : spu) : Prop := spu_step m = Next m'.

Section kernel.
(** The context, the address of its mapping, the child, and the instructions that a
    single step can issue together. *)
Context (strerror : Z → bytes) (ctx base pid : Z) (group : nat).

(** *** The calls of [main] *)

Inductive answers : call → spu → ans → spu → Prop :=
| k_create name flags mode n m a : a_rc a = ctx → answers (SYS_spu_create name flags mode n) m a (reset empty_ls 0)
| k_openat fd path flags m a : 0 ≤ wraps 32 (a_rc a) → answers (c_openat fd path flags) m a m
| k_mmap len prot flags fd off m a : a_rc a = base → answers (c_mmap len prot flags fd off) m a m
| k_store addr data m :
    answers (m_store addr data) m no_answer (set_ls (mapped (store_bytes (ls_byte (ls m)) (addr - base) data) 0) m).

(** *** [spu_run] *)

(** The SPE runs from the entry to its stop; with single steps it may be interrupted
    after an instruction, and is after [group] of them. *)
Inductive spu_runs (steps : bool) : spu → Z → ans → spu → Prop :=
| run_stops j m entry m1 code m2 a :
    (steps = true → (j < group)%nat) → nsteps spu_next j (set_pc entry m) m1 → spu_step m1 = Stopped code m2 →
    a_rc a = stop_status code → a_npc a = pc m2 → spu_runs steps m entry a m2
| run_interrupted j m entry m1 a :
    steps = true → (0 < j ≤ group)%nat → nsteps spu_next j (set_pc entry m) m1 →
    a_rc a = -1 → a_errno a = ERESTARTSYS → a_npc a = pc m1 → spu_runs steps m entry a m1.

(** *** A step of the child *)

Inductive child_step : tracee → spu → tracee → spu → Prop :=
| c_goto how l e m : child_step (Runs how (Goto l) e) m (Runs how (debug_code strerror l) false) m
(* a line of output may be kept, or be a system call *)
| c_print how t k m : child_step (Runs how (Print t k) false) m (Runs how k false) m
| c_write_in t k nr m : NR_other nr → child_step (Runs ToSyscall (Print t k) false) m (Stops false nr (Print t k) true) m
| c_write_out t k nr m : NR_other nr → child_step (Runs ToSyscall (Print t k) true) m (Stops false nr k false) m
| c_traceme k a m : a_rc a = 0 → child_step (Runs Free (Call (c_ptrace PTRACE_TRACEME 0) k) false) m (Runs Traced (k a) false) m
| c_killed sig k m : child_step (Runs Free (Call (c_raise sig) k) false) m (Ends sig) m
| c_raised sig k a nr m : child_step (Runs Traced (Call (c_raise sig) k) false) m (Stops false nr (k a) false) m
| c_run_in fd n s k m :
    child_step (Runs ToSyscall (Call (SYS_spu_run fd n s) k) false) m (Stops false NR_spu_run (Call (SYS_spu_run fd n s) k) true) m
| c_run_out fd n s k a m m' :
    spu_runs false m n a m' →
    child_step (Runs ToSyscall (Call (SYS_spu_run fd (Some n) s) k) true) m (Stops false NR_spu_run (k a) false) m'
| c_run_steps fd n s k a nr m m' :
    spu_runs true m n a m' →
    child_step (Runs Stepping (Call (SYS_spu_run fd (Some n) s) k) true) m (Stops false nr (k a) false) m'
| c_run_on how fd n s k a m m' :
    how = Free ∨ how = Traced → spu_runs false m n a m' →
    child_step (Runs how (Call (SYS_spu_run fd (Some n) s) k) false) m (Runs how (k a) false) m'
(* an instruction of the process itself *)
| c_step_user x nr m : child_step (Runs Stepping x false) m (Stops false nr x false) m
| c_exit how st e m : child_step (Runs how (Exited st) e) m (Ends st) m.

(** *** A step of the system *)

Inductive debug_step : traced → traced → Prop :=
| d_goto l c m : debug_step (System (Goto l) c m) (System (debug_code strerror l) c m)
| d_print t k c m : debug_step (System (Print t k) c m) (System k c m)
| d_call q k c m a m' : answers q m a m' → debug_step (System (Call q k) c m) (System (k a) c m')
| d_fork x k m : debug_step (System (Fork x k) None m) (System (k pid) (Some (Runs Free x false)) m)
| d_restart request how k seen nr x e m a :
    restarts request = Some how → a_rc a = 0 →
    debug_step (System (Call (c_ptrace request pid) k) (Some (Stops seen nr x e)) m) (System (k a) (Some (Runs how x e)) m)
| d_regs k seen nr x e m a :
    a_rc a = 0 → a_status a = nr →
    debug_step (System (Call (c_ptrace PTRACE_GETREGS pid) k) (Some (Stops seen nr x e)) m) (System (k a) (Some (Stops seen nr x e)) m)
| d_no_ptrace request p k c m a :
    p ≠ pid ∨ stopped c = false → a_rc a = -1 → debug_step (System (Call (c_ptrace request p) k) c m) (System (k a) c m)
| d_reported k nr x e m a :
    a_rc a = pid → a_status a = trap_status →
    debug_step (System (Call (c_waitpid pid) k) (Some (Stops false nr x e)) m) (System (k a) (Some (Stops true nr x e)) m)
| d_reaped k st m a :
    a_rc a = pid → a_status a = st → debug_step (System (Call (c_waitpid pid) k) (Some (Ends st)) m) (System (k a) None m)
| d_child x c c' m m' : child_step c m c' m' → debug_step (System x (Some c) m) (System x (Some c') m').

(** At the start there is one process, and no context yet. *)
Definition debug_initial (junk : Z) (m : spu) : traced := System (debug_01_single_step junk) None m.
End kernel.

(** ** The test passes *)

Definition single_step_listing : list insn := [nop; nop; nop; nop; stop 0x1337].

Definition image (m : spu) : Prop := listed (ls m) 0 single_step_listing.

Lemma nop_step r l i :
  listed l 0 single_step_listing → (i < 4)%nat → spu_step (Spu r l (4 * Z.of_nat i)) = Next (Spu r l (4 * Z.of_nat (S i))).
Proof. intros H Hi. do 4 (destruct i as [|i]; [by erewrite step_exec by spu_decode H|]). lia. Qed.

Lemma stop_at_end r l :
  listed l 0 single_step_listing → ∃ m, spu_step (Spu r l (4 * Z.of_nat 4)) = Stopped 0x1337 m ∧ ls m = l.
Proof. intros H. eexists. by erewrite step_exec by spu_decode H. Qed.

(** Where the run is after some instructions. *)
Lemma nop_steps r l j i m :
  listed l 0 single_step_listing → (i ≤ 4)%nat → nsteps spu_next j (Spu r l (4 * Z.of_nat i)) m →
  (i + j ≤ 4)%nat ∧ m = Spu r l (4 * Z.of_nat (i + j)).
Proof.
  intros H. revert i. induction j as [|j IH]; intros i Hi Hs; inversion Hs as [|? ? m1 ? H1 H2]; subst.
  - rewrite Nat.add_0_r. by split.
  - destruct (decide (i = 4)%nat) as [->|]; [destruct (stop_at_end r l H) as (m' & Hm' & _); unfold spu_next in H1; congruence|].
    unfold spu_next in H1. rewrite nop_step in H1 by (done || lia). injection H1 as <-.
    replace (i + S j)%nat with (S i + j)%nat by lia. apply IH; [lia|done].
Qed.

Lemma image_stored m base :
  image (set_ls (mapped (store_bytes (ls_byte (ls m)) (base - base) (words single_step_program)) 0) m).
Proof.
  rewrite Z.sub_diag. intros i x Hi.
  assert (∃ v, single_step_program !! i = Some v ∧ decode v = Some x) as (v & Hv & <-).
  { do 5 (destruct i as [|i]; [injection Hi as <-; by eexists|]). done. }
  f_equal. apply mapped_program; [done|]. do 5 (destruct i as [|i]; [injection Hv as <-; by vm_compute|]). done.
Qed.

Section props.
Context (strerror : Z → bytes) (ctx base pid : Z) (group : nat).
Context (Hctx : 0 ≤ ctx < 2 ^ 31) (Hbase : base ≠ MAP_FAILED) (Hpid : 0 ≤ pid) (Hgroup : (0 < group ≤ 4)%nat).

#[local] Abbreviation step := (debug_step strerror ctx base pid group).
#[local] Abbreviation cstep := (child_step strerror group).
#[local] Abbreviation code := (debug_code strerror).

(** *** [spu_run] with single steps *)

(** From the instruction [i] it is interrupted at a later one, or it stops, and then
    it was not the first run. *)
Lemma stepped_run i m a m' :
  image m → (i ≤ 4)%nat → spu_runs group true m (4 * Z.of_nat i) a m' →
  image m' ∧
  ((∃ i', (i < i' ≤ 4)%nat ∧ a_rc a = -1 ∧ a_errno a = ERESTARTSYS ∧ a_npc a = 4 * Z.of_nat i') ∨
   (0 < i)%nat ∧ a_rc a = stop_status 0x1337).
Proof.
  intros Him Hi Hr. remember (4 * Z.of_nat i) as entry eqn:Ee.
  destruct Hr as [j m entry m1 code m2 a Hj Hs Hst Ha Hn|j m entry m1 a _ Hj Hs Ha He Hn]; subst entry;
    destruct (nop_steps (regs m) (ls m) _ _ _ Him Hi Hs) as [Hle ->].
  - destruct (decide (i + j = 4)%nat) as [E|E].
    + rewrite E in Hst. destruct (stop_at_end (regs m) (ls m) Him) as (m' & Hm & Hl). rewrite Hm in Hst. injection Hst as <- <-.
      unfold image. rewrite Hl. split; [done|]. right. split; [specialize (Hj eq_refl); lia|done].
    + rewrite nop_step in Hst by (done || lia). done.
  - split; [done|]. left. exists (i + j)%nat. split_and!; [lia|lia|done..].
Qed.

Lemma stepped_run_exists i m : image m → (i ≤ 4)%nat → ∃ a m', spu_runs group true m (4 * Z.of_nat i) a m'.
Proof.
  intros Him Hi. destruct m as [r l p]. destruct (decide (i = 4)%nat) as [->|Hn].
  - destruct (stop_at_end r l Him) as (m' & Hm & _).
    exists (Ans (stop_status 0x1337) 0 (pc m') (Statbuf 0 0 0 0 0) [] (0, 0) 0 []), m'.
    by eapply (run_stops group true 0%nat); [lia|constructor|exact Hm|..].
  - exists (Ans (-1) ERESTARTSYS (4 * Z.of_nat (S i)) (Statbuf 0 0 0 0 0) [] (0, 0) 0 []), (Spu r l (4 * Z.of_nat (S i))).
    eapply (run_interrupted group true 1%nat); [done|lia| |done..].
    eapply nsteps_l; [|constructor]. apply nop_step; [exact Him|lia].
Qed.

(** *** Where the child is *)

(** The child is at [x], with so much to do. *)
Inductive place : debug → bool → Z → Prop :=
| pl_loop i s : (i ≤ 4)%nat → s = true ∨ i = 0%nat → place (Goto (checking ctx (4 * Z.of_nat i) s)) false (48 - 10 * Z.of_nat i)
| pl_call i s : (i ≤ 4)%nat → s = true ∨ i = 0%nat → place (code (checking ctx (4 * Z.of_nat i) s)) false (47 - 10 * Z.of_nat i)
| pl_line t i e : (i ≤ 4)%nat → place (Print t (Goto (checking ctx (4 * Z.of_nat i) true))) e (if e then 49 - 10 * Z.of_nat i else 50 - 10 * Z.of_nat i)
| pl_last t e : place (Print t (exit 0)) e (if e then 2 else 3)
| pl_exit : place (exit 0) false 1.

Lemma place_pos x e n : place x e n → 0 < n.
Proof. destruct 1; try destruct e; lia. Qed.

(** It is in [spu_run], at the entry of the call. *)
Definition in_run (i : nat) (s : bool) : debug := code (checking ctx (4 * Z.of_nat i) s).

Lemma after_run i s a : 
  (i ≤ 4)%nat → s = true ∨ i = 0%nat →
  (∃ i', (i < i' ≤ 4)%nat ∧ a_rc a = -1 ∧ a_errno a = ERESTARTSYS ∧ a_npc a = 4 * Z.of_nat i') ∨
    (0 < i)%nat ∧ a_rc a = stop_status 0x1337 →
  ∃ n, place (check_status strerror ctx s a) false n ∧ n < 46 - 10 * Z.of_nat i.
Proof.
  intros Hi Hs [(i' & Hi' & Hrc & He & Hn)|[Hpos Hrc]]; unfold check_status; rewrite Hrc.
  - change (wraps 32 (-1)) with (-1). rewrite He, Hn. change (-1 =? -1) with true. cbn iota.
    change (negb (ERESTARTSYS =? ERESTARTSYS)) with false. cbn iota. rewrite wrapu_small by lia.
    eexists. split; [by apply pl_line; lia|]. cbn iota. lia.
  - destruct Hs as [-> | ->]; [|lia]. change (wraps 32 (stop_status 0x1337)) with 0x13370002.
    change (0x13370002 =? -1) with false. change (0x13370002 =? 0x13370002) with true. cbn iota.
    eexists. split; [apply pl_last|]. lia.
Qed.

(** *** Where both are *)

Inductive both : debug → tracee → Z → Prop :=
| b_free st : both (waits_step pid st) (Runs Free (check_spu_run ctx) false) 502
| b_raises st : both (waits_step pid st) (Runs Traced (check_raise ctx) false) 492
| b_stepped st nr x e n : place x e n → both (waits_step pid st) (Stops false nr x e) (10 * n + 7)
| b_steps st i s : (i ≤ 4)%nat → s = true ∨ i = 0%nat →
    both (waits_step pid st) (Runs Stepping (in_run i s) true) (462 - 100 * Z.of_nat i)
| b_top st seen nr x e n : place x e n → both (Goto (tracing pid st)) (Stops seen nr x e) (10 * n + 4)
| b_sys st seen nr x e n : place x e n → both (code (tracing pid st)) (Stops seen nr x e) (10 * n + 3)
| b_runs st x e n : place x e n → both (waits_syscall strerror pid st) (Runs ToSyscall x e) (10 * n + 2)
| b_stops st nr x e n : NR_other nr → place x e n → both (waits_syscall strerror pid st) (Stops false nr x e) (10 * n + 7)
| b_in st i s : (i ≤ 4)%nat → s = true ∨ i = 0%nat →
    both (waits_syscall strerror pid st) (Stops false NR_spu_run (in_run i s) true) (467 - 100 * Z.of_nat i)
| b_ends st : both (waits_syscall strerror pid st) (Ends 0) 7
| b_regs st seen nr x e n : NR_other nr → place x e n → both (gets_regs strerror pid st) (Stops seen nr x e) (10 * n + 6)
| b_regs_in st seen i s : (i ≤ 4)%nat → s = true ∨ i = 0%nat →
    both (gets_regs strerror pid st) (Stops seen NR_spu_run (in_run i s) true) (466 - 100 * Z.of_nat i)
| b_single st seen i s : (i ≤ 4)%nat → s = true ∨ i = 0%nat →
    both (single_steps strerror pid st) (Stops seen NR_spu_run (in_run i s) true) (465 - 100 * Z.of_nat i).

Lemma both_pos x c n : both x c n → 0 < n.
Proof. destruct 1; try match goal with H : place _ _ _ |- _ => apply place_pos in H end; lia. Qed.

(** *** A step of the child *)

Lemma spu_run_step how fd n s k m c' m' :
  cstep (Runs how (Call (SYS_spu_run fd (Some n) s) k) true) m c' m' →
  (how = Stepping ∧ ∃ nr a, c' = Stops false nr (k a) false ∧ spu_runs group true m n a m') ∨ how = ToSyscall.
Proof. intros H. inversion H; simplify_eq; [by right|left; eauto 10]. Qed.

Lemma tracee_moves x c n m c' m' :
  both x c n → image m → cstep c m c' m' → image m' ∧ ∃ n', n' < n ∧ both x c' n'.
Proof.
  intros Hb Him Hs. destruct Hb as [st|st|st nr x e n Hp|st i s Hi Hst|st seen nr x e n Hp|st seen nr x e n Hp|st x e n Hp|
    st nr x e n Hnr Hp|st i s Hi Hst|st|st seen nr x e n Hnr Hp|st seen i s Hi Hst|st seen i s Hi Hst]; try by inversion Hs.
  - inversion Hs; simplify_eq. split; [done|]. exists 492. split; [lia|].
    match goal with H : a_rc _ = 0 |- _ => rewrite H end. apply b_raises.
  - inversion Hs; simplify_eq; try naive_solver. split; [done|]. exists (10 * 48 + 7). split; [lia|].
    apply b_stepped. apply (pl_loop 0 false); [lia|by right].
  - apply spu_run_step in Hs as [(_ & nr & a & -> & Hr)|]; [|done].
    destruct (stepped_run i m a m' Him Hi Hr) as [Him' Ha]. destruct (after_run i s a Hi Hst Ha) as (n & Hn & Hlt).
    split; [done|]. exists (10 * n + 7). split; [lia|]. by apply b_stepped.
  - destruct Hp as [i s Hi Hst|i s Hi Hst|t i e Hi|t e|].
    + inversion Hs; simplify_eq. split; [done|]. eexists. split; [|apply b_runs; by apply pl_call]. lia.
    + inversion Hs; simplify_eq; try naive_solver. split; [done|]. eexists. split; [|by apply (b_in st i s)]. lia.
    + inversion Hs; simplify_eq; (split; [done|]); eexists.
      * split; [|apply b_runs, pl_loop; [done|by left]]. lia.
      * split; [|apply b_stops, (pl_line _ _ true); done]. cbn iota. lia.
      * split; [|apply b_stops, pl_loop; [done|done|by left]]. lia.
    + inversion Hs; simplify_eq; (split; [done|]); eexists.
      * split; [|apply b_runs, pl_exit]. lia.
      * split; [|apply b_stops, (pl_last _ true); done]. cbn iota. lia.
      * split; [|apply b_stops, pl_exit; done]. lia.
    + inversion Hs; simplify_eq. split; [done|]. eexists. split; [|apply b_ends]. lia.
Qed.

(** *** A step of the parent *)

Lemma reported_status a st : a_rc a = pid → a_status a = trap_status → (if a_rc a <? 0 then st else a_status a) = trap_status.
Proof. intros -> ->. by rewrite (proj2 (Z.ltb_ge _ _) Hpid). Qed.

Lemma passes_on (x : debug) a : a_rc a = 0 → asserted (a_rc a =? 0) x = x.
Proof. by intros ->. Qed.

(** The parent comes to its end with the status of the child, or both go on. *)
Definition goes_on (s' : traced) (n : Z) : Prop :=
  parent s' = exit EXIT_SUCCESS ∨ ∃ x' c' m' n', s' = System x' (Some c') m' ∧ n' < n ∧ image m' ∧ both x' c' n'.

Lemma goes_on_both x' c' m n n' : both x' c' n' → n' < n → image m → goes_on (System x' (Some c') m) n.
Proof. intros. right. eauto 10. Qed.

Lemma traced_moves x c n m s' : both x c n → image m → step (System x (Some c) m) s' → goes_on s' n.
Proof.
  intros Hb Him Hs. remember (System x (Some c) m) as s eqn:Es.
  destruct Hs as [l c0 m0|t k c0 m0|q k c0 m0 a m' Hq|y k m0|request how k seen nr y e m0 a Hr Ha|k seen nr y e m0 a Ha Hn|
    request p k c0 m0 a Hno _|k nr y e m0 a Ha Hn|k st m0 a Ha Hn|y c0 c' m0 m' Hc]; simplify_eq.
  9: { destruct (tracee_moves _ _ _ _ _ _ Hb Him Hc) as (Him' & n' & Hlt & Hb'). by eapply goes_on_both. }
  all: inversion Hb; simplify_eq; try done; try (by inversion Hq); try (by destruct Hno).
  - eapply goes_on_both; [by apply b_sys|lia|done].
  - change (Some ToSyscall = Some how) in Hr. injection Hr as <-. rewrite passes_on by done.
    eapply goes_on_both; [by apply b_runs|lia|done].
  - change (Some Stepping = Some how) in Hr. injection Hr as <-. rewrite Ha. change (0 <? 0) with false. cbn iota. eapply goes_on_both; [by apply b_steps|lia|done].
  - rewrite passes_on by done. rewrite (proj2 (Z.eqb_neq _ _)) by done. eapply goes_on_both; [by apply b_top|lia|done].
  - rewrite passes_on by done. rewrite ?Z.eqb_refl. eapply goes_on_both; [by apply b_single|lia|done].
  - eapply goes_on_both; [by apply b_top|lia|done].
  - rewrite reported_status by done. eapply goes_on_both; [by apply b_regs|lia|done].
  - rewrite reported_status by done. eapply goes_on_both; [by apply b_regs_in|lia|done].
  - left. cbn [parent]. rewrite (proj2 (Z.ltb_ge _ _)) by lia. match goal with H : 0 = a_status a |- _ => by rewrite <- H | _ => done end.
Qed.

(** *** Something can always be done *)

Lemma place_progress x e n m : place x e n → ∃ c' m', cstep (Runs ToSyscall x e) m c' m'.
Proof.
  destruct 1 as [i s|i s|t i e|t e|]; try destruct e; eexists _, _; try (by constructor).
  all: by apply (c_write_out _ _ _ _ 4).
Qed.

Lemma traced_progress x c n m : both x c n → image m → ∃ s', step (System x (Some c) m) s'.
Proof.
  intros Hb Him. destruct Hb as [st|st|st nr x e n Hp|st i s Hi Hst|st seen nr x e n Hp|st seen nr x e n Hp|st x e n Hp|
    st nr x e n Hnr Hp|st i s Hi Hst|st|st seen nr x e n Hnr Hp|st seen i s Hi Hst|st seen i s Hi Hst].
  - eexists. apply d_child, (c_traceme _ _ _ (no_answer)). done.
  - eexists. by apply d_child, (c_raised _ _ _ _ no_answer 0).
  - eexists. by apply (d_reported _ _ _ _ _ _ _ _ _ _ (Ans pid 0 0 (Statbuf 0 0 0 0 0) [] (0, 0) trap_status [])).
  - destruct (stepped_run_exists i m Him Hi) as (a & m' & Hr). eexists. by apply d_child, (c_run_steps _ _ _ _ _ _ a 0).
  - eexists. apply d_goto.
  - eexists. by apply (d_restart _ _ _ _ _ _ ToSyscall _ _ _ _ _ _ no_answer).
  - destruct (place_progress _ _ _ m Hp) as (c' & m' & Hc). eexists. by apply d_child.
  - eexists. by apply (d_reported _ _ _ _ _ _ _ _ _ _ (Ans pid 0 0 (Statbuf 0 0 0 0 0) [] (0, 0) trap_status [])).
  - eexists. by apply (d_reported _ _ _ _ _ _ _ _ _ _ (Ans pid 0 0 (Statbuf 0 0 0 0 0) [] (0, 0) trap_status [])).
  - eexists. by apply (d_reaped _ _ _ _ _ _ _ _ (Ans pid 0 0 (Statbuf 0 0 0 0 0) [] (0, 0) 0 [])).
  - eexists. by apply (d_regs _ _ _ _ _ _ _ _ _ _ _ (Ans 0 0 0 (Statbuf 0 0 0 0 0) [] (0, 0) nr [])).
  - eexists. by apply (d_regs _ _ _ _ _ _ _ _ _ _ _ (Ans 0 0 0 (Statbuf 0 0 0 0 0) [] (0, 0) NR_spu_run [])).
  - eexists. by apply (d_restart _ _ _ _ _ _ Stepping _ _ _ _ _ _ no_answer).
Qed.

(** *** [main] before the fork *)

Inductive alone (junk : Z) : debug → spu → Z → Prop :=
| a_creates m : alone junk (debug_01_single_step junk) m 604
| a_opens m : alone junk (debug_opens ctx junk) m 603
| a_maps fd m : alone junk (debug_maps ctx junk fd) m 602
| a_stores m : alone junk (debug_stores ctx junk base) m 601
| a_forks m : image m → alone junk (debug_forks ctx junk) m 600.

Inductive inv (junk : Z) : Z → traced → Prop :=
| inv_alone x m n : alone junk x m n → inv junk n (System x None m)
| inv_both x c m n : both x c n → image m → inv junk n (System x (Some c) m)
| inv_ends s : parent s = exit EXIT_SUCCESS → inv junk 0 s.

Lemma before_fork_moves junk x m n s' : alone junk x m n → step (System x None m) s' → ∃ n', n' < n ∧ inv junk n' s'.
Proof.
  intros Ha Hs. inversion Ha; subst; inversion Hs; simplify_eq; try match goal with H : answers _ _ _ _ _ _ |- _ => inversion H; simplify_eq end.
  - match goal with H : a_rc ?a = ctx |- _ => rewrite !H end. rewrite wraps_small, (proj2 (Z.leb_le _ _)) by (change (32 - 1) with 31; lia).
    exists 603. split; [lia|]. by apply inv_alone, a_opens.
  - rewrite (proj2 (Z.leb_le _ _)) by done. exists 602. split; [lia|]. by apply inv_alone, a_maps.
  - match goal with H : a_rc ?a = base |- _ => rewrite !H end. rewrite (proj2 (Z.eqb_neq _ _)) by done. exists 601. split; [lia|]. by apply inv_alone, a_stores.
  - exists 600. split; [lia|]. apply inv_alone, a_forks, image_stored.
  - rewrite (proj2 (Z.leb_le _ _)) by done. exists 502. split; [lia|]. by apply inv_both; [apply b_free|].
Qed.

Lemma before_fork_progress junk x m n : alone junk x m n → ∃ s', step (System x None m) s'.
Proof.
  destruct 1; [..|by eexists; apply d_fork]; eexists.
  - by apply (d_call _ _ _ _ _ _ _ _ _ (Ans ctx 0 0 (Statbuf 0 0 0 0 0) [] (0, 0) 0 [])), k_create.
  - by apply (d_call _ _ _ _ _ _ _ _ _ no_answer), k_openat.
  - by apply (d_call _ _ _ _ _ _ _ _ _ (Ans base 0 0 (Statbuf 0 0 0 0 0) [] (0, 0) 0 [])), k_mmap.
  - apply d_call, k_store.
Qed.

Lemma debug_ends junk n s :
  inv junk n s → 0 ≤ n ∧ (parent s = exit EXIT_SUCCESS ∨ (∃ s', step s s') ∧ ∀ s', step s s' → ∃ n', n' < n ∧ inv junk n' s').
Proof.
  destruct 1 as [x m n Ha|x c m n Hb Him|s He].
  - split; [destruct Ha; lia|]. right. split; [by eapply before_fork_progress|]. intros s'. by apply before_fork_moves.
  - pose proof (both_pos _ _ _ Hb). split; [lia|]. right. split; [by eapply traced_progress|]. intros s' Hs.
    destruct (traced_moves _ _ _ _ _ Hb Him Hs) as [He|(x' & c' & m' & n' & -> & Hlt & Him' & Hb')].
    + exists 0. split; [lia|by apply inv_ends].
    + exists n'. split; [done|by apply inv_both].
  - split; [done|by left].
Qed.
End props.


