(* ===== verification/Lifetime.v ===== *)
(** * Two processes around a gang (tests/06-context-lifetime/03-external-reference.c)

    Processes are trees of calls; a system of them takes steps in any order.  The
    kernel answers as it likes; a [read] of an end of the socket pair waits for a
    byte, [waitpid] for the end of the child.  The calls on the socket pair do
    not fail: both processes hold both ends. *)

From S2P Require Import Prelude Runs CString SysProg SpuProps.
From stdpp Require Import relations.

Local Open Scope Z_scope.

(** ** Processes *)

(** [Exited] has the status that [waitpid] gives. *)
Inductive proc :=
| Exited (status : Z)
| Call (c : call) (k : ans → proc)
| Print (s : bytes) (k : proc)
| Write (i : bool) (k : proc)
| Read (i : bool) (k : proc)
| Fork (child : proc) (k : Z → proc)
| Wait (pid : Z) (k : option Z → proc).

Definition exit (rc : Z) : proc := Exited (256 * Z.land rc 255).
Definition aborted : proc := Exited 6.

(** [perror(s)] (its text) or [fprintf], then [return EXIT_FAILURE]. *)
Definition fail (s : bytes) : proc := Print s (exit EXIT_FAILURE).

(** The processes by pid (the first is 0), the bytes that can be read from
    [sock[0]] ([false]) and [sock[1]] ([true]), and the calls with the process
    that made them, the newest first. *)
Record system := System {
  procs : list proc; waiting : bool → nat; history : list (nat * event);
}.

Definition deposit (i : bool) (n : nat) (b : bool → nat) : bool → nat :=
  λ j, if decide (j = i) then n else b j.

Inductive step (s : system) : system → Prop :=
| step_call p c k a :
    procs s !! p = Some (Call c k) →
    step s (System (<[p:=k a]> (procs s)) (waiting s) ((p, (c, a)) :: history s))
| step_print p t k :
    procs s !! p = Some (Print t k) →
    step s (System (<[p:=k]> (procs s)) (waiting s) (history s))
| step_write p i k :
    procs s !! p = Some (Write i k) →
    step s (System (<[p:=k]> (procs s)) (deposit (negb i) (S (waiting s (negb i))) (waiting s)) (history s))
| step_read p i k n :
    procs s !! p = Some (Read i k) → waiting s i = S n →
    step s (System (<[p:=k]> (procs s)) (deposit i n (waiting s)) (history s))
| step_fork p child k :
    procs s !! p = Some (Fork child k) →
    step s (System (<[p:=k (Z.of_nat (length (procs s)))]> (procs s) ++ [child]) (waiting s) (history s))
| step_fork_fails p child k :
    procs s !! p = Some (Fork child k) →
    step s (System (<[p:=k (-1)]> (procs s)) (waiting s) (history s))
| step_wait p pid k st :
    procs s !! p = Some (Wait pid k) → procs s !! Z.to_nat pid = Some (Exited st) → 0 ≤ pid →
    step s (System (<[p:=k (Some st)]> (procs s)) (waiting s) (history s))
| step_wait_fails p pid k :
    procs s !! p = Some (Wait pid k) →
    step s (System (<[p:=k None]> (procs s)) (waiting s) (history s)).

(** ** The program *)

Section program.
Context (strerror : Z → bytes).

Definition perror (s : bytes) (a : ans) : bytes := s ++ lit ": " ++ strerror (a_errno a) ++ [newline_c].

(** [check_gang_presence_on_close], from its end; the result is 0 or -1. *)
Definition check_gone (gang_name : bytes) (k : Z → proc) : proc :=
  Call (c_stat gang_name) (λ a,
    if a_rc a =? 0 then Print (lit "gang not destroyed" ++ [newline_c]) (k (-1))
    else if negb (a_errno a =? ENOENT) then
      Print (lit "Wrong errno (" ++ fmt_d (a_errno a) ++ lit ") for stat" ++ [newline_c]) (k (-1))
    else k 0).

Definition check_close (gang_name : bytes) (fd : Z) (k : Z → proc) : proc :=
  Call (c_close fd) (λ a,
    if negb (a_rc a =? 0) then Print (perror (lit "close(fd)") a) (k (-1)) else check_gone gang_name k).

Definition check_gang_presence (gang_name : bytes) (fd : Z) (k : Z → proc) : proc :=
  Call (c_stat gang_name) (λ a,
    if negb (a_rc a =? 0) then Print (lit "gang destroyed too early" ++ [newline_c]) (k (-1))
    else check_close gang_name fd k).

(** The errors of [fork] and [waitpid] are printed without their text. *)
Definition parent_waits (pid : Z) : proc :=
  Wait pid (λ st, match st with
    | None => fail (lit "waitpid")
    | Some st => if negb (st =? 0) then exit EXIT_FAILURE else exit EXIT_SUCCESS
    end).

Definition parent_closes (gang pid : Z) : proc :=
  Call (c_close gang) (λ a,
    if negb (a_rc a =? 0) then fail (perror (lit "close(gang)") a)
    else Write false (parent_waits pid)).

Definition parent (gang pid : Z) : proc := Read false (parent_closes gang pid).

Definition exit_by (rc : Z) : proc := if negb (rc =? 0) then exit EXIT_FAILURE else exit EXIT_SUCCESS.

Definition child_checks (gang_name : bytes) (fd : Z) : proc := check_gang_presence gang_name fd exit_by.

Definition child_waits (gang_name : bytes) (fd pid : Z) : proc :=
  Wait pid (λ st, match st with
    | None => fail (lit "waitpid")
    | Some st => if negb (st =? 0) then exit EXIT_FAILURE else child_checks gang_name fd
    end).

Definition child_forks (gang_name : bytes) (fd : Z) : proc :=
  Fork (exit EXIT_SUCCESS) (λ pid,
    if pid <? 0 then fail (lit "fork") else child_waits gang_name fd pid).

Definition child_opens (gang_name : bytes) : proc :=
  Call (c_open gang_name O_RDONLY) (λ a,
    if a_rc a <? 0 then fail (perror (lit "open") a)
    else Write true (Read true (child_forks gang_name (a_rc a)))).

Definition child (gang_name : bytes) (gang : Z) : proc :=
  Call (c_close gang) (λ a,
    if negb (a_rc a =? 0) then fail (perror (lit "close") a) else child_opens gang_name).

Definition forks (gang_name : bytes) (gang : Z) : proc :=
  Fork (child gang_name gang) (λ pid,
    if pid <? 0 then fail (lit "fork") else parent gang pid).

(** [main] from its end; the counter of utils.h is 0. *)
Definition makes_sockets (gang_name : bytes) (gang : Z) : proc :=
  Call c_socketpair (λ a,
    if negb (a_rc a =? 0) then fail (perror (lit "pipe") a) else forks gang_name gang).

Definition creates_gang (gang_name : bytes) : proc :=
  Call (SYS_spu_create (Some gang_name) SPU_CREATE_GANG 0x1C0 None) (λ a,
    let gang := wraps 32 (a_rc a) in if gang <? 0 then aborted else makes_sockets gang_name gang).

Definition allocates_name (gang_name : bytes) : proc :=
  Call (c_asprintf gang_name) (λ a, if a_rc a =? -1 then aborted else creates_gang gang_name).

Definition lifetime_03_external_reference : proc :=
  Call c_getpid (λ pid, allocates_name (gang_name (a_rc pid) 0)).

Definition start : system := System [lifetime_03_external_reference] (λ _, O) [].

(** ** Where the processes are *)

Section places.
Context (name : bytes) (gang : Z).

(** The stage of the parent: the byte of the child, the close, the byte for the
    child, the end of the child. *)
Inductive parent_at : proc → nat → Prop :=
| pa_reads : parent_at (parent gang 1) 0
| pa_closes : parent_at (parent_closes gang 1) 1
| pa_close_fails t : parent_at (fail t) 1
| pa_failed n : parent_at (exit EXIT_FAILURE) (S n)
| pa_writes : parent_at (Write false (parent_waits 1)) 2
| pa_waits : parent_at (parent_waits 1) 3
| pa_wait_fails t : parent_at (fail t) 3
| pa_passed : parent_at (exit EXIT_SUCCESS) 3.

Definition closes (a : ans) : event := (c_close gang, a).
Definition opens (a : ans) : event := (c_open name O_RDONLY, a).

(** The stage of the child, with the calls it has made. *)
Inductive child_at : proc → nat → list event → Prop :=
| ca_closes : child_at (child name gang) 0 []
| ca_close_fails t a : a_rc a ≠ 0 → child_at (fail t) 0 [closes a]
| ca_opens a : a_rc a = 0 → child_at (child_opens name) 1 [closes a]
| ca_open_fails t a o : a_rc o < 0 → child_at (fail t) 1 [closes a; opens o]
| ca_failed n evs : child_at (exit EXIT_FAILURE) n evs
| ca_writes a o : a_rc a = 0 → 0 ≤ a_rc o →
    child_at (Write true (Read true (child_forks name (a_rc o)))) 2 [closes a; opens o]
| ca_reads a o : a_rc a = 0 → 0 ≤ a_rc o →
    child_at (Read true (child_forks name (a_rc o))) 3 [closes a; opens o]
| ca_forks a o : a_rc a = 0 → 0 ≤ a_rc o → child_at (child_forks name (a_rc o)) 4 [closes a; opens o]
| ca_late_fails t evs : child_at (fail t) 4 evs
| ca_waits a o pid : a_rc a = 0 → 0 ≤ a_rc o → child_at (child_waits name (a_rc o) pid) 4 [closes a; opens o]
| ca_checks a o : a_rc a = 0 → 0 ≤ a_rc o → child_at (child_checks name (a_rc o)) 4 [closes a; opens o]
| ca_check_close a o st : a_rc a = 0 → 0 ≤ a_rc o → a_rc st = 0 →
    child_at (check_close name (a_rc o) exit_by) 4 [closes a; opens o; (c_stat name, st)]
| ca_check_gone a o st cl : a_rc a = 0 → 0 ≤ a_rc o → a_rc st = 0 → a_rc cl = 0 →
    child_at (check_gone name exit_by) 4 [closes a; opens o; (c_stat name, st); (c_close (a_rc o), cl)]
| ca_passed a o e : a_rc a = 0 → 0 ≤ a_rc o → gone_on_close name (a_rc o) e →
    child_at (exit EXIT_SUCCESS) 4 ([closes a; opens o] ++ e).

(** The stages are in step, by the bytes in the socket pair. *)
Record in_step (pn cn : nat) (b : bool → nat) : Prop := {
  is_parent : (1 ≤ pn → 3 ≤ cn)%nat;
  is_child : (4 ≤ cn → 3 ≤ pn)%nat;
  is_for_parent : b false = if decide (pn = 0 ∧ 3 ≤ cn)%nat then 1%nat else 0%nat;
  is_for_child : b true = if decide (3 ≤ pn ∧ cn = 3)%nat then 1%nat else 0%nat;
}.

(** The child has opened the gang; the parent has closed it after that; no
    check came before. *)
Definition opened (h : list (nat * event)) : Prop := ∃ o, (1%nat, opens o) ∈ h ∧ 0 ≤ a_rc o.

Definition closed (h : list (nat * event)) : Prop :=
  ∃ h1 a h0, h = h1 ++ (0%nat, closes a) :: h0 ∧ a_rc a = 0 ∧ opened h0.

Definition checked_late (h : list (nat * event)) : Prop :=
  ∀ h1 n a h0, h = h1 ++ (1%nat, (c_stat n, a)) :: h0 → n = name ∧ closed h0.

Record both (s : system) (pp cp : proc) (pn cn : nat) (evs : list event) : Prop := {
  bo_procs : ∃ gs, procs s = pp :: cp :: gs ∧ Forall (λ g, g = exit EXIT_SUCCESS) gs;
  bo_parent : parent_at pp pn;
  bo_child : child_at cp cn evs;
  bo_events : events_of 1 (history s) = evs;
  bo_step : in_step pn cn (waiting s);
  bo_opened : (2 ≤ cn)%nat → opened (history s);
  bo_closed : (2 ≤ pn)%nat → closed (history s);
  bo_checked : checked_late (history s);
  bo_passed : pp = exit EXIT_SUCCESS → cp = exit EXIT_SUCCESS;
}.

Lemma opened_cons x h : opened h → opened (x :: h).
Proof. intros (o & H & Ho). exists o. split; [by right|done]. Qed.

Lemma closed_cons x h : closed h → closed (x :: h).
Proof. intros (h1 & a & h0 & -> & Ha & Ho). by exists (x :: h1), a, h0. Qed.

Lemma checked_late_cons x h :
  checked_late h → (∀ n a, x = (1%nat, (c_stat n, a)) → n = name ∧ closed h) → checked_late (x :: h).
Proof.
  intros Hh Hx h1 n a h0 E. destruct h1 as [|y h1]; cbn in E; injection E as -> ->; [|by eapply Hh]. by eapply Hx.
Qed.

(** Who can take a step. *)
Lemma who_steps s pp cp pn cn evs p X :
  both s pp cp pn cn evs → procs s !! p = Some X → (∀ st, X ≠ Exited st) →
  (p = 0%nat ∧ X = pp) ∨ (p = 1%nat ∧ X = cp).
Proof.
  intros [(gs & -> & Hgs) _ _ _ _ _ _ _ _] Hp Hx. destruct p as [|[|p]]; cbn in Hp; simplify_eq; [by left|by right|].
  eapply Forall_lookup_1 in Hgs; [|done]. by destruct (Hx _ Hgs).
Qed.

(** The parent moves to [pp'], without a call. *)
Lemma parent_moves s pp cp pn cn evs pp' pn' b :
  both s pp cp pn cn evs → parent_at pp' pn' → in_step pn' cn b → (pn' < 2 ∨ 2 ≤ pn)%nat →
  (pp' = exit EXIT_SUCCESS → cp = exit EXIT_SUCCESS) →
  both (System (<[0%nat:=pp']> (procs s)) b (history s)) pp' cp pn' cn evs.
Proof.
  intros [(gs & E & Hgs) Hp Hc He Hs Ho Hcl Hk Hps] Hp' Hs' Hn Hx. split; cbn [procs waiting history]; try done.
  - exists gs. by rewrite E.
  - intros H. apply Hcl. lia.
Qed.

(** The child moves to [cp'], without a call; a fork adds [gs']. *)
Lemma child_moves s pp cp pn cn evs cp' cn' b gs' :
  both s pp cp pn cn evs → child_at cp' cn' evs → in_step pn cn' b → (cn' < 2 ∨ 2 ≤ cn)%nat →
  cp ≠ exit EXIT_SUCCESS → Forall (λ g, g = exit EXIT_SUCCESS) gs' →
  both (System (<[1%nat:=cp']> (procs s) ++ gs') b (history s)) pp cp' pn cn' evs.
Proof.
  intros [(gs & E & Hgs) Hp Hc He Hs Ho Hcl Hk Hps] Hc' Hs' Hn Hx Hg. split; cbn [procs waiting history]; try done.
  - exists (gs ++ gs'). rewrite E. split; [done|]. by apply Forall_app.
  - intros H. apply Ho. lia.
  - intros H. by destruct (Hx (Hps H)).
Qed.

Lemma parent_closes_step s cp cn evs a :
  both s (parent_closes gang 1) cp 1 cn evs →
  ∃ pp' pn', both (System (<[0%nat:=if negb (a_rc a =? 0) then fail (perror (lit "close(gang)") a)
                                    else Write false (parent_waits 1)]> (procs s))
                   (waiting s) ((0%nat, closes a) :: history s)) pp' cp pn' cn evs.
Proof.
  intros [(gs & E & Hgs) Hp Hc He Hs Ho Hcl Hk Hps]. destruct (Z.eqb_spec (a_rc a) 0) as [Ha|Ha]; cbn [negb].
  - exists (Write false (parent_waits 1)), 2%nat. split; cbn [procs waiting history]; try done.
    + exists gs. by rewrite E.
    + constructor.
    + by rewrite events_of_cons, app_nil_r.
    + destruct Hs as [H1 H2 H3 H4]. split; [lia|lia|..]; rewrite ?H3, ?H4; repeat case_decide; lia.
    + intros H. by apply opened_cons, Ho.
    + intros _. exists [], a, (history s). split; [done|]. split; [done|]. apply Ho. destruct Hs. lia.
    + apply checked_late_cons; [done|]. by intros ? ?.
  - exists (fail (perror (lit "close(gang)") a)), 1%nat. split; cbn [procs waiting history]; try done.
    + exists gs. by rewrite E.
    + constructor.
    + by rewrite events_of_cons, app_nil_r.
    + intros H. by apply opened_cons, Ho.
    + lia.
    + apply checked_late_cons; [done|]. by intros ? ?.
Qed.

(** The child makes a call and moves to [cp']. *)
Lemma child_calls s pp cp pn cn evs cp' cn' c a :
  both s pp cp pn cn evs → cp ≠ exit EXIT_SUCCESS → child_at cp' cn' (evs ++ [(c, a)]) →
  in_step pn cn' (waiting s) →
  ((2 ≤ cn')%nat → (2 ≤ cn)%nat ∨ ((c, a) = opens a ∧ 0 ≤ a_rc a)) →
  (∀ n, c = c_stat n → n = name ∧ (2 ≤ pn)%nat) →
  both (System (<[1%nat:=cp']> (procs s)) (waiting s) ((1%nat, (c, a)) :: history s))
    pp cp' pn cn' (evs ++ [(c, a)]).
Proof.
  intros [(gs & E & Hgs) Hp Hc He Hs Ho Hcl Hk Hps] Hx Hc' Hs' Hopen Hstat. split; cbn [procs waiting history]; try done.
  - exists gs. by rewrite E.
  - by rewrite events_of_cons, He.
  - intros H. destruct (Hopen H) as [H2|[-> H2]]; [by apply opened_cons, Ho|]. exists a. split; [by left|done].
  - intros H. by apply closed_cons, Hcl.
  - apply checked_late_cons; [done|]. intros n x Ex. injection Ex as -> _. destruct (Hstat n eq_refl) as [-> H]. split; [done|by apply Hcl].
  - intros H. by destruct (Hx (Hps H)).
Qed.

Lemma in_step_calls pn cn cn' b : in_step pn cn b → (cn ≤ 2)%nat → (cn' ≤ 2)%nat → in_step pn cn' b.
Proof. intros [H1 H2 H3 H4] Hc Hc'. split; [lia|lia|..]; rewrite ?H3, ?H4; repeat case_decide; lia. Qed.

Lemma gone_so_far fd st cl e :
  a_rc st = 0 → a_rc cl = 0 → a_rc e ≠ 0 → a_errno e = ENOENT →
  gone_on_close name fd [(c_stat name, st); (c_close fd, cl); (c_stat name, e)].
Proof. intros. by exists st, cl, e. Qed.

(** Where a call takes the child. *)
Lemma child_call_at c k cn evs a :
  child_at (Call c k) cn evs →
  ∃ cn', child_at (k a) cn' (evs ++ [(c, a)]) ∧ (cn' = cn ∨ (cn ≤ 2 ∧ cn' ≤ 2))%nat ∧
    ((2 ≤ cn')%nat → (2 ≤ cn)%nat ∨ ((c, a) = opens a ∧ 0 ≤ a_rc a)) ∧
    (∀ n, c = c_stat n → n = name ∧ (4 ≤ cn)%nat).
Proof.
  intros Hc. inversion Hc; subst; clear Hc; cbn [app].
  - destruct (Z.eqb_spec (a_rc a) 0) as [Ha|Ha]; cbn [negb]; [exists 1%nat|exists 0%nat];
      (split; [by constructor|]); (split; [lia|]); (split; [lia|done]).
  - destruct (Z.ltb_spec (a_rc a) 0) as [Ha|Ha]; [exists 1%nat|exists 2%nat];
      (split; [by constructor|]); (split; [lia|]); (split; [by first [lia|right]|done]).
  - exists 4%nat. split; [|split_and!; [by left|left; lia|by intros n [= <-]]].
    destruct (Z.eqb_spec (a_rc a) 0) as [Ha|Ha]; cbn [negb]; by constructor.
  - exists 4%nat. split; [|split_and!; [by left|left; lia|by intros n [= <-]]].
    destruct (Z.eqb_spec (a_rc a) 0) as [Ha|Ha]; cbn [negb]; by constructor.
  - exists 4%nat. split; [|split_and!; [by left|left; lia|by intros n [= <-]]].
    destruct (Z.eqb_spec (a_rc a) 0) as [Ha|Ha]; [constructor|].
    destruct (Z.eqb_spec (a_errno a) ENOENT) as [He|He]; cbn [negb]; [|constructor].
    by apply (ca_passed _ _ [_; _; _]); [..|apply gone_so_far].
Qed.

Lemma child_call_step s pp pn cn evs c k a :
  both s pp (Call c k) pn cn evs →
  ∃ cp' cn' evs', both (System (<[1%nat:=k a]> (procs s)) (waiting s) ((1%nat, (c, a)) :: history s)) pp cp' pn cn' evs'.
Proof.
  intros Hb. pose proof (bo_step _ _ _ _ _ _ Hb) as Hs.
  destruct (child_call_at c k cn evs a (bo_child _ _ _ _ _ _ Hb)) as (cn' & Hc & Hcn & Ho & Hst).
  exists (k a), cn', (evs ++ [(c, a)]). eapply child_calls; try done.
  - destruct Hcn as [->|[H1 H2]]; [done|by eapply in_step_calls].
  - intros n H. apply Hst in H as [-> H]. split; [done|]. destruct Hs. lia.
Qed.

Definition together (s : system) : Prop := ∃ pp cp pn cn evs, both s pp cp pn cn evs.

Lemma together_parent s pp cp pn cn evs pp' pn' b :
  both s pp cp pn cn evs → parent_at pp' pn' → in_step pn' cn b → (pn' < 2 ∨ 2 ≤ pn)%nat →
  (pp' = exit EXIT_SUCCESS → cp = exit EXIT_SUCCESS) →
  together (System (<[0%nat:=pp']> (procs s)) b (history s)).
Proof. intros. exists pp', cp, pn', cn, evs. by eapply parent_moves. Qed.

Lemma together_child s pp cp pn cn evs cp' cn' b :
  both s pp cp pn cn evs → child_at cp' cn' evs → in_step pn cn' b → (cn' < 2 ∨ 2 ≤ cn)%nat →
  cp ≠ exit EXIT_SUCCESS →
  together (System (<[1%nat:=cp']> (procs s)) b (history s)).
Proof.
  intros. exists pp, cp', pn, cn', evs. rewrite <- (app_nil_r (<[1%nat:=cp']> (procs s))). by eapply child_moves.
Qed.

(** A byte is put or taken. *)
Ltac in_step_moves :=
  let E0 := fresh "E0" in let E1 := fresh "E1" in
  lazymatch goal with H : in_step _ _ _ |- _ => destruct H as [? ? E0 E1] end;
  split; unfold deposit; cbn; try lia; rewrite ?E0, ?E1 in *; repeat case_decide; lia.

Lemma parent_steps s pp cp pn cn evs X :
  both s pp cp pn cn evs → procs s !! 0%nat = Some X → X = pp →
  match X with
  | Exited _ => True
  | Call c k => ∀ a, together (System (<[0%nat:=k a]> (procs s)) (waiting s) ((0%nat, (c, a)) :: history s))
  | Print _ k => together (System (<[0%nat:=k]> (procs s)) (waiting s) (history s))
  | Write i k => together (System (<[0%nat:=k]> (procs s)) (deposit (negb i) (S (waiting s (negb i))) (waiting s)) (history s))
  | Read i k => ∀ n, waiting s i = S n → together (System (<[0%nat:=k]> (procs s)) (deposit i n (waiting s)) (history s))
  | Fork _ _ => False
  | Wait pid k =>
      (∀ st, procs s !! Z.to_nat pid = Some (Exited st) →
        together (System (<[0%nat:=k (Some st)]> (procs s)) (waiting s) (history s))) ∧
      together (System (<[0%nat:=k None]> (procs s)) (waiting s) (history s))
  end.
Proof.
  intros Hb Hp ->. pose proof (bo_parent _ _ _ _ _ _ Hb) as Ha. pose proof (bo_step _ _ _ _ _ _ Hb) as Hs.
  destruct Ha; cbn; try done.
  - intros n Hn. eapply together_parent; [done|constructor| |lia|done]. in_step_moves.
  - intros a. destruct (parent_closes_step s cp cn evs a Hb) as (pp' & pn' & H). by exists pp', cp, pn', cn, evs.
  - eapply together_parent; [done|apply (pa_failed 0)|done|lia|done].
  - eapply together_parent; [done|constructor| |lia|done]. in_step_moves.
  - destruct (bo_procs _ _ _ _ _ _ Hb) as (gs & E & _). split.
    + intros st Hst. rewrite E in Hst. cbn in Hst. injection Hst as ->.
      destruct (Z.eqb_spec st 0) as [->|Hst]; cbn [negb].
      * eapply together_parent; [done|constructor|done|lia|done].
      * eapply together_parent; [done|apply (pa_failed 2)|done|lia|done].
    + eapply together_parent; [done|constructor|done|lia|done].
  - eapply together_parent; [done|apply (pa_failed 2)|done|lia|done].
Qed.

Lemma child_steps s pp cp pn cn evs :
  both s pp cp pn cn evs →
  match cp with
  | Exited _ => True
  | Call c k => ∀ a, together (System (<[1%nat:=k a]> (procs s)) (waiting s) ((1%nat, (c, a)) :: history s))
  | Print _ k => together (System (<[1%nat:=k]> (procs s)) (waiting s) (history s))
  | Write i k => together (System (<[1%nat:=k]> (procs s)) (deposit (negb i) (S (waiting s (negb i))) (waiting s)) (history s))
  | Read i k => ∀ n, waiting s i = S n → together (System (<[1%nat:=k]> (procs s)) (deposit i n (waiting s)) (history s))
  | Fork ch k =>
      together (System (<[1%nat:=k (Z.of_nat (length (procs s)))]> (procs s) ++ [ch]) (waiting s) (history s)) ∧
      together (System (<[1%nat:=k (-1)]> (procs s)) (waiting s) (history s))
  | Wait pid k => ∀ st, together (System (<[1%nat:=k st]> (procs s)) (waiting s) (history s))
  end.
Proof.
  intros Hb. pose proof (bo_child _ _ _ _ _ _ Hb) as Hc. pose proof (bo_step _ _ _ _ _ _ Hb) as Hs.
  destruct cp as [st|c k|t k|i k|i k|ch k|pid k]; cbn.
  - done.
  - intros a. destruct (child_call_step s pp pn cn evs c k a Hb) as (cp' & cn' & evs' & H). by exists pp, cp', pn, cn', evs'.
  - assert (k = exit EXIT_FAILURE) as -> by (by inversion Hc).
    eapply together_child; [done|apply (ca_failed cn)|done|lia|done].
  - inversion Hc; subst. eapply together_child; [done|by constructor| |lia|done]. in_step_moves.
  - inversion Hc; subst. intros n Hn. eapply together_child; [done|by constructor| |lia|done]. in_step_moves.
  - inversion Hc; subst. split.
    + eexists pp, _, pn, 4%nat, _. eapply child_moves; [done| |done|lia|done|by constructor].
      rewrite (proj2 (Z.ltb_ge _ _)) by lia. by constructor.
    + eapply together_child; [done|by constructor|done|lia|done].
  - inversion Hc; subst. intros [st|]; [destruct (st =? 0); cbn [negb]|];
      (eapply together_child; [done|by constructor|done|lia|done]).
Qed.

(** Every step keeps the two processes in step. *)
Lemma together_step s s' : together s → step s s' → together s'.
Proof.
  intros (pp & cp & pn & cn & evs & Hb) Hst.
  assert (∀ p X, procs s !! p = Some X → (∀ st, X ≠ Exited st) → (p = 0%nat ∧ X = pp) ∨ (p = 1%nat ∧ X = cp)) as Hwho.
  { intros p X. by apply (who_steps s pp cp pn cn evs). }
  pose proof (child_steps _ _ _ _ _ _ Hb) as Hc. destruct (bo_procs _ _ _ _ _ _ Hb) as (gs & E & _).
  assert (procs s !! 0%nat = Some pp) as E0 by by rewrite E.
  pose proof (parent_steps _ _ _ _ _ _ _ Hb E0 eq_refl) as Hp.
  destruct Hst as [p c k a H|p t k H|p i k H|p i k n H Hn|p ch k H|p ch k H|p pid k st H Hst Hpid|p pid k H];
    destruct (Hwho p _ H ltac:(done)) as [[-> <-]|[-> <-]]; cbn in Hp, Hc.
  - apply Hp.
  - apply Hc.
  - exact Hp.
  - exact Hc.
  - exact Hp.
  - exact Hc.
  - by apply Hp.
  - by apply Hc.
  - done.
  - apply Hc.
  - done.
  - apply Hc.
  - by apply Hp.
  - apply Hc.
  - apply Hp.
  - apply Hc.
Qed.
End places.

(** *** Before the fork *)

(** The gang was created by the first process. *)
Definition made (name : bytes) (gang : Z) (h : list (nat * event)) : Prop :=
  ∃ c, (0%nat, (SYS_spu_create (Some name) SPU_CREATE_GANG 0x1C0 None, c)) ∈ h ∧ gang = created c ∧ 0 ≤ gang.

Inductive alone_at (h : list (nat * event)) : proc → Prop :=
| al_starts : alone_at h lifetime_03_external_reference
| al_allocates name : alone_at h (allocates_name name)
| al_creates name : alone_at h (creates_gang name)
| al_sockets name gang : made name gang h → alone_at h (makes_sockets name gang)
| al_forks name gang : made name gang h → alone_at h (forks name gang)
| al_fails t : alone_at h (fail t)
| al_failed : alone_at h (exit EXIT_FAILURE)
| al_aborted : alone_at h aborted.

Record alone (s : system) (pp : proc) : Prop := {
  al_procs : procs s = [pp];
  al_waiting : ∀ i, waiting s i = 0%nat;
  al_history : Forall (λ x : nat * event, x.1 = 0%nat) (history s);
  al_at : alone_at (history s) pp;
}.

Definition inv (s : system) : Prop :=
  (∃ pp, alone s pp) ∨ (∃ name gang, made name gang (history s) ∧ together name gang s).

Lemma start_alone : alone start lifetime_03_external_reference.
Proof. split; [done|done|constructor|constructor]. Qed.

Lemma step_history s s' : step s s' → history s' = history s ∨ ∃ x, history s' = x :: history s.
Proof. destruct 1; cbn; eauto. Qed.

Lemma made_step name gang s s' : made name gang (history s) → step s s' → made name gang (history s').
Proof.
  intros (c & Hin & Hc) [->|[x ->]]%step_history; exists c; (split; [|done]); [done|by right].
Qed.

Lemma alone_forks s name gang :
  alone s (forks name gang) →
  together name gang (System (<[0%nat:=parent gang 1]> (procs s) ++ [child name gang]) (waiting s) (history s)).
Proof.
  intros [E Hw Hh _]. exists (parent gang 1), (child name gang), 0%nat, 0%nat, [].
  assert (∀ x, (1%nat, x) ∉ history s) as Hno.
  { intros x Hx. rewrite Forall_forall in Hh. by apply Hh in Hx. }
  split; cbn [procs waiting history]; try lia; try done.
  - exists []. by rewrite E.
  - constructor.
  - constructor.
  - apply events_of_other. eapply Forall_impl; [exact Hh|]. by intros x ->.
  - split; [lia|lia|by rewrite Hw|by rewrite Hw].
  - intros h1 n a h0 Eh. exfalso. apply (Hno (c_stat n, a)). rewrite Eh. apply elem_of_app. right. by left.
Qed.

Lemma alone_moves s pp pp' b :
  alone s pp → alone_at (history s) pp' → (∀ i, b i = 0%nat) →
  inv (System (<[0%nat:=pp']> (procs s)) b (history s)).
Proof. intros [E Hw Hh Ha] Ha' Hb. left. exists pp'. split; cbn; [by rewrite E|done..]. Qed.

Lemma alone_calls s pp pp' c a :
  alone s pp → alone_at ((0%nat, (c, a)) :: history s) pp' →
  inv (System (<[0%nat:=pp']> (procs s)) (waiting s) ((0%nat, (c, a)) :: history s)).
Proof. intros [E Hw Hh Ha] Ha'. left. exists pp'. split; cbn; [by rewrite E|done|by constructor|done]. Qed.

Lemma made_cons name gang x h : made name gang h → made name gang (x :: h).
Proof. intros (c & Hin & Hc). exists c. split; [by right|done]. Qed.

Lemma alone_step s s' pp : alone s pp → step s s' → inv s'.
Proof.
  intros Hal Hst. pose proof Hal as [E Hw Hh Ha].
  assert (∀ p X, procs s !! p = Some X → p = 0%nat ∧ X = pp) as Hwho.
  { intros p X. rewrite E. destruct p; cbn; naive_solver. }
  destruct Hst as [p c k a H|p t k H|p i k H|p i k n H Hn|p ch k H|p ch k H|p pid k st H Hst Hpid|p pid k H];
    destruct (Hwho p _ H) as [-> <-].
  - apply (alone_calls _ _ _ _ _ Hal). inversion Ha; subst.
    + constructor.
    + destruct (a_rc a =? -1); constructor.
    + cbn zeta. destruct (Z.ltb_spec (wraps 32 (a_rc a)) 0); constructor. exists a. split; [by left|done].
    + destruct (negb (a_rc a =? 0)); constructor. by apply made_cons.
  - eapply alone_moves; [done| |done]. inversion Ha. constructor.
  - by inversion Ha.
  - by inversion Ha.
  - inversion Ha; subst. right. eexists name, gang. split; [done|]. rewrite E. cbn [length].
    rewrite <- E. by apply alone_forks.
  - eapply alone_moves; [done| |done]. inversion Ha. cbn. constructor.
  - by inversion Ha.
  - by inversion Ha.
Qed.

Lemma reachable_inv s : rtc step start s → inv s.
Proof.
  apply reachable_invariant; [left; eexists; apply start_alone|].
  intros s1 s2 [[pp Ha]|(name & gang & Hm & Ht)] Hst.
  - by eapply alone_step.
  - right. exists name, gang. split; [by eapply made_step|by eapply together_step].
Qed.

(** C36 [external_reference_order]: in whatever order the two processes run, every
    look of the child at the gang (its [stat]) comes after the parent has closed
    the descriptor that created it, and that after the child has opened it; and
    when the parent returns success the child has seen the gang, closed its
    descriptor and then not seen it any more (ENOENT), and made no other call. *)
Theorem external_reference_order s :
  rtc step start s →
  (∀ h1 name a h0, history s = h1 ++ (1%nat, (c_stat name, a)) :: h0 →
     ∃ gang h2 cl h3 o, h0 = h2 ++ (0%nat, (c_close gang, cl)) :: h3 ∧ a_rc cl = 0 ∧ made name gang (history s) ∧
       (1%nat, (c_open name O_RDONLY, o)) ∈ h3 ∧ 0 ≤ a_rc o) ∧
  (procs s !! 0%nat = Some (exit EXIT_SUCCESS) →
     ∃ name gang cl o e, made name gang (history s) ∧
       events_of 1 (history s) = [(c_close gang, cl); (c_open name O_RDONLY, o)] ++ e ∧
       a_rc cl = 0 ∧ 0 ≤ a_rc o ∧ gone_on_close name (a_rc o) e).
Proof.
  intros [[pp [E Hw Hh Ha]]|(name & gang & Hm & pp & cp & pn & cn & evs & Hb)]%reachable_inv; split.
  - intros h1 name a h0 Eh. exfalso. rewrite Eh in Hh. apply Forall_app in Hh as [_ Hh].
    by apply Forall_cons in Hh as [Hh _].
  - rewrite E. intros [= ->]. by inversion Ha.
  - intros h1 name' a h0 Eh. apply (bo_checked _ _ _ _ _ _ _ _ Hb) in Eh as [-> (h2 & cl & h3 & -> & Hcl & o & Ho & Hrc)].
    by exists gang, h2, cl, h3, o.
  - destruct (bo_procs _ _ _ _ _ _ _ _ Hb) as (gs & E & _). rewrite E. intros [= ->].
    pose proof (bo_passed _ _ _ _ _ _ _ _ Hb eq_refl) as ->. pose proof (bo_child _ _ _ _ _ _ _ _ Hb) as Hc.
    inversion Hc; subst. exists name, gang. rewrite (bo_events _ _ _ _ _ _ _ _ Hb). by eexists _, _, _.
Qed.

(** [external_reference_hangs]: when the child ends without having opened the
    gang (its [close] or [open] failed), the test does not end: the parent waits
    for a byte that nobody will send, as it holds the other end of the socket
    pair itself, and no process can take a step. *)
Theorem external_reference_hangs s st :
  rtc step start s → procs s !! 1%nat = Some (Exited st) →
  (∀ name o, (1%nat, (c_open name O_RDONLY, o)) ∈ history s → a_rc o < 0) →
  (∃ k, procs s !! 0%nat = Some (Read false k)) ∧ ∀ s', ¬ step s s'.
Proof.
  intros [[pp [E _ _ _]]|(name & gang & _ & pp & cp & pn & cn & evs & Hb)]%reachable_inv Hst Hno; [by rewrite E in Hst|].
  destruct (bo_procs _ _ _ _ _ _ _ _ Hb) as (gs & E & _). pose proof Hst as Hcp. rewrite E in Hcp. cbn in Hcp. injection Hcp as ->.
  assert (cn ≤ 1)%nat as Hcn.
  { destruct (decide (2 ≤ cn)%nat) as [H|]; [|lia]. apply (bo_opened _ _ _ _ _ _ _ _ Hb) in H as (o & Hin & Ho).
    apply Hno in Hin. lia. }
  destruct (bo_step _ _ _ _ _ _ _ _ Hb) as [H1 H2 Hw _]. assert (pn = 0%nat) as -> by lia.
  rewrite decide_False in Hw by lia. pose proof (bo_parent _ _ _ _ _ _ _ _ Hb) as Hp. inversion Hp; subst.
  split; [rewrite E; by eexists|]. intros s' Hs.
  assert (∀ p X, procs s !! p = Some X → (∀ st, X ≠ Exited st) → X = parent gang 1) as Hwho.
  { intros p X HX Hne. destruct (who_steps _ _ _ _ _ _ _ _ _ _ Hb HX Hne) as [[_ ->]|[_ ->]]; [done|]. by destruct (Hne st). }
  inversion Hs as [p c k a H|p t k H|p i k H|p i k n H Hn|p ch k H|p ch k H|p pid k x H Hx Hpid|p pid k H];
    apply Hwho in H; try done. injection H as -> _. lia.
Qed.
End program.

(** ** Runs *)

(** Process [p] takes its step; [a] answers a call, a fork or wait succeeds. *)
Definition advance (s : system) (m : nat * ans) : option system :=
  let '(p, a) := m in
  let go x := Some (System (<[p:=x]> (procs s)) (waiting s) (history s)) in
  match procs s !! p with
  | Some (Call c k) => Some (System (<[p:=k a]> (procs s)) (waiting s) ((p, (c, a)) :: history s))
  | Some (Print _ k) => go k
  | Some (Write i k) =>
      Some (System (<[p:=k]> (procs s)) (deposit (negb i) (S (waiting s (negb i))) (waiting s)) (history s))
  | Some (Read i k) =>
      match waiting s i with
      | S n => Some (System (<[p:=k]> (procs s)) (deposit i n (waiting s)) (history s))
      | O => None
      end
  | Some (Fork child k) =>
      Some (System (<[p:=k (Z.of_nat (length (procs s)))]> (procs s) ++ [child]) (waiting s) (history s))
  | Some (Wait pid k) =>
      if pid <? 0 then None
      else match procs s !! Z.to_nat pid with Some (Exited st) => go (k (Some st)) | _ => None end
  | _ => None
  end.

Fixpoint schedule (s : system) (ms : list (nat * ans)) : option system :=
  match ms with
  | [] => Some s
  | m :: ms => match advance s m with Some s => schedule s ms | None => None end
  end.

Lemma advance_step s m s' : advance s m = Some s' → step s s'.
Proof.
  destruct m as [p a]. unfold advance. destruct (procs s !! p) as [[st|c k|t k|i k|i k|ch k|pid k]|] eqn:E; try done.
  - intros [= <-]. by apply step_call.
  - intros [= <-]. by eapply step_print.
  - intros [= <-]. by apply step_write.
  - destruct (waiting s i) eqn:Hi; [done|]. intros [= <-]. by apply step_read.
  - intros [= <-]. by apply step_fork.
  - destruct (Z.ltb_spec pid 0); [done|]. destruct (procs s !! Z.to_nat pid) as [[st| | | | | |]|] eqn:Ep; try done.
    intros [= <-]. by eapply step_wait.
Qed.

Lemma schedule_reachable s ms s' : schedule s ms = Some s' → rtc step s s'.
Proof.
  revert s. induction ms as [|m ms IH]; intros s; cbn; [by intros [= <-]|].
  destruct (advance s m) as [s1|] eqn:E; [|done]. intros H. eapply rtc_l; [by eapply advance_step|by apply IH].
Qed.

Definition rc (n : Z) : ans := Ans n 0 0 (Statbuf 0 0 0 0 0) [] (0, 0) 0 [].
Definition no_such_file : ans := Ans (-1) ENOENT 0 (Statbuf 0 0 0 0 0) [] (0, 0) 0 [].

Definition no_text (e : Z) : bytes := [].

(** Up to the fork. *)
Definition opening : list (nat * ans) := [(0%nat, rc 77); (0%nat, rc 25); (0%nat, rc 3); (0%nat, rc 0); (0%nat, rc 0)].

Definition passing_run : list (nat * ans) :=
  opening ++ [(1%nat, rc 0); (1%nat, rc 4); (1%nat, rc 0); (0%nat, rc 0); (0%nat, rc 0); (0%nat, rc 0); (1%nat, rc 0);
              (1%nat, rc 0); (1%nat, rc 0); (1%nat, rc 0); (1%nat, rc 0); (1%nat, no_such_file); (0%nat, rc 0)].

Definition hanging_run : list (nat * ans) := opening ++ [(1%nat, rc 0); (1%nat, no_such_file); (1%nat, rc 0)].

Definition ran_to (ms : list (nat * ans)) : system := default (start no_text) (schedule (start no_text) ms).

Lemma external_reference_order_witness :
  procs (ran_to passing_run) !! 0%nat = Some (exit EXIT_SUCCESS) ∧
  ∃ name gang cl o e, made name gang (history (ran_to passing_run)) ∧
    events_of 1 (history (ran_to passing_run)) = [(c_close gang, cl); (c_open name O_RDONLY, o)] ++ e ∧
    a_rc cl = 0 ∧ 0 ≤ a_rc o ∧ gone_on_close name (a_rc o) e.
Proof.
  split; [vm_compute; reflexivity|].
  apply (external_reference_order no_text (ran_to passing_run)); [|vm_compute; reflexivity].
  apply (schedule_reachable _ passing_run). vm_compute. reflexivity.
Defined.

Lemma external_reference_hangs_witness :
  (∃ k, procs (ran_to hanging_run) !! 0%nat = Some (Read false k)) ∧ ∀ s', ¬ step (ran_to hanging_run) s'.
Proof.
  apply (external_reference_hangs no_text (ran_to hanging_run) 256).
  - apply (schedule_reachable _ hanging_run). vm_compute. reflexivity.
  - vm_compute. reflexivity.
  - intros name o Hin. assert (o = no_such_file) as ->; [|done].
    apply list_elem_of_In in Hin. cbn in Hin. naive_solver.
Defined.
