(* ===== verification/SelfTest.v ===== *)
(** * The test programs under the runner

    The verdict of the runner on a program of SpuTests.v, and the runner's own
    tests (tests/00-testsuite) with their configuration file. *)

From S2P Require Import Prelude CString Interfaces TestModel TestConf Capabilities TestConfSpec Requirements RunTest RunTestProps RunVerdict SysProg SpuTests.

Local Open Scope Z_scope.

(** ** The verdict on a program *)

(** The result for a test without a configuration, and the return code of
    [run_test]; [was] is the result before. *)
Definition reported (s : stop) (core dmesg_bad : bool) (was : test_result) : option (Z * test_result) :=
  match s with
  | Returned rc => Some (if (Z.land rc 255 =? 0) && negb dmesg_bad then (0, TEST_PASSED) else (-1, TEST_FAILED))
  | Killed sig => Some (-1, TEST_FAILED)
  | Aborted => Some (if core then (0, was) else (-1, TEST_FAILED))
  | Undefined | Cut => None
  end.

(** [program_reported]: for a test without a configuration the runner reports
    a pass exactly when the program returns a status with a low byte of 0 and
    the kernel log has no "Badness"; a signal is a failure, and so is a failed
    assertion, unless it dumps core: then the runner reports nothing, returns
    0 and leaves the result as it was. *)
Theorem program_reported t d k s core p i dm d' a' :
  type t = TEST_TYPE_TEST → expected_rc t = 0 → expected_sig t = 0 → printable (output t) →
  dmesg_check d k = Ok (dm, d', a') → (∀ sig, s = Killed sig → sig ≠ 0) →
  exit_info p core s = Some i →
  ∃ rc t' d'' a, check_exit t d k i = Ok (rc, t', d'', a) ∧
    reported s core (negb (dm =? 0)) (result t) = Some (rc, result t').
Proof.
  intros Ht Hrc Hsig Hp Hd Hk Hi.
  destruct (check_exit_verdict t d k i dm d' a' Ht Hp Hd) as (t' & d'' & a & E & _ & Hres & _).
  eexists _, t', d'', a. split; [exact E|]. rewrite Hres. unfold verdict, reported. rewrite Hrc, Hsig.
  destruct s as [rc| |sig| |]; cbn in Hi; simplify_eq; cbn.
  - rewrite andb_true_r. by destruct (Z.land rc 255 =? 0), (dm =? 0).
  - by destruct core.
  - rewrite (proj2 (Z.eqb_neq _ _)) by by apply Hk. done.
Qed.

(** A failed assertion that dumps core, in the test of RunTestProps.v. *)
Lemma program_reported_witness :
  ∃ rc t' d'' a,
    check_exit sample_running dmesg_init sample_klog (Siginfo 77 CLD_DUMPED SIGABRT) = Ok (rc, t', d'', a) ∧
    reported Aborted true false (result sample_running) = Some (rc, result t').
Proof.
  apply (program_reported sample_running dmesg_init sample_klog Aborted true 77
    (Siginfo 77 CLD_DUMPED SIGABRT) 0 (Dmesg (Some (resize 8 NUL (lit "x"))) 8) []); try done.
  by left.
Defined.

(** ** tests/00-testsuite *)

(** tests.conf *)
Definition testsuite_conf : bytes :=
  lit "*: ignored" ++ [newline_c] ++ lit "01-fail: expected_rc=1" ++ [newline_c] ++
  lit "02-root: cap_root" ++ [newline_c] ++ lit "03-skip: disabled" ++ [newline_c] ++
  lit "06-cap: cap_never" ++ [newline_c] ++ lit "07-nocap: !cap_always" ++ [newline_c] ++
  lit "08-signal: signal=15" ++ [newline_c].

(** The programs of the directory, and what the runner should report of each when
    the user id is [uid]. *)
Definition self_tests (kernel : list event → call → ans) (uid : Z) : list (bytes * P Z * test_result) :=
  [(lit "00-pass", testsuite_00_pass, TEST_PASSED);
   (lit "01-fail", testsuite_01_fail, TEST_PASSED);
   (lit "02-root", testsuite_02_root kernel, if uid =? 0 then TEST_PASSED else TEST_SKIPPED);
   (lit "03-skip", testsuite_03_skip, TEST_SKIPPED);
   (lit "06-cap", testsuite_06_cap, TEST_SKIPPED);
   (lit "07-nocap", testsuite_07_nocap, TEST_SKIPPED);
   (lit "08-signal", testsuite_08_signal kernel, TEST_PASSED)].

(** What tests.conf says for each. *)
Definition self_confs : list conf :=
  [Conf 0 0 10 0 1 [] []; Conf 1 0 10 0 1 [] []; Conf 0 0 10 0 1 [(lit "root", 0)] []; Conf 0 0 10 1 1 [] [];
   Conf 0 0 10 0 1 [(lit "never", 0)] []; Conf 0 0 10 0 1 [(lit "always", 1)] []; Conf 0 15 10 0 1 [] []].

Lemma self_conf kernel uid i name prog r dir :
  self_tests kernel uid !! i = Some (name, prog, r) →
  "/"%char ∉ name ∧ nul_free name ∧ newline_c ∉ name ∧
  ∃ c, self_confs !! i = Some c ∧
    conf_spec name (testsuite_conf ++ []) (conf_of (test_create (dir ++ "/"%char :: name) TEST_TYPE_TEST)) = Ok c.
Proof.
  intros Hi. destruct i as [|[|[|[|[|[|[|i]]]]]]]; [..|done]; injection Hi as <- _ _.
  all: split_and!; [by apply (bool_decide_unpack _)|nul_free_lit|by apply (bool_decide_unpack _)|].
  all: eexists; split; [reflexivity|]; vm_compute; reflexivity.
Qed.

Section self_tests.
Context {W : Type} `{CapOS W, !CapOSReads W}.

Implicit Types (w : W).

(** Whether the requirements of the test [i] hold, asked of the table [caps]. *)
Definition self_required w (i : nat) : bool :=
  match i with 2%nat => os_getuid w =? 0 | 4%nat | 5%nat => false | _ => true end.

Lemma self_asks w i c :
  self_confs !! i = Some c → ∃ s', asks (c_caps c) (caps, w) = Ok (self_required w i, s').
Proof.
  intros Hi. destruct i as [|[|[|[|[|[|[|i]]]]]]]; [..|done]; injection Hi as <-; cbn [c_caps self_required].
  all: try (eexists; reflexivity).
  destruct (os_getuid w =? 0) eqn:Hu.
  all: cbn -[os_getuid]; unfold cap_root; rewrite Hu; eexists; reflexivity.
Qed.

(** How the programs end: with their status, or the signal. *)
Lemma self_info kernel w i name prog r c core p info :
  self_tests kernel (os_getuid w) !! i = Some (name, prog, r) → self_confs !! i = Some c →
  (∀ h, a_rc (kernel h c_getuid) = os_getuid w) → (∀ h q, a_rc (kernel h (c_kill q SIGTERM)) = 0) →
  exit_info p core (execute prog (World [] 0 0 [])).1 = Some info →
  self_required w i = true → c_disabled c = 0 → conf_verdict c false info = Some true.
Proof.
  intros Hi Hc Hu Hk He Hr Hd. destruct i as [|[|[|[|[|[|[|i]]]]]]]; [..|done]; injection Hi as <- <- <-; injection Hc as <-.
  all: try done.
  - by injection He as <-.
  - by injection He as <-.
  - cbn [self_required] in Hr. revert He. unfold testsuite_02_root, sys_rc, mbind, P_bind, sys, mret, P_ret, execute.
    cbn -[exit_info]. unfold mbind, P_bind. cbn -[exit_info]. rewrite Hu, Hr. by intros [= <-].
  - revert He. unfold testsuite_08_signal, sys_rc, execute, mbind, P_bind, sys, mret, P_ret. unfold mbind, P_bind.
    cbn -[exit_info]. rewrite Hk. by intros [= <-].
Qed.

(** C40 [self_tests_pass]: on the runner's own tests, with their configuration file
    in their directory, the runner reports what the file is written for, whatever
    the machine and the user, the time the test takes and what it prints, when the
    kernel log is clean: a plain pass, an expected status and an expected signal
    are passes, disabled tests and tests whose requirement is not met (or inverted
    and met) are skipped, and the test for root passes as root and is skipped for
    every other user; all are marked as ignored and none makes the run fail. *)
Theorem self_tests_pass kernel read_file e l ks tk core p w d d' a' dir i name prog r rest :
  self_tests kernel (os_getuid w) !! i = Some (name, prog, r) →
  (∀ h, a_rc (kernel h c_getuid) = os_getuid w) → (∀ h q, a_rc (kernel h (c_kill q SIGTERM)) = 0) →
  nul_free dir → read_file (dir ++ lit "/tests.conf") = Some (Some testsuite_conf) →
  drop (length testsuite_conf) (l_stack l) = NUL :: rest → launched l →
  exits ks tk → exit_info p core (execute prog (World [] 0 0 [])).1 = Some (tk_info tk) →
  dmesg_check d (tk_klog tk) = Ok (0, d', a') →
  ∃ t' s' d'' a,
    run_test read_file e l ks (test_create (dir ++ "/"%char :: name) TEST_TYPE_TEST) (caps, w) d
      = Ok (Some 0, t', s', d'', a) ∧ result t' = r ∧ ignored t' = 1.
Proof.
  intros Hi Hu Hk Hdir Hf Hst Hl Hx He Hd. set (t := test_create _ _).
  destruct (self_conf _ _ _ _ _ _ dir Hi) as (Hsl & Hnul & Hnl & c & Hc & Hspec). fold t in Hspec.
  assert (configured read_file (l_stack l) t c) as Hcfg.
  { apply (configured_by _ _ t dir name testsuite_conf [] rest); try done.
    - apply nul_free_app. split; [done|]. by apply nul_free_cons.
    - by apply (bool_decide_unpack _).
    - nul_free_lit. }
  assert (cap_wf (caps, w)) as Hw by apply caps_wf_caps.
  destruct (run_test_verdict_lemma read_file e l ks tk t c (caps, w) d 0 d' a' (test_create_fresh _) Hcfg
    Hw Hl Hx Hd) as (rc & t' & s' & d'' & a & -> & _ & _ & Hak & _ & Hig & Hres).
  destruct (self_asks w i c Hc) as [s1 Hs1].
  assert (c_ignored c = 1) as Hig1 by (destruct i as [|[|[|[|[|[|[|i]]]]]]]; [..|done]; by injection Hc as <-).
  assert (c_disabled c = 0 → Forall (holds s') (c_caps c) ↔ self_required w i = true) as Hreq.
  { intros E. unfold asked_table in Hak. rewrite E in Hak. destruct Hak as [ok Hok]. cbn in Hok.
    pose proof Hok as [_ Hiff]%asks_holds. rewrite Hs1 in Hok. injection Hok as <- _. by rewrite <- Hiff. }
  exists t', s', d'', a. rewrite Hig, Hig1. destruct Hres as [(Hdis & Hh & Hr & -> & _)|(Hno & Hr & -> & _)].
  - apply Hreq in Hh; [|done]. cbn [negb Z.eqb] in Hr |- *.
    rewrite (self_info _ _ _ _ _ _ _ _ _ _ Hi Hc Hu Hk He Hh Hdis) in Hr |- *. split_and!; [done| |done]. rewrite Hr.
    clear -Hi Hc Hh Hdis. destruct i as [|[|[|[|[|[|[|i]]]]]]]; [..|done]; injection Hi as _ _ <-; injection Hc as <-; try done.
    cbn in Hh. by rewrite Hh.
  - split_and!; [done| |done]. rewrite Hr. assert (c_disabled c ≠ 0 ∨ self_required w i = false) as Hn.
    { destruct (Z.eq_dec (c_disabled c) 0) as [E|E]; [right|by left]. apply not_true_is_false. rewrite <- Hreq by done. tauto. }
    clear -Hi Hc Hn. destruct i as [|[|[|[|[|[|[|i]]]]]]]; [..|done]; injection Hi as _ _ <-; injection Hc as <-; try done;
      destruct Hn as [Hn|Hn]; try done. cbn in Hn. by rewrite Hn.
Qed.
End self_tests.
