(* ===== verification/TallocWitnesses.v ===== *)
(** * A concrete heap

    Three chunks, "P" with the child "C" and "X" beside it, made by the allocator
    itself; the theorems on talloc and slowfs applied to it. *)

From S2P Require Import Prelude CString Talloc TallocHeap TallocTree TallocProps TallocWalk TallocFree TallocMem Slowfs SysProg DmaFault.
From stdpp Require Import relations.

Local Open Scope Z_scope.

Definition no_children : children := λ _, [].

Lemma empty_heap_ok : heap_ok empty_heap no_children.
Proof.
  split; [split|..]; cbn; try done.
  - by intros p c ?%elem_of_nil.
  - intros p. constructor.
  - by intros p q c ?%elem_of_nil.
  - intros p H. inversion H as [? ? H1|? ? ? H1 _]; subst; by apply elem_of_nil in H1.
Qed.

(** ** The heap *)

Definition after {A} (m : M A) (h : heap) : heap := match m h with Ok (_, h') => h' | _ => h end.

Definition alloc_named (ctx : option loc) (name : bytes) : M (option loc) :=
  _talloc_named_const 64 next_malloc zero_junk ctx 8 (name_const name).

Definition heap1 : heap := after (alloc_named None (lit "P")) empty_heap.
Definition heap2 : heap := after (alloc_named None (lit "X")) heap1.
Definition heap3 : heap := after (alloc_named (Some 1%positive) (lit "C")) heap2.

Definition kids : children := add_child no_children 1%positive 3%positive.

Lemma alloc_named_ok h K ctx name p :
  heap_ok h K → context_ok h ctx → next_malloc h 0 = Some p →
  heap_ok (after (alloc_named ctx name) h) (alloc_children h K ctx p).
Proof.
  intros Hok Hctx Hm.
  destruct (named_const_spec 64 next_malloc zero_junk next_malloc_fresh h K ctx 8 (name_const name) p)
    as (m' & E & Hok' & _); [done..|].
  unfold after, alloc_named. by rewrite E.
Qed.

Lemma heap3_ok : heap_ok heap3 kids.
Proof.
  assert (heap_ok heap1 no_children) as H1.
  { apply (alloc_named_ok empty_heap no_children None (lit "P") 1%positive); [apply empty_heap_ok|done|].
    vm_compute. done. }
  assert (heap_ok heap2 no_children) as H2.
  { apply (alloc_named_ok heap1 no_children None (lit "X") 2%positive); [apply H1|done|].
    vm_compute. done. }
  apply (alloc_named_ok heap2 no_children (Some 1%positive) (lit "C") 3%positive); [apply H2| |].
  - intros p [= <-]. vm_compute. eauto.
  - vm_compute. done.
Qed.

Lemma kids_root (c : loc) : c ≠ 3%positive → is_root kids c.
Proof. intros Hc p [Hp|[-> ->]]%elem_of_add_child; [by apply elem_of_nil in Hp|done]. Qed.

Lemma kids_up : up kids 3%positive [3; 1]%positive.
Proof.
  eapply up_step with (p := 1%positive); [by apply list_elem_of_here|]. by apply up_root, kids_root.
Qed.

Lemma kids_sub : sub kids 1%positive [1; 3]%positive.
Proof.
  apply sub_node. change (kids 1%positive) with [3%positive].
  apply (subs_cons _ _ _ [3%positive] []); [|apply subs_nil]. apply sub_node. apply subs_nil.
Qed.

Lemma kids_chunks (p : loc) ch :
  mem heap3 !! p = Some ch →
  tc_size ch = 8 ∧ tc_refs ch = None ∧ tc_destructor ch = None ∧ tc_flag_loop ch = false ∧ tc_flag_free ch = false.
Proof.
  revert p ch. apply map_Forall_lookup. apply (bool_decide_unpack _). vm_compute. done.
Qed.

(** ** Talloc *)

Lemma talloc_alloc_witness :
  ∃ m', _talloc 64 next_malloc zero_junk (Some 1%positive) 8 heap3 = Ok (Some 4%positive, set_mem m' heap3) ∧
    heap_ok (set_mem m' heap3) (alloc_children heap3 kids (Some 1%positive) 4%positive) ∧
    same_but_links (<[4%positive:=new_chunk zero_junk 8]> (mem heap3)) m'.
Proof.
  apply (talloc_alloc 64 next_malloc zero_junk heap3 kids (Some 1%positive) 8);
    [apply next_malloc_fresh|apply heap3_ok| |done|vm_compute; done].
  intros p [= <-]. vm_compute. eauto.
Defined.

(** "C" moves to "X". *)
Lemma talloc_steal_moves_witness :
  ∃ m', _talloc_steal (Some 2%positive) (Some 3%positive) heap3 = Ok (Some 3%positive, set_mem m' heap3) ∧
    heap_ok (set_mem m' heap3) (stolen heap3 kids (Some 2%positive) 3%positive) ∧ same_but_links (mem heap3) m'.
Proof.
  apply talloc_steal_moves; [apply heap3_ok| |vm_compute; eauto|].
  - intros p [= <-]. vm_compute. eauto.
  - intros q [= <-] H. apply rtc_inv in H as [|(y & H & _)]; [done|]. by apply (kids_root 2%positive) in H.
Defined.

Lemma talloc_is_parent_spec_witness :
  ∃ r, talloc_is_parent (Some 3%positive) (Some 1%positive) heap3 = Ok (r, heap3) ∧
    ((r = 1 ∧ ancestor kids 3%positive 1%positive) ∨ (r = 0 ∧ ¬ ancestor kids 3%positive 1%positive)).
Proof. apply talloc_is_parent_spec; [apply heap3_ok|vm_compute; eauto]. Defined.

Lemma talloc_find_parent_byname_spec_witness :
  talloc_find_parent_byname (Some 3%positive) (lit "P") heap3 = Ok (Some 1%positive, heap3).
Proof.
  etrans; [apply (talloc_find_parent_byname_spec heap3 kids 3%positive [3; 1]%positive
             (λ p, if decide (p = 3%positive) then Some (lit "C") else Some (lit "P")) (lit "P"))
          |vm_compute; reflexivity].
  - apply heap3_ok.
  - vm_compute. eauto.
  - apply kids_up.
  - apply (bool_decide_unpack _). vm_compute. done.
  - intros p Hp. apply (up_ancestor _ _ (h_tree _ _ heap3_ok) _ _ kids_up) in Hp.
    apply elem_of_cons in Hp as [->|Hp%list_elem_of_singleton]; [|subst p];
      eexists; (split; [vm_compute; reflexivity|]); (split; [vm_compute; reflexivity|]);
      intros t [= <-]; apply (bool_decide_unpack _); vm_compute; done.
Defined.

Lemma talloc_total_size_spec_witness :
  talloc_total_size 64 (Some 1%positive) heap3 = Ok (16, heap3).
Proof.
  apply (talloc_total_size_spec 64 heap3 kids 1%positive [1; 3]%positive);
    [lia|apply heap3_ok|vm_compute; eauto|apply kids_sub|].
  intros x ch [-> _]%kids_chunks. lia.
Defined.

Lemma talloc_free_subtree_witness :
  ∃ m', talloc_free no_dtor 3 (Some 1%positive) heap3 = Ok (0, set_mem m' heap3) ∧
    heap_ok (set_mem m' heap3) (prune kids [1; 3]%positive) ∧ freed (mem heap3) m' [1; 3]%positive.
Proof.
  apply talloc_free_subtree; [apply heap3_ok|vm_compute; eauto|apply kids_sub| |done|cbn; lia].
  intros x Hx. assert (is_Some (mem heap3 !! x)) as [ch Hch].
  { apply elem_of_cons in Hx as [->|Hx%list_elem_of_singleton]; [|subst x]; vm_compute; eauto. }
  exists ch. split; [done|]. by apply kids_chunks in Hch as (_ & ? & ? & ? & ?).
Defined.

(** An element as large as the limit: no array of it. *)
Lemma talloc_array_bounds_witness :
  _talloc_array 64 next_malloc zero_junk None 0x8000000 2 name_null empty_heap = Ok (None, empty_heap).
Proof.
  assert (MAX_TALLOC_SIZE / 0x8000000 ≤ 2) as Hbig by (vm_compute; discriminate).
  exact (proj1 (proj1 (talloc_array_bounds 64 next_malloc (λ _ _ _, None) zero_junk no_dtor 1 None None
    0x8000000 2 name_null empty_heap ltac:(lia) ltac:(lia) ltac:(lia)) Hbig)).
Defined.

Lemma talloc_strdup_spec_witness :
  ∃ h', talloc_strdup 64 next_malloc zero_junk None (Some (lit "ab" ++ NUL :: [])) empty_heap = Ok (Some 1%positive, h') ∧
    heap_ok h' (alloc_children empty_heap no_children None 1%positive) ∧
    talloc_get_name (Some 1%positive) h' = Ok (lit "ab", h') ∧
    talloc_get_size (Some 1%positive) h' = Ok (Z.of_nat (length (lit "ab")) + 1, h') ∧
    (∀ p, p ≠ 1%positive → strip <$> mem h' !! p = strip <$> mem empty_heap !! p).
Proof.
  apply talloc_strdup_spec; [apply next_malloc_fresh|apply zero_junk_length|apply empty_heap_ok|done| |done|].
  - apply (bool_decide_unpack _). vm_compute. done.
  - vm_compute. done.
Defined.

(** A chunk whose destructor refuses. *)
Definition stubborn : talloc_chunk := set_destructor (Some (dtor_user 0)) (new_chunk zero_junk 8).

Lemma talloc_free_refused_witness :
  talloc_free (λ _ _, mret (-1)) 1 (Some 1%positive) (Heap {[1%positive := stubborn]} None None [])
  = Ok (-1, Heap {[1%positive := stubborn]} None None []).
Proof. by apply (talloc_free_refused _ _ 1%positive stubborn 0 0). Defined.

(** ** Slowfs *)

Lemma slowfs_handlers_agree_witness :
  slowfs_getattr (lit "/other" ++ [NUL]) = Ok (- ENOENT, Stat 0 0 0).
Proof.
  apply (slowfs_handlers_agree (lit "/other") []); [|done|done].
  apply (bool_decide_unpack _). vm_compute. done.
Defined.

Definition fuse_ok : fuse_env := FuseEnv (Some 5) (Some 6) 0 0.
Definition no_thread : fuse_env := FuseEnv (Some 5) (Some 6) 0 11.

Lemma slowfs_mount_unmount_witness :
  ∃ r h', slowfs_mount 64 next_malloc zero_junk no_dtor 40 3 fuse_ok (lit "/mnt") empty_heap
          = Ok (r, mount_calls fuse_ok (lit "/mnt"), h') ∧
    match r with
    | None => all_succeed fuse_ok = false ∧ heap_ok h' no_children ∧ same_but_links (mem empty_heap) (mem h')
    | Some fs => all_succeed fuse_ok = true ∧ ∀ fuse_loop,
        ∃ h'', slowfs_unmount no_dtor 3 (slowfs_fn fuse_loop fs) h'
               = Ok ([fuse_exit; fuse_unmount (lit "/mnt"); pthread_join], h'') ∧
          heap_ok h'' no_children ∧ same_but_links (mem empty_heap) (mem h'')
    end.
Proof.
  apply slowfs_mount_unmount;
    [apply next_malloc_fresh|apply zero_junk_length|by eexists|apply empty_heap_ok|done|done| |lia].
  apply (bool_decide_unpack _). vm_compute. done.
Defined.

Lemma slowfs_mount_leaks_witness :
  ∃ calls h', slowfs_mount 64 next_malloc zero_junk no_dtor 40 3 no_thread (lit "/mnt") empty_heap
              = Ok (None, calls, h') ∧
    fuse_mount (lit "/mnt") ∈ calls ∧ ∀ m, fuse_unmount m ∉ calls.
Proof.
  apply (slowfs_mount_leaks 64 next_malloc zero_junk no_dtor 40 3 empty_heap no_children no_thread (lit "/mnt") 5);
    [apply next_malloc_fresh|apply zero_junk_length|by eexists|apply empty_heap_ok|done|done| |lia|done|done].
  apply (bool_decide_unpack _). vm_compute. done.
Defined.

(** ** The test on the file system

    A kernel that refuses to run the SPE: the test passes. *)

Definition refusing_kernel (l : list event) (c : call) : ans :=
  let rc := match c with
            | SYS_spu_run _ _ _ => -1
            | c_mkdir _ _ | c_fstat _ | c_pthread_create | c_pthread_join => 0
            | c_read _ _ => 1
            | _ => 7
            end in Ans rc 0 0 (Statbuf 0 4096 0 0 0) [] (0, 0) 0 [].

Definition refusing_run : (Z * mounts + SysProg.stop) * world :=
  dma_05_schedule_during_fault refusing_kernel (λ _, []) 64 next_malloc zero_junk no_dtor 40 3 fuse_ok (λ _, 0) true
    (Mounts empty_heap []) (World [] 0 0 []).

Lemma schedule_during_fault_verdict_witness :
  match refusing_run.1 with inl (rc, _) => rc = 0 | inr _ => False end ∧
  ∃ r evs w', refusing_run = (r, w') ∧ log w' = rev evs ++ [] ∧ fault_post fuse_ok empty_heap no_children true r evs.
Proof.
  split; [vm_compute; reflexivity|].
  apply (schedule_during_fault_verdict refusing_kernel (λ _, []) 64 next_malloc zero_junk no_dtor 40 3 fuse_ok (λ _, 0)
    empty_heap no_children [] true (World [] 0 0 []));
    [apply next_malloc_fresh|apply zero_junk_length|by eexists|done|lia|apply empty_heap_ok].
Defined.
