(* ===== verification/TallocRefWitnesses.v ===== *)
(** * A concrete heap with a reference

    On the heap of TallocWitnesses.v "X" takes a reference to "C"; the theorems on
    references, on [_talloc_realloc] and on clients applied to it. *)

From S2P Require Import Prelude CString Talloc TallocHeap TallocTree TallocProps TallocWalk TallocFree TallocMem TallocRefs TallocDrop TallocRefOps TallocUnlink TallocReport TallocRealloc TallocSim TallocMacros TallocWitnesses.
From stdpp Require Import relations.

Local Open Scope Z_scope.

Definition no_refs : references := λ _, [].

(** ** The heap *)

Lemma heap3_refs : refs_ok (mem heap3) kids no_refs.
Proof.
  split; [split|..]; try (by intros p r ?%elem_of_nil).
  - intros p ch Hc. by apply kids_chunks in Hc as (_ & -> & _).
  - done.
  - intros p. constructor.
Qed.

Lemma heap3_handles : handles_known (mem heap3) no_refs.
Proof.
  intros r ch n v t Hr Hd. exfalso.
  assert (map_Forall (λ _ c, bool_decide (data_bare (tc_data c) = tc_data c ∧
    match tc_data c with Bytes _ => true | Handle _ _ _ => false end = true)) (mem heap3)) as Hall.
  { apply (bool_decide_unpack _). vm_compute. done. }
  specialize (Hall r ch Hr). apply bool_decide_unpack in Hall as [_ H]. by rewrite Hd in H.
Qed.

Lemma x_args : ref_args heap3 no_refs (Some 2%positive) 3%positive.
Proof.
  split.
  - intros p [= <-]. vm_compute. eauto.
  - by intros q _ x ?%elem_of_nil.
  - vm_compute. eauto.
  - by intros x ?%elem_of_nil.
Qed.

Lemma handle_fits : sizeof_handle 64 < MAX_TALLOC_SIZE.
Proof. by vm_compute. Qed.

Lemma next_is_4 : next_malloc heap3 (TC_HDR_SIZE 64 + sizeof_handle 64) = Some 4%positive.
Proof. vm_compute. done. Qed.

Definition x_refers : M (option loc) :=
  _talloc_reference 64 next_malloc zero_junk (Some 2%positive) (Some 3%positive).

Definition heap4 : heap := after x_refers heap3.
Definition kids4 : children := alloc_children heap3 kids (Some 2%positive) 4%positive.
Definition refs4 : references := add_child no_refs 3%positive 4%positive.

Lemma heap4_ok : heap_ok heap4 kids4 ∧ refs_ok (mem heap4) kids4 refs4.
Proof.
  destruct (reference_spec 64 next_malloc zero_junk next_malloc_fresh handle_fits heap3 kids no_refs
    (Some 2%positive) 3%positive 4%positive heap3_ok heap3_refs x_args next_is_4) as (m' & E & Hok & Hrf & _).
  assert (heap4 = set_mem m' heap3) as ->; [|split; [exact Hok|exact Hrf]].
  unfold heap4, after, x_refers. rewrite E. reflexivity.
Qed.

(** ** References *)

Lemma talloc_reference_adds_witness :
  ∃ m', x_refers heap3 = Ok (Some 3%positive, set_mem m' heap3) ∧
    heap_ok (set_mem m' heap3) kids4 ∧ refs_ok m' kids4 refs4 ∧
    (∀ q, q ≠ 4%positive → bare <$> m' !! q = bare <$> mem heap3 !! q) ∧
    talloc_reference_count (Some 3%positive) (set_mem m' heap3) = Ok (1, set_mem m' heap3).
Proof.
  pose proof (talloc_reference_adds 64 next_malloc zero_junk heap3 kids no_refs (Some 2%positive) 3%positive
    next_malloc_fresh handle_fits heap3_ok heap3_refs x_args) as H.
  rewrite next_is_4 in H. exact H.
Defined.

Lemma talloc_unreference_undoes_witness :
  (x_refers;; talloc_unreference no_dtor 2 (Some 2%positive) (Some 3%positive)) heap3 = Ok (0, heap3).
Proof.
  apply (talloc_unreference_undoes 64 next_malloc zero_junk no_dtor heap3 kids no_refs _ _ 4%positive 2);
    [apply next_malloc_fresh|apply handle_fits|apply heap3_ok|apply heap3_refs|apply heap3_handles|apply x_args|
     by intros q _ x ?%elem_of_nil|apply next_is_4|lia].
Defined.

(** "C" cannot be freed while "X" refers to it. *)
Lemma talloc_free_of_referenced_witness :
  ∃ m', without_handle heap4 kids4 refs4 4%positive m' ∧ is_Some (m' !! 3%positive) ∧
    (¬ ancestor kids4 4%positive 3%positive → talloc_free no_dtor 3 (Some 3%positive) heap4 = Ok (-1, set_mem m' heap4)) ∧
    (ancestor kids4 4%positive 3%positive →
     talloc_free no_dtor 3 (Some 3%positive) heap4 = talloc_free no_dtor 2 (Some 3%positive) (set_mem m' heap4)).
Proof.
  apply (talloc_free_of_referenced no_dtor heap4 kids4 refs4 3%positive 4%positive [] 2);
    [exact (proj1 heap4_ok)|exact (proj2 heap4_ok)|vm_compute; eauto|reflexivity|vm_compute; discriminate|lia].
Defined.

(** "X" takes the place of "P" as the parent of "C". *)
Lemma talloc_unlink_spec_witness :
  ∃ m', talloc_unlink no_dtor 2 (Some 1%positive) (Some 3%positive) heap4 = Ok (0, set_mem m' heap4) ∧
    let K' := move_child (remove_child kids4 4%positive) 2%positive 3%positive in
    heap_ok (set_mem m' heap4) K' ∧ refs_ok m' K' (remove_child refs4 4%positive) ∧ dropped (mem heap4) m' [4%positive].
Proof.
  destruct (talloc_unlink_spec no_dtor heap4 kids4 refs4 (Some 1%positive) 3%positive 2) as [_ H];
    [exact (proj1 heap4_ok)|exact (proj2 heap4_ok)|intros q [= <-]; vm_compute; eauto|vm_compute; eauto|
     intros q; vm_compute; discriminate|lia|].
  destruct H as (_ & _ & H).
  - repeat constructor. intros Hx. vm_compute in Hx. by apply list_elem_of_singleton in Hx.
  - apply (H 4%positive []); [by left|reflexivity|by left|]. intros Ha. inversion Ha as [|x y z Hy]; subst.
    unfold child_of, kids4, alloc_children, kids, add_child in Hy. cbn in Hy. repeat case_decide; cbn in Hy;
      repeat (apply elem_of_cons in Hy as [Hy|Hy]; [done|]); by apply elem_of_nil in Hy.
Defined.

Lemma kids4_sub : sub kids4 2%positive [2; 4]%positive.
Proof.
  apply sub_node. change (kids4 2%positive) with [4%positive].
  apply (subs_cons _ _ _ [4%positive] []); [|apply subs_nil]. apply sub_node. apply subs_nil.
Qed.

(** Freeing "X" drops its reference to "C". *)
Lemma talloc_free_drops_witness :
  ∃ m', talloc_free no_dtor 3 (Some 2%positive) heap4 = Ok (0, set_mem m' heap4) ∧
    heap_ok (set_mem m' heap4) (prune kids4 [2; 4]%positive) ∧
    refs_ok m' (prune kids4 [2; 4]%positive) (without refs4 [2; 4]%positive) ∧
    dropped (mem heap4) m' [2; 4]%positive.
Proof.
  apply (talloc_free_drops no_dtor heap4 kids4 refs4 2%positive [2; 4]%positive 3);
    [exact (proj1 heap4_ok)|exact (proj2 heap4_ok)|vm_compute; eauto|exact kids4_sub| |intros q; vm_compute; discriminate|cbn; lia].
  intros x [->| ->%list_elem_of_singleton]%elem_of_cons; (split; [reflexivity|]).
  - eexists. split; [vm_compute; reflexivity|]. split; [reflexivity|by left].
  - eexists. split; [vm_compute; reflexivity|]. split; [reflexivity|right]. exists 3%positive. by left.
Defined.

(** ** Reports *)

(** The report on "X" visits "X" and its reference to "C". *)
Lemma talloc_report_outline_witness :
  talloc_report_depth_cb (Some 2%positive) 0 (-1) (λ ptr d is_ref, mret (ptr, d, is_ref)) heap4
  = Ok ([(Some 2%positive, 0, false); (Some 3%positive, 1, true)], heap4).
Proof.
  apply (talloc_report_outline (λ ptr d is_ref, mret (ptr, d, is_ref)) id (-1) heap4 kids4 2%positive [2; 4]%positive 0);
    [exact (proj1 heap4_ok)|vm_compute; eauto|exact kids4_sub|].
  intros x [->| ->%list_elem_of_singleton]%elem_of_cons; eexists; (split; [vm_compute; reflexivity|]);
    (split; [intros Hm; first [discriminate Hm|vm_compute; eauto]|]);
    (split; [intros A d _; reflexivity|intros A d t _; reflexivity]).
Defined.

Definition names4 (ptr : option loc) : bytes :=
  match ptr with
  | Some 1%positive => lit "P" | Some 2%positive => lit "X" | Some 3%positive => lit "C" | _ => lit ".reference"
  end.

Definition below4 (x : loc) : list loc := if decide (x = 2%positive) then [2; 4]%positive else [x].

Definition no_address (p : option loc) : bytes := lit "0x0".

Lemma talloc_report_text_witness :
  talloc_report_full 64 no_address (Some 2%positive) heap4
  = Ok (lit "full talloc report on 'X' (total     32 bytes in   2 blocks)" ++ [newline_c]
        ++ lit "    reference to: C" ++ [newline_c], heap4).
Proof.
  etrans; [apply (talloc_report_text 64 no_address (-1) heap4 kids4 refs4 names4 below4 2%positive [2; 4]%positive)
          |vm_compute; reflexivity].
  - lia.
  - exact (proj1 heap4_ok).
  - exact (proj2 heap4_ok).
  - apply map_Forall_lookup. apply (bool_decide_unpack _). vm_compute. done.
  - vm_compute. eauto.
  - exact kids4_sub.
  - intros x [->| ->%list_elem_of_singleton]%elem_of_cons.
    + split; [vm_compute; reflexivity|]. split; [exact kids4_sub|].
      intros c Hc Hm. exfalso. revert Hm. vm_compute in Hc. injection Hc as <-. discriminate.
    + split; [vm_compute; reflexivity|]. split; [apply sub_node, subs_nil|].
      intros _ _ _. exists 3%positive. split; [by left|vm_compute; reflexivity].
Defined.

(** ** [_talloc_realloc] *)

(** An allocator that always moves the chunk. *)
Definition moving (h : heap) (p : loc) (n : Z) : option loc := next_malloc h n.

Definition p_chunk : talloc_chunk := default (new_chunk zero_junk 0) (mem heap3 !! 1%positive).

Lemma p_chunk_at : mem heap3 !! 1%positive = Some p_chunk.
Proof. vm_compute. reflexivity. Qed.

Lemma talloc_realloc_moves_witness :
  ∃ m', _talloc_realloc 64 next_malloc moving zero_junk no_dtor 2 None (Some 1%positive) 16 (name_const (lit "P2")) heap3
      = Ok (Some 4%positive, set_mem m' heap3) ∧
    heap_ok (set_mem m' heap3) (renamed kids 1 4) ∧ refs_ok m' (renamed kids 1 4) no_refs ∧
    strip <$> m' !! 4%positive = Some (strip (resized zero_junk p_chunk 16 (name_const (lit "P2")))) ∧
    (4%positive ≠ 1%positive → m' !! 1%positive = None) ∧
    (∀ x, x ≠ 1%positive → x ≠ 4%positive → strip <$> m' !! x = strip <$> mem heap3 !! x).
Proof.
  apply (talloc_realloc_moves 64 next_malloc moving zero_junk no_dtor heap3 kids no_refs 2 None
    1%positive 4%positive p_chunk 16 (name_const (lit "P2")));
    [exact heap3_ok|exact heap3_refs|exact p_chunk_at|reflexivity|by intros x ?%elem_of_nil|vm_compute; discriminate|
     right; vm_compute; reflexivity|split; vm_compute; done|vm_compute; reflexivity].
Defined.

(** A size over the limit. *)
Lemma talloc_realloc_errors_witness :
  _talloc_realloc 64 next_malloc moving zero_junk no_dtor 2 None (Some 1%positive) 0x10000000 name_null heap3
    = Ok (None, heap3).
Proof.
  assert (tc_flag_free p_chunk = false) as Hf by (vm_compute; reflexivity).
  apply (proj1 (talloc_realloc_errors 64 next_malloc moving zero_junk no_dtor heap3 2 None 1%positive p_chunk 0x10000000
    name_null p_chunk_at Hf)). left. vm_compute. discriminate.
Defined.

(** ** The macros *)

Lemma talloc_types_checked_witness :
  ∃ h', talloc_set_type (Some 1%positive) (lit "struct test") heap3 = Ok (tt, h') ∧ heap_ok h' kids ∧
    talloc_get_type (Some 1%positive) (lit "struct test *") h' = Ok (None, h') ∧
    mem h' = alter (set_name (name_const (lit "struct test"))) 1%positive (mem heap3).
Proof.
  apply (talloc_types_checked heap3 kids 1%positive (lit "struct test") (lit "struct test *"));
    [exact heap3_ok|vm_compute; eauto|nul_free_lit|nul_free_lit].
Defined.

Definition grown : loc := 4%positive.

Lemma buffers_are_talloc_blocks_witness :
  ∃ m' c', realloc_char_block 64 next_malloc moving zero_junk no_dtor 2 None (Some 1%positive) 4096 heap3
      = Ok (Some grown, set_mem m' heap3) ∧
    heap_ok (set_mem m' heap3) (renamed kids 1 grown) ∧ refs_ok m' (renamed kids 1 grown) no_refs ∧
    m' !! grown = Some c' ∧ tc_data c' = Bytes (replicate (Z.to_nat 4096) NUL) ∧ tc_size c' = 4096.
Proof.
  apply (buffers_are_talloc_blocks 64 next_malloc moving zero_junk no_dtor 2 ltac:(lia)
    (λ n, length_replicate n NUL) heap3 kids no_refs None 1%positive p_chunk (replicate 8 NUL) 4096);
    [exact heap3_ok|exact heap3_refs|exact p_chunk_at|vm_compute; reflexivity|reflexivity|by intros x ?%elem_of_nil
    |vm_compute; discriminate|reflexivity|vm_compute; reflexivity|right; vm_compute; reflexivity].
Defined.

(** ** A client *)

(** A context, an object in it, a reference from the object to the context; then
    both are freed. *)
Definition demo_client : client :=
  Call (Alloc None 8) (λ a,
    match a with
    | Ptr (Some p) =>
        Call (Alloc (Some p) 4) (λ b,
          match b with Ptr (Some q) => Call (Free p) (λ _, Done) | _ => Done end)
    | _ => Done
    end).

Definition no_objects : forest := Forest no_children no_refs (λ _, None).

Lemma empty_represents : represents None empty_heap no_objects.
Proof.
  split; cbn; [apply empty_heap_ok| |done|done|done|done].
  split; [split|..]; try (by intros p r ?%elem_of_nil); [done|by intros p; constructor|by intros p; constructor].
Qed.

Lemma demo_well_behaved : well_behaved zero_junk None no_objects demo_client.
Proof.
  split; [by apply allowed_alloc|]. intros a F1 Hs1. inversion Hs1 as [? ? p _ _| | | | | | | |]; subst; [|done].
  split.
  { apply allowed_alloc. intros q [= <-]. unfold object, with_obj. cbn. rewrite decide_True by done. eauto. }
  intros b F2 Hs2. inversion Hs2 as [? ? q [Hq _] _| | | | | | | |]; subst; [|done].
  assert (q ≠ p) as Hqp.
  { intros ->. cbn in Hq. unfold with_obj in Hq. by rewrite decide_True in Hq. }
  split; [|done]. eapply (allowed_free _ _ p [p; q]).
  - unfold object, with_obj. cbn. unfold with_obj. cbn. rewrite decide_False, decide_True by congruence. eauto.
  - cbn. apply sub_node. unfold under, ctx_of, add_child at 2. rewrite decide_True by done.
    apply (subs_cons _ _ _ [q] []); [|apply subs_nil]. apply sub_node. unfold add_child.
    rewrite decide_False by done. apply subs_nil.
  - done.
  - done.
Qed.

Lemma talloc_implements_forest_witness :
  ∃ l h' F', exec_client 64 next_malloc moving zero_junk no_dtor demo_client empty_heap = Ok (l, h') ∧
    steps zero_junk None no_objects demo_client l F' ∧ represents None h' F'.
Proof.
  apply talloc_implements_forest; [apply next_malloc_fresh| |apply handle_fits|apply empty_represents|apply demo_well_behaved].
  intros h p n q H. right. by apply (next_malloc_fresh h n).
Defined.

(** The answers of this client. *)
Lemma demo_client_runs :
  (λ '(l, h), (l, bool_decide (mem h = ∅))) <$> exec_client 64 next_malloc moving zero_junk no_dtor demo_client empty_heap
  = Ok ([Ptr (Some 1%positive); Ptr (Some 2%positive); Int 0], true).
Proof. vm_compute. reflexivity. Qed.
