(* ===== verification/Witnesses.v ===== *)
(** * Concrete runs of the runner

    A small machine and the theorems of the runner applied to it: each lemma
    discharges the hypotheses of one theorem by computation. *)

From S2P Require Import Prelude CString Interfaces TestModel TestConf TestConfSpec Capabilities Requirements RunTest RunTestProps FindTests RunVerdict Options Runner RunnerProps OptionProps SuiteRun MainRun TestTypes SysProg SpuTests SelfTest.

Local Open Scope Z_scope.

(** The machine is the user id; it has no NUMA nodes, huge pages or sputrace. *)
#[local] Instance sample_os : CapOS Z := {
  os_getuid w := w;
  os_stat_ok _ _ := false;
  os_read_byte _ _ := None;
  os_system w _ := w;
}.

(** ** Capabilities *)

Definition root_name : bytes := lit "root" ++ [NUL].

Definition root_asked : list capability :=
  match cap_available caps root_name 0 with Ok (_, tbl, _) => tbl | _ => [] end.

Lemma cap_available_cached_witness :
  cap_available caps root_name 0 = Ok (1, root_asked, 0) ∧
  cap_available root_asked root_name 1000 = Ok (1, root_asked, 1000).
Proof.
  split; [vm_compute; reflexivity|].
  apply (cap_available_cached caps root_name 0 1 root_asked 0 root_asked 1000).
  - vm_compute. reflexivity.
  - constructor.
Defined.

Lemma cap_available_modprobe_witness :
  0 = 0 ∨ (os_getuid 0 = 0 ∧ os_stat_ok 0 (lit "/proc/sputrace") = false ∧
           0 = os_system 0 (lit "/sbin/modprobe sputrace") ∧ root_asked ≠ caps).
Proof.
  apply (cap_available_modprobe caps root_name 0 1 root_asked 0). vm_compute. reflexivity.
Defined.

Lemma cap_available_first_witness :
  cap_available caps (lit "cell" ++ NUL :: []) 0 = Ok (0, caps, 0).
Proof. apply (cap_available_first (lit "cell") [] 0). nul_free_lit. Defined.

(** ** Requirements: "root" of a user who is not root *)

Definition wants_root : test :=
  test_add_required_cap (test_create (lit "t/02-root") TEST_TYPE_TEST) 0 0.

Definition user_asked : list capability * Z :=
  (match cap_available caps root_name 1000 with Ok (_, tbl, _) => tbl | _ => [] end, 1000).

Definition skip_root : bytes := lit "SKIPPED (requires root)" ++ [newline_c].

Lemma wants_root_skipped :
  test_should_run root_name (caps, 1000) wants_root
    = Ok (false, set_result TEST_SKIPPED wants_root, user_asked, skip_root).
Proof. vm_compute. reflexivity. Defined.

Lemma test_should_run_decides_witness :
  (∀ s'', cap_evolves user_asked s'' →
     (false = true ↔ disabled wants_root = 0 ∧
        Forall (met s'' root_name) (take (n_caps_required wants_root) (caps_required wants_root)))) ∧
  (false = true → set_result TEST_SKIPPED wants_root = wants_root ∧ skip_root = []) ∧
  (false = false → set_result TEST_SKIPPED wants_root = set_result TEST_SKIPPED wants_root).
Proof. exact (test_should_run_decides _ _ _ _ _ _ _ wants_root_skipped). Defined.

(** ** The suite of [sample_tree], each test exiting with 0 *)

Definition sample_env (p : bytes) : test_env :=
  TestEnv (Launch [NUL] id (Some (5, 6)) 77 0 (Timeval 100 0))
    [sample_tick 0 0 0 100 sample_read; sample_exit CLD_EXITED 0].

Definition sample_start : suite_start := SuiteStart sample_klog (Tm 108 0 1 2 3 4) 0 0 7.

Definition no_config (p : bytes) : option (option bytes) := None.

Definition sample_suite : list (test * test_env) :=
  map (λ p, (test_create p TEST_TYPE_TEST, sample_env p)) [lit "t/01-a"; lit "t/02-b"; lit "t/sub/01-x"].

Definition ran (cont : bool) (tests : list (test * test_env)) :=
  run_all no_config cont true tests 0 (caps, 0) dmesg_init.

Definition ran_tests (cont : bool) (tests : list (test * test_env)) : list test :=
  match ran cont tests with Ok (_, ts, _, _, _) => ts | _ => [] end.
Definition ran_dmesg (cont : bool) (tests : list (test * test_env)) : dmesg :=
  match ran cont tests with Ok (_, _, _, d, _) => d | _ => dmesg_init end.
Definition ran_actions (cont : bool) (tests : list (test * test_env)) : list action :=
  match ran cont tests with Ok (_, _, _, _, a) => a | _ => [] end.

Lemma sample_suite_ran :
  ran false sample_suite
  = Ok (Some 0, ran_tests false sample_suite, (caps, 0), ran_dmesg false sample_suite,
        ran_actions false sample_suite).
Proof. vm_compute. reflexivity. Defined.

Lemma run_all_green_witness :
  Forall2 (λ te t', result t' = TEST_PASSED ∨ result t' = TEST_SKIPPED ∨
    (result t' = TEST_NOTRUN ∧ Exists other_exit (te_ticks te.2)))
    sample_suite (ran_tests false sample_suite).
Proof.
  apply (run_all_green no_config false true sample_suite (caps, 0) dmesg_init _ _ _ _
    sample_suite_ran).
  repeat constructor.
Defined.

(** The second of three tests exits with 3. *)
Definition failing_suite : list (test * test_env) :=
  match sample_suite with
  | [a; (t, e); c] =>
      [a; (t, TestEnv (te_launch e) [sample_exit CLD_EXITED 3]); c]
  | l => l
  end.

Lemma failing_suite_ran :
  ran false failing_suite
  = Ok (Some (-1), ran_tests false failing_suite, (caps, 0), ran_dmesg false failing_suite,
        ran_actions false failing_suite).
Proof. vm_compute. reflexivity. Defined.

Lemma run_all_outcome_witness :
  map result (ran_tests false failing_suite) = [TEST_PASSED; TEST_FAILED; TEST_NOTRUN] ∧
  ∃ n rs ts1,
    suite_run no_config true (take n failing_suite) (caps, 0) dmesg_init rs ts1
      (caps, 0) (ran_dmesg false failing_suite) ∧
    ran_tests false failing_suite = ts1 ++ map fst (drop n failing_suite) ∧
    (-1 = 0 ↔ Forall (λ r, r = 0) rs) ∧
    ((length failing_suite ≤ n)%nat ∧ -1 = foldr Z.lor 0 rs ∧ (false = true ∨ Forall (λ r, r = 0) rs) ∨
     stops_at false rs ∧ -1 = -1).
Proof.
  split; [vm_compute; reflexivity|].
  apply (run_all_outcome no_config false true failing_suite (caps, 0) dmesg_init (-1) _ _ _ _
    failing_suite_ran).
Defined.

(** ** One test with its configuration file, and the suite as a whole *)

#[local] Instance sample_os_reads : CapOSReads Z.
Proof. done. Defined.

(** tests/00-testsuite/01-fail, which the file expects to exit with 1. *)
Definition fail_test : test := test_create (lit "tests/00-testsuite/01-fail") TEST_TYPE_TEST.

Definition fail_files (p : bytes) : option (option bytes) := Some (Some testsuite_conf).

Definition fail_launch (fork : Z) : launch :=
  Launch (replicate CONF_BUF NUL) id (Some (5, 6)) fork 0 (Timeval 100 0).

Definition fail_conf : conf :=
  match conf_spec (lit "01-fail") testsuite_conf (conf_of fail_test) with Ok c => c | _ => conf_of fail_test end.

Lemma fail_configured fork : configured fail_files (l_stack (fail_launch fork)) fail_test fail_conf.
Proof.
  apply (configured_by fail_files _ fail_test (lit "tests/00-testsuite") (lit "01-fail") testsuite_conf []
    (replicate (CONF_BUF - length testsuite_conf - 1) NUL)).
  - reflexivity.
  - nul_free_lit.
  - apply (bool_decide_unpack _). vm_compute. exact I.
  - apply (bool_decide_unpack _). vm_compute. exact I.
  - reflexivity.
  - apply (bool_decide_unpack _). vm_compute. exact I.
  - nul_free_lit.
  - vm_compute. reflexivity.
  - vm_compute. reflexivity.
Defined.

Lemma fail_launched : launched (fail_launch 77).
Proof. split; [done|by exists 5, 6|done|done]. Defined.

(** It exits with 1 in the second round. *)
Definition fail_ticks : list tick := [sample_tick 0 0 0 100 sample_read; sample_exit CLD_EXITED 1].

Lemma fail_exits : exits fail_ticks (sample_exit CLD_EXITED 1).
Proof.
  split; [|apply sample_exited]. exists [sample_tick 0 0 0 100 sample_read], [].
  split_and!; [done|by repeat constructor|repeat constructor; apply sample_ans_ok; by right|].
  unfold bytes_read, MAX_OUTPUT. vm_compute. reflexivity.
Defined.

Lemma caps_ok : cap_wf (caps, 0).
Proof. apply caps_wf_caps. Defined.

Lemma run_test_verdict_witness :
  c_rc fail_conf = 1 ∧ conf_verdict fail_conf false (Siginfo 77 CLD_EXITED 1) = Some true ∧
  ∃ rc t' s' d'' a, run_test fail_files true (fail_launch 77) fail_ticks fail_test (caps, 0) dmesg_init
                      = Ok (Some rc, t', s', d'', a) ∧
    cap_wf s' ∧ cap_evolves (caps, 0) s' ∧ path t' = path fail_test ∧ ignored t' = c_ignored fail_conf ∧
    ((c_disabled fail_conf = 0 ∧ Forall (holds s') (c_caps fail_conf) ∧
      result t' = TEST_PASSED ∧ rc = 0) ∨
     (¬ (c_disabled fail_conf = 0 ∧ Forall (holds s') (c_caps fail_conf)) ∧ result t' = TEST_SKIPPED ∧ rc = 0)).
Proof.
  split; [vm_compute; reflexivity|]. split; [vm_compute; reflexivity|].
  apply (run_test_verdict fail_files true (fail_launch 77) fail_ticks (sample_exit CLD_EXITED 1) fail_test
    fail_conf (caps, 0) dmesg_init 0 (Dmesg (Some (resize 8 NUL (lit "x"))) 8) []).
  - apply test_create_fresh.
  - apply fail_configured.
  - apply caps_ok.
  - apply fail_launched.
  - apply fail_exits.
  - vm_compute. reflexivity.
Defined.

Lemma run_test_launch_error_witness :
  ∃ rc t' s' a, run_test fail_files true (fail_launch (-1)) [] fail_test (caps, 0) dmesg_init
                  = Ok (Some rc, t', s', dmesg_init, a) ∧ path t' = path fail_test ∧
    ((c_disabled fail_conf = 0 ∧ Forall (holds s') (c_caps fail_conf) ∧
      rc = -1 ∧ result t' = TEST_NOTRUN ∧ last a = Some (Perror "fork") ∧
      (∀ p sig, Kill p sig ∉ a) ∧ (∀ rd wr, Some (5, 6) = Some (rd, wr) → Close rd ∈ a → rd = wr)) ∨
     (¬ (c_disabled fail_conf = 0 ∧ Forall (holds s') (c_caps fail_conf)) ∧ rc = 0 ∧ result t' = TEST_SKIPPED)).
Proof.
  apply (run_test_launch_error fail_files true (fail_launch (-1)) [] fail_test fail_conf (caps, 0) dmesg_init "fork").
  - apply test_create_fresh.
  - apply fail_configured.
  - apply caps_ok.
  - reflexivity.
  - reflexivity.
Defined.

(** The failing test of the suite twice, and the log of 8 bytes. *)
Definition fail_suite : list (test * test_env) :=
  [(fail_test, TestEnv (fail_launch 77) fail_ticks); (fail_test, TestEnv (fail_launch 78) fail_ticks)].

Lemma sample_klog_ok : klog_ok 8 sample_klog.
Proof. split; [done|by vm_compute|by vm_compute|by exists (replicate 7 NUL)]. Defined.

Lemma fail_suite_ready : Forall (ready fail_files 8) fail_suite.
Proof.
  repeat constructor; try done; try (by eexists; apply fail_configured); try (by exists 5, 6).
  all: exists (sample_exit CLD_EXITED 1); split; [apply fail_exits|apply sample_klog_ok].
Defined.

Lemma suite_finishes_witness :
  ∃ dm d1 a1 rc ts s' d' a, dmesg_check dmesg_init sample_klog = Ok (dm, d1, a1) ∧
    run_tests fail_files true true fail_suite sample_start (caps, 0) dmesg_init = Ok (Some rc, ts, s', d', a) ∧
    ((dm ≠ 0 ∧ rc = -1 ∧ ts = map fst fail_suite) ∨ (dm = 0 ∧ suite fail_files true fail_suite (caps, 0) d1 ts rc s' d')).
Proof.
  apply (suite_finishes fail_files 8 true true fail_suite sample_start (caps, 0) dmesg_init).
  - apply fail_suite_ready.
  - apply caps_ok.
  - by left.
  - apply sample_klog_ok.
  - by split; [left|].
Defined.

(** ** The runner's own tests *)

(** The kernel of a user, for process 77. *)
Definition uid_kernel (uid : Z) (l : list event) (c : call) : ans :=
  Ans (match c with c_getuid => uid | c_getpid => 77 | _ => 0 end) 0 0 (Statbuf 0 0 0 0 0) [] (0, 0) 0 [].

(** 02-root as root, which exits with 0, and as user 1000. *)
Lemma self_tests_pass_witness :
  (∃ t' s' d'' a, run_test fail_files true (fail_launch 77) [sample_exit CLD_EXITED 0]
      (test_create (lit "tests/00-testsuite/02-root") TEST_TYPE_TEST) (caps, 0) dmesg_init = Ok (Some 0, t', s', d'', a) ∧
      result t' = TEST_PASSED ∧ ignored t' = 1) ∧
  ∃ t' s' d'' a, run_test fail_files true (fail_launch 77) [sample_exit CLD_EXITED 1]
      (test_create (lit "tests/00-testsuite/02-root") TEST_TYPE_TEST) (caps, 1000) dmesg_init = Ok (Some 0, t', s', d'', a) ∧
      result t' = TEST_SKIPPED ∧ ignored t' = 1.
Proof.
  assert (∀ st, exits [sample_exit CLD_EXITED st] (sample_exit CLD_EXITED st)) as Hx.
  { intros st. split; [|apply sample_exited]. exists [], []. by split_and!. }
  split.
  - apply (self_tests_pass (uid_kernel 0) fail_files true (fail_launch 77) _ (sample_exit CLD_EXITED 0) false 77 0 dmesg_init
      (Dmesg (Some (resize 8 NUL (lit "x"))) 8) [] (lit "tests/00-testsuite") 2 (lit "02-root") (testsuite_02_root (uid_kernel 0))
      TEST_PASSED (replicate (CONF_BUF - length testsuite_conf - 1) NUL)); try done; [nul_free_lit|apply fail_launched].
  - apply (self_tests_pass (uid_kernel 1000) fail_files true (fail_launch 77) _ (sample_exit CLD_EXITED 1) false 77 1000 dmesg_init
      (Dmesg (Some (resize 8 NUL (lit "x"))) 8) [] (lit "tests/00-testsuite") 2 (lit "02-root") (testsuite_02_root (uid_kernel 1000))
      TEST_SKIPPED (replicate (CONF_BUF - length testsuite_conf - 1) NUL)); try done; [nul_free_lit|apply fail_launched].
Defined.

(** ** [main] *)

Definition run_main (args : list bytes) : res (option Z * list action) :=
  main sample_opendir sample_stat no_config 3 (lit "run-tests") args sample_env
    sample_start sample_start (caps, 0).

Definition main_actions (args : list bytes) : list action :=
  match run_main args with Ok (_, a) => a | _ => [] end.

Lemma run_main_ok : run_main [lit "t"] = Ok (Some 0, main_actions [lit "t"]).
Proof. vm_compute. reflexivity. Defined.

Lemma main_success_witness :
  ∃ ts, Stdout (print_summary ts) ∈ main_actions [lit "t"] ∧ n_fail (count_tests ts) = 0.
Proof.
  apply (main_success sample_opendir sample_stat no_config 3 (lit "run-tests") [lit "t"] [lit "t"]
    sample_env sample_start sample_start (caps, 0) (Settings false false true) _
    eq_refl eq_refl run_main_ok).
Defined.

(** [run-tests -ct dir --bench dir2]. *)
Definition sample_words : list word :=
  [Flags (lit "ct"); Operand (lit "dir"); Long (lit "bench"); Operand (lit "dir2")].

Lemma sample_words_ok : Forall word_ok sample_words.
Proof.
  repeat constructor; try done; unfold optstring, settable; apply (bool_decide_unpack _); vm_compute; done.
Qed.

Lemma options_any_order_witness :
  parse_options (lit "run-tests") [lit "-ct"; lit "dir"; lit "--bench"; lit "dir2"] (caps, 0)
    = Ok (inl (Settings true true false, [lit "dir"; lit "dir2"])) ∧
  ∃ msg, parse_options (lit "run-tests") [lit "-ct"; lit "dir"; lit "--bench"; lit "dir2"; lit "--c"] (caps, 0)
    = Ok (inr (EXIT_FAILURE, [Stderr msg; usage (lit "run-tests")])).
Proof.
  destruct (options_any_order (lit "run-tests") (caps, 0) sample_words [] sample_words_ok) as (E & _ & _ & Hbad).
  split; [exact E|]. apply (Hbad (lit "--c")). split; [discriminate|exact I].
Defined.

(** Every test of the sample tree exits with 1. *)
Definition failing_env (p : bytes) : test_env := TestEnv (fail_launch 77) fail_ticks.

Lemma sample_tree_ready p :
  p ∈ tests_below (lit "t") sample_tree → ready no_config 8 (test_create p TEST_TYPE_TEST, failing_env p).
Proof.
  intros Hp. split; [apply test_create_fresh|]. split; [|split; [apply fail_launched|]].
  - exists (conf_of (test_create p TEST_TYPE_TEST)).
    change (tests_below (lit "t") sample_tree) with [lit "t/02-b"; lit "t/sub/01-x"; lit "t/01-a"] in Hp.
    rewrite !elem_of_cons in Hp. destruct Hp as [->|[->|[->|H%elem_of_nil]]]; [..|done].
    + apply (configured_not _ _ _ (lit "t") (lit "02-b")); [done|nul_free_lit|by apply (bool_decide_unpack _)|done].
    + apply (configured_not _ _ _ (lit "t/sub") (lit "01-x")); [done|nul_free_lit|by apply (bool_decide_unpack _)|done].
    + apply (configured_not _ _ _ (lit "t") (lit "01-a")); [done|nul_free_lit|by apply (bool_decide_unpack _)|done].
  - exists (sample_exit CLD_EXITED 1). split; [apply fail_exits|apply sample_klog_ok].
Defined.

Lemma main_runs_the_tree_witness :
  ∃ rc a l ts bad d a0,
    main sample_opendir sample_stat no_config 2 (lit "run-tests") [lit "--continue"; lit "t"] failing_env
      sample_start sample_start (caps, 0) = Ok (Some rc, a ++ [Stdout (print_summary ts)]) ∧
    (rc = 0 ∨ rc = -1) ∧
    map path l ≡ₚ tests_below (lit "t") sample_tree ∧ StronglySorted test_le l ∧
    dmesg_check dmesg_init sample_klog = Ok (bad, d, a0) ∧
    ((bad ≠ 0 ∧ rc = -1 ∧ ts = l) ∨
     (bad = 0 ∧
      (∃ st' d', suite no_config true (map (λ t, (t, failing_env (path t))) l) (caps, 0) d ts rc st' d') ∧
      (rc = 0 ↔ Forall (λ t, result t ≠ TEST_FAILED) ts))).
Proof.
  apply (main_runs_the_tree sample_opendir sample_stat no_config 8 (lit "run-tests")
    [Long (lit "continue"); Operand (lit "t")] (lit "t") sample_tree 2 failing_env sample_start sample_start (caps, 0)).
  - repeat constructor; try done; unfold settable; apply (bool_decide_unpack _); vm_compute; done.
  - reflexivity.
  - reflexivity.
  - vm_compute. repeat split; intros Hh; exact (Hh eq_refl).
  - vm_compute. lia.
  - apply sample_tree_ready.
  - apply caps_ok.
  - apply sample_klog_ok.
  - by split; [left|].
Defined.

Definition found : list test :=
  match find_tests sample_opendir sample_stat 3 (lit "t") TEST_TYPE_TEST with
  | Ok (Some ts) => ts | _ => [] end.

Definition suite_result :=
  run_tests no_config false true (map (λ t, (t, sample_env (path t))) found) sample_start
    (caps, 0) dmesg_init.

Lemma main_without_benchmarks_witness : run_main [lit "t"; lit "--bench"] = UB.
Proof.
  destruct suite_result as [[[[[r ts] st] d] a]| |] eqn:E; [|vm_compute in E; discriminate..].
  assert (r = Some 0) as -> by (vm_compute in E; congruence).
  eapply (main_without_benchmarks sample_opendir sample_stat no_config 2 (lit "run-tests")
    [lit "t"; lit "--bench"] [lit "t"] sample_env sample_start sample_start (caps, 0)
    (Settings false true true) found (lit "t") ts st d a).
  - vm_compute. reflexivity.
  - reflexivity.
  - reflexivity.
  - vm_compute. reflexivity.
  - exact E.
  - vm_compute. reflexivity.
Defined.

(** ** Types *)

Definition fail_ran := run_test fail_files true (fail_launch 77) fail_ticks fail_test (caps, 0) dmesg_init.

Lemma run_test_typed_witness :
  match fail_ran with Ok (_, t, _, _, _) => expected_rc t = 1 ∧ test_typed CONF_BUF t | _ => False end.
Proof.
  destruct fail_ran as [[[[[rc t] s] d] a]| |] eqn:E; [|vm_compute in E; discriminate E..].
  split; [vm_compute in E; by injection E as _ <- _ _ _|].
  apply (run_test_typed fail_files true (fail_launch 77) fail_ticks fail_test (caps, 0) dmesg_init rc t s d a E);
    [apply length_replicate|apply test_create_typed].
Defined.
